(** * career_village_entities: the object model and its linking phase

    A shallow embedding of [career_village_entities/__init__.py].

    Representation.  A Python object is an identity plus attributes.  An
    entity's identity is its class together with its position in the
    collection that owns it ([self.tags], [self.students], ...; for
    schools, the order in which [link] allocates them).  The scalar
    attributes, which nothing changes after construction, are a record per
    class.  The attributes that [link] assigns or appends to (the
    relationship collections and the references [author], [question] and
    [recipient]) live in one store indexed by object and attribute name,
    the flattened instance dictionaries; reading an attribute falls back on
    the class-level attributes, as in Python.

    Exceptions are values: a method is a function from the state to a
    result and the state in which it stopped. *)

From stdpp Require Import gmap strings list fin_maps.
From stdpp Require Import sorting.
From Stdlib Require Import ZArith.

Local Open Scope string_scope.
Local Open Scope list_scope.

(** ** Objects, values, exceptions *)

Inductive kind :=
  | KTag | KGroup | KSchool | KStudent | KProfessional
  | KQuestion | KAnswer | KEmail.

#[export] Instance kind_eq_dec : EqDecision kind.
Proof. solve_decision. Defined.

Definition kind_to_nat (k : kind) : nat :=
  match k with
  | KTag => 0 | KGroup => 1 | KSchool => 2 | KStudent => 3
  | KProfessional => 4 | KQuestion => 5 | KAnswer => 6 | KEmail => 7
  end.

Definition kind_of_nat (n : nat) : kind :=
  match n with
  | 0 => KTag | 1 => KGroup | 2 => KSchool | 3 => KStudent
  | 4 => KProfessional | 5 => KQuestion | 6 => KAnswer | _ => KEmail
  end.

#[export] Instance kind_countable : Countable kind.
Proof.
  apply (inj_countable' kind_to_nat kind_of_nat).
  by intros [].
Defined.

(** A reference to an entity: its class and its position. *)
Abbreviation ref := (kind * nat)%type.

(** [isinstance(u, BasePerson)]. *)
Definition is_user (o : ref) : bool :=
  match o.1 with KStudent | KProfessional => true | _ => false end.

(** What a relationship attribute holds.  [ScList] and [ScFrozenList] are
    the scalaps collections; a collection belongs to one attribute of one
    object and is never shared, so it is kept by value. *)
Inductive value :=
  | PyNone
  | Obj (o : ref)
  | ScList (l : list ref)
  | ScFrozenList (l : list ref).

#[export] Instance value_eq_dec : EqDecision value.
Proof. solve_decision. Defined.

Inductive pykey :=
  | KeyStr (s : string)
  | KeyInt (z : Z).

Inductive exn :=
  | KeyError (k : pykey)
  | ValueError (s : string)
  | AttributeError (o : ref) (a : string)
  | RuntimeError (msg : string)
  | FileNotFoundError (path : string)
  | DuplicateKeyError (k : pykey)
  | OverlapError.

Inductive result (A : Type) :=
  | Ok (a : A)
  | Raise (e : exn).
Arguments Ok {A} a.
Arguments Raise {A} e.

Definition is_Ok {A} (r : result A) : bool :=
  match r with Ok _ => true | Raise _ => false end.

(** ** Scalar attributes, class by class *)

Record datetime := {
  year : Z; month : Z; day : Z; hour : Z; minute : Z; second : Z
}.

(** The attributes a constructor binds to a fresh collection, and the
    attributes a class defines for all its instances. *)
Abbreviation attr_list := (list (string * value)).

Module BaseHasUsers.
Definition init : attr_list := [("users", ScList [])].
End BaseHasUsers.

Module Tag.
Record t := { tags_id : Z; name : string }.
Definition init : attr_list := BaseHasUsers.init ++ [("questions", ScList [])].
End Tag.

Module Group.
Record t := { groups_id : string; group_type : string }.
Definition init : attr_list := BaseHasUsers.init.
End Group.

Module School.
Record t := { school_id : Z }.
Definition init : attr_list := BaseHasUsers.init.
End School.

Module BasePerson.
Record t := {
  user_id : string;
  location : option string;
  data_joined : datetime
}.
Definition init : attr_list :=
  [("tags", ScList []); ("groups", ScList []); ("schools", ScList []);
   ("questions", ScList []); ("answers", ScList [])].
End BasePerson.

Module Student.
Record t := { base : BasePerson.t }.
Definition new (students_id : string) (location : option string)
    (date_joined : datetime) : t :=
  {| base := BasePerson.Build_t students_id location date_joined |}.
(** The property [students_id]. *)
Definition students_id (s : t) : string := BasePerson.user_id (base s).
Definition init : attr_list := BasePerson.init.
End Student.

Module Professional.
Record t := {
  base : BasePerson.t;
  professionals_id : string;
  industry : option string;
  headline : option string
}.
Definition new (professionals_id : string) (location industry headline : option string)
    (date_joined : datetime) : t :=
  {| base := BasePerson.Build_t professionals_id location date_joined;
     professionals_id := professionals_id;
     industry := industry;
     headline := headline |}.
Definition init : attr_list := BasePerson.init ++ [("emails", ScList [])].
End Professional.

Module Question.
Record t := {
  questions_id : string;
  author_id : string;
  date_added : datetime;
  title : string;
  body : string
}.
Definition init : attr_list :=
  [("tags", ScList []); ("emails", ScList []); ("answers", ScList [])].
(** [author = None  # Changed in instances when linked] *)
Definition class_attrs : attr_list := [("author", PyNone)].
End Question.

Module Answer.
Record t := {
  answers_id : string;
  author_id : string;
  question_id : string;
  date_added : datetime;
  body : string
}.
Definition init : attr_list := [].
Definition class_attrs : attr_list := [("author", PyNone); ("question", PyNone)].
End Answer.

Module Email.
Record t := {
  emails_id : string;
  recipient_id : string;
  date_sent : datetime;
  frequency_level : string
}.
Definition init : attr_list := [("questions", ScList [])].
Definition class_attrs : attr_list := [("recipient", PyNone)].
End Email.

Definition init_attrs (k : kind) : attr_list :=
  match k with
  | KTag => Tag.init
  | KGroup => Group.init
  | KSchool => School.init
  | KStudent => Student.init
  | KProfessional => Professional.init
  | KQuestion => Question.init
  | KAnswer => Answer.init
  | KEmail => Email.init
  end.

Definition class_attrs (k : kind) : attr_list :=
  match k with
  | KQuestion => Question.class_attrs
  | KAnswer => Answer.class_attrs
  | KEmail => Email.class_attrs
  | _ => []
  end.

Fixpoint assoc (a : string) (l : attr_list) : option value :=
  match l with
  | [] => None
  | (b, v) :: l' => if decide (a = b) then Some v else assoc a l'
  end.

(** ** The graph and the heap it lives in *)

Record CareerVillage := {
  directory_path : string;
  tags : list Tag.t;
  groups : list Group.t;
  students : list Student.t;
  professionals : list Professional.t;
  questions : list Question.t;
  answers : list Answer.t;
  emails : list Email.t;
  linked : bool;
  (** [self.schools], an attribute only [link] binds *)
  schools : option (list ref);
  (** the [School] objects allocated so far, in allocation order *)
  school_heap : list School.t;
  (** the instance attributes holding relationships *)
  attrs : gmap (ref * string) value
}.

Definition set_linked (b : bool) (s : CareerVillage) : CareerVillage :=
  {| directory_path := directory_path s; tags := tags s; groups := groups s;
     students := students s; professionals := professionals s;
     questions := questions s; answers := answers s; emails := emails s;
     linked := b; schools := schools s; school_heap := school_heap s;
     attrs := attrs s |}.

Definition set_schools (v : option (list ref)) (s : CareerVillage) : CareerVillage :=
  {| directory_path := directory_path s; tags := tags s; groups := groups s;
     students := students s; professionals := professionals s;
     questions := questions s; answers := answers s; emails := emails s;
     linked := linked s; schools := v; school_heap := school_heap s;
     attrs := attrs s |}.

Definition set_school_heap (h : list School.t) (s : CareerVillage) : CareerVillage :=
  {| directory_path := directory_path s; tags := tags s; groups := groups s;
     students := students s; professionals := professionals s;
     questions := questions s; answers := answers s; emails := emails s;
     linked := linked s; schools := schools s; school_heap := h;
     attrs := attrs s |}.

Definition set_attrs (m : gmap (ref * string) value) (s : CareerVillage) : CareerVillage :=
  {| directory_path := directory_path s; tags := tags s; groups := groups s;
     students := students s; professionals := professionals s;
     questions := questions s; answers := answers s; emails := emails s;
     linked := linked s; schools := schools s; school_heap := school_heap s;
     attrs := m |}.

(** The instance attributes of a freshly constructed object. *)
Definition bind_attrs (o : ref) (l : attr_list)
    (m : gmap (ref * string) value) : gmap (ref * string) value :=
  foldr (λ av m, <[(o, av.1) := av.2]> m) m l.

(** Constructing the [n] objects of class [k] that a table holds. *)
Definition construct (k : kind) (n : nat)
    (m : gmap (ref * string) value) : gmap (ref * string) value :=
  foldr (λ i m, bind_attrs (k, i) (init_attrs k) m) m (seq 0 n).

(** [CareerVillage.__init__], applied to the freshly loaded collections. *)
Definition CareerVillage_new (directory_path : string)
    (tags : list Tag.t) (groups : list Group.t)
    (students : list Student.t) (professionals : list Professional.t)
    (questions : list Question.t) (answers : list Answer.t)
    (emails : list Email.t) : CareerVillage :=
  {| directory_path := directory_path;
     tags := tags; groups := groups;
     students := students; professionals := professionals;
     questions := questions; answers := answers; emails := emails;
     linked := false;
     schools := None;
     school_heap := [];
     attrs :=
       construct KTag (length tags)
         (construct KGroup (length groups)
           (construct KStudent (length students)
             (construct KProfessional (length professionals)
               (construct KQuestion (length questions)
                 (construct KAnswer (length answers)
                   (construct KEmail (length emails) ∅)))))) |}.

(** ** Methods: state and exceptions *)

Definition M (A : Type) : Type := CareerVillage → result A * CareerVillage.

#[export] Instance M_ret : MRet M := λ A a s, (Ok a, s).
#[export] Instance M_bind : MBind M := λ A B f m s,
  match m s with
  | (Ok a, s') => f a s'
  | (Raise e, s') => (Raise e, s')
  end.

Definition raise {A} (e : exn) : M A := λ s, (Raise e, s).
Definition gets {A} (f : CareerVillage → A) : M A := λ s, (Ok (f s), s).
Definition modify (f : CareerVillage → CareerVillage) : M unit := λ s, (Ok tt, f s).
Definition lift {A} (r : result A) : M A := λ s, (r, s).

(** [for x in l: body(x)] *)
Fixpoint for_each {A} (l : list A) (body : A → M unit) : M unit :=
  match l with
  | [] => mret tt
  | x :: l' => body x;; for_each l' body
  end.

(** A loop that also updates a local variable. *)
Fixpoint for_fold {A B} (l : list A) (body : B → A → M B) (b : B) : M B :=
  match l with
  | [] => mret b
  | x :: l' => b' ← body b x; for_fold l' body b'
  end.

(** Attribute lookup: the instance first, then its class. *)
Definition getattr (o : ref) (a : string) : M value := λ s,
  match attrs s !! (o, a) with
  | Some v => (Ok v, s)
  | None =>
      match assoc a (class_attrs o.1) with
      | Some v => (Ok v, s)
      | None => (Raise (AttributeError o a), s)
      end
  end.

Definition setattr (o : ref) (a : string) (v : value) : M unit :=
  modify (λ s, set_attrs (<[(o, a) := v]> (attrs s)) s).

(** Modelled from the spec: scalaps, which provides [ScList] and
    [ScFrozenList], is not part of this repository.  [ScList.append] adds
    at the end, in place; a frozen list is immutable and refuses further
    appends (section 3), which [None] renders. *)
Definition sc_append (v : value) (x : ref) : option value :=
  match v with
  | ScList l => Some (ScList (l ++ [x]))
  | _ => None
  end.

(** [o.a.append(x)] *)
Definition append (o : ref) (a : string) (x : ref) : M unit :=
  v ← getattr o a;
  match sc_append v x with
  | Some v' => setattr o a v'
  | None => raise (AttributeError o "append")
  end.

(** Modelled from the spec: [to_frozen_list] of scalaps, which is not part
    of this repository, gives the immutable list of the same elements
    (section 4.4); what is not a collection has no such method. *)
Definition to_frozen_list (o : ref) (v : value) : result value :=
  match v with
  | ScList l | ScFrozenList l => Ok (ScFrozenList l)
  | _ => Raise (AttributeError o "to_frozen_list")
  end.

(** [o.a = o.a.to_frozen_list()] *)
Definition freeze_attr (o : ref) (a : string) : M unit :=
  v ← getattr o a;
  fl ← lift (to_frozen_list o v);
  setattr o a fl.

#[export] Instance result_ret : MRet result := λ A a, Ok a.
#[export] Instance result_bind : MBind result := λ A B f r,
  match r with
  | Ok a => f a
  | Raise e => Raise e
  end.

(** ** Dictionaries and indexes *)

Class PyKey (K : Type) := to_pykey : K → pykey.
#[export] Instance string_pykey : PyKey string := KeyStr.
#[export] Instance Z_pykey : PyKey Z := KeyInt.

(** [d[k]] *)
Definition getitem `{Countable K, PyKey K} {V} (d : gmap K V) (k : K) : result V :=
  match d !! k with
  | Some v => Ok v
  | None => Raise (KeyError (to_pykey k))
  end.

(** The objects of a collection, each with its identity. *)
Definition enumerate {X} (k : kind) (l : list X) : list (ref * X) :=
  imap (λ i x, ((k, i), x)) l.

(** Modelled from the spec: [key_by] of scalaps, which is not part of this
    repository, is the [build_index] of section 4.2: the objects under
    their keys, and a failure when two objects have the same key.
    [key_by_from] is its loop, [acc] the index so far. *)
Fixpoint key_by_from `{Countable K, PyKey K} {X} (key : X → K)
    (objs : list (ref * X)) (acc : gmap K ref) : result (gmap K ref) :=
  match objs with
  | [] => Ok acc
  | (o, x) :: objs' =>
      match acc !! key x with
      | Some _ => Raise (DuplicateKeyError (to_pykey (key x)))
      | None => key_by_from key objs' (<[key x := o]> acc)
      end
  end.

(** Modelled from the spec: [seq.key_by(attribute)], as above. *)
Definition key_by `{Countable K, PyKey K} {X} (key : X → K)
    (objs : list (ref * X)) : result (gmap K ref) :=
  key_by_from key objs ∅.

(** Modelled from the spec: [a.union(b, error_on_overlap=True)] of scalaps,
    which is not part of this repository, is the [merge_disjoint] of
    section 4.2: the union, and a failure when a key is in both. *)
Definition union_error_on_overlap `{Countable K} {V}
    (a b : gmap K V) : result (gmap K V) :=
  if decide (a ##ₘ b) then Ok (a ∪ b) else Raise OverlapError.

(** [schools_by_id]: a dict whose order of insertion [values()] shows. *)
Abbreviation odict := (list (Z * ref)).

Fixpoint odict_lookup (d : odict) (k : Z) : option ref :=
  match d with
  | [] => None
  | (k', v) :: d' => if decide (k = k') then Some v else odict_lookup d' k
  end.

Definition odict_values (d : odict) : list ref := d.*2.

(** ** Reading a table *)

(** The tables on disk, as [csv.reader] yields them: rows of cells, the
    header first. *)
Abbreviation FileSystem := (gmap string (list (list string))).

Abbreviation row := (gmap string string).

(** [dict(zip(header, cells))]: a later duplicate of a column wins. *)
Definition dict_zip (header cells : list string) : row :=
  foldl (λ d kv, <[kv.1 := kv.2]> d) ∅ (zip header cells).

Definition read_csv (fs : FileSystem) (path : string) : result (list row) :=
  match fs !! path with
  | None => Raise (FileNotFoundError path)
  | Some [] => Raise (RuntimeError "generator raised StopIteration")
  | Some (header :: rows) => Ok (dict_zip header <$> rows)
  end.

(** ** Freezing *)

Module Freeze.
Definition BaseHasUsers (o : ref) : M unit :=
  freeze_attr o "users".

Definition Tag (o : ref) : M unit :=
  BaseHasUsers o;;
  freeze_attr o "questions".

Definition BasePerson (o : ref) : M unit :=
  freeze_attr o "tags";;
  freeze_attr o "groups";;
  freeze_attr o "schools";;
  freeze_attr o "questions";;
  freeze_attr o "answers".

Definition Professional (o : ref) : M unit :=
  BasePerson o;;
  freeze_attr o "emails".

Definition Question (o : ref) : M unit :=
  freeze_attr o "tags";;
  freeze_attr o "emails";;
  freeze_attr o "answers".

Definition Answer (o : ref) : M unit := mret tt.

Definition Email (o : ref) : M unit :=
  freeze_attr o "questions".
End Freeze.

(** [x._freeze()], dispatched on the class of [x]. *)
Definition _freeze (o : ref) : M unit :=
  match o.1 with
  | KTag => Freeze.Tag o
  | KGroup | KSchool => Freeze.BaseHasUsers o
  | KStudent => Freeze.BasePerson o
  | KProfessional => Freeze.Professional o
  | KQuestion => Freeze.Question o
  | KAnswer => Freeze.Answer o
  | KEmail => Freeze.Email o
  end.

(** [ScFrozenList(x._freeze() for x in l)]: the objects are frozen in
    place, in order, and the new list holds the same objects. *)
Definition freeze_list (l : list ref) : M (list ref) :=
  for_each l _freeze;;
  mret l.

(** ** Saving *)

(** [save]: the pickles on disk are snapshots of the graph. *)
Definition save (self : CareerVillage) (path : string)
    (disk : gmap string CareerVillage) : result unit * gmap string CareerVillage :=
  if linked self
  then (Raise (RuntimeError "Can't pickle a linked CareerVillage"), disk)
  else (Ok tt, <[path := self]> disk).

(** ** Linking *)

Section Linker.

(** [int(s)] on a cell of a table: [None] where Python raises
    [ValueError]. *)
Variable int : string → option Z.

Definition py_int (s : string) : result Z :=
  match int s with
  | Some z => Ok z
  | None => Raise (ValueError s)
  end.

(** [users_by_id.get(k, None)], as the value an attribute then holds. *)
Definition of_option (u : option ref) : value :=
  match u with
  | Some o => Obj o
  | None => PyNone
  end.

(** [School(school_id)]: a new object, with the attributes its
    constructor binds. *)
Definition School_new (school_id : Z) : M ref := λ s,
  let o := (KSchool, length (school_heap s)) in
  (Ok o,
   set_attrs (bind_attrs o School.init (attrs s))
     (set_school_heap (school_heap s ++ [School.Build_t school_id]) s)).

(** One row of [tag_users.csv]. *)
Definition link_tag_user (tags_by_id : gmap Z ref) (users_by_id : gmap string ref)
    (tag_user : row) : M unit :=
  tag_id ← lift (getitem tag_user "tag_users_tag_id" ≫= py_int);
  tag ← lift (getitem tags_by_id tag_id);
  user ← lift (getitem tag_user "tag_users_user_id" ≫= getitem users_by_id);
  append tag "users" user;;
  append user "tags" tag.

(** One row of [group_memberships.csv]. *)
Definition link_group_membership (groups_by_id users_by_id : gmap string ref)
    (group_membership : row) : M unit :=
  group ← lift (getitem group_membership "group_memberships_group_id"
                ≫= getitem groups_by_id);
  user ← lift (getitem group_membership "group_memberships_user_id"
               ≫= getitem users_by_id);
  append group "users" user;;
  append user "groups" group.

(** One row of [school_memberships.csv]; [schools_by_id] is the loop's
    local dictionary. *)
Definition link_school_membership (users_by_id : gmap string ref)
    (schools_by_id : odict) (school_membership : row) : M odict :=
  school_id ← lift (getitem school_membership "school_memberships_school_id" ≫= py_int);
  '(school, schools_by_id) ←
    match odict_lookup schools_by_id school_id with
    | Some school => mret (school, schools_by_id)
    | None =>
        school ← School_new school_id;
        mret (school, schools_by_id ++ [(school_id, school)])
    end;
  user ← lift (getitem school_membership "school_memberships_user_id"
               ≫= getitem users_by_id);
  append school "users" user;;
  append user "schools" school;;
  mret schools_by_id.

(** One row of [tag_questions.csv]. *)
Definition link_tag_question (tags_by_id : gmap Z ref) (questions_by_id : gmap string ref)
    (tag_question : row) : M unit :=
  tag_id ← lift (getitem tag_question "tag_questions_tag_id" ≫= py_int);
  tag ← lift (getitem tags_by_id tag_id);
  question ← lift (getitem tag_question "tag_questions_question_id"
                   ≫= getitem questions_by_id);
  append question "tags" tag;;
  append tag "questions" question.

(** One question: its author, when there is one.  A user object has
    neither [__bool__] nor [__len__], so [if question.author] holds
    exactly when the lookup found a user. *)
Definition link_question_author (users_by_id : gmap string ref)
    (question : ref * Question.t) : M unit :=
  let author := users_by_id !! Question.author_id question.2 in
  setattr question.1 "author" (of_option author);;
  match author with
  | Some user => append user "questions" question.1
  | None => mret tt
  end.

(** One answer: its author, when there is one, and its question. *)
Definition link_answer (users_by_id questions_by_id : gmap string ref)
    (answer : ref * Answer.t) : M unit :=
  let author := users_by_id !! Answer.author_id answer.2 in
  setattr answer.1 "author" (of_option author);;
  match author with
  | Some user => append user "answers" answer.1
  | None => mret tt
  end;;
  question ← lift (getitem questions_by_id (Answer.question_id answer.2));
  setattr answer.1 "question" (Obj question);;
  append question "answers" answer.1.

(** One email: its recipient. *)
Definition link_email_recipient (professionals_by_id : gmap string ref)
    (email : ref * Email.t) : M unit :=
  professional ← lift (getitem professionals_by_id (Email.recipient_id email.2));
  append professional "emails" email.1;;
  setattr email.1 "recipient" (Obj professional).

(** One row of [matches.csv]. *)
Definition link_match (emails_by_id questions_by_id : gmap string ref)
    (match_ : row) : M unit :=
  email ← lift (getitem match_ "matches_email_id" ≫= getitem emails_by_id);
  question ← lift (getitem match_ "matches_question_id" ≫= getitem questions_by_id);
  append email "questions" question;;
  append question "emails" email.

(** [self.xs.key_by(attribute)] *)
Definition index `{Countable K, PyKey K} {X} (xs : CareerVillage → list X)
    (k : kind) (key : X → K) : M (gmap K ref) :=
  l ← gets xs;
  lift (key_by key (enumerate k l)).

(** [for x in self.xs: body(x)] *)
Definition for_each_in {X} (xs : CareerVillage → list X) (k : kind)
    (body : ref * X → M unit) : M unit :=
  l ← gets xs;
  for_each (enumerate k l) body.

(** [self.xs = freeze_list(self.xs)]: the collection keeps its objects. *)
Definition freeze_collection {X} (k : kind) (xs : CareerVillage → list X) : M unit :=
  l ← gets xs;
  freeze_list ((enumerate k l).*1);;
  mret tt.

(** The last block of [link]. *)
Definition freezing (schools_by_id : odict) : M unit :=
  freeze_collection KTag tags;;
  freeze_collection KGroup groups;;
  frozen ← freeze_list (odict_values schools_by_id);
  modify (set_schools (Some frozen));;
  freeze_collection KStudent students;;
  freeze_collection KProfessional professionals;;
  freeze_collection KQuestion questions;;
  freeze_collection KAnswer answers;;
  freeze_collection KEmail emails.

Definition link (fs : FileSystem) : M unit :=
  is_linked ← gets linked;
  if (is_linked : bool) then mret tt else
  modify (set_linked true);;
  dir ← gets directory_path;

  students_by_id ← index students KStudent Student.students_id;
  professionals_by_id ← index professionals KProfessional Professional.professionals_id;
  users_by_id ← lift (union_error_on_overlap students_by_id professionals_by_id);

  (* linking tags with users *)
  tags_by_id ← index tags KTag Tag.tags_id;
  rows ← lift (read_csv fs (dir +:+ "/tag_users.csv"));
  for_each rows (link_tag_user tags_by_id users_by_id);;

  (* linking groups with users *)
  groups_by_id ← index groups KGroup Group.groups_id;
  rows ← lift (read_csv fs (dir +:+ "/group_memberships.csv"));
  for_each rows (link_group_membership groups_by_id users_by_id);;

  (* loading and linking schools with users *)
  rows ← lift (read_csv fs (dir +:+ "/school_memberships.csv"));
  schools_by_id ← for_fold rows (link_school_membership users_by_id) [];

  (* linking tags with questions *)
  questions_by_id ← index questions KQuestion Question.questions_id;
  rows ← lift (read_csv fs (dir +:+ "/tag_questions.csv"));
  for_each rows (link_tag_question tags_by_id questions_by_id);;

  (* linking questions w/ author *)
  for_each_in questions KQuestion (link_question_author users_by_id);;

  (* linking answers to authors and questions *)
  for_each_in answers KAnswer (link_answer users_by_id questions_by_id);;

  (* linking emails and recipients *)
  for_each_in emails KEmail (link_email_recipient professionals_by_id);;

  (* linking questions and emails *)
  emails_by_id ← index emails KEmail Email.emails_id;
  rows ← lift (read_csv fs (dir +:+ "/matches.csv"));
  for_each rows (link_match emails_by_id questions_by_id);;

  (* freezing *)
  freezing schools_by_id.

End Linker.
(** ** What a state shows *)

(** The elements of a relationship collection, frozen or not. *)
Definition elems (s : CareerVillage) (o : ref) (a : string) : list ref :=
  match attrs s !! (o, a) with
  | Some (ScList l) | Some (ScFrozenList l) => l
  | _ => []
  end.

Definition is_frozen (v : value) : bool :=
  match v with ScFrozenList _ => true | _ => false end.

(** What freezing may do to a value. *)
Definition frozen_of (v : value) : value :=
  match v with
  | ScList l => ScFrozenList l
  | _ => v
  end.

(** The attributes an action may write. *)
Abbreviation footprint := (list (kind * string)).

Definition in_footprint (F : footprint) (k : kind) (a : string) : bool :=
  existsb (λ ka, bool_decide (ka.1 = k) && String.eqb ka.2 a) F.

(** Nothing but the attributes in [F] differs between [s] and [s'];
    [(KSchool, "__init__")] in [F] stands for constructing schools. *)
Record frame (F : footprint) (s s' : CareerVillage) : Prop := {
  frame_directory_path : directory_path s' = directory_path s;
  frame_tags : tags s' = tags s;
  frame_groups : groups s' = groups s;
  frame_students : students s' = students s;
  frame_professionals : professionals s' = professionals s;
  frame_questions : questions s' = questions s;
  frame_answers : answers s' = answers s;
  frame_emails : emails s' = emails s;
  frame_linked : linked s' = linked s;
  frame_schools : schools s' = schools s;
  frame_school_heap :
    in_footprint F KSchool "__init__" = false → school_heap s' = school_heap s;
  frame_attrs : ∀ o a, in_footprint F o.1 a = false → attrs s' !! (o, a) = attrs s !! (o, a)
}.

(** An action that writes within [F] only, however it ends. *)
Definition writes {A} (F : footprint) (m : M A) : Prop :=
  ∀ s r s', m s = (r, s') → frame F s s'.

(** Every value of an index is an object of one of the classes [ks]. *)
Definition index_of_kind `{Countable K} (ks : list kind) (d : gmap K ref) : Prop :=
  ∀ k o, d !! k = Some o → o.1 ∈ ks.

(** Both sides of a many-to-many link agree: [y] is in [x.a] exactly when
    [x] is in [y.b], for [x] of a class in [kx] and [y] of a class in [ky]. *)
Definition closed (kx : list kind) (a : string) (ky : list kind) (b : string)
    (s : CareerVillage) : Prop :=
  ∀ x y : ref, x.1 ∈ kx → y.1 ∈ ky → (y ∈ elems s x a ↔ x ∈ elems s y b).

(** What each pass of [link] writes. *)
Definition F_tag_users : footprint :=
  [(KTag, "users"); (KStudent, "tags"); (KProfessional, "tags")].
Definition F_group_memberships : footprint :=
  [(KGroup, "users"); (KStudent, "groups"); (KProfessional, "groups")].
Definition F_school_memberships : footprint :=
  [(KSchool, "__init__"); (KSchool, "users");
   (KStudent, "schools"); (KProfessional, "schools")].
Definition F_tag_questions : footprint :=
  [(KQuestion, "tags"); (KTag, "questions")].
Definition F_question_authors : footprint :=
  [(KQuestion, "author"); (KStudent, "questions"); (KProfessional, "questions")].
Definition F_answers : footprint :=
  [(KAnswer, "author"); (KStudent, "answers"); (KProfessional, "answers");
   (KAnswer, "question"); (KQuestion, "answers")].
Definition F_recipients : footprint :=
  [(KProfessional, "emails"); (KEmail, "recipient")].
Definition F_matches : footprint :=
  [(KEmail, "questions"); (KQuestion, "emails")].

(** The collections [_freeze] rebinds, class by class. *)
Definition frozen_attrs (k : kind) : list string :=
  match k with
  | KTag => ["users"; "questions"]
  | KGroup | KSchool => ["users"]
  | KStudent => ["tags"; "groups"; "schools"; "questions"; "answers"]
  | KProfessional => ["tags"; "groups"; "schools"; "questions"; "answers"; "emails"]
  | KQuestion => ["tags"; "emails"; "answers"]
  | KAnswer => []
  | KEmail => ["questions"]
  end.

(** [s'] is [s] with some of its collections frozen. *)
Record freezes (s s' : CareerVillage) : Prop := {
  freezes_directory_path : directory_path s' = directory_path s;
  freezes_tags : tags s' = tags s;
  freezes_groups : groups s' = groups s;
  freezes_students : students s' = students s;
  freezes_professionals : professionals s' = professionals s;
  freezes_questions : questions s' = questions s;
  freezes_answers : answers s' = answers s;
  freezes_emails : emails s' = emails s;
  freezes_linked : linked s' = linked s;
  freezes_schools : schools s' = schools s;
  freezes_school_heap : school_heap s' = school_heap s;
  freezes_attrs : ∀ key,
    attrs s' !! key = attrs s !! key ∨
    attrs s' !! key = frozen_of <$> attrs s !! key
}.

(** The references to the first [n] schools allocated. *)
Definition school_refs (n : nat) : list ref := (λ i, (KSchool, i)) <$> seq 0 n.

(** [schools_by_id] lists the schools allocated so far, each under its
    identifier, and no identifier twice. *)
Record schools_inv (d : odict) (s : CareerVillage) : Prop := {
  schools_inv_keys : d.*1 = School.school_id <$> school_heap s;
  schools_inv_values : odict_values d = school_refs (length (school_heap s));
  schools_inv_NoDup : NoDup (School.school_id <$> school_heap s)
}.

(** The distinct elements of a list, in the order they first occur. *)
Definition first_seen_step (acc : list Z) (x : Z) : list Z :=
  if decide (x ∈ acc) then acc else acc ++ [x].

Definition first_seen (l : list Z) : list Z := foldl first_seen_step [] l.

Section Rows.
Context (int : string → option Z).

(** What a row of [school_memberships.csv] says, when it can be read. *)
Definition school_membership_ids (r : row) : option (Z * string) :=
  sid ← r !! "school_memberships_school_id" ≫= int;
  uid ← r !! "school_memberships_user_id";
  Some (sid, uid).

(** The row [r] is linked in [s]: one school has its identifier, that
    school has the row's user and the user has that school. *)
Definition school_membership_linked (users_by_id : gmap string ref)
    (r : row) (s : CareerVillage) : Prop :=
  ∃ sid uid user i,
    school_membership_ids r = Some (sid, uid) ∧
    users_by_id !! uid = Some user ∧
    school_heap s !! i = Some (School.Build_t sid) ∧
    user ∈ elems s (KSchool, i) "users" ∧
    (KSchool, i) ∈ elems s user "schools".

End Rows.

(** Collections only grow from [s] to [s'], and the schools of [s] are
    schools of [s']. *)
Record grows (s s' : CareerVillage) : Prop := {
  grows_school_heap : school_heap s `prefix_of` school_heap s';
  grows_elems : ∀ o a x,
    (o.1 = KSchool → o.2 < length (school_heap s)) →
    x ∈ elems s o a → x ∈ elems s' o a
}.

(** A run of [freeze_attr] over the attributes [l] of [o]. *)
Fixpoint freeze_attrs (o : ref) (l : list string) : M unit :=
  match l with
  | [] => mret tt
  | a :: l' => freeze_attr o a;; freeze_attrs o l'
  end.

(** How many objects of class [k] there are. *)
Definition count (s : CareerVillage) (k : kind) : nat :=
  match k with
  | KTag => length (tags s)
  | KGroup => length (groups s)
  | KSchool => length (school_heap s)
  | KStudent => length (students s)
  | KProfessional => length (professionals s)
  | KQuestion => length (questions s)
  | KAnswer => length (answers s)
  | KEmail => length (emails s)
  end.

(** A successful [link], pass by pass: the indexes it builds, the rows it
    reads, the state after each pass and what each pass may have written. *)
Inductive link_stages (int : string → option Z) (fs : FileSystem)
    (s s' : CareerVillage) : Prop :=
  | Link_stages
      (students_by_id professionals_by_id users_by_id : gmap string ref)
      (tags_by_id : gmap Z ref)
      (groups_by_id questions_by_id emails_by_id : gmap string ref)
      (schools_by_id : odict)
      (tag_users group_memberships school_memberships tag_questions matches : list row)
      (s1 s2 s3 s4 s5 s6 s7 s8 : CareerVillage)
      (Hstudents : key_by Student.students_id (enumerate KStudent (students s))
                   = Ok students_by_id)
      (Hprofessionals : key_by Professional.professionals_id
                          (enumerate KProfessional (professionals s))
                        = Ok professionals_by_id)
      (Husers : union_error_on_overlap students_by_id professionals_by_id
                = Ok users_by_id)
      (Htags : key_by Tag.tags_id (enumerate KTag (tags s)) = Ok tags_by_id)
      (Hgroups : key_by Group.groups_id (enumerate KGroup (groups s)) = Ok groups_by_id)
      (Hquestions : key_by Question.questions_id (enumerate KQuestion (questions s))
                    = Ok questions_by_id)
      (Hemails : key_by Email.emails_id (enumerate KEmail (emails s)) = Ok emails_by_id)
      (Hcsv1 : read_csv fs (directory_path s +:+ "/tag_users.csv") = Ok tag_users)
      (Hcsv2 : read_csv fs (directory_path s +:+ "/group_memberships.csv")
               = Ok group_memberships)
      (Hcsv3 : read_csv fs (directory_path s +:+ "/school_memberships.csv")
               = Ok school_memberships)
      (Hcsv4 : read_csv fs (directory_path s +:+ "/tag_questions.csv") = Ok tag_questions)
      (Hcsv8 : read_csv fs (directory_path s +:+ "/matches.csv") = Ok matches)
      (Hrun1 : for_each tag_users (link_tag_user int tags_by_id users_by_id)
                 (set_linked true s) = (Ok tt, s1))
      (Hrun2 : for_each group_memberships
                 (link_group_membership groups_by_id users_by_id) s1 = (Ok tt, s2))
      (Hrun3 : for_fold school_memberships
                 (link_school_membership int users_by_id) [] s2 = (Ok schools_by_id, s3))
      (Hrun4 : for_each tag_questions
                 (link_tag_question int tags_by_id questions_by_id) s3 = (Ok tt, s4))
      (Hrun5 : for_each (enumerate KQuestion (questions s))
                 (link_question_author users_by_id) s4 = (Ok tt, s5))
      (Hrun6 : for_each (enumerate KAnswer (answers s))
                 (link_answer users_by_id questions_by_id) s5 = (Ok tt, s6))
      (Hrun7 : for_each (enumerate KEmail (emails s))
                 (link_email_recipient professionals_by_id) s6 = (Ok tt, s7))
      (Hrun8 : for_each matches (link_match emails_by_id questions_by_id) s7 = (Ok tt, s8))
      (Hrun9 : freezing schools_by_id s8 = (Ok tt, s'))
      (Hframe1 : frame F_tag_users (set_linked true s) s1)
      (Hframe2 : frame F_group_memberships s1 s2)
      (Hframe3 : frame F_school_memberships s2 s3)
      (Hframe4 : frame F_tag_questions s3 s4)
      (Hframe5 : frame F_question_authors s4 s5)
      (Hframe6 : frame F_answers s5 s6)
      (Hframe7 : frame F_recipients s6 s7)
      (Hframe8 : frame F_matches s7 s8).

(** What [link] never changes: the directory and the loaded collections. *)
Definition tables (s : CareerVillage) :=
  (directory_path s, tags s, groups s, students s, professionals s,
   questions s, answers s, emails s).

(** The merged user index, as [link] builds it first. *)
Definition users_index (s : CareerVillage) : result (gmap string ref) :=
  students_by_id ← key_by Student.students_id (enumerate KStudent (students s));
  professionals_by_id ← key_by Professional.professionals_id
                          (enumerate KProfessional (professionals s));
  union_error_on_overlap students_by_id professionals_by_id.

(** What the pass over the answers leaves for the answer [x]. *)
Definition answer_linked (users_by_id questions_by_id : gmap string ref)
    (x : ref * Answer.t) (s : CareerVillage) : Prop :=
  attrs s !! (x.1, "author") = Some (of_option (users_by_id !! Answer.author_id x.2)) ∧
  (∀ user, users_by_id !! Answer.author_id x.2 = Some user →
     x.1 ∈ elems s user "answers") ∧
  ∃ question,
    questions_by_id !! Answer.question_id x.2 = Some question ∧
    attrs s !! (x.1, "question") = Some (Obj question) ∧
    x.1 ∈ elems s question "answers".

(** What the pass over the questions leaves for the question [x]. *)
Definition question_linked (users_by_id : gmap string ref)
    (x : ref * Question.t) (s : CareerVillage) : Prop :=
  attrs s !! (x.1, "author") = Some (of_option (users_by_id !! Question.author_id x.2)) ∧
  ∀ user, users_by_id !! Question.author_id x.2 = Some user →
    x.1 ∈ elems s user "questions".

(** What the pass over the emails leaves for the email [x]. *)
Definition email_linked (professionals_by_id : gmap string ref)
    (x : ref * Email.t) (s : CareerVillage) : Prop :=
  ∃ professional,
    professionals_by_id !! Email.recipient_id x.2 = Some professional ∧
    attrs s !! (x.1, "recipient") = Some (Obj professional) ∧
    x.1 ∈ elems s professional "emails".

(** The entities of the graph: the members of its collections. *)
Definition in_graph (s : CareerVillage) (o : ref) : Prop :=
  if decide (o.1 = KSchool) then o ∈ default [] (schools s)
  else o.2 < count s o.1.

(** A graph as [CareerVillage.__init__] leaves it, given freshly loaded
    entities: not linked, no school yet, and on every object the instance
    attributes that its constructor binds, and no other. *)
Record fresh (s : CareerVillage) : Prop := {
  fresh_linked : linked s = false;
  fresh_schools : schools s = None;
  fresh_school_heap : school_heap s = [];
  fresh_attrs : ∀ o a v,
    attrs s !! (o, a) = Some v → assoc a (init_attrs o.1) = Some v;
  fresh_bound : ∀ o a v,
    o.2 < count s o.1 → assoc a (init_attrs o.1) = Some v →
    attrs s !! (o, a) = Some v
}.

(** The schools and the users agree, and a school not yet allocated has
    no users. *)
Definition schools_closed (s : CareerVillage) : Prop :=
  closed [KSchool] "users" [KStudent; KProfessional] "schools" s ∧
  ∀ n, (length (school_heap s) ≤ n)%nat → elems s (KSchool, n) "users" = [].

(** The attribute [a] of every object in [P] is a list that can grow. *)
Definition ready (a : string) (P : ref → Prop) (s : CareerVillage) : Prop :=
  ∀ o, P o → ∃ l, attrs s !! (o, a) = Some (ScList l).

(** The objects an index holds. *)
Definition indexed `{Countable K} (d : gmap K ref) (o : ref) : Prop :=
  ∃ k, d !! k = Some o.

(** Whether [a] is a collection that the constructor of class [k] binds. *)
Definition is_collection (k : kind) (a : string) : bool :=
  match assoc a (init_attrs k) with
  | Some _ => true
  | None => false
  end.

(** Every collection of every object of [s] is a list that can grow. *)
Definition mutable (s : CareerVillage) : Prop :=
  ∀ o a, o.2 < count s o.1 → is_collection o.1 a = true →
    ∃ l, attrs s !! (o, a) = Some (ScList l).

(** Every collection of every object of [s] is a list, frozen or not. *)
Definition listed (s : CareerVillage) : Prop :=
  ∀ o a, o.2 < count s o.1 → is_collection o.1 a = true →
    ∃ v l, attrs s !! (o, a) = Some v ∧ (v = ScList l ∨ v = ScFrozenList l).

(** The objects of [s] are objects of [s']. *)
Definition persists (s s' : CareerVillage) : Prop :=
  ∀ k, (count s k ≤ count s' k)%nat.

(** Every object that the index [d] holds is an object of [s]. *)
Definition index_in `{Countable K} (s : CareerVillage) (d : gmap K ref) : Prop :=
  ∀ k o, d !! k = Some o → o.2 < count s o.1.

Section Consistency.
Context (int : string → option Z).

(** The two identifiers of a row of each join table, when the row has
    them. *)
Definition tag_user_ids (r : row) : option (Z * string) :=
  tag_id ← r !! "tag_users_tag_id" ≫= int;
  user_id ← r !! "tag_users_user_id";
  Some (tag_id, user_id).

Definition group_membership_ids (r : row) : option (string * string) :=
  group_id ← r !! "group_memberships_group_id";
  user_id ← r !! "group_memberships_user_id";
  Some (group_id, user_id).

Definition tag_question_ids (r : row) : option (Z * string) :=
  tag_id ← r !! "tag_questions_tag_id" ≫= int;
  question_id ← r !! "tag_questions_question_id";
  Some (tag_id, question_id).

Definition match_ids (r : row) : option (string * string) :=
  email_id ← r !! "matches_email_id";
  question_id ← r !! "matches_question_id";
  Some (email_id, question_id).

(** A row whose two identifiers are in the two indexes. *)
Definition resolves `{Countable K1, Countable K2} (ids : row → option (K1 * K2))
    (d1 : gmap K1 ref) (d2 : gmap K2 ref) (r : row) : Prop :=
  ∃ k1 k2 o1 o2, ids r = Some (k1, k2) ∧ d1 !! k1 = Some o1 ∧ d2 !! k2 = Some o2.

(** A row of [school_memberships.csv] whose user is in the index. *)
Definition school_membership_resolves (users_by_id : gmap string ref)
    (r : row) : Prop :=
  ∃ sid uid user,
    school_membership_ids int r = Some (sid, uid) ∧ users_by_id !! uid = Some user.

(** The tables are consistent: the indexes can be built, the join tables
    can be read, every row of a join table and every required reference
    resolves.  Nothing is asked of the [author_id] of a question or of an
    answer. *)
Inductive consistent (fs : FileSystem) (s : CareerVillage) : Prop :=
  | Consistent
      (students_by_id professionals_by_id users_by_id : gmap string ref)
      (tags_by_id : gmap Z ref)
      (groups_by_id questions_by_id emails_by_id : gmap string ref)
      (tag_users group_memberships school_memberships tag_questions matches : list row)
      (Hstudents : key_by Student.students_id (enumerate KStudent (students s))
                   = Ok students_by_id)
      (Hprofessionals : key_by Professional.professionals_id
                          (enumerate KProfessional (professionals s))
                        = Ok professionals_by_id)
      (Husers : union_error_on_overlap students_by_id professionals_by_id
                = Ok users_by_id)
      (Htags : key_by Tag.tags_id (enumerate KTag (tags s)) = Ok tags_by_id)
      (Hgroups : key_by Group.groups_id (enumerate KGroup (groups s)) = Ok groups_by_id)
      (Hquestions : key_by Question.questions_id (enumerate KQuestion (questions s))
                    = Ok questions_by_id)
      (Hemails : key_by Email.emails_id (enumerate KEmail (emails s)) = Ok emails_by_id)
      (Hcsv1 : read_csv fs (directory_path s +:+ "/tag_users.csv") = Ok tag_users)
      (Hcsv2 : read_csv fs (directory_path s +:+ "/group_memberships.csv")
               = Ok group_memberships)
      (Hcsv3 : read_csv fs (directory_path s +:+ "/school_memberships.csv")
               = Ok school_memberships)
      (Hcsv4 : read_csv fs (directory_path s +:+ "/tag_questions.csv") = Ok tag_questions)
      (Hcsv8 : read_csv fs (directory_path s +:+ "/matches.csv") = Ok matches)
      (Hrows1 : ∀ r, r ∈ tag_users → resolves tag_user_ids tags_by_id users_by_id r)
      (Hrows2 : ∀ r, r ∈ group_memberships →
                  resolves group_membership_ids groups_by_id users_by_id r)
      (Hrows3 : ∀ r, r ∈ school_memberships → school_membership_resolves users_by_id r)
      (Hrows4 : ∀ r, r ∈ tag_questions →
                  resolves tag_question_ids tags_by_id questions_by_id r)
      (Hrows8 : ∀ r, r ∈ matches → resolves match_ids emails_by_id questions_by_id r)
      (Hanswers : ∀ answer, answer ∈ answers s →
                    is_Some (questions_by_id !! Answer.question_id answer))
      (Hrecipients : ∀ email, email ∈ emails s →
                       is_Some (professionals_by_id !! Email.recipient_id email)).

End Consistency.

(** ** A small dataset *)

Module Example.

Definition date : datetime :=
  {| year := 2011; month := 10; day := 5; hour := 20; minute := 35; second := 19 |}.

(** Enough of [int] for the tables below. *)
Definition int (s : string) : option Z :=
  if decide (s = "1") then Some 1%Z
  else if decide (s = "2") then Some 2%Z
  else if decide (s = "3") then Some 3%Z
  else None.

Definition school_memberships : list (list string) :=
  [["3"; "p1"]; ["2"; "s1"]; ["3"; "s1"]].

Definition fs : FileSystem :=
  list_to_map
    [("data/tag_users.csv",
      [["tag_users_tag_id"; "tag_users_user_id"]; ["1"; "s1"]]);
     ("data/group_memberships.csv",
      [["group_memberships_group_id"; "group_memberships_user_id"]; ["g1"; "p1"]]);
     ("data/school_memberships.csv",
      ["school_memberships_school_id"; "school_memberships_user_id"]
        :: school_memberships);
     ("data/tag_questions.csv",
      [["tag_questions_tag_id"; "tag_questions_question_id"]; ["2"; "q1"]]);
     ("data/matches.csv",
      [["matches_email_id"; "matches_question_id"]; ["e1"; "q1"]])].

Definition student : Student.t := Student.new "s1" None date.

Definition professional : Professional.t :=
  Professional.new "p1" (Some "Atlanta") None None date.

Definition question : Question.t :=
  {| Question.questions_id := "q1"; Question.author_id := "s1";
     Question.date_added := date; Question.title := "t"; Question.body := "b" |}.

(** A question whose author is no user. *)
Definition orphan : Question.t :=
  {| Question.questions_id := "q2"; Question.author_id := "nobody";
     Question.date_added := date; Question.title := "t"; Question.body := "b" |}.

Definition answer : Answer.t :=
  {| Answer.answers_id := "a1"; Answer.author_id := "p1";
     Answer.question_id := "q1"; Answer.date_added := date; Answer.body := "b" |}.

Definition email : Email.t :=
  {| Email.emails_id := "e1"; Email.recipient_id := "p1";
     Email.date_sent := date; Email.frequency_level := "daily" |}.

(** Three tags, a student and a professional, as loaded. *)
Definition cv : CareerVillage :=
  CareerVillage_new "data"
    [Tag.Build_t 1 "college"; Tag.Build_t 2 "career"; Tag.Build_t 3 "law"]
    [Group.Build_t "g1" "club"]
    [student] [professional]
    [question; orphan] [answer] [email].

(** The same graph, linked. *)
Definition linked_cv : CareerVillage := Eval vm_compute in (link int fs cv).2.

(** A dataset in which a professional has the identifier of a student. *)
Definition overlapping : CareerVillage :=
  CareerVillage_new "data" [] [] [student]
    [Professional.new "s1" None None None date] [] [] [].

(** A dataset whose answer is to no question, and one whose email is to
    no professional. *)
Definition dangling_answer : CareerVillage :=
  CareerVillage_new "data" [] [] [student] [professional] [] [answer] [].

Definition dangling_email : CareerVillage :=
  CareerVillage_new "data" [] [] [student] [] [] [] [email].

End Example.
(** ** What [link] keeps, however it ends *)

(** An action that keeps [I], whether it returns or raises. *)
Definition preserves {A} (I : CareerVillage → Prop) (m : M A) : Prop :=
  ∀ s r s', m s = (r, s') → I s → I s'.

(** A property of the graph that depends neither on the attributes of its
    entities, nor on the schools allocated, nor on [self.schools]. *)
Definition stable (I : CareerVillage → Prop) : Prop :=
  ∀ s, I s →
    (∀ m, I (set_attrs m s)) ∧
    (∀ h, I (set_school_heap h s)) ∧
    (∀ v, I (set_schools v s)).

(** The classes of the objects that an attribute named [a] is meant for:
    the elements of a collection, or what a reference is bound to. *)
Definition target_kinds (a : string) : list kind :=
  if decide (a = "users") then [KStudent; KProfessional]
  else if decide (a = "author") then [KStudent; KProfessional]
  else if decide (a = "tags") then [KTag]
  else if decide (a = "groups") then [KGroup]
  else if decide (a = "schools") then [KSchool]
  else if decide (a = "questions") then [KQuestion]
  else if decide (a = "question") then [KQuestion]
  else if decide (a = "answers") then [KAnswer]
  else if decide (a = "emails") then [KEmail]
  else if decide (a = "recipient") then [KProfessional]
  else [].

(** The objects a value refers to. *)
Definition value_refs (v : value) : list ref :=
  match v with
  | PyNone => []
  | Obj o => [o]
  | ScList l | ScFrozenList l => l
  end.

(** Every object that an attribute refers to exists and is of a class the
    attribute is meant for. *)
Definition well_typed (s : CareerVillage) : Prop :=
  ∀ o a v x, attrs s !! (o, a) = Some v → x ∈ value_refs v →
    x.1 ∈ target_kinds a ∧ x.2 < count s x.1.

(** [s] is well typed, has the tables of [s0] and at least [n] schools. *)
Definition typed_from (s0 : CareerVillage) (n : nat) (s : CareerVillage) : Prop :=
  well_typed s ∧ tables s = tables s0 ∧ (n ≤ length (school_heap s))%nat.

(** An object of the tables of [s0], or one of the first [n] schools. *)
Definition known (s0 : CareerVillage) (n : nat) (x : ref) : Prop :=
  if decide (x.1 = KSchool) then x.2 < n else x.2 < count s0 x.1.

(** ** Outside the linker *)

(** The exceptions of the loaders and of the views: those of the linker,
    and four more.  [NoneAttributeError a] is the [AttributeError] of
    reading the attribute [a] of [None]. *)
Inductive exception :=
  | Exn (e : exn)
  | AssertionError
  | NoneAttributeError (a : string)
  | TypeError (msg : string)
  | OverflowError.

Inductive outcome (A : Type) :=
  | Returns (a : A)
  | Raises (e : exception).
Arguments Returns {A} a.
Arguments Raises {A} e.

#[export] Instance outcome_ret : MRet outcome := λ A a, Returns a.
#[export] Instance outcome_bind : MBind outcome := λ A B f r,
  match r with
  | Returns a => f a
  | Raises e => Raises e
  end.

Definition of_result {A} (r : result A) : outcome A :=
  match r with
  | Ok a => Returns a
  | Raise e => Raises (Exn e)
  end.

(** [for x in l: ... f(x) ...], collecting what [f] returns; the first
    exception ends the loop. *)
Fixpoint for_yield {A B} (f : A → outcome B) (l : list A) : outcome (list B) :=
  match l with
  | [] => Returns []
  | x :: l' => y ← f x; ys ← for_yield f l'; Returns (y :: ys)
  end.

(** ** Parsing a cell *)

(** The separators of a date. *)
Module Separator.
Import Stdlib.Strings.Ascii.
Definition space : ascii := " "%char.
Definition hyphen : ascii := "-"%char.
Definition colon : ascii := ":"%char.
End Separator.

(** [None if not s else s] *)
Definition empty_string_to_none (s : string) : option string :=
  if decide (s = "") then None else Some s.

(** [s.split(sep)] for a separator of one character: the pieces between
    the separators, the empty ones too; never an empty list. *)
Fixpoint split (sep : Strings.Ascii.ascii) (s : string) : list string :=
  match s with
  | EmptyString => [""]
  | String c s' =>
      if decide (c = sep) then "" :: split sep s'
      else
        match split sep s' with
        | w :: ws => String c w :: ws
        | [] => [String c ""]
        end
  end.

(** [sep.join(l)] *)
Fixpoint join (sep : Strings.Ascii.ascii) (l : list string) : string :=
  match l with
  | [] => ""
  | [w] => w
  | w :: l' => w +:+ String sep (join sep l')
  end.

(** Whether the character [c] occurs in [s]. *)
Fixpoint occurs (c : Strings.Ascii.ascii) (s : string) : bool :=
  match s with
  | EmptyString => false
  | String c' s' => bool_decide (c' = c) || occurs c s'
  end.

(** The [ValueError] of an unpacking, whose message (it gives the counts)
    is cut short. *)
Definition not_enough_values : exception :=
  Exn (ValueError "not enough values to unpack").
Definition too_many_values : exception :=
  Exn (ValueError "too many values to unpack").

(** [a, b, c = l] for a list [l]. *)
Definition unpack3 {A} (l : list A) : outcome (A * A * A) :=
  match l with
  | [a; b; c] => Returns (a, b, c)
  | _ :: _ :: _ :: _ :: _ => Raises too_many_values
  | _ => Raises not_enough_values
  end.

(** [a, b, c = map(f, l)]: the unpacking draws from the iterator one
    element at a time, so [f] runs on a fourth element, when there is one,
    before the count is found wrong. *)
Definition unpack3_map {A B} (f : A → outcome B) (l : list A) : outcome (B * B * B) :=
  match l with
  | [] => Raises not_enough_values
  | a :: l1 =>
      x ← f a;
      match l1 with
      | [] => Raises not_enough_values
      | b :: l2 =>
          y ← f b;
          match l2 with
          | [] => Raises not_enough_values
          | c :: l3 =>
              z ← f c;
              match l3 with
              | [] => Returns (x, y, z)
              | d :: _ => f d;; Raises too_many_values
              end
          end
      end
  end.

Section Loading.

(** [int(s)], which is [None] where Python raises [ValueError], and
    [datetime(year, month, day, hour, minute, second)], which raises of
    fields that denote no date and time. *)
Variable int : string → option Z.
Variable datetime_of : Z → Z → Z → Z → Z → Z → outcome datetime.

(** [quick_parse_datetime]; [s] is [None] where a loader passes what
    [empty_string_to_none] made of an empty cell.  Assertions are on. *)
Definition quick_parse_datetime (s : option string) : outcome datetime :=
  match s with
  | None => Raises (NoneAttributeError "split")
  | Some s =>
      '(d, t, s) ← unpack3 (split Separator.space s);
      if decide (s = "UTC+0000") then
        '(year, month, day) ← unpack3_map (of_result ∘ py_int int) (split Separator.hyphen d);
        '(hour, minute, second) ← unpack3_map (of_result ∘ py_int int) (split Separator.colon t);
        datetime_of year month day hour minute second
      else Raises AssertionError
  end.

(** [d[column]] *)
Definition cell (d : row) (column : string) : outcome string :=
  of_result (getitem d column).

(** Modelled from the spec: [ScFrozenList(iterable)] of scalaps, which is
    not part of this repository, holds what the iterable yields, in order
    (section 6: a finite ordered sequence, one per data row).  So
    [load_seq] is [func] on each row of the table, in order; the result is
    a frozen list of entities that no other object holds, and
    [CareerVillage] keeps such a collection as the list of its entities. *)
Definition load_seq {A} (fs : FileSystem) (path : string)
    (func : row → outcome A) : outcome (list A) :=
  rows ← of_result (read_csv fs path);
  for_yield func rows.

(** The [load] of each class. *)
Definition Tag_load (fs : FileSystem) (path : string) : outcome (list Tag.t) :=
  load_seq fs path (λ d,
    tags_tag_id ← cell d "tags_tag_id";
    tags_id ← of_result (py_int int tags_tag_id);
    name ← cell d "tags_tag_name";
    Returns (Tag.Build_t tags_id name)).

Definition Group_load (fs : FileSystem) (path : string) : outcome (list Group.t) :=
  load_seq fs path (λ d,
    groups_id ← cell d "groups_id";
    group_type ← cell d "groups_group_type";
    Returns (Group.Build_t groups_id group_type)).

Definition Student_load (fs : FileSystem) (path : string) : outcome (list Student.t) :=
  load_seq fs path (λ d,
    students_id ← cell d "students_id";
    location ← cell d "students_location";
    date_joined ← cell d "students_date_joined";
    date_joined ← quick_parse_datetime (Some date_joined);
    Returns (Student.new students_id (empty_string_to_none location) date_joined)).

Definition Professional_load (fs : FileSystem) (path : string)
    : outcome (list Professional.t) :=
  load_seq fs path (λ d,
    professionals_id ← cell d "professionals_id";
    location ← cell d "professionals_location";
    industry ← cell d "professionals_industry";
    headline ← cell d "professionals_headline";
    date_joined ← cell d "professionals_date_joined";
    date_joined ← quick_parse_datetime (Some date_joined);
    Returns (Professional.new professionals_id (empty_string_to_none location)
               (empty_string_to_none industry) (empty_string_to_none headline)
               date_joined)).

Definition Question_load (fs : FileSystem) (path : string) : outcome (list Question.t) :=
  load_seq fs path (λ d,
    questions_id ← cell d "questions_id";
    author_id ← cell d "questions_author_id";
    date_added ← cell d "questions_date_added";
    date_added ← quick_parse_datetime (empty_string_to_none date_added);
    title ← cell d "questions_title";
    body ← cell d "questions_body";
    Returns (Question.Build_t questions_id author_id date_added title body)).

Definition Answer_load (fs : FileSystem) (path : string) : outcome (list Answer.t) :=
  load_seq fs path (λ d,
    answers_id ← cell d "answers_id";
    author_id ← cell d "answers_author_id";
    question_id ← cell d "answers_question_id";
    date_added ← cell d "answers_date_added";
    date_added ← quick_parse_datetime (empty_string_to_none date_added);
    body ← cell d "answers_body";
    Returns (Answer.Build_t answers_id author_id question_id date_added body)).

Definition Email_load (fs : FileSystem) (path : string) : outcome (list Email.t) :=
  load_seq fs path (λ d,
    emails_id ← cell d "emails_id";
    recipient_id ← cell d "emails_recipient_id";
    date_sent ← cell d "emails_date_sent";
    date_sent ← quick_parse_datetime (empty_string_to_none date_sent);
    frequency_level ← cell d "emails_frequency_level";
    Returns (Email.Build_t emails_id recipient_id date_sent frequency_level)).

(** [CareerVillage.load_raw]; what it prints on the way is left out. *)
Definition load_raw (fs : FileSystem) (directory_path : string) : outcome CareerVillage :=
  tags ← Tag_load fs (directory_path +:+ "/tags.csv");
  groups ← Group_load fs (directory_path +:+ "/groups.csv");
  students ← Student_load fs (directory_path +:+ "/students.csv");
  professionals ← Professional_load fs (directory_path +:+ "/professionals.csv");
  questions ← Question_load fs (directory_path +:+ "/questions.csv");
  answers ← Answer_load fs (directory_path +:+ "/answers.csv");
  emails ← Email_load fs (directory_path +:+ "/emails.csv");
  Returns (CareerVillage_new directory_path tags groups students professionals
             questions answers emails).


End Loading.

(** ** The students and the professionals of a tag, group or school *)

(** Modelled from the spec: a collection of scalaps, which is not part of
    this repository, is iterated over in the order of its elements, that
    of the appends (section 3: the passes only ever append); what is not a
    collection is not iterable. *)
Definition iterate (v : value) : outcome (list ref) :=
  match v with
  | ScList l | ScFrozenList l => Returns l
  | _ => Raises (TypeError "object is not iterable")
  end.

(** [self.users], for an object of a class that has the two properties. *)
Definition users_of (self : ref) (property : string) (s : CareerVillage) : outcome value :=
  match self.1 with
  | KTag | KGroup | KSchool => of_result (getattr self "users" s).1
  | _ => Raises (Exn (AttributeError self property))
  end.

(** The properties [students] and [professionals] of [BaseHasUsers].
    [Student] and [Professional] have no subclass, so [isinstance] tests
    the class.  The [ScSeq] that a property returns is given by the list
    of what it yields. *)
Definition BaseHasUsers_students (self : ref) (s : CareerVillage) : outcome (list ref) :=
  users ← users_of self "students" s;
  l ← iterate users;
  Returns (filter (λ u : ref, u.1 = KStudent) l).

Definition BaseHasUsers_professionals (self : ref) (s : CareerVillage)
    : outcome (list ref) :=
  users ← users_of self "professionals" s;
  l ← iterate users;
  Returns (filter (λ u : ref, u.1 = KProfessional) l).

(** ** The views of an entity *)

(** What an instance attribute holds: a scalar that the constructor bound,
    or what the store of relationships holds. *)
Inductive pyvalue :=
  | Str (s : string)
  | Int (z : Z)
  | Date (d : datetime)
  | Rel (v : value).

Definition optional (s : option string) : pyvalue :=
  match s with
  | Some s => Str s
  | None => Rel PyNone
  end.

(** The scalars that the constructor of each class binds, under the names
    it binds them to. *)
Definition Tag_scalars (x : Tag.t) : list (string * pyvalue) :=
  [("tags_id", Int (Tag.tags_id x)); ("name", Str (Tag.name x))].

Definition Group_scalars (x : Group.t) : list (string * pyvalue) :=
  [("groups_id", Str (Group.groups_id x)); ("group_type", Str (Group.group_type x))].

Definition School_scalars (x : School.t) : list (string * pyvalue) :=
  [("school_id", Int (School.school_id x))].

Definition BasePerson_scalars (x : BasePerson.t) : list (string * pyvalue) :=
  [("user_id", Str (BasePerson.user_id x));
   ("location", optional (BasePerson.location x));
   ("data_joined", Date (BasePerson.data_joined x))].

Definition Student_scalars (x : Student.t) : list (string * pyvalue) :=
  BasePerson_scalars (Student.base x).

Definition Professional_scalars (x : Professional.t) : list (string * pyvalue) :=
  BasePerson_scalars (Professional.base x) ++
  [("professionals_id", Str (Professional.professionals_id x));
   ("industry", optional (Professional.industry x));
   ("headline", optional (Professional.headline x))].

Definition Question_scalars (x : Question.t) : list (string * pyvalue) :=
  [("questions_id", Str (Question.questions_id x));
   ("author_id", Str (Question.author_id x));
   ("date_added", Date (Question.date_added x));
   ("title", Str (Question.title x));
   ("body", Str (Question.body x))].

Definition Answer_scalars (x : Answer.t) : list (string * pyvalue) :=
  [("answers_id", Str (Answer.answers_id x));
   ("author_id", Str (Answer.author_id x));
   ("question_id", Str (Answer.question_id x));
   ("date_added", Date (Answer.date_added x));
   ("body", Str (Answer.body x))].

Definition Email_scalars (x : Email.t) : list (string * pyvalue) :=
  [("emails_id", Str (Email.emails_id x));
   ("recipient_id", Str (Email.recipient_id x));
   ("date_sent", Date (Email.date_sent x));
   ("frequency_level", Str (Email.frequency_level x))].

(** The scalars of the object [o], when there is such an object. *)
Definition scalars_of (o : ref) (s : CareerVillage) : option (list (string * pyvalue)) :=
  match o.1 with
  | KTag => Tag_scalars <$> tags s !! o.2
  | KGroup => Group_scalars <$> groups s !! o.2
  | KSchool => School_scalars <$> school_heap s !! o.2
  | KStudent => Student_scalars <$> students s !! o.2
  | KProfessional => Professional_scalars <$> professionals s !! o.2
  | KQuestion => Question_scalars <$> questions s !! o.2
  | KAnswer => Answer_scalars <$> answers s !! o.2
  | KEmail => Email_scalars <$> emails s !! o.2
  end.

(** The relationships that the instance [o] holds, by name. *)
Definition relationships (o : ref) (s : CareerVillage) : gmap string value :=
  map_fold (λ (key : ref * string) v acc,
              if decide (key.1 = o) then <[key.2 := v]> acc else acc) ∅ (attrs s).

(** [vars(self)]: the instance dictionary; a later assignment to a name
    replaces what the constructor bound. *)
Definition vars (o : ref) (s : CareerVillage) : option (gmap string pyvalue) :=
  scalars ← scalars_of o s;
  Some ((Rel <$> relationships o s) ∪ list_to_map scalars).

(** [k.startswith(prefix)] and [k.endswith(suffix)] *)
Definition startswith (k prefix : string) : bool := String.prefix prefix k.
Definition endswith (k suffix : string) : bool :=
  String.prefix (String.rev suffix) (String.rev k).

(** [BaseEntity.attrs] *)
Definition BaseEntity_attrs (o : ref) (s : CareerVillage)
    : option (gmap string pyvalue) :=
  filter (λ kv : string * pyvalue,
            startswith kv.1 "_" = false ∧ endswith kv.1 "_id" = false) <$> vars o s.

(** What is not a collection. *)
Inductive scalar :=
  | SNone
  | SStr (s : string)
  | SInt (z : Z)
  | SDate (d : datetime)
  | SObj (o : ref).

(** Modelled from the spec: [ListMixin] is of scalaps, which is not part of
    this repository; its instances are the collections, [ScList] and
    [ScFrozenList] (section 4.1: fields are scalars or collections). *)
Definition classify (v : pyvalue) : scalar + list ref :=
  match v with
  | Str s => inl (SStr s)
  | Int z => inl (SInt z)
  | Date d => inl (SDate d)
  | Rel PyNone => inl SNone
  | Rel (Obj o) => inl (SObj o)
  | Rel (ScList l) | Rel (ScFrozenList l) => inr l
  end.

Definition as_scalar (v : pyvalue) : option scalar :=
  match classify v with inl x => Some x | inr _ => None end.
Definition as_list (v : pyvalue) : option (list ref) :=
  match classify v with inl _ => None | inr l => Some l end.

(** [BaseEntity.partitioned_attrs] *)
Definition partitioned_attrs (o : ref) (s : CareerVillage)
    : option (gmap string scalar * gmap string (list ref)) :=
  (λ d : gmap string pyvalue, (omap as_scalar d, omap as_list d))
    <$> BaseEntity_attrs o s.

(** [sorted(d.items())]: the keys of a dictionary are distinct, so the
    order is that of the keys, by code points. *)
Definition sorted_items {V} (d : gmap string V) : list (string * V) :=
  merge_sort (λ x y : string * V, String.le x.1 y.1) (map_to_list d).

(** [self.__class__.__name__] *)
Definition class_name (k : kind) : string :=
  match k with
  | KTag => "Tag" | KGroup => "Group" | KSchool => "School"
  | KStudent => "Student" | KProfessional => "Professional"
  | KQuestion => "Question" | KAnswer => "Answer" | KEmail => "Email"
  end.

(** What the views return: scalars, and dictionaries in the order in which
    their keys were set. *)
#[warnings="-register-all"]
Inductive json :=
  | JNone
  | JStr (s : string)
  | JInt (z : Z)
  | JDate (d : datetime)
  | JDict (items : list (string * json)).

(** A scalar that is a string, an integer, a date or [None]. *)
Definition plain (x : scalar) : option json :=
  match x with
  | SNone => Some JNone
  | SStr s => Some (JStr s)
  | SInt z => Some (JInt z)
  | SDate d => Some (JDate d)
  | SObj _ => None
  end.

(** Modelled from the spec: [v.length] of a collection of scalaps is the
    number of its elements (section 4.1: collections are rendered by their
    length). *)
Definition lengths (lists : gmap string (list ref)) : list (string * json) :=
  (λ kv : string * list ref, (kv.1, JInt (Z.of_nat (length kv.2)))) <$> sorted_items lists.

(** [BaseEntity.to_shallow_json]; [None] when there is no object [o]. *)
Definition to_shallow_json (o : ref) (s : CareerVillage) : option json :=
  '(scalars, lists) ← partitioned_attrs o s;
  Some (JDict [(class_name o.1,
                JDict (omap (λ kv : string * scalar, (kv.1,.) <$> plain kv.2)
                         (sorted_items scalars) ++ lengths lists))]).

(** A scalar as [to_json] shows it: an entity by its shallow view. *)
Definition shown (s : CareerVillage) (x : scalar) : option json :=
  match x with
  | SObj o => to_shallow_json o s
  | _ => plain x
  end.

(** [BaseEntity.to_json]; [None] when there is no object [o], or when an
    attribute of [o] refers to an object that does not exist. *)
Definition to_json (o : ref) (s : CareerVillage) : option json :=
  '(scalars, lists) ← partitioned_attrs o s;
  components ← mapM (λ kv : string * scalar, (kv.1,.) <$> shown s kv.2)
                 (sorted_items scalars);
  Some (JDict [(class_name o.1, JDict (components ++ lengths lists))]).

(** [json_list]: the views of the elements, in order. *)
Definition json_list (l : list ref) (s : CareerVillage) : option (list json) :=
  mapM (λ x, to_json x s) l.

(** ** What the join tables say *)

(** The pairs of objects that the rows of a join table name, in the order
    of the rows; a row that names no pair gives none. *)
Definition pairs `{Countable K1, Countable K2} (ids : row → option (K1 * K2))
    (d1 : gmap K1 ref) (d2 : gmap K2 ref) (rows : list row) : list (ref * ref) :=
  omap (λ r, '(i1, i2) ← ids r; o1 ← d1 !! i1; o2 ← d2 !! i2; Some (o1, o2)) rows.

(** The objects paired with [o], in order and as often as they are. *)
Definition seconds_of (o : ref) (l : list (ref * ref)) : list ref :=
  (filter (λ p : ref * ref, p.1 = o) l).*2.
Definition firsts_of (o : ref) (l : list (ref * ref)) : list ref :=
  (filter (λ p : ref * ref, p.2 = o) l).*1.

Section JoinTables.
Context (int : string → option Z) (fs : FileSystem) (s : CareerVillage).

(** The rows of a join table of the directory of [s], when it can be
    read. *)
Definition join_rows (name : string) : list row :=
  match read_csv fs (directory_path s +:+ name) with
  | Ok rows => rows
  | Raise _ => []
  end.

(** An index of [s], when it can be built. *)
Definition index_or_empty `{Countable K} (d : result (gmap K ref)) : gmap K ref :=
  match d with
  | Ok d => d
  | Raise _ => ∅
  end.

(** The pairs of each join table: tag and user, group and user, tag and
    question, email and question. *)
Definition tag_user_pairs : list (ref * ref) :=
  pairs (tag_user_ids int)
    (index_or_empty (key_by Tag.tags_id (enumerate KTag (tags s))))
    (index_or_empty (users_index s))
    (join_rows "/tag_users.csv").

Definition group_membership_pairs : list (ref * ref) :=
  pairs group_membership_ids
    (index_or_empty (key_by Group.groups_id (enumerate KGroup (groups s))))
    (index_or_empty (users_index s))
    (join_rows "/group_memberships.csv").

Definition tag_question_pairs : list (ref * ref) :=
  pairs (tag_question_ids int)
    (index_or_empty (key_by Tag.tags_id (enumerate KTag (tags s))))
    (index_or_empty (key_by Question.questions_id (enumerate KQuestion (questions s))))
    (join_rows "/tag_questions.csv").

Definition match_pairs : list (ref * ref) :=
  pairs match_ids
    (index_or_empty (key_by Email.emails_id (enumerate KEmail (emails s))))
    (index_or_empty (key_by Question.questions_id (enumerate KQuestion (questions s))))
    (join_rows "/matches.csv").

End JoinTables.

(** The entities of a table that refer to [o] by the identifier [key]
    under the index [d], in the order of the table. *)
Definition referring {X} (key : X → string) (d : gmap string ref) (o : ref)
    (l : list (ref * X)) : list ref :=
  (filter (λ x : ref * X, d !! key x.2 = Some o) l).*1.


(** The schools of [s] under their identifiers; of two schools with one
    identifier, the first. *)
Definition schools_by_identifier (s : CareerVillage) : gmap Z ref :=
  list_to_map ((λ p : ref * School.t, (School.school_id p.2, p.1))
                 <$> enumerate KSchool (school_heap s)).

(** The pairs of [school_memberships.csv], school and user; the schools
    are those of [s'], the graph that [link] has made of [s]. *)
Definition school_membership_pairs (int : string → option Z) (fs : FileSystem)
    (s s' : CareerVillage) : list (ref * ref) :=
  pairs (school_membership_ids int) (schools_by_identifier s')
    (index_or_empty (users_index s)) (join_rows fs s "/school_memberships.csv").

(** No school that is not allocated yet has a user. *)
Definition unallocated_empty (s : CareerVillage) : Prop :=
  ∀ i : nat, (length (school_heap s) ≤ i)%nat → elems s (KSchool, i) "users" = [].
(** ** The small dataset, on disk *)

Module Sample.

(** [int] on the plain decimal numerals, which is all that the tables
    below hold. *)
Definition digit (c : Strings.Ascii.ascii) : option Z :=
  let n := (Z.of_nat (Strings.Ascii.nat_of_ascii c) - 48)%Z in
  if decide (0 ≤ n ≤ 9)%Z then Some n else None.

Fixpoint digits (s : string) (acc : Z) : option Z :=
  match s with
  | EmptyString => Some acc
  | String c s' => d ← digit c; digits s' (10 * acc + d)%Z
  end.

Definition int (s : string) : option Z :=
  if decide (s = "") then None else digits s 0.

(** [datetime(...)], which accepts the dates of the calendar and the
    times of the day.  Of fields that do not fit a C [int] it raises
    [OverflowError], and of other fields that are out of range
    [ValueError]. *)
Definition leap (y : Z) : bool :=
  ((y mod 4 =? 0) && negb (y mod 100 =? 0) || (y mod 400 =? 0))%Z.

Definition days_in_month (y m : Z) : Z :=
  if (m =? 2)%Z then (if leap y then 29 else 28)%Z
  else if ((m =? 4) || (m =? 6) || (m =? 9) || (m =? 11))%Z then 30%Z
  else 31%Z.

Definition datetime_of (y m d h mi se : Z) : outcome datetime :=
  if decide (Forall (λ z, -2147483648 ≤ z ≤ 2147483647)%Z [y; m; d; h; mi; se]) then
    if decide ((1 ≤ y ≤ 9999) ∧ (1 ≤ m ≤ 12) ∧ (1 ≤ d ≤ days_in_month y m) ∧
               (0 ≤ h < 24) ∧ (0 ≤ mi < 60) ∧ (0 ≤ se < 60))%Z
    then Returns {| year := y; month := m; day := d;
                    hour := h; minute := mi; second := se |}
    else Raises (Exn (ValueError "out of range"))
  else Raises OverflowError.

Definition date : string := "2011-10-05 20:35:19 UTC+0000".

(** The tables of entities from which [Example.cv] loads. *)
Definition tables : list (string * list (list string)) :=
  [("data/tags.csv",
    [["tags_tag_id"; "tags_tag_name"];
     ["1"; "college"]; ["2"; "career"]; ["3"; "law"]]);
   ("data/groups.csv",
    [["groups_id"; "groups_group_type"]; ["g1"; "club"]]);
   ("data/students.csv",
    [["students_id"; "students_location"; "students_date_joined"];
     ["s1"; ""; date]]);
   ("data/professionals.csv",
    [["professionals_id"; "professionals_location"; "professionals_industry";
      "professionals_headline"; "professionals_date_joined"];
     ["p1"; "Atlanta"; ""; ""; date]]);
   ("data/questions.csv",
    [["questions_id"; "questions_author_id"; "questions_date_added";
      "questions_title"; "questions_body"];
     ["q1"; "s1"; date; "t"; "b"];
     ["q2"; "nobody"; date; "t"; "b"]]);
   ("data/answers.csv",
    [["answers_id"; "answers_author_id"; "answers_question_id";
      "answers_date_added"; "answers_body"];
     ["a1"; "p1"; "q1"; date; "b"]]);
   ("data/emails.csv",
    [["emails_id"; "emails_recipient_id"; "emails_date_sent";
      "emails_frequency_level"];
     ["e1"; "p1"; date; "daily"]])].

(** The directory: these tables, and the join tables of [Example.fs]. *)
Definition fs : FileSystem := list_to_map tables ∪ Example.fs.

(** Tables whose first row has no date. *)
Definition undated : FileSystem :=
  list_to_map
    [("data/students.csv",
      [["students_id"; "students_location"; "students_date_joined"];
       ["s1"; ""; ""]]);
     ("data/questions.csv",
      [["questions_id"; "questions_author_id"; "questions_date_added";
        "questions_title"; "questions_body"];
       ["q1"; "s1"; ""; "t"; "b"]])].

(** What a [link] that fails leaves of [Example.dangling_answer]. *)
Definition failed : CareerVillage :=
  Eval vm_compute in (link Example.int Example.fs Example.dangling_answer).2.

End Sample.



(** ** The monad *)

Lemma bind_Ok {A B} (m : M A) (f : A → M B) s b s' :
  (m ≫= f) s = (Ok b, s') ↔ ∃ a s1, m s = (Ok a, s1) ∧ f a s1 = (Ok b, s').
Proof.
  unfold mbind, M_bind. destruct (m s) as [[a|e] s1]; split.
  - eauto.
  - by intros (? & ? & [= <- <-] & ?).
  - done.
  - by intros (? & ? & ? & ?).
Qed.

Lemma bind_Raise {A B} (m : M A) (f : A → M B) s e s' :
  (m ≫= f) s = (Raise e, s') ↔
  m s = (Raise e, s') ∨ ∃ a s1, m s = (Ok a, s1) ∧ f a s1 = (Raise e, s').
Proof.
  unfold mbind, M_bind. destruct (m s) as [[a|e1] s1]; split.
  - eauto.
  - intros [?|(? & ? & [= <- <-] & ?)]; done.
  - intros [= <- <-]. by left.
  - intros [[= <- <-]|(? & ? & ? & ?)]; done.
Qed.

Lemma bind_run {A B} (m : M A) (f : A → M B) s a s1 :
  m s = (Ok a, s1) → (m ≫= f) s = f a s1.
Proof. unfold mbind, M_bind. by intros ->. Qed.

Lemma bind_run_Raise {A B} (m : M A) (f : A → M B) s e s1 :
  m s = (Raise e, s1) → (m ≫= f) s = (Raise e, s1).
Proof. unfold mbind, M_bind. by intros ->. Qed.

Lemma lift_Ok {A} (r : result A) s a s' :
  lift r s = (Ok a, s') ↔ r = Ok a ∧ s' = s.
Proof. unfold lift. split; [by intros [= -> ->] | by intros [-> ->]]. Qed.

Lemma gets_Ok {A} (f : CareerVillage → A) s a s' :
  gets f s = (Ok a, s') ↔ a = f s ∧ s' = s.
Proof. unfold gets. split; [by intros [= -> ->] | by intros [-> ->]]. Qed.

Lemma result_bind_Ok {A B} (r : result A) (f : A → result B) b :
  r ≫= f = Ok b ↔ ∃ a, r = Ok a ∧ f a = Ok b.
Proof.
  destruct r as [a|e]; simpl; split; eauto.
  - by intros (? & [= <-] & ?).
  - done.
  - by intros (? & ? & ?).
Qed.

Lemma getitem_Ok `{Countable K, PyKey K} {V} (d : gmap K V) k v :
  getitem d k = Ok v ↔ d !! k = Some v.
Proof. unfold getitem. destruct (d !! k); split; congruence. Qed.

(** ** Loops *)

Lemma for_each_inv {A} (I : CareerVillage → Prop) (body : A → M unit) l :
  (∀ x s r s', x ∈ l → I s → body x s = (r, s') → I s') →
  ∀ s r s', I s → for_each l body s = (r, s') → I s'.
Proof.
  induction l as [|x l IH]; intros Hbody s r s' HI Hrun.
  - by injection Hrun as <- <-.
  - simpl in Hrun. destruct (body x s) as [[[]|e] s1] eqn:Hx.
    + rewrite (bind_run _ _ _ _ _ Hx) in Hrun.
      apply (IH (λ y s r s' Hy, Hbody y s r s' (list_elem_of_further _ _ _ Hy)) s1 r s'); [|done].
      apply (Hbody x s (Ok tt) s1); [left|done|done].
    + rewrite (bind_run_Raise _ _ _ _ _ Hx) in Hrun. injection Hrun as <- <-.
      apply (Hbody x s (Raise e) s1); [left|done|done].
Qed.

Lemma for_each_Ok_inv {A} (I : CareerVillage → Prop) (body : A → M unit) l :
  (∀ x s s', x ∈ l → I s → body x s = (Ok tt, s') → I s') →
  ∀ s s', I s → for_each l body s = (Ok tt, s') → I s'.
Proof.
  induction l as [|x l IH]; intros Hbody s s' HI Hrun.
  - by injection Hrun as <-.
  - simpl in Hrun. apply bind_Ok in Hrun as ([] & s1 & Hx & Hrun).
    apply (IH (λ y s s' Hy, Hbody y s s' (list_elem_of_further _ _ _ Hy)) s1 s'); [|done].
    apply (Hbody x s s1); [left|done|done].
Qed.

(** What each iteration establishes for its own element, and no other
    iteration undoes, holds of every element when the loop ends. *)
Lemma for_each_Ok_all {A} (P : A → CareerVillage → Prop) (body : A → M unit) l :
  (∀ x s s', x ∈ l → body x s = (Ok tt, s') → P x s') →
  (∀ x y s s', x ∈ l → y ∈ l → body y s = (Ok tt, s') → P x s → P x s') →
  ∀ s s', for_each l body s = (Ok tt, s') → ∀ x, x ∈ l → P x s'.
Proof.
  intros Hown Hother s s' Hrun x Hx.
  revert s Hrun.
  cut (∀ l0 s, l0 ⊆ l → for_each l0 body s = (Ok tt, s') →
         (x ∈ l0 ∨ P x s) → P x s').
  { intros Hcut s Hrun. eapply (Hcut l); [done|done|by left]. }
  induction l0 as [|y l0 IH]; intros s Hsub Hrun Hor.
  - injection Hrun as <-. destruct Hor as [Hin|]; [|done]. by apply elem_of_nil in Hin.
  - simpl in Hrun. apply bind_Ok in Hrun as ([] & s1 & Hy & Hrun).
    assert (y ∈ l) by (apply Hsub; left).
    apply (IH s1); [by intros z Hz; apply Hsub; right|done|].
    destruct Hor as [Hin|HP].
    + apply elem_of_cons in Hin as [->|]; [right|by left]. by eapply Hown.
    + right. by eapply Hother.
Qed.

Lemma for_each_Raise_first {A} (body : A → M unit) l :
  ∀ s, (∃ x, x ∈ l ∧ ∀ s1, ∃ e s2, body x s1 = (Raise e, s2)) →
  ∃ e s', for_each l body s = (Raise e, s').
Proof.
  induction l as [|y l IH]; intros s (x & Hx & Hfail).
  - by apply elem_of_nil in Hx.
  - simpl. destruct (body y s) as [[[]|e] s1] eqn:Hy.
    + rewrite (bind_run _ _ _ _ _ Hy).
      apply elem_of_cons in Hx as [->|Hx].
      * destruct (Hfail s) as (? & ? & ?). congruence.
      * apply IH. eauto.
    + rewrite (bind_run_Raise _ _ _ _ _ Hy). eauto.
Qed.

(** ** Attributes *)

Lemma class_attrs_None k a v : assoc a (class_attrs k) = Some v → v = PyNone.
Proof.
  destruct k; simpl; repeat case_decide; congruence.
Qed.

Lemma getattr_state o a s r s' : getattr o a s = (r, s') → s' = s.
Proof.
  unfold getattr. destruct (attrs s !! (o, a)); [congruence|].
  destruct (assoc a (class_attrs o.1)); congruence.
Qed.

Lemma getattr_instance o a s v :
  attrs s !! (o, a) = Some v → getattr o a s = (Ok v, s).
Proof. unfold getattr. by intros ->. Qed.

Lemma getattr_ScList o a s l s' :
  getattr o a s = (Ok (ScList l), s') → attrs s !! (o, a) = Some (ScList l).
Proof.
  unfold getattr. destruct (attrs s !! (o, a)) as [v|]; [congruence|].
  destruct (assoc a (class_attrs o.1)) as [v|] eqn:Hc; [|done].
  apply class_attrs_None in Hc as ->. done.
Qed.

Lemma getattr_ScFrozenList o a s l s' :
  getattr o a s = (Ok (ScFrozenList l), s') → attrs s !! (o, a) = Some (ScFrozenList l).
Proof.
  unfold getattr. destruct (attrs s !! (o, a)) as [v|]; [congruence|].
  destruct (assoc a (class_attrs o.1)) as [v|] eqn:Hc; [|done].
  apply class_attrs_None in Hc as ->. done.
Qed.

Lemma setattr_run o a v s :
  setattr o a v s = (Ok tt, set_attrs (<[(o, a) := v]> (attrs s)) s).
Proof. done. Qed.

Lemma append_Ok o a x s s' :
  append o a x s = (Ok tt, s') ↔
  ∃ l, attrs s !! (o, a) = Some (ScList l) ∧
       s' = set_attrs (<[(o, a) := ScList (l ++ [x])]> (attrs s)) s.
Proof.
  unfold append, sc_append. split.
  - intros Hrun. apply bind_Ok in Hrun as (v & s1 & Hget & Hrun).
    pose proof (getattr_state _ _ _ _ _ Hget) as ->.
    destruct v as [| |l|]; try done.
    exists l. split; [by eapply getattr_ScList|].
    rewrite setattr_run in Hrun. congruence.
  - intros (l & Hl & ->). by rewrite (bind_run _ _ _ _ _ (getattr_instance _ _ _ _ Hl)).
Qed.

Lemma append_Raise o a x s e s' : append o a x s = (Raise e, s') → s' = s.
Proof.
  unfold append, sc_append. intros Hrun. apply bind_Raise in Hrun as [Hget|(v & s1 & Hget & Hrun)];
    pose proof (getattr_state _ _ _ _ _ Hget) as ->; [done|].
  destruct v; try done; by injection Hrun.
Qed.

Lemma freeze_attr_Ok o a s s' :
  freeze_attr o a s = (Ok tt, s') ↔
  ∃ v l, attrs s !! (o, a) = Some v ∧ (v = ScList l ∨ v = ScFrozenList l) ∧
         s' = set_attrs (<[(o, a) := ScFrozenList l]> (attrs s)) s.
Proof.
  unfold freeze_attr. split.
  - intros Hrun. apply bind_Ok in Hrun as (v & s1 & Hget & Hrun).
    pose proof (getattr_state _ _ _ _ _ Hget) as ->.
    apply bind_Ok in Hrun as (fl & s1 & Hfl & Hrun).
    apply lift_Ok in Hfl as [Hfl ->]. rewrite setattr_run in Hrun.
    destruct v as [| |l|l]; try done; injection Hfl as <-.
    + exists (ScList l), l. split; [by eapply getattr_ScList|]. split; [by left|congruence].
    + exists (ScFrozenList l), l.
      split; [by eapply getattr_ScFrozenList|]. split; [by right|congruence].
  - intros (v & l & Hv & Hor & ->).
    rewrite (bind_run _ _ _ _ _ (getattr_instance _ _ _ _ Hv)).
    by destruct Hor as [-> | ->].
Qed.

Lemma freeze_attr_Raise o a s e s' : freeze_attr o a s = (Raise e, s') → s' = s.
Proof.
  unfold freeze_attr. intros Hrun.
  apply bind_Raise in Hrun as [Hget|(v & s1 & Hget & Hrun)];
    pose proof (getattr_state _ _ _ _ _ Hget) as ->; [done|].
  apply bind_Raise in Hrun as [Hfl|(fl & s1 & Hfl & Hrun)]; [by injection Hfl|].
  by rewrite setattr_run in Hrun.
Qed.

Lemma elems_set_attrs_eq o a v s :
  elems (set_attrs (<[(o, a) := v]> (attrs s)) s) o a =
  match v with ScList l | ScFrozenList l => l | _ => [] end.
Proof. unfold elems. simpl. by rewrite lookup_insert_eq. Qed.

Lemma elems_set_attrs_ne o a v s o' a' :
  (o, a) ≠ (o', a') →
  elems (set_attrs (<[(o, a) := v]> (attrs s)) s) o' a' = elems s o' a'.
Proof. intros. unfold elems. simpl. by rewrite lookup_insert_ne. Qed.

(** ** Frames *)

Lemma in_footprint_true F k a : in_footprint F k a = true ↔ (k, a) ∈ F.
Proof.
  unfold in_footprint. rewrite existsb_exists. split.
  - intros ([k' a'] & Hin & Heq). simpl in Heq.
    apply andb_true_iff in Heq as [Hk Ha].
    apply bool_decide_eq_true in Hk as <-. apply String.eqb_eq in Ha as <-.
    by apply list_elem_of_In.
  - intros Hin. exists (k, a). split; [by apply list_elem_of_In|]. simpl.
    rewrite bool_decide_eq_true_2 by done. by rewrite String.eqb_refl.
Qed.

Lemma in_footprint_false F k a : in_footprint F k a = false ↔ (k, a) ∉ F.
Proof.
  rewrite <- in_footprint_true. by destruct (in_footprint F k a).
Qed.

Lemma frame_refl F s : frame F s s.
Proof. by constructor. Qed.

Lemma frame_trans F s1 s2 s3 : frame F s1 s2 → frame F s2 s3 → frame F s1 s3.
Proof.
  intros H12 H23. constructor; [by etrans; [apply H23|apply H12]..| |].
  { intros Hf. by rewrite (frame_school_heap _ _ _ H23), (frame_school_heap _ _ _ H12). }
  intros o a Hf.
  by rewrite (frame_attrs _ _ _ H23), (frame_attrs _ _ _ H12).
Qed.

Lemma frame_weaken F F' s s' : F ⊆ F' → frame F s s' → frame F' s s'.
Proof.
  intros Hsub H. constructor; try apply H.
  { intros Hf. apply (frame_school_heap _ _ _ H).
    apply in_footprint_false. apply in_footprint_false in Hf. set_solver. }
  intros o a Hf. apply (frame_attrs _ _ _ H).
  apply in_footprint_false. apply in_footprint_false in Hf. set_solver.
Qed.

Lemma frame_elems F s s' o a :
  frame F s s' → in_footprint F o.1 a = false → elems s' o a = elems s o a.
Proof. intros H Hf. unfold elems. by rewrite (frame_attrs _ _ _ H). Qed.

Lemma frame_set_attrs F o a v s :
  in_footprint F o.1 a = true → frame F s (set_attrs (<[(o, a) := v]> (attrs s)) s).
Proof.
  intros Hf. constructor; try done. simpl. intros o' a' Hf'.
  apply lookup_insert_ne. congruence.
Qed.

Lemma writes_ret {A} F (a : A) : writes F (mret a).
Proof. intros s r s' [= <- <-]. apply frame_refl. Qed.

Lemma writes_raise {A} F e : writes F (raise e : M A).
Proof. intros s r s' [= <- <-]. apply frame_refl. Qed.

Lemma writes_lift {A} F (x : result A) : writes F (lift x).
Proof. intros s r s' [= <- <-]. apply frame_refl. Qed.

Lemma writes_gets {A} F (f : CareerVillage → A) : writes F (gets f).
Proof. intros s r s' [= <- <-]. apply frame_refl. Qed.

Lemma writes_bind {A B} F (m : M A) (f : A → M B) :
  writes F m → (∀ a, writes F (f a)) → writes F (m ≫= f).
Proof.
  intros Hm Hf s r s' Hrun. destruct r as [b|e].
  - apply bind_Ok in Hrun as (a & s1 & H1 & H2).
    eapply frame_trans; [by eapply Hm|by eapply Hf].
  - apply bind_Raise in Hrun as [H1|(a & s1 & H1 & H2)]; [by eapply Hm|].
    eapply frame_trans; [by eapply Hm|by eapply Hf].
Qed.

Lemma writes_for_each {A} F (body : A → M unit) l :
  (∀ x, x ∈ l → writes F (body x)) → writes F (for_each l body).
Proof.
  intros Hbody s r s' Hrun.
  apply (for_each_inv (frame F s) body l) with (s := s) (r := r); [|apply frame_refl|done].
  intros x s1 r1 s2 Hx Hfr Hx1. eapply frame_trans; [done|]. by eapply Hbody.
Qed.

Lemma writes_setattr F o a v : in_footprint F o.1 a = true → writes F (setattr o a v).
Proof. intros Hf s r s' [= <- <-]. by apply frame_set_attrs. Qed.

Lemma writes_append F o a x : in_footprint F o.1 a = true → writes F (append o a x).
Proof.
  intros Hf s [[]|e] s' Hrun.
  - apply append_Ok in Hrun as (l & _ & ->). by apply frame_set_attrs.
  - apply append_Raise in Hrun as ->. apply frame_refl.
Qed.

Lemma writes_freeze_attr F o a : in_footprint F o.1 a = true → writes F (freeze_attr o a).
Proof.
  intros Hf s [[]|e] s' Hrun.
  - apply freeze_attr_Ok in Hrun as (v & l & _ & _ & ->). by apply frame_set_attrs.
  - apply freeze_attr_Raise in Hrun as ->. apply frame_refl.
Qed.

(** ** Indexes *)

Lemma elem_of_enumerate {X} k (l : list X) o x :
  (o, x) ∈ enumerate k l ↔ o.1 = k ∧ l !! o.2 = Some x.
Proof.
  unfold enumerate. rewrite elem_of_lookup_imap. destruct o as [k' i]. simpl. split.
  - by intros (j & y & [= -> -> ->] & Hy).
  - intros [-> Hx]. eauto.
Qed.

Lemma enumerate_functional {X} k (l : list X) o x y :
  (o, x) ∈ enumerate k l → (o, y) ∈ enumerate k l → x = y.
Proof. rewrite !elem_of_enumerate. intros [_ ?] [_ ?]. congruence. Qed.

Lemma enumerate_fst {X} k (l : list X) : (enumerate k l).*1 = (λ i, (k, i)) <$> seq 0 (length l).
Proof.
  unfold enumerate. rewrite fmap_imap.
  cut (∀ n, imap (λ i x, (k, n + i)) l = (λ i, (k, i)) <$> seq n (length l)).
  { intros Hn. apply (Hn 0). }
  induction l as [|x l IH]; intros n; [done|]. simpl. f_equal; [f_equal; lia|].
  rewrite <- IH. apply imap_ext. intros. simpl. f_equal. lia.
Qed.

Lemma enumerate_snd {X} k (l : list X) : (enumerate k l).*2 = l.
Proof.
  unfold enumerate. rewrite fmap_imap.
  cut (∀ (f : nat → nat), imap (λ i x, ((k, f i), x).2) l = l).
  { intros Hn. apply (Hn id). }
  induction l as [|x l IH]; intros f; [done|]. simpl. f_equal. apply (IH (f ∘ S)).
Qed.

Lemma key_by_from_Ok `{Countable K, PyKey K} {X} (key : X → K) objs acc d :
  key_by_from key objs acc = Ok d →
  NoDup (key <$> objs.*2) ∧
  (∀ x, x ∈ objs.*2 → acc !! key x = None) ∧
  (∀ k o, d !! k = Some o ↔ acc !! k = Some o ∨ ∃ x, (o, x) ∈ objs ∧ key x = k).
Proof.
  revert acc. induction objs as [|[o x] objs IH]; intros acc Hrun; simpl in Hrun.
  - injection Hrun as <-. split; [constructor|]. split; [by intros ? ?%elem_of_nil|].
    intros k o. split; [by left|]. intros [?|(? & ?%elem_of_nil & _)]; done.
  - destruct (acc !! key x) eqn:Hx; [done|].
    apply IH in Hrun as (Hnd & Hfresh & Hd). simpl.
    assert (key x ∉ key <$> objs.*2) as Hnin.
    { intros (y & Heq & Hy)%list_elem_of_fmap. apply Hfresh in Hy.
      rewrite <- Heq, lookup_insert_eq in Hy. done. }
    split; [by constructor|]. split.
    + intros y [->|Hy]%elem_of_cons; [done|].
      apply Hfresh in Hy. rewrite lookup_insert_None in Hy. tauto.
    + intros k o'. rewrite Hd. rewrite lookup_insert_Some. split.
      * intros [[[<- <-]|[? ?]]|(y & Hy & <-)].
        -- right. exists x. split; [left|done].
        -- by left.
        -- right. exists y. split; [by right|done].
      * intros [Hacc|(y & [[= -> ->]|Hy]%elem_of_cons & <-)].
        -- left. right. split; [congruence|done].
        -- left. by left.
        -- right. eauto.
Qed.

Lemma key_by_from_total `{Countable K, PyKey K} {X} (key : X → K) objs acc :
  NoDup (key <$> objs.*2) →
  (∀ x, x ∈ objs.*2 → acc !! key x = None) →
  ∃ d, key_by_from key objs acc = Ok d.
Proof.
  revert acc. induction objs as [|[o x] objs IH]; intros acc Hnd Hfresh; simpl.
  - eauto.
  - rewrite Hfresh by left. simpl in Hnd. apply NoDup_cons in Hnd as [Hnin Hnd].
    apply IH; [done|]. intros y Hy. rewrite lookup_insert_None. split.
    + apply Hfresh. by right.
    + intros Heq. apply Hnin. apply list_elem_of_fmap. eauto.
Qed.

Lemma key_by_Ok `{Countable K, PyKey K} {X} (key : X → K) k (l : list X) d :
  key_by key (enumerate k l) = Ok d →
  NoDup (key <$> l) ∧
  ∀ id o, d !! id = Some o ↔ ∃ x, o.1 = k ∧ l !! o.2 = Some x ∧ key x = id.
Proof.
  intros (Hnd & _ & Hd)%key_by_from_Ok. rewrite enumerate_snd in Hnd.
  split; [done|]. intros id o. rewrite Hd, lookup_empty. split.
  - intros [?|(x & [? ?]%elem_of_enumerate & <-)]; [done|]. by exists x.
  - intros (x & ? & ? & <-). right. exists x. by rewrite elem_of_enumerate.
Qed.

Lemma key_by_total `{Countable K, PyKey K} {X} (key : X → K) k (l : list X) :
  NoDup (key <$> l) → ∃ d, key_by key (enumerate k l) = Ok d.
Proof.
  intros Hnd. apply key_by_from_total; [by rewrite enumerate_snd|].
  intros. apply lookup_empty.
Qed.

Lemma key_by_index_of_kind `{Countable K, PyKey K} {X} (key : X → K) k (l : list X) d :
  key_by key (enumerate k l) = Ok d → index_of_kind [k] d.
Proof.
  intros [_ Hd]%key_by_Ok id o (x & <- & _)%Hd. by left.
Qed.

Lemma union_error_on_overlap_Ok `{Countable K} {V} (a b d : gmap K V) :
  union_error_on_overlap a b = Ok d ↔ a ##ₘ b ∧ d = a ∪ b.
Proof.
  unfold union_error_on_overlap. case_decide; split.
  - by intros [= <-].
  - by intros [_ ->].
  - done.
  - by intros [? _].
Qed.

Lemma union_index_of_kind `{Countable K} ka kb (a b d : gmap K ref) :
  index_of_kind ka a → index_of_kind kb b →
  union_error_on_overlap a b = Ok d → index_of_kind (ka ++ kb) d.
Proof.
  intros Ha Hb [Hdisj ->]%union_error_on_overlap_Ok k o.
  rewrite lookup_union_Some by done. rewrite elem_of_app.
  intros [?%Ha | ?%Hb]; eauto.
Qed.

Lemma writes_bind_lift {A B} F (x : result A) (f : A → M B) :
  (∀ a, x = Ok a → writes F (f a)) → writes F (lift x ≫= f).
Proof.
  intros Hf s r s' Hrun. destruct x as [a|e].
  - rewrite (bind_run _ _ s a s) in Hrun by done. by eapply Hf.
  - rewrite (bind_run_Raise _ _ s e s) in Hrun by done.
    injection Hrun as <- <-. apply frame_refl.
Qed.

Lemma writes_bind_gets {A B} F (g : CareerVillage → A) (f : A → M B) :
  (∀ a, writes F (f a)) → writes F (gets g ≫= f).
Proof. intros Hf. apply writes_bind; [apply writes_gets|done]. Qed.

(** The attribute [a] of an object whose class is one of [ks] is in [F]. *)
Ltac solve_footprint :=
  match goal with
  | H : (?o).1 ∈ _ |- in_footprint _ (?o).1 _ = true =>
      repeat (apply elem_of_cons in H as [H|H]; [by rewrite H|]);
      by apply elem_of_nil in H
  | |- in_footprint _ _ _ = true => reflexivity
  end.

Section Passes.
Context (int : string → option Z).

Lemma writes_link_tag_user tags_by_id users_by_id r :
  index_of_kind [KTag] tags_by_id →
  index_of_kind [KStudent; KProfessional] users_by_id →
  writes F_tag_users (link_tag_user int tags_by_id users_by_id r).
Proof.
  intros Ht Hu. unfold link_tag_user.
  apply writes_bind_lift. intros tag_id _.
  apply writes_bind_lift. intros tag Htag%getitem_Ok%Ht.
  apply writes_bind_lift. intros user (? & _ & Huser%getitem_Ok%Hu)%result_bind_Ok.
  apply writes_bind; [|intros _]; apply writes_append; solve_footprint.
Qed.

Lemma writes_link_group_membership groups_by_id users_by_id r :
  index_of_kind [KGroup] groups_by_id →
  index_of_kind [KStudent; KProfessional] users_by_id →
  writes F_group_memberships (link_group_membership groups_by_id users_by_id r).
Proof.
  intros Hg Hu. unfold link_group_membership.
  apply writes_bind_lift. intros group (? & _ & Hgroup%getitem_Ok%Hg)%result_bind_Ok.
  apply writes_bind_lift. intros user (? & _ & Huser%getitem_Ok%Hu)%result_bind_Ok.
  apply writes_bind; [|intros _]; apply writes_append; solve_footprint.
Qed.

Lemma writes_link_tag_question tags_by_id questions_by_id r :
  index_of_kind [KTag] tags_by_id →
  index_of_kind [KQuestion] questions_by_id →
  writes F_tag_questions (link_tag_question int tags_by_id questions_by_id r).
Proof.
  intros Ht Hq. unfold link_tag_question.
  apply writes_bind_lift. intros tag_id _.
  apply writes_bind_lift. intros tag Htag%getitem_Ok%Ht.
  apply writes_bind_lift. intros question (? & _ & Hquestion%getitem_Ok%Hq)%result_bind_Ok.
  apply writes_bind; [|intros _]; apply writes_append; solve_footprint.
Qed.

Lemma writes_link_question_author users_by_id (question : ref * Question.t) :
  index_of_kind [KStudent; KProfessional] users_by_id →
  question.1.1 = KQuestion →
  writes F_question_authors (link_question_author users_by_id question).
Proof.
  intros Hu Hk. unfold link_question_author.
  apply writes_bind; [apply writes_setattr; by rewrite Hk|intros _].
  destruct (users_by_id !! _) as [user|] eqn:Huser; [|apply writes_ret].
  apply Hu in Huser. apply writes_append; solve_footprint.
Qed.

Lemma writes_link_answer users_by_id questions_by_id (answer : ref * Answer.t) :
  index_of_kind [KStudent; KProfessional] users_by_id →
  index_of_kind [KQuestion] questions_by_id →
  answer.1.1 = KAnswer →
  writes F_answers (link_answer users_by_id questions_by_id answer).
Proof.
  intros Hu Hq Hk. unfold link_answer.
  apply writes_bind; [apply writes_setattr; by rewrite Hk|intros _].
  apply writes_bind.
  { destruct (users_by_id !! _) as [user|] eqn:Huser; [|apply writes_ret].
    apply Hu in Huser. apply writes_append; solve_footprint. }
  intros _. apply writes_bind_lift. intros question Hquestion%getitem_Ok%Hq.
  apply writes_bind; [apply writes_setattr; by rewrite Hk|intros _].
  apply writes_append; solve_footprint.
Qed.

Lemma writes_link_email_recipient professionals_by_id (email : ref * Email.t) :
  index_of_kind [KProfessional] professionals_by_id →
  email.1.1 = KEmail →
  writes F_recipients (link_email_recipient professionals_by_id email).
Proof.
  intros Hp Hk. unfold link_email_recipient.
  apply writes_bind_lift. intros professional Hprofessional%getitem_Ok%Hp.
  apply writes_bind; [apply writes_append; solve_footprint|intros _].
  apply writes_setattr. by rewrite Hk.
Qed.

Lemma writes_link_match emails_by_id questions_by_id r :
  index_of_kind [KEmail] emails_by_id →
  index_of_kind [KQuestion] questions_by_id →
  writes F_matches (link_match emails_by_id questions_by_id r).
Proof.
  intros He Hq. unfold link_match.
  apply writes_bind_lift. intros email (? & _ & Hemail%getitem_Ok%He)%result_bind_Ok.
  apply writes_bind_lift. intros question (? & _ & Hquestion%getitem_Ok%Hq)%result_bind_Ok.
  apply writes_bind; [|intros _]; apply writes_append; solve_footprint.
Qed.

Lemma writes_for_each_in {X} F (xs : CareerVillage → list X) k body :
  (∀ x : ref * X, x.1.1 = k → writes F (body x)) → writes F (for_each_in xs k body).
Proof.
  intros Hbody. unfold for_each_in. apply writes_bind_gets. intros l.
  apply writes_for_each. intros [o x] [Hk _]%elem_of_enumerate. by apply Hbody.
Qed.

End Passes.

(** ** Appending *)

Lemma append_elems_eq o a x s s' :
  append o a x s = (Ok tt, s') → elems s' o a = elems s o a ++ [x].
Proof.
  intros (l & Hl & ->)%append_Ok. rewrite elems_set_attrs_eq.
  unfold elems. by rewrite Hl.
Qed.

Lemma append_elems_ne o a x s s' o' a' :
  append o a x s = (Ok tt, s') → (o, a) ≠ (o', a') → elems s' o' a' = elems s o' a'.
Proof. intros (l & Hl & ->)%append_Ok ?. by apply elems_set_attrs_ne. Qed.

Lemma append_lookup_ne o a x s s' key :
  append o a x s = (Ok tt, s') → (o, a) ≠ key → attrs s' !! key = attrs s !! key.
Proof. intros (l & Hl & ->)%append_Ok ?. simpl. by apply lookup_insert_ne. Qed.

Lemma append_school_heap o a x s r s' :
  append o a x s = (r, s') → school_heap s' = school_heap s.
Proof.
  destruct r as [[]|e].
  - by intros (l & Hl & ->)%append_Ok.
  - by intros ->%append_Raise.
Qed.

Lemma append_elems_mono o a x s s' o' a' y :
  append o a x s = (Ok tt, s') → y ∈ elems s o' a' → y ∈ elems s' o' a'.
Proof.
  intros Hrun Hy. destruct (decide ((o, a) = (o', a'))) as [[= <- <-]|Hne].
  - rewrite (append_elems_eq _ _ _ _ _ Hrun). apply elem_of_app. by left.
  - by rewrite (append_elems_ne _ _ _ _ _ _ _ Hrun Hne).
Qed.

Lemma append_elems_new o a x s s' :
  append o a x s = (Ok tt, s') → x ∈ elems s' o a.
Proof.
  intros Hrun. rewrite (append_elems_eq _ _ _ _ _ Hrun).
  apply elem_of_app. right. by left.
Qed.

Lemma grows_refl s : grows s s.
Proof. by constructor. Qed.

Lemma grows_trans s1 s2 s3 : grows s1 s2 → grows s2 s3 → grows s1 s3.
Proof.
  intros H12 H23. constructor.
  - etrans; [apply H12|apply H23].
  - intros o a x Ho Hx. apply (grows_elems _ _ H23 o a x).
    + intros Hk. pose proof (prefix_length _ _ (grows_school_heap _ _ H12)).
      specialize (Ho Hk). lia.
    + by apply (grows_elems _ _ H12 o a x).
Qed.

Lemma append_grows o a x s s' : append o a x s = (Ok tt, s') → grows s s'.
Proof.
  intros Hrun. constructor.
  - by rewrite (append_school_heap _ _ _ _ _ _ Hrun).
  - intros o' a' y _. by apply (append_elems_mono o a x).
Qed.

(** ** The local dictionary of schools *)

Lemma odict_lookup_None (d : odict) k : odict_lookup d k = None ↔ k ∉ d.*1.
Proof.
  induction d as [|[k' v] d IH]; simpl.
  - split; [intros _ ?%elem_of_nil|]; done.
  - rewrite not_elem_of_cons. case_decide as Hk.
    + split; [done|]. by intros [? _].
    + rewrite IH. split; [done|]. by intros [_ ?].
Qed.

Lemma odict_lookup_Some (d : odict) k v :
  odict_lookup d k = Some v → ∃ i, d.*1 !! i = Some k ∧ d.*2 !! i = Some v.
Proof.
  induction d as [|[k' v'] d IH]; simpl; [done|].
  case_decide as Hk.
  - intros [= <-]. exists 0. by rewrite Hk.
  - intros (i & ? & ?)%IH. by exists (S i).
Qed.

Lemma school_refs_lookup n i o : school_refs n !! i = Some o → o = (KSchool, i) ∧ i < n.
Proof.
  unfold school_refs. rewrite list_lookup_fmap.
  destruct (seq 0 n !! i) as [j|] eqn:Hj; [|done].
  apply lookup_seq in Hj as [-> ?]. by intros [= <-].
Qed.

Lemma school_refs_S n : school_refs (S n) = school_refs n ++ [(KSchool, n)].
Proof. unfold school_refs. by rewrite seq_S, fmap_app. Qed.

Lemma elem_of_school_refs n o : o ∈ school_refs n ↔ o.1 = KSchool ∧ o.2 < n.
Proof.
  unfold school_refs. rewrite list_elem_of_fmap. setoid_rewrite elem_of_seq.
  destruct o as [k i]. simpl. split.
  - intros (j & [= -> ->] & ?). split; [done|lia].
  - intros [-> ?]. exists i. split; [done|lia].
Qed.

Lemma first_seen_step_spec acc x :
  NoDup acc → NoDup (first_seen_step acc x) ∧
  ∀ z, z ∈ first_seen_step acc x ↔ z ∈ acc ∨ z = x.
Proof.
  intros Hnd. unfold first_seen_step. case_decide as Hx.
  - split; [done|]. intros z. split; [by left|]. by intros [?| ->].
  - split.
    + apply NoDup_app. split; [done|]. split; [|apply NoDup_singleton].
      intros z Hz ->%list_elem_of_singleton. done.
    + intros z. by rewrite elem_of_app, list_elem_of_singleton.
Qed.

Lemma foldl_first_seen_spec l acc :
  NoDup acc → NoDup (foldl first_seen_step acc l) ∧
  ∀ z, z ∈ foldl first_seen_step acc l ↔ z ∈ acc ∨ z ∈ l.
Proof.
  revert acc. induction l as [|x l IH]; intros acc Hnd; simpl.
  - split; [done|]. intros z. split; [by left|]. by intros [?|?%elem_of_nil].
  - destruct (first_seen_step_spec acc x Hnd) as [Hnd' Hin].
    destruct (IH _ Hnd') as [? Hin']. split; [done|].
    intros z. rewrite Hin', Hin, elem_of_cons. tauto.
Qed.

Lemma first_seen_spec l :
  NoDup (first_seen l) ∧ ∀ z, z ∈ first_seen l ↔ z ∈ l.
Proof.
  destruct (foldl_first_seen_spec l [] NoDup_nil_2) as [? Hin]. split; [done|].
  intros z. rewrite Hin. split; [by intros [?%elem_of_nil|?]|by right].
Qed.

(** ** The pass over [school_memberships.csv] *)

Section Schools.
Context (int : string → option Z).

Lemma School_new_run sid s :
  School_new sid s =
  (Ok (KSchool, length (school_heap s)),
   set_attrs (<[((KSchool, length (school_heap s)), "users") := ScList []]> (attrs s))
     (set_school_heap (school_heap s ++ [School.Build_t sid]) s)).
Proof. done. Qed.

Lemma schools_inv_lookup d s sid school :
  schools_inv d s → odict_lookup d sid = Some school →
  ∃ i, school = (KSchool, i) ∧ school_heap s !! i = Some (School.Build_t sid).
Proof.
  intros [Hkeys Hvalues _] (i & Hk & Hv)%odict_lookup_Some.
  unfold odict_values in Hvalues. rewrite Hvalues in Hv. rewrite Hkeys in Hk.
  apply school_refs_lookup in Hv as [-> _]. exists i. split; [done|].
  rewrite list_lookup_fmap in Hk. destruct (school_heap s !! i) as [[sid']|]; [|done].
  simpl in Hk. congruence.
Qed.

(** [schools_by_id[school_id]], or a new school under that identifier. *)
Lemma school_lookup_or_new d sid s school d1 s1 :
  schools_inv d s →
  match odict_lookup d sid with
  | Some school => mret (school, d)
  | None => school ← School_new sid; mret (school, d ++ [(sid, school)])
  end s = (Ok (school, d1), s1) →
  schools_inv d1 s1 ∧ frame F_school_memberships s s1 ∧ grows s s1 ∧
  School.school_id <$> school_heap s1 =
    first_seen_step (School.school_id <$> school_heap s) sid ∧
  ∃ i, school = (KSchool, i) ∧ school_heap s1 !! i = Some (School.Build_t sid).
Proof.
  intros Hinv Hrun. destruct (odict_lookup d sid) as [o|] eqn:Hd.
  - injection Hrun as <- <- <-.
    destruct (schools_inv_lookup _ _ _ _ Hinv Hd) as (i & -> & Hi).
    split; [done|]. split; [apply frame_refl|]. split; [apply grows_refl|].
    split; [|by eauto]. unfold first_seen_step. rewrite decide_True; [done|].
    apply list_elem_of_fmap. exists (School.Build_t sid). split; [done|].
    by eapply list_elem_of_lookup_2.
  - rewrite (bind_run _ _ _ _ _ (School_new_run sid s)) in Hrun.
    injection Hrun as <- <- <-.
    apply odict_lookup_None in Hd. destruct Hinv as [Hkeys Hvalues Hnd].
    rewrite Hkeys in Hd.
    split; [|split; [|split; [|split]]].
    + constructor; simpl.
      * by rewrite !fmap_app, Hkeys.
      * unfold odict_values in *. rewrite fmap_app, Hvalues, length_app.
        simpl. by rewrite Nat.add_1_r, school_refs_S.
      * rewrite fmap_app. apply NoDup_app. split; [done|].
        split; [|apply NoDup_singleton].
        by intros z Hz ->%list_elem_of_singleton.
    + constructor; try done. simpl. intros o a Hf.
      apply lookup_insert_ne. intros [= <- <-]. done.
    + constructor; simpl.
      * by apply prefix_app_r.
      * intros o a x Ho Hx. unfold elems in *. simpl.
        rewrite lookup_insert_ne; [done|].
        intros [= <- <-]. specialize (Ho eq_refl). simpl in Ho. lia.
    + simpl. unfold first_seen_step. rewrite decide_False by done.
      by rewrite fmap_app.
    + exists (length (school_heap s)). split; [done|]. simpl.
      by rewrite lookup_app_r, Nat.sub_diag.
Qed.

Lemma schools_inv_school_heap d s s' :
  school_heap s' = school_heap s → schools_inv d s → schools_inv d s'.
Proof. intros Heq [? ? ?]. constructor; by rewrite Heq. Qed.

Lemma link_school_membership_inv users_by_id d r s d' s' :
  link_school_membership int users_by_id d r s = (Ok d', s') →
  ∃ sid uid school user s1 s2,
    school_membership_ids int r = Some (sid, uid) ∧
    users_by_id !! uid = Some user ∧
    match odict_lookup d sid with
    | Some school => mret (school, d)
    | None => school ← School_new sid; mret (school, d ++ [(sid, school)])
    end s = (Ok (school, d'), s1) ∧
    append school "users" user s1 = (Ok tt, s2) ∧
    append user "schools" school s2 = (Ok tt, s').
Proof.
  intros Hrun. unfold link_school_membership in Hrun.
  apply bind_Ok in Hrun as (sid & ? & [Hsid ->]%lift_Ok & Hrun).
  apply bind_Ok in Hrun as ([school d1] & s1 & Hschool & Hrun).
  apply bind_Ok in Hrun as (user & ? & [Huser ->]%lift_Ok & Hrun).
  apply bind_Ok in Hrun as ([] & s2 & Happ1 & Hrun).
  apply bind_Ok in Hrun as ([] & s3 & Happ2 & Hrun).
  injection Hrun as <- <-.
  apply result_bind_Ok in Hsid as (sid_cell & Hcell%getitem_Ok & Hint).
  apply result_bind_Ok in Huser as (uid & Huid%getitem_Ok & Huser%getitem_Ok).
  exists sid, uid, school, user, s1, s2. split; [|done].
  unfold school_membership_ids. rewrite Hcell. simpl.
  unfold py_int in Hint. destruct (int sid_cell); [|done].
  injection Hint as ->. simpl. by rewrite Huid.
Qed.

Lemma link_school_membership_Ok users_by_id d r s d' s' :
  index_of_kind [KStudent; KProfessional] users_by_id →
  schools_inv d s →
  link_school_membership int users_by_id d r s = (Ok d', s') →
  schools_inv d' s' ∧ frame F_school_memberships s s' ∧ grows s s' ∧
  school_membership_linked int users_by_id r s' ∧
  ∃ sid, fst <$> school_membership_ids int r = Some sid ∧
    School.school_id <$> school_heap s' =
      first_seen_step (School.school_id <$> school_heap s) sid.
Proof.
  intros Hu Hinv
    (sid & uid & school & user & s1 & s2 & Hids & Huser & Hschool & Happ1 & Happ2)
    %link_school_membership_inv.
  apply school_lookup_or_new in Hschool as (Hinv1 & Hfr1 & Hgr1 & Hheap1 & i & -> & Hi);
    [|done].
  pose proof (Hu _ _ Huser) as Hkind.
  assert (school_heap s' = school_heap s1) as Hheap.
  { rewrite (append_school_heap _ _ _ _ _ _ Happ2).
    by rewrite (append_school_heap _ _ _ _ _ _ Happ1). }
  split; [by eapply schools_inv_school_heap|].
  split.
  { eapply frame_trans; [done|]. eapply frame_trans.
    - by eapply (writes_append F_school_memberships (KSchool, i) "users").
    - eapply (writes_append F_school_memberships user "schools"); [|done].
      solve_footprint. }
  split.
  { eapply grows_trans; [done|]. eapply grows_trans; by eapply append_grows. }
  split.
  - exists sid, uid, user, i. split; [done|].
    split; [done|]. split; [by rewrite Hheap|]. split.
    + eapply append_elems_mono; [done|]. by eapply append_elems_new.
    + by eapply append_elems_new.
  - exists sid. split; [by rewrite Hids|by rewrite Hheap].
Qed.

Lemma school_membership_linked_grows users_by_id r s s' :
  index_of_kind [KStudent; KProfessional] users_by_id →
  grows s s' → school_membership_linked int users_by_id r s →
  school_membership_linked int users_by_id r s'.
Proof.
  intros Hu Hgr (sid & uid & user & i & Hids & Huser & Hi & Hin1 & Hin2).
  exists sid, uid, user, i. split; [done|]. split; [done|]. split.
  { by eapply prefix_lookup_Some; [|apply Hgr]. }
  split.
  - apply (grows_elems _ _ Hgr (KSchool, i) "users" user); [|done].
    intros _. simpl. by eapply lookup_lt_Some.
  - apply (grows_elems _ _ Hgr user "schools" (KSchool, i)); [|done].
    intros Hk. apply Hu in Huser. rewrite Hk in Huser.
    repeat (apply elem_of_cons in Huser as [?|Huser]; [done|]).
    by apply elem_of_nil in Huser.
Qed.

(** The rows whose school and user can be read, as pairs. *)
Lemma school_pass users_by_id rows :
  index_of_kind [KStudent; KProfessional] users_by_id →
  ∀ d s d' s',
  schools_inv d s →
  for_fold rows (link_school_membership int users_by_id) d s = (Ok d', s') →
  schools_inv d' s' ∧ frame F_school_memberships s s' ∧ grows s s' ∧
  (∀ r, r ∈ rows → school_membership_linked int users_by_id r s') ∧
  ∃ sids, mapM (λ r, fst <$> school_membership_ids int r) rows = Some sids ∧
    School.school_id <$> school_heap s' =
      foldl first_seen_step (School.school_id <$> school_heap s) sids.
Proof.
  intros Hu. induction rows as [|r rows IH]; intros d s d' s' Hinv Hrun; simpl in Hrun.
  - injection Hrun as <- <-. split; [done|]. split; [apply frame_refl|].
    split; [apply grows_refl|]. split; [by intros ? ?%elem_of_nil|]. by exists [].
  - apply bind_Ok in Hrun as (d1 & s1 & Hbody & Hrun).
    apply link_school_membership_Ok in Hbody
      as (Hinv1 & Hfr1 & Hgr1 & Hlinked & sid & Hsid & Hids1); [|done..].
    apply IH in Hrun as (Hinv' & Hfr & Hgr & Hall & sids & Hsids & Hids); [|done].
    split; [done|]. split; [by eapply frame_trans|].
    split; [by eapply grows_trans|]. split.
    + intros r' [->|Hr']%elem_of_cons; [|by apply Hall].
      by eapply school_membership_linked_grows.
    + exists (sid :: sids). split.
      * rewrite mapM_Some in *. constructor; done.
      * simpl. by rewrite <- Hids1.
Qed.

End Schools.

(** ** Freezing *)

Lemma frozen_of_idemp v : frozen_of (frozen_of v) = frozen_of v.
Proof. by destruct v. Qed.

Lemma freezes_refl s : freezes s s.
Proof. constructor; try done. by left. Qed.

Lemma freezes_trans s1 s2 s3 : freezes s1 s2 → freezes s2 s3 → freezes s1 s3.
Proof.
  intros H12 H23. constructor; [by etrans; [apply H23|apply H12]..|].
  intros key.
  destruct (freezes_attrs _ _ H23 key) as [-> | ->];
    destruct (freezes_attrs _ _ H12 key) as [-> | ->]; try by (left + right).
  right. destruct (attrs s1 !! key) as [v|]; [|done]. simpl. by rewrite frozen_of_idemp.
Qed.

Lemma freezes_lookup s s' key v :
  freezes s s' → attrs s !! key = Some v →
  attrs s' !! key = Some v ∨ attrs s' !! key = Some (frozen_of v).
Proof.
  intros Hfz Hv. destruct (freezes_attrs _ _ Hfz key) as [-> | ->]; rewrite Hv; by (left + right).
Qed.

Lemma freezes_lookup_inv s s' key v' :
  freezes s s' → attrs s' !! key = Some v' →
  ∃ v, attrs s !! key = Some v ∧ (v' = v ∨ v' = frozen_of v).
Proof.
  intros Hfz Hv. destruct (freezes_attrs _ _ Hfz key) as [Heq | Heq]; rewrite Heq in Hv.
  - eauto.
  - destruct (attrs s !! key) as [v|]; [|done]. injection Hv as <-. eauto.
Qed.

Lemma freezes_elems s s' o a : freezes s s' → elems s' o a = elems s o a.
Proof.
  intros Hfz. unfold elems.
  destruct (freezes_attrs _ _ Hfz (o, a)) as [-> | ->]; [done|].
  by destruct (attrs s !! (o, a)) as [[]|].
Qed.

Lemma freezes_frozen s s' key l :
  freezes s s' → attrs s !! key = Some (ScFrozenList l) →
  attrs s' !! key = Some (ScFrozenList l).
Proof. intros Hfz Hv. by destruct (freezes_lookup _ _ _ _ Hfz Hv). Qed.

Lemma freezes_reference s s' key v :
  freezes s s' → v = PyNone ∨ (∃ o, v = Obj o) →
  attrs s !! key = Some v → attrs s' !! key = Some v.
Proof.
  intros Hfz Hv Hkey. destruct (freezes_lookup _ _ _ _ Hfz Hkey) as [|Heq]; [done|].
  rewrite Heq. by destruct Hv as [-> | [o ->]].
Qed.

Lemma freeze_attr_freezes o a s s' : freeze_attr o a s = (Ok tt, s') → freezes s s'.
Proof.
  intros (v & l & Hv & Hor & ->)%freeze_attr_Ok. constructor; try done.
  intros key. simpl. destruct (decide (key = (o, a))) as [->|Hne].
  - right. rewrite lookup_insert_eq, Hv. by destruct Hor as [-> | ->].
  - left. by rewrite lookup_insert_ne.
Qed.

Lemma freeze_attr_frozen o a s s' :
  freeze_attr o a s = (Ok tt, s') → ∃ l, attrs s' !! (o, a) = Some (ScFrozenList l).
Proof.
  intros (v & l & Hv & Hor & ->)%freeze_attr_Ok. exists l. simpl.
  by rewrite lookup_insert_eq.
Qed.

Lemma freeze_attrs_Ok o l s s' :
  freeze_attrs o l s = (Ok tt, s') →
  freezes s s' ∧ ∀ a, a ∈ l → ∃ l', attrs s' !! (o, a) = Some (ScFrozenList l').
Proof.
  revert s. induction l as [|a l IH]; intros s Hrun; simpl in Hrun.
  - injection Hrun as <-. split; [apply freezes_refl|]. by intros ? ?%elem_of_nil.
  - apply bind_Ok in Hrun as ([] & s1 & Ha & Hrun).
    apply IH in Hrun as [Hfz Hall]. split.
    + eapply freezes_trans; [by eapply freeze_attr_freezes|done].
    + intros a' [->|Ha']%elem_of_cons; [|by apply Hall].
      destruct (freeze_attr_frozen _ _ _ _ Ha) as [l' Hl']. exists l'.
      by eapply freezes_frozen.
Qed.

(** [_freeze] runs [freeze_attr] over the collections of the class. *)
Lemma _freeze_eq o s : _freeze o s = freeze_attrs o (frozen_attrs o.1) s.
Proof.
  unfold _freeze, Freeze.Tag, Freeze.Professional, Freeze.BasePerson,
    Freeze.Question, Freeze.Email, Freeze.Answer, Freeze.BaseHasUsers.
  destruct o.1; simpl; unfold mbind, M_bind;
    repeat match goal with
    | |- context [freeze_attr ?o ?a ?s] =>
        destruct (freeze_attr o a s) as [[[]|?] ?]
    end; reflexivity.
Qed.

Lemma _freeze_Ok o s s' :
  _freeze o s = (Ok tt, s') →
  freezes s s' ∧ ∀ a, a ∈ frozen_attrs o.1 → ∃ l, attrs s' !! (o, a) = Some (ScFrozenList l).
Proof. rewrite _freeze_eq. apply freeze_attrs_Ok. Qed.

Lemma freeze_list_Ok l s l' s' :
  freeze_list l s = (Ok l', s') →
  l' = l ∧ freezes s s' ∧
  ∀ o a, o ∈ l → a ∈ frozen_attrs o.1 → ∃ fl, attrs s' !! (o, a) = Some (ScFrozenList fl).
Proof.
  unfold freeze_list. intros ([] & s1 & Hrun & [= <- <-])%bind_Ok. split; [done|].
  revert s Hrun. induction l as [|o l IH]; intros s Hrun; simpl in Hrun.
  - injection Hrun as <-. split; [apply freezes_refl|]. by intros ? ? ?%elem_of_nil.
  - apply bind_Ok in Hrun as ([] & s2 & Ho & Hrun).
    apply _freeze_Ok in Ho as [Hfz1 Ho]. apply IH in Hrun as [Hfz Hall].
    split; [by eapply freezes_trans|].
    intros o' a [->|Ho']%elem_of_cons Ha; [|by apply Hall].
    destruct (Ho a Ha) as [fl Hfl]. exists fl. by eapply freezes_frozen.
Qed.

Lemma freeze_collection_Ok {X} k (xs : CareerVillage → list X) s s' :
  freeze_collection k xs s = (Ok tt, s') →
  freezes s s' ∧
  ∀ i a, i < length (xs s) → a ∈ frozen_attrs k →
    ∃ fl, attrs s' !! ((k, i), a) = Some (ScFrozenList fl).
Proof.
  unfold freeze_collection.
  intros (l & ? & [-> ->]%gets_Ok & (l' & s1 & Hrun & [= <-])%bind_Ok)%bind_Ok.
  apply freeze_list_Ok in Hrun as (_ & Hfz & Hall). split; [done|].
  intros i a Hi Ha. apply (Hall (k, i) a); [|done].
  rewrite enumerate_fst. apply list_elem_of_fmap. exists i. split; [done|].
  apply elem_of_seq. lia.
Qed.

Section Link.
Context (int : string → option Z).

Lemma school_pass_frame users_by_id rows :
  index_of_kind [KStudent; KProfessional] users_by_id →
  ∀ d s d' s',
  Forall (λ p, p.2.1 = KSchool) d →
  for_fold rows (link_school_membership int users_by_id) d s = (Ok d', s') →
  frame F_school_memberships s s'.
Proof.
  intros Hu. induction rows as [|r rows IH]; intros d s d' s' Hd Hrun; simpl in Hrun.
  - injection Hrun as <- <-. apply frame_refl.
  - apply bind_Ok in Hrun as (d1 & s1 & Hbody & Hrun).
    unfold link_school_membership in Hbody.
    apply bind_Ok in Hbody as (sid & ? & [Hsid ->]%lift_Ok & Hbody).
    apply bind_Ok in Hbody as ([school d2] & s2 & Hschool & Hbody).
    apply bind_Ok in Hbody as (user & ? & [Huser ->]%lift_Ok & Hbody).
    apply bind_Ok in Hbody as ([] & s3 & Happ1 & Hbody).
    apply bind_Ok in Hbody as ([] & s4 & Happ2 & Hbody).
    injection Hbody as <- <-.
    apply result_bind_Ok in Huser as (uid & _ & Huser%getitem_Ok%Hu).
    assert (frame F_school_memberships s s2 ∧ school.1 = KSchool ∧
            Forall (λ p, p.2.1 = KSchool) d2) as (Hfr & Hk & Hd2).
    { destruct (odict_lookup d sid) as [o|] eqn:Hlookup.
      - injection Hschool as <- <- <-. split; [apply frame_refl|]. split; [|done].
        apply odict_lookup_Some in Hlookup as (i & _ & Hi).
        rewrite list_lookup_fmap in Hi. destruct (d !! i) as [p|] eqn:Hp; [|done].
        injection Hi as <-. by apply (Forall_lookup_1 (λ p : Z * ref, p.2.1 = KSchool) d i p).
      - rewrite (bind_run _ _ _ _ _ (School_new_run sid s)) in Hschool.
        injection Hschool as <- <- <-. split; [|split; [done|]].
        + constructor; try done. simpl. intros o a Hf.
          apply lookup_insert_ne. intros [= <- <-]. done.
        + apply Forall_app. split; [done|]. by constructor. }
    eapply frame_trans; [|by eapply IH].
    eapply frame_trans; [done|]. eapply frame_trans.
    + eapply (writes_append F_school_memberships school "users"); [|done].
      by rewrite Hk.
    + eapply (writes_append F_school_memberships user "schools"); [|done].
      solve_footprint.
Qed.

Lemma index_Ok `{Countable K, PyKey K} {X} (xs : CareerVillage → list X) k
    (key : X → K) s d s' :
  index xs k key s = (Ok d, s') ↔ key_by key (enumerate k (xs s)) = Ok d ∧ s' = s.
Proof.
  unfold index. rewrite bind_Ok. split.
  - by intros (l & ? & [-> ->]%gets_Ok & ?%lift_Ok).
  - intros [? ->]. exists (xs s), s. by rewrite gets_Ok, lift_Ok.
Qed.

Lemma index_run `{Countable K, PyKey K} {X} (xs : CareerVillage → list X) k
    (key : X → K) s :
  index xs k key s = (key_by key (enumerate k (xs s)), s).
Proof. done. Qed.

Lemma for_each_in_run {X} (xs : CareerVillage → list X) k body s :
  for_each_in xs k body s = for_each (enumerate k (xs s)) body s.
Proof. done. Qed.

Lemma link_Ok_stages fs s s' :
  linked s = false → link int fs s = (Ok tt, s') → link_stages int fs s s'.
Proof.
  intros Hlinked Hrun. unfold link in Hrun.
  apply bind_Ok in Hrun as (? & ? & [-> ->]%gets_Ok & Hrun). rewrite Hlinked in Hrun.
  apply bind_Ok in Hrun as ([] & s0 & [= <-] & Hrun).
  apply bind_Ok in Hrun as (? & ? & [-> ->]%gets_Ok & Hrun).
  apply bind_Ok in Hrun as (students_by_id & ? & [Hstudents ->]%index_Ok & Hrun).
  apply bind_Ok in Hrun as (professionals_by_id & ? & [Hprofessionals ->]%index_Ok & Hrun).
  apply bind_Ok in Hrun as (users_by_id & ? & [Husers ->]%lift_Ok & Hrun).
  apply bind_Ok in Hrun as (tags_by_id & ? & [Htags ->]%index_Ok & Hrun).
  apply bind_Ok in Hrun as (tag_users & ? & [Hcsv1 ->]%lift_Ok & Hrun).
  apply bind_Ok in Hrun as ([] & s1 & Hrun1 & Hrun).
  simpl in Hstudents, Hprofessionals, Htags, Hcsv1.
  pose proof (key_by_index_of_kind _ _ _ _ Hstudents) as Hks.
  pose proof (key_by_index_of_kind _ _ _ _ Hprofessionals) as Hkp.
  pose proof (union_index_of_kind _ _ _ _ _ Hks Hkp Husers) as Hku. simpl in Hku.
  pose proof (key_by_index_of_kind _ _ _ _ Htags) as Hkt.
  assert (frame F_tag_users (set_linked true s) s1) as Hframe1.
  { eapply writes_for_each; [|done]. intros. by apply writes_link_tag_user. }
  apply bind_Ok in Hrun as (groups_by_id & ? & [Hgroups ->]%index_Ok & Hrun).
  apply bind_Ok in Hrun as (group_memberships & ? & [Hcsv2 ->]%lift_Ok & Hrun).
  apply bind_Ok in Hrun as ([] & s2 & Hrun2 & Hrun).
  rewrite (frame_groups _ _ _ Hframe1) in Hgroups. simpl in Hgroups, Hcsv2.
  pose proof (key_by_index_of_kind _ _ _ _ Hgroups) as Hkg.
  assert (frame F_group_memberships s1 s2) as Hframe2.
  { eapply writes_for_each; [|done]. intros. by apply writes_link_group_membership. }
  apply bind_Ok in Hrun as (school_memberships & ? & [Hcsv3 ->]%lift_Ok & Hrun).
  apply bind_Ok in Hrun as (schools_by_id & s3 & Hrun3 & Hrun).
  simpl in Hcsv3.
  assert (frame F_school_memberships s2 s3) as Hframe3.
  { by eapply school_pass_frame. }
  apply bind_Ok in Hrun as (questions_by_id & ? & [Hquestions ->]%index_Ok & Hrun).
  apply bind_Ok in Hrun as (tag_questions & ? & [Hcsv4 ->]%lift_Ok & Hrun).
  apply bind_Ok in Hrun as ([] & s4 & Hrun4 & Hrun).
  rewrite (frame_questions _ _ _ Hframe3), (frame_questions _ _ _ Hframe2),
    (frame_questions _ _ _ Hframe1) in Hquestions. simpl in Hquestions, Hcsv4.
  pose proof (key_by_index_of_kind _ _ _ _ Hquestions) as Hkq.
  assert (frame F_tag_questions s3 s4) as Hframe4.
  { eapply writes_for_each; [|done]. intros. by apply writes_link_tag_question. }
  apply bind_Ok in Hrun as ([] & s5 & Hrun5 & Hrun).
  assert (frame F_question_authors s4 s5) as Hframe5.
  { eapply writes_for_each_in; [|done]. intros. by apply writes_link_question_author. }
  rewrite for_each_in_run in Hrun5.
  rewrite (frame_questions _ _ _ Hframe4), (frame_questions _ _ _ Hframe3),
    (frame_questions _ _ _ Hframe2), (frame_questions _ _ _ Hframe1) in Hrun5.
  simpl in Hrun5.
  apply bind_Ok in Hrun as ([] & s6 & Hrun6 & Hrun).
  assert (frame F_answers s5 s6) as Hframe6.
  { eapply writes_for_each_in; [|done]. intros. by apply writes_link_answer. }
  rewrite for_each_in_run in Hrun6.
  rewrite (frame_answers _ _ _ Hframe5), (frame_answers _ _ _ Hframe4),
    (frame_answers _ _ _ Hframe3), (frame_answers _ _ _ Hframe2),
    (frame_answers _ _ _ Hframe1) in Hrun6.
  simpl in Hrun6.
  apply bind_Ok in Hrun as ([] & s7 & Hrun7 & Hrun).
  assert (frame F_recipients s6 s7) as Hframe7.
  { eapply writes_for_each_in; [|done]. intros. by apply writes_link_email_recipient. }
  rewrite for_each_in_run in Hrun7.
  rewrite (frame_emails _ _ _ Hframe6), (frame_emails _ _ _ Hframe5),
    (frame_emails _ _ _ Hframe4), (frame_emails _ _ _ Hframe3),
    (frame_emails _ _ _ Hframe2), (frame_emails _ _ _ Hframe1) in Hrun7.
  simpl in Hrun7.
  apply bind_Ok in Hrun as (emails_by_id & ? & [Hemails ->]%index_Ok & Hrun).
  apply bind_Ok in Hrun as (matches & ? & [Hcsv8 ->]%lift_Ok & Hrun).
  apply bind_Ok in Hrun as ([] & s8 & Hrun8 & Hrun9).
  rewrite (frame_emails _ _ _ Hframe7), (frame_emails _ _ _ Hframe6),
    (frame_emails _ _ _ Hframe5), (frame_emails _ _ _ Hframe4),
    (frame_emails _ _ _ Hframe3), (frame_emails _ _ _ Hframe2),
    (frame_emails _ _ _ Hframe1) in Hemails.
  simpl in Hemails, Hcsv8.
  pose proof (key_by_index_of_kind _ _ _ _ Hemails) as Hke.
  assert (frame F_matches s7 s8) as Hframe8.
  { eapply writes_for_each; [|done]. intros. by apply writes_link_match. }
  by econstructor.
Qed.

End Link.

Lemma freezes_set_schools v s s' :
  freezes s s' → freezes (set_schools v s) (set_schools v s').
Proof. intros H. constructor; try apply H. done. Qed.

Lemma freezing_Ok d s s' :
  freezing d s = (Ok tt, s') →
  freezes (set_schools (Some (odict_values d)) s) s' ∧
  (∀ k i a, k ≠ KSchool → i < count s k → a ∈ frozen_attrs k →
     ∃ fl, attrs s' !! ((k, i), a) = Some (ScFrozenList fl)) ∧
  (∀ o a, o ∈ odict_values d → a ∈ frozen_attrs o.1 →
     ∃ fl, attrs s' !! (o, a) = Some (ScFrozenList fl)).
Proof.
  unfold freezing. intros Hrun.
  apply bind_Ok in Hrun as ([] & s1 & [Hfz1 Hall1]%freeze_collection_Ok & Hrun).
  apply bind_Ok in Hrun as ([] & s2 & [Hfz2 Hall2]%freeze_collection_Ok & Hrun).
  apply bind_Ok in Hrun as (frozen & s3 & (-> & Hfz3 & Hall3)%freeze_list_Ok & Hrun).
  apply bind_Ok in Hrun as ([] & s4 & [= <-] & Hrun).
  apply bind_Ok in Hrun as ([] & s5 & [Hfz5 Hall5]%freeze_collection_Ok & Hrun).
  apply bind_Ok in Hrun as ([] & s6 & [Hfz6 Hall6]%freeze_collection_Ok & Hrun).
  apply bind_Ok in Hrun as ([] & s7 & [Hfz7 Hall7]%freeze_collection_Ok & Hrun).
  apply bind_Ok in Hrun as ([] & s8 & [Hfz8 Hall8]%freeze_collection_Ok & Hrun).
  apply freeze_collection_Ok in Hrun as [Hfz9 Hall9].
  pose proof (freezes_trans _ _ _ Hfz1 Hfz2) as Hfz12.
  pose proof (freezes_trans _ _ _ Hfz12 Hfz3) as Hfz13.
  pose proof (freezes_set_schools (Some (odict_values d)) _ _ Hfz13) as Hfz14.
  pose proof (freezes_trans _ _ _ Hfz14 Hfz5) as Hfz15.
  pose proof (freezes_trans _ _ _ Hfz15 Hfz6) as Hfz16.
  pose proof (freezes_trans _ _ _ Hfz16 Hfz7) as Hfz17.
  pose proof (freezes_trans _ _ _ Hfz17 Hfz8) as Hfz18.
  pose proof (freezes_trans _ _ _ Hfz18 Hfz9) as Hfz19.
  split; [done|].
  assert (∀ key fl, attrs s3 !! key = Some (ScFrozenList fl) →
            attrs s' !! key = Some (ScFrozenList fl)) as Hkeep3.
  { intros key fl Hfl. eapply freezes_frozen; [exact Hfz9|].
    eapply freezes_frozen; [exact Hfz8|]. eapply freezes_frozen; [exact Hfz7|].
    eapply freezes_frozen; [exact Hfz6|]. eapply freezes_frozen; [exact Hfz5|]. done. }
  split.
  - intros k i a Hk Hi Ha. destruct k; simpl in Hi; try done.
    + destruct (Hall1 i a Hi Ha) as [fl Hfl]. exists fl. apply Hkeep3.
      eapply freezes_frozen; [exact Hfz3|]. eapply freezes_frozen; [exact Hfz2|done].
    + rewrite <- (freezes_groups _ _ Hfz1) in Hi.
      destruct (Hall2 i a Hi Ha) as [fl Hfl]. exists fl. apply Hkeep3.
      eapply freezes_frozen; [exact Hfz3|done].
    + rewrite <- (freezes_students _ _ Hfz13) in Hi.
      destruct (Hall5 i a Hi Ha) as [fl Hfl]. exists fl.
      eapply freezes_frozen; [exact Hfz9|]. eapply freezes_frozen; [exact Hfz8|].
      eapply freezes_frozen; [exact Hfz7|]. eapply freezes_frozen; [exact Hfz6|done].
    + pose proof (freezes_professionals _ _ Hfz15) as Heq. simpl in Heq. rewrite <- Heq in Hi.
      destruct (Hall6 i a Hi Ha) as [fl Hfl]. exists fl.
      eapply freezes_frozen; [exact Hfz9|]. eapply freezes_frozen; [exact Hfz8|].
      eapply freezes_frozen; [exact Hfz7|done].
    + pose proof (freezes_questions _ _ Hfz16) as Heq. simpl in Heq. rewrite <- Heq in Hi.
      destruct (Hall7 i a Hi Ha) as [fl Hfl]. exists fl.
      eapply freezes_frozen; [exact Hfz9|]. eapply freezes_frozen; [exact Hfz8|done].
    + pose proof (freezes_answers _ _ Hfz17) as Heq. simpl in Heq. rewrite <- Heq in Hi.
      destruct (Hall8 i a Hi Ha) as [fl Hfl]. exists fl.
      eapply freezes_frozen; [exact Hfz9|done].
    + pose proof (freezes_emails _ _ Hfz18) as Heq. simpl in Heq. rewrite <- Heq in Hi. by apply Hall9.
  - intros o a Ho Ha. destruct (Hall3 o a Ho Ha) as [fl Hfl]. exists fl. by apply Hkeep3.
Qed.

(** ** The passes over the entities *)

Lemma setattr_Ok o a v s s' :
  setattr o a v s = (Ok tt, s') ↔ s' = set_attrs (<[(o, a) := v]> (attrs s)) s.
Proof. rewrite setattr_run. split; [by intros [= <-]|by intros ->]. Qed.

Lemma setattr_elems_mono o a v s s' o' a' x :
  setattr o a v s = (Ok tt, s') → a ≠ a' → x ∈ elems s o' a' → x ∈ elems s' o' a'.
Proof.
  intros ->%setattr_Ok Hne. rewrite elems_set_attrs_ne; [done|]. congruence.
Qed.

Lemma setattr_lookup_ne o a v s s' key :
  setattr o a v s = (Ok tt, s') → (o, a) ≠ key → attrs s' !! key = attrs s !! key.
Proof. intros ->%setattr_Ok ?. simpl. by apply lookup_insert_ne. Qed.

Lemma setattr_lookup_eq o a v s s' :
  setattr o a v s = (Ok tt, s') → attrs s' !! (o, a) = Some v.
Proof. intros ->%setattr_Ok. simpl. by apply lookup_insert_eq. Qed.

Lemma link_answer_Ok users_by_id questions_by_id x s s' :
  link_answer users_by_id questions_by_id x s = (Ok tt, s') →
  ∃ question s1 s2 s3,
    questions_by_id !! Answer.question_id x.2 = Some question ∧
    setattr x.1 "author" (of_option (users_by_id !! Answer.author_id x.2)) s = (Ok tt, s1) ∧
    match users_by_id !! Answer.author_id x.2 with
    | Some user => append user "answers" x.1 s1 = (Ok tt, s2)
    | None => s2 = s1
    end ∧
    setattr x.1 "question" (Obj question) s2 = (Ok tt, s3) ∧
    append question "answers" x.1 s3 = (Ok tt, s').
Proof.
  unfold link_answer. intros Hrun.
  apply bind_Ok in Hrun as ([] & s1 & Hset1 & Hrun).
  apply bind_Ok in Hrun as ([] & s2 & Hauthor & Hrun).
  apply bind_Ok in Hrun as (question & ? & [Hq%getitem_Ok ->]%lift_Ok & Hrun).
  apply bind_Ok in Hrun as ([] & s3 & Hset2 & Hrun).
  exists question, s1, s2, s3. split; [done|]. split; [done|]. split; [|done].
  destruct (users_by_id !! _); [done|]. by injection Hauthor.
Qed.

Lemma link_answer_own users_by_id questions_by_id x s s' :
  link_answer users_by_id questions_by_id x s = (Ok tt, s') →
  answer_linked users_by_id questions_by_id x s'.
Proof.
  intros (question & s1 & s2 & s3 & Hq & Hset1 & Hauthor & Hset2 & Happ)%link_answer_Ok.
  split; [|split].
  - rewrite (append_lookup_ne _ _ _ _ _ _ Happ) by congruence.
    rewrite (setattr_lookup_ne _ _ _ _ _ _ Hset2) by congruence.
    destruct (users_by_id !! _) as [user|].
    + rewrite (append_lookup_ne _ _ _ _ _ _ Hauthor) by congruence.
      by eapply setattr_lookup_eq.
    + subst s2. by eapply setattr_lookup_eq.
  - intros user Huser. rewrite Huser in Hauthor.
    eapply append_elems_mono; [done|].
    eapply setattr_elems_mono; [done..|]. by eapply append_elems_new.
  - exists question. split; [done|]. split.
    + rewrite (append_lookup_ne _ _ _ _ _ _ Happ) by congruence.
      by eapply setattr_lookup_eq.
    + by eapply append_elems_new.
Qed.

Lemma link_answer_other users_by_id questions_by_id x y s s' :
  (y.1 = x.1 → y = x) →
  link_answer users_by_id questions_by_id y s = (Ok tt, s') →
  answer_linked users_by_id questions_by_id x s →
  answer_linked users_by_id questions_by_id x s'.
Proof.
  intros Hxy Hrun (Hauthor & Hanswers & question & Hq & Hquestion & Hin).
  destruct (decide (y.1 = x.1)) as [Heq|Hne].
  { apply Hxy in Heq as ->. by eapply link_answer_own. }
  apply link_answer_Ok in Hrun
    as (qy & s1 & s2 & s3 & Hqy & Hset1 & Hauthory & Hset2 & Happ).
  assert (∀ o a z, z ∈ elems s o a → a = "answers" → z ∈ elems s' o a) as Hmono.
  { intros o a z Hz ->. eapply append_elems_mono; [done|].
    eapply setattr_elems_mono; [done..|].
    destruct (users_by_id !! Answer.author_id y.2) as [user|].
    - eapply append_elems_mono; [done|]. by eapply setattr_elems_mono.
    - subst s2. by eapply setattr_elems_mono. }
  assert (∀ a, a ≠ "answers" → attrs s' !! (x.1, a) = attrs s !! (x.1, a)) as Hkeep.
  { intros a Ha. rewrite (append_lookup_ne _ _ _ _ _ _ Happ) by congruence.
    rewrite (setattr_lookup_ne _ _ _ _ _ _ Hset2) by congruence.
    destruct (users_by_id !! Answer.author_id y.2) as [user|].
    - rewrite (append_lookup_ne _ _ _ _ _ _ Hauthory) by congruence.
      by rewrite (setattr_lookup_ne _ _ _ _ _ _ Hset1) by congruence.
    - subst s2. by rewrite (setattr_lookup_ne _ _ _ _ _ _ Hset1) by congruence. }
  split; [by rewrite Hkeep|]. split; [by eauto|].
  exists question. split; [done|]. split; [by rewrite Hkeep|by eauto].
Qed.

Lemma answers_pass users_by_id questions_by_id (l : list Answer.t) s s' :
  for_each (enumerate KAnswer l) (link_answer users_by_id questions_by_id) s = (Ok tt, s') →
  ∀ x, x ∈ enumerate KAnswer l → answer_linked users_by_id questions_by_id x s'.
Proof.
  apply for_each_Ok_all.
  - intros x s1 s2 _. apply link_answer_own.
  - intros [o x] [o' y] s1 s2 Hx Hy. apply link_answer_other.
    simpl. intros ->. f_equal. by eapply enumerate_functional.
Qed.

Lemma link_question_author_Ok users_by_id x s s' :
  link_question_author users_by_id x s = (Ok tt, s') →
  ∃ s1,
    setattr x.1 "author" (of_option (users_by_id !! Question.author_id x.2)) s = (Ok tt, s1) ∧
    match users_by_id !! Question.author_id x.2 with
    | Some user => append user "questions" x.1 s1 = (Ok tt, s')
    | None => s' = s1
    end.
Proof.
  unfold link_question_author. intros Hrun.
  apply bind_Ok in Hrun as ([] & s1 & Hset & Hrun). exists s1. split; [done|].
  destruct (users_by_id !! _); [done|]. by injection Hrun.
Qed.

Lemma link_question_author_own users_by_id x s s' :
  link_question_author users_by_id x s = (Ok tt, s') →
  question_linked users_by_id x s'.
Proof.
  intros (s1 & Hset & Hauthor)%link_question_author_Ok. split.
  - destruct (users_by_id !! _) as [user|].
    + rewrite (append_lookup_ne _ _ _ _ _ _ Hauthor) by congruence.
      by eapply setattr_lookup_eq.
    + subst s'. by eapply setattr_lookup_eq.
  - intros user Huser. rewrite Huser in Hauthor. by eapply append_elems_new.
Qed.

Lemma link_question_author_other users_by_id x y s s' :
  (y.1 = x.1 → y = x) →
  link_question_author users_by_id y s = (Ok tt, s') →
  question_linked users_by_id x s → question_linked users_by_id x s'.
Proof.
  intros Hxy Hrun [Hauthor Hquestions].
  destruct (decide (y.1 = x.1)) as [Heq|Hne].
  { apply Hxy in Heq as ->. by eapply link_question_author_own. }
  apply link_question_author_Ok in Hrun as (s1 & Hset & Hauthory). split.
  - destruct (users_by_id !! Question.author_id y.2) as [user|].
    + rewrite (append_lookup_ne _ _ _ _ _ _ Hauthory) by congruence.
      by rewrite (setattr_lookup_ne _ _ _ _ _ _ Hset) by congruence.
    + subst s'. by rewrite (setattr_lookup_ne _ _ _ _ _ _ Hset) by congruence.
  - intros user Huser. specialize (Hquestions user Huser).
    destruct (users_by_id !! Question.author_id y.2) as [usery|].
    + eapply append_elems_mono; [done|]. by eapply setattr_elems_mono.
    + subst s'. by eapply setattr_elems_mono.
Qed.

Lemma questions_pass users_by_id (l : list Question.t) s s' :
  for_each (enumerate KQuestion l) (link_question_author users_by_id) s = (Ok tt, s') →
  ∀ x, x ∈ enumerate KQuestion l → question_linked users_by_id x s'.
Proof.
  apply for_each_Ok_all.
  - intros x s1 s2 _. apply link_question_author_own.
  - intros [o x] [o' y] s1 s2 Hx Hy. apply link_question_author_other.
    simpl. intros ->. f_equal. by eapply enumerate_functional.
Qed.

Lemma link_email_recipient_Ok professionals_by_id x s s' :
  link_email_recipient professionals_by_id x s = (Ok tt, s') →
  ∃ professional s1,
    professionals_by_id !! Email.recipient_id x.2 = Some professional ∧
    append professional "emails" x.1 s = (Ok tt, s1) ∧
    setattr x.1 "recipient" (Obj professional) s1 = (Ok tt, s').
Proof.
  unfold link_email_recipient. intros Hrun.
  apply bind_Ok in Hrun as (professional & ? & [Hp%getitem_Ok ->]%lift_Ok & Hrun).
  apply bind_Ok in Hrun as ([] & s1 & Happ & Hrun). by exists professional, s1.
Qed.

Lemma link_email_recipient_own professionals_by_id x s s' :
  link_email_recipient professionals_by_id x s = (Ok tt, s') →
  email_linked professionals_by_id x s'.
Proof.
  intros (professional & s1 & Hp & Happ & Hset)%link_email_recipient_Ok.
  exists professional. split; [done|]. split; [by eapply setattr_lookup_eq|].
  eapply setattr_elems_mono; [done..|]. by eapply append_elems_new.
Qed.

Lemma link_email_recipient_other professionals_by_id x y s s' :
  (y.1 = x.1 → y = x) →
  link_email_recipient professionals_by_id y s = (Ok tt, s') →
  email_linked professionals_by_id x s → email_linked professionals_by_id x s'.
Proof.
  intros Hxy Hrun (professional & Hp & Hrecipient & Hin).
  destruct (decide (y.1 = x.1)) as [Heq|Hne].
  { apply Hxy in Heq as ->. by eapply link_email_recipient_own. }
  apply link_email_recipient_Ok in Hrun as (py & s1 & Hpy & Happ & Hset).
  exists professional. split; [done|]. split.
  - rewrite (setattr_lookup_ne _ _ _ _ _ _ Hset) by congruence.
    by rewrite (append_lookup_ne _ _ _ _ _ _ Happ) by congruence.
  - eapply setattr_elems_mono; [done..|]. by eapply append_elems_mono.
Qed.

Lemma emails_pass professionals_by_id (l : list Email.t) s s' :
  for_each (enumerate KEmail l) (link_email_recipient professionals_by_id) s = (Ok tt, s') →
  ∀ x, x ∈ enumerate KEmail l → email_linked professionals_by_id x s'.
Proof.
  apply for_each_Ok_all.
  - intros x s1 s2 _. apply link_email_recipient_own.
  - intros [o x] [o' y] s1 s2 Hx Hy. apply link_email_recipient_other.
    simpl. intros ->. f_equal. by eapply enumerate_functional.
Qed.

(** ** Passes that cannot fail *)

Lemma ready_setattr a P o a' v s s' :
  setattr o a' v s = (Ok tt, s') → a' ≠ a → ready a P s → ready a P s'.
Proof.
  intros Hset Hne Hready o' Ho'. destruct (Hready o' Ho') as [l Hl]. exists l.
  rewrite (setattr_lookup_ne _ _ _ _ _ _ Hset); [done|congruence].
Qed.

Lemma ready_append a P o a' x s s' :
  append o a' x s = (Ok tt, s') → ready a P s → ready a P s'.
Proof.
  intros Happ Hready o' Ho'. destruct (Hready o' Ho') as [l Hl].
  destruct (decide ((o, a') = (o', a))) as [[= -> ->]|Hne].
  - apply append_Ok in Happ as (l' & Hl' & ->). simpl.
    rewrite lookup_insert_eq. eauto.
  - exists l. by rewrite (append_lookup_ne _ _ _ _ _ _ Happ).
Qed.

Lemma append_total a (P : ref → Prop) o x s :
  ready a P s → P o → ∃ s', append o a x s = (Ok tt, s').
Proof.
  intros Hready Ho. destruct (Hready o Ho) as [l Hl].
  eexists. apply append_Ok. eauto.
Qed.

Lemma questions_pass_total users_by_id (l : list (ref * Question.t)) s :
  ready "questions" (indexed users_by_id) s →
  ∃ s', for_each l (link_question_author users_by_id) s = (Ok tt, s').
Proof.
  revert s. induction l as [|x l IH]; intros s Hready; simpl; [by eauto|].
  cut (∃ s1, link_question_author users_by_id x s = (Ok tt, s1) ∧
             ready "questions" (indexed users_by_id) s1).
  { intros (s1 & Hx & Hready1). rewrite (bind_run _ _ _ _ _ Hx). by apply IH. }
  unfold link_question_author.
  rewrite (bind_run _ _ _ _ _ (setattr_run _ _ _ _)).
  pose proof (ready_setattr "questions" (indexed users_by_id) x.1 "author"
    (of_option (users_by_id !! Question.author_id x.2)) s _ (setattr_run _ _ _ _)
    ltac:(done) Hready) as Hready1.
  destruct (users_by_id !! Question.author_id x.2) as [user|] eqn:Huser; [|by eauto].
  destruct (append_total _ _ user x.1 _ Hready1) as [s2 Happ]; [by eexists|].
  exists s2. split; [done|]. by eapply ready_append.
Qed.

Lemma answers_pass_total users_by_id questions_by_id (l : list (ref * Answer.t)) s :
  (∀ x, x ∈ l → is_Some (questions_by_id !! Answer.question_id x.2)) →
  ready "answers" (indexed users_by_id) s →
  ready "answers" (indexed questions_by_id) s →
  ∃ s', for_each l (link_answer users_by_id questions_by_id) s = (Ok tt, s').
Proof.
  revert s. induction l as [|x l IH]; intros s Hresolve Hu Hq; simpl; [by eauto|].
  cut (∃ s1, link_answer users_by_id questions_by_id x s = (Ok tt, s1) ∧
             ready "answers" (indexed users_by_id) s1 ∧
             ready "answers" (indexed questions_by_id) s1).
  { intros (s1 & Hx & Hu1 & Hq1). rewrite (bind_run _ _ _ _ _ Hx).
    apply IH; [|done..]. intros y Hy. apply Hresolve. by right. }
  destruct (Hresolve x) as [question Hquestion]; [by left|].
  unfold link_answer.
  rewrite (bind_run _ _ _ _ _ (setattr_run _ _ _ _)).
  set (s1 := set_attrs _ s).
  assert (setattr x.1 "author" (of_option (users_by_id !! Answer.author_id x.2)) s
          = (Ok tt, s1)) as Hset1 by done.
  pose proof (ready_setattr "answers" _ _ _ _ _ _ Hset1 ltac:(done) Hu) as Hu1.
  pose proof (ready_setattr "answers" _ _ _ _ _ _ Hset1 ltac:(done) Hq) as Hq1.
  assert (∃ s2,
    match users_by_id !! Answer.author_id x.2 with
    | Some user => append user "answers" x.1
    | None => mret tt
    end s1 = (Ok tt, s2) ∧
    ready "answers" (indexed users_by_id) s2 ∧
    ready "answers" (indexed questions_by_id) s2) as (s2 & Hauthor & Hu2 & Hq2).
  { destruct (users_by_id !! Answer.author_id x.2) as [user|] eqn:Huser; [|by eauto].
    destruct (append_total _ _ user x.1 _ Hu1) as [s2 Happ]; [by eexists|].
    exists s2. split; [done|]. split; by eapply ready_append. }
  rewrite (bind_run _ _ _ _ _ Hauthor).
  rewrite (bind_run _ _ s2 question s2)
    by (unfold lift, getitem; by rewrite Hquestion).
  rewrite (bind_run _ _ _ _ _ (setattr_run _ _ _ _)).
  set (s3 := set_attrs _ s2).
  assert (setattr x.1 "question" (Obj question) s2 = (Ok tt, s3)) as Hset2 by done.
  pose proof (ready_setattr "answers" _ _ _ _ _ _ Hset2 ltac:(done) Hu2) as Hu3.
  pose proof (ready_setattr "answers" _ _ _ _ _ _ Hset2 ltac:(done) Hq2) as Hq3.
  destruct (append_total _ _ question x.1 _ Hq3) as [s4 Happ]; [by eexists|].
  exists s4. split; [done|]. split; by eapply ready_append.
Qed.

(** ** A fresh graph *)

Lemma init_attrs_empty k a v : assoc a (init_attrs k) = Some v → v = ScList [].
Proof. destruct k; simpl; repeat case_decide; congruence. Qed.

Lemma fresh_elems s o a : fresh s → elems s o a = [].
Proof.
  intros Hfresh. unfold elems.
  destruct (attrs s !! (o, a)) as [v|] eqn:Hv; [|done].
  apply (fresh_attrs _ Hfresh) in Hv. by apply init_attrs_empty in Hv as ->.
Qed.

(** ** When [link] succeeds *)

Lemma count_set_attrs m s k : count (set_attrs m s) k = count s k.
Proof. by destruct k. Qed.

Lemma count_set_schools v s k : count (set_schools v s) k = count s k.
Proof. by destruct k. Qed.

Lemma count_set_linked b s k : count (set_linked b s) k = count s k.
Proof. by destruct k. Qed.

Lemma append_count o a x s s' k :
  append o a x s = (Ok tt, s') → count s' k = count s k.
Proof. intros (l & _ & ->)%append_Ok. apply count_set_attrs. Qed.

Lemma setattr_count o a v s s' k :
  setattr o a v s = (Ok tt, s') → count s' k = count s k.
Proof. intros ->%setattr_Ok. apply count_set_attrs. Qed.

Lemma persists_refl s : persists s s.
Proof. by intros k. Qed.

Lemma persists_trans s1 s2 s3 : persists s1 s2 → persists s2 s3 → persists s1 s3.
Proof. intros H12 H23 k. specialize (H12 k). specialize (H23 k). lia. Qed.

Lemma persists_count s s' : (∀ k, count s' k = count s k) → persists s s'.
Proof. intros Heq k. by rewrite Heq. Qed.

Lemma index_in_persists `{Countable K} s s' (d : gmap K ref) :
  persists s s' → index_in s d → index_in s' d.
Proof. intros Hp Hd k o Ho. specialize (Hd k o Ho). specialize (Hp o.1). lia. Qed.

Lemma key_by_index_in `{Countable K, PyKey K} {X} (key : X → K) k (l : list X) d s :
  key_by key (enumerate k l) = Ok d → length l = count s k → index_in s d.
Proof.
  intros [_ Hd]%key_by_Ok Hlen id o (x & <- & Hx%lookup_lt_Some & _)%Hd. by rewrite <- Hlen.
Qed.

Lemma union_index_in `{Countable K} s (a b d : gmap K ref) :
  index_in s a → index_in s b → union_error_on_overlap a b = Ok d → index_in s d.
Proof.
  intros Ha Hb [Hdisj ->]%union_error_on_overlap_Ok k o.
  rewrite lookup_union_Some by done. intros [?|?]; eauto.
Qed.

Lemma is_collection_kinds ks (o : ref) a :
  o.1 ∈ ks → forallb (λ k, is_collection k a) ks = true → is_collection o.1 a = true.
Proof.
  intros Hk Hall. rewrite forallb_forall in Hall. apply Hall. by apply list_elem_of_In.
Qed.

Lemma mutable_append o a x s s' :
  append o a x s = (Ok tt, s') → mutable s → mutable s'.
Proof.
  intros Happ Hm o' a' Ho' Hc. rewrite (append_count _ _ _ _ _ _ Happ) in Ho'.
  destruct (Hm o' a' Ho' Hc) as [l Hl].
  destruct (decide ((o, a) = (o', a'))) as [[= -> ->]|Hne].
  - apply append_Ok in Happ as (l' & _ & ->). simpl. rewrite lookup_insert_eq. eauto.
  - exists l. by rewrite (append_lookup_ne _ _ _ _ _ _ Happ).
Qed.

Lemma mutable_setattr o a v s s' :
  setattr o a v s = (Ok tt, s') → is_collection o.1 a = false → mutable s → mutable s'.
Proof.
  intros Hset Hnc Hm o' a' Ho' Hc. rewrite (setattr_count _ _ _ _ _ _ Hset) in Ho'.
  destruct (Hm o' a' Ho' Hc) as [l Hl]. exists l.
  rewrite (setattr_lookup_ne _ _ _ _ _ _ Hset); [done|]. intros [= -> ->]. congruence.
Qed.

Lemma mutable_append_total o a x s :
  mutable s → o.2 < count s o.1 → is_collection o.1 a = true →
  ∃ s', append o a x s = (Ok tt, s') ∧ mutable s' ∧ persists s s'.
Proof.
  intros Hm Ho Hc. destruct (Hm o a Ho Hc) as [l Hl].
  assert (∃ s', append o a x s = (Ok tt, s')) as [s' Happ].
  { eexists. apply append_Ok. eauto. }
  exists s'. split; [done|]. split; [by eapply mutable_append|].
  apply persists_count. intros k. by eapply append_count.
Qed.

(** Appending each side to the other, when both are objects of [s]. *)
Lemma append_pair_total (x y : ref) a b s :
  mutable s →
  x.2 < count s x.1 → is_collection x.1 a = true →
  y.2 < count s y.1 → is_collection y.1 b = true →
  ∃ s', (append x a y;; append y b x) s = (Ok tt, s') ∧ mutable s' ∧ persists s s'.
Proof.
  intros Hm Hx Hxa Hy Hyb.
  destruct (mutable_append_total x a y s Hm Hx Hxa) as (s1 & H1 & Hm1 & Hp1).
  destruct (mutable_append_total y b x s1 Hm1) as (s2 & H2 & Hm2 & Hp2); [|done|].
  { specialize (Hp1 y.1). lia. }
  exists s2. rewrite (bind_run _ _ _ _ _ H1). split; [done|]. split; [done|].
  exact (persists_trans _ _ _ Hp1 Hp2).
Qed.

Lemma for_each_total {A} (I : CareerVillage → Prop) (body : A → M unit) l :
  (∀ x s, x ∈ l → I s → ∃ s', body x s = (Ok tt, s') ∧ I s') →
  ∀ s, I s → ∃ s', for_each l body s = (Ok tt, s') ∧ I s'.
Proof.
  induction l as [|x l IH]; intros Hbody s HI; simpl; [by eauto|].
  destruct (Hbody x s) as (s1 & Hx & HI1); [by left|done|].
  rewrite (bind_run _ _ _ _ _ Hx). apply IH; [|done].
  intros y s2 Hy. apply Hbody. by right.
Qed.

(** A row's success does not depend on the state: it resolves. *)
Lemma for_each_Ok_rows {A} (P : A → Prop) (body : A → M unit) l s s' :
  (∀ x s s', body x s = (Ok tt, s') → P x) →
  for_each l body s = (Ok tt, s') → ∀ x, x ∈ l → P x.
Proof.
  intros Hbody Hrun x Hx.
  apply (for_each_Ok_all (λ x _, P x) body l) with (s := s) (s' := s') (x := x); eauto.
Qed.

Section Total.
Context (int : string → option Z).

Lemma link_tag_user_run tags_by_id users_by_id r s tag_id user_id tag user :
  tag_user_ids int r = Some (tag_id, user_id) →
  tags_by_id !! tag_id = Some tag → users_by_id !! user_id = Some user →
  link_tag_user int tags_by_id users_by_id r s
    = (append tag "users" user;; append user "tags" tag) s.
Proof.
  unfold tag_user_ids, link_tag_user. intros Hids Htag Huser.
  destruct (r !! "tag_users_tag_id") as [c|] eqn:Hc; [|done]. simpl in Hids.
  destruct (int c) as [z|] eqn:Hz; [|done]. simpl in Hids.
  destruct (r !! "tag_users_user_id") as [u|] eqn:Hu; [|done].
  injection Hids as -> ->.
  rewrite (bind_run _ _ s tag_id s)
    by (unfold lift, getitem, py_int; rewrite Hc; simpl; by rewrite Hz).
  rewrite (bind_run _ _ s tag s) by (unfold lift, getitem; by rewrite Htag).
  by rewrite (bind_run _ _ s user s)
    by (unfold lift, getitem; rewrite Hu; simpl; by rewrite Huser).
Qed.

Lemma link_tag_user_resolves tags_by_id users_by_id r s s' :
  link_tag_user int tags_by_id users_by_id r s = (Ok tt, s') →
  resolves (tag_user_ids int) tags_by_id users_by_id r.
Proof.
  unfold link_tag_user. intros Hbody.
  apply bind_Ok in Hbody as (tag_id & ? & [Hid ->]%lift_Ok & Hbody).
  apply bind_Ok in Hbody as (tag & ? & [Htag%getitem_Ok ->]%lift_Ok & Hbody).
  apply bind_Ok in Hbody as (user & ? & [Huser ->]%lift_Ok & _).
  apply result_bind_Ok in Hid as (c & Hc%getitem_Ok & Hz).
  apply result_bind_Ok in Huser as (u & Hu%getitem_Ok & Huser%getitem_Ok).
  exists tag_id, u, tag, user. split; [|done].
  unfold tag_user_ids. rewrite Hc. simpl. unfold py_int in Hz.
  destruct (int c); [|done]. injection Hz as ->. simpl. by rewrite Hu.
Qed.

Lemma link_group_membership_run groups_by_id users_by_id r s group_id user_id group user :
  group_membership_ids r = Some (group_id, user_id) →
  groups_by_id !! group_id = Some group → users_by_id !! user_id = Some user →
  link_group_membership groups_by_id users_by_id r s
    = (append group "users" user;; append user "groups" group) s.
Proof.
  unfold group_membership_ids, link_group_membership. intros Hids Hgroup Huser.
  destruct (r !! "group_memberships_group_id") as [g|] eqn:Hg; [|done]. simpl in Hids.
  destruct (r !! "group_memberships_user_id") as [u|] eqn:Hu; [|done].
  injection Hids as -> ->.
  rewrite (bind_run _ _ s group s)
    by (unfold lift, getitem; rewrite Hg; simpl; by rewrite Hgroup).
  by rewrite (bind_run _ _ s user s)
    by (unfold lift, getitem; rewrite Hu; simpl; by rewrite Huser).
Qed.

Lemma link_group_membership_resolves groups_by_id users_by_id r s s' :
  link_group_membership groups_by_id users_by_id r s = (Ok tt, s') →
  resolves group_membership_ids groups_by_id users_by_id r.
Proof.
  unfold link_group_membership. intros Hbody.
  apply bind_Ok in Hbody as (group & ? & [Hgroup ->]%lift_Ok & Hbody).
  apply bind_Ok in Hbody as (user & ? & [Huser ->]%lift_Ok & _).
  apply result_bind_Ok in Hgroup as (g & Hg%getitem_Ok & Hgroup%getitem_Ok).
  apply result_bind_Ok in Huser as (u & Hu%getitem_Ok & Huser%getitem_Ok).
  exists g, u, group, user. split; [|done].
  unfold group_membership_ids. rewrite Hg. simpl. by rewrite Hu.
Qed.

Lemma link_tag_question_run tags_by_id questions_by_id r s tag_id question_id
    tag question :
  tag_question_ids int r = Some (tag_id, question_id) →
  tags_by_id !! tag_id = Some tag → questions_by_id !! question_id = Some question →
  link_tag_question int tags_by_id questions_by_id r s
    = (append question "tags" tag;; append tag "questions" question) s.
Proof.
  unfold tag_question_ids, link_tag_question. intros Hids Htag Hquestion.
  destruct (r !! "tag_questions_tag_id") as [c|] eqn:Hc; [|done]. simpl in Hids.
  destruct (int c) as [z|] eqn:Hz; [|done]. simpl in Hids.
  destruct (r !! "tag_questions_question_id") as [q|] eqn:Hq; [|done].
  injection Hids as -> ->.
  rewrite (bind_run _ _ s tag_id s)
    by (unfold lift, getitem, py_int; rewrite Hc; simpl; by rewrite Hz).
  rewrite (bind_run _ _ s tag s) by (unfold lift, getitem; by rewrite Htag).
  by rewrite (bind_run _ _ s question s)
    by (unfold lift, getitem; rewrite Hq; simpl; by rewrite Hquestion).
Qed.

Lemma link_tag_question_resolves tags_by_id questions_by_id r s s' :
  link_tag_question int tags_by_id questions_by_id r s = (Ok tt, s') →
  resolves (tag_question_ids int) tags_by_id questions_by_id r.
Proof.
  unfold link_tag_question. intros Hbody.
  apply bind_Ok in Hbody as (tag_id & ? & [Hid ->]%lift_Ok & Hbody).
  apply bind_Ok in Hbody as (tag & ? & [Htag%getitem_Ok ->]%lift_Ok & Hbody).
  apply bind_Ok in Hbody as (question & ? & [Hquestion ->]%lift_Ok & _).
  apply result_bind_Ok in Hid as (c & Hc%getitem_Ok & Hz).
  apply result_bind_Ok in Hquestion as (q & Hq%getitem_Ok & Hquestion%getitem_Ok).
  exists tag_id, q, tag, question. split; [|done].
  unfold tag_question_ids. rewrite Hc. simpl. unfold py_int in Hz.
  destruct (int c); [|done]. injection Hz as ->. simpl. by rewrite Hq.
Qed.

Lemma link_match_run emails_by_id questions_by_id r s email_id question_id email question :
  match_ids r = Some (email_id, question_id) →
  emails_by_id !! email_id = Some email → questions_by_id !! question_id = Some question →
  link_match emails_by_id questions_by_id r s
    = (append email "questions" question;; append question "emails" email) s.
Proof.
  unfold match_ids, link_match. intros Hids Hemail Hquestion.
  destruct (r !! "matches_email_id") as [e|] eqn:He; [|done]. simpl in Hids.
  destruct (r !! "matches_question_id") as [q|] eqn:Hq; [|done].
  injection Hids as -> ->.
  rewrite (bind_run _ _ s email s)
    by (unfold lift, getitem; rewrite He; simpl; by rewrite Hemail).
  by rewrite (bind_run _ _ s question s)
    by (unfold lift, getitem; rewrite Hq; simpl; by rewrite Hquestion).
Qed.

Lemma link_match_resolves emails_by_id questions_by_id r s s' :
  link_match emails_by_id questions_by_id r s = (Ok tt, s') →
  resolves match_ids emails_by_id questions_by_id r.
Proof.
  unfold link_match. intros Hbody.
  apply bind_Ok in Hbody as (email & ? & [Hemail ->]%lift_Ok & Hbody).
  apply bind_Ok in Hbody as (question & ? & [Hquestion ->]%lift_Ok & _).
  apply result_bind_Ok in Hemail as (e & He%getitem_Ok & Hemail%getitem_Ok).
  apply result_bind_Ok in Hquestion as (q & Hq%getitem_Ok & Hquestion%getitem_Ok).
  exists e, q, email, question. split; [|done].
  unfold match_ids. rewrite He. simpl. by rewrite Hq.
Qed.

(** A pass over a join table whose rows all resolve. *)
Lemma join_pass_total `{Countable K1, Countable K2} (ids : row → option (K1 * K2))
    (d1 : gmap K1 ref) (d2 : gmap K2 ref) k1 k2 a b (body : row → M unit)
    (swap : bool) rows s :
  index_of_kind k1 d1 → index_of_kind k2 d2 →
  forallb (λ k, is_collection k a) k1 = true →
  forallb (λ k, is_collection k b) k2 = true →
  (∀ r s i1 i2 o1 o2, ids r = Some (i1, i2) → d1 !! i1 = Some o1 → d2 !! i2 = Some o2 →
     body r s = if swap then (append o2 b o1;; append o1 a o2) s
                else (append o1 a o2;; append o2 b o1) s) →
  (∀ r, r ∈ rows → resolves ids d1 d2 r) →
  index_in s d1 → index_in s d2 → mutable s →
  ∃ s', for_each rows body s = (Ok tt, s') ∧ mutable s' ∧ persists s s'.
Proof.
  intros Hk1 Hk2 Ha Hb Hbody Hrows Hin1 Hin2 Hm.
  apply (for_each_total (λ s', mutable s' ∧ persists s s')); [|split; [done|apply persists_refl]].
  intros r s1 Hr [Hm1 Hp1]. destruct (Hrows r Hr) as (i1 & i2 & o1 & o2 & Hids & Ho1 & Ho2).
  rewrite (Hbody r s1 i1 i2 o1 o2 Hids Ho1 Ho2).
  assert (o1.2 < count s1 o1.1) by apply (index_in_persists _ _ _ Hp1 Hin1 _ _ Ho1).
  assert (o2.2 < count s1 o2.1) by apply (index_in_persists _ _ _ Hp1 Hin2 _ _ Ho2).
  assert (is_collection o1.1 a = true) by (eapply is_collection_kinds; [exact (Hk1 _ _ Ho1)|done]).
  assert (is_collection o2.1 b = true) by (eapply is_collection_kinds; [exact (Hk2 _ _ Ho2)|done]).
  destruct swap.
  - destruct (append_pair_total o2 o1 b a s1) as (s2 & Hrun & Hm2 & Hp2); [done..|].
    exists s2. split; [done|]. split; [done|]. exact (persists_trans _ _ _ Hp1 Hp2).
  - destruct (append_pair_total o1 o2 a b s1) as (s2 & Hrun & Hm2 & Hp2); [done..|].
    exists s2. split; [done|]. split; [done|]. exact (persists_trans _ _ _ Hp1 Hp2).
Qed.

End Total.

Section Succeeds.
Context (int : string → option Z).

Lemma fresh_mutable s : fresh s → mutable s.
Proof.
  intros Hfresh o a Ho Hc. unfold is_collection in Hc.
  destruct (assoc a (init_attrs o.1)) as [v|] eqn:Hv; [|done].
  exists []. rewrite (fresh_bound _ Hfresh o a v Ho Hv).
  by apply init_attrs_empty in Hv as ->.
Qed.

Lemma mutable_set_linked b s : mutable s → mutable (set_linked b s).
Proof. intros Hm o a Ho Hc. rewrite count_set_linked in Ho. by apply Hm. Qed.

Lemma link_question_author_total users_by_id (x : ref * Question.t) s :
  index_of_kind [KStudent; KProfessional] users_by_id →
  index_in s users_by_id → x.1.1 = KQuestion → mutable s →
  ∃ s', link_question_author users_by_id x s = (Ok tt, s') ∧ mutable s' ∧ persists s s'.
Proof.
  intros Hku Hin Hk Hm. unfold link_question_author.
  rewrite (bind_run _ _ _ _ _ (setattr_run _ _ _ _)).
  set (s1 := set_attrs _ s).
  assert (setattr x.1 "author" (of_option (users_by_id !! Question.author_id x.2)) s
          = (Ok tt, s1)) as Hset by done.
  assert (mutable s1) as Hm1 by (eapply mutable_setattr; [done|by rewrite Hk|done]).
  assert (persists s s1) as Hp1 by (apply persists_count; intros; apply count_set_attrs).
  destruct (users_by_id !! Question.author_id x.2) as [user|] eqn:Huser; [|by eauto].
  destruct (mutable_append_total user "questions" x.1 s1 Hm1) as (s2 & Happ & Hm2 & Hp2).
  - apply (index_in_persists _ _ _ Hp1 Hin _ _ Huser).
  - eapply is_collection_kinds; [exact (Hku _ _ Huser)|done].
  - exists s2. split; [done|]. split; [done|]. exact (persists_trans _ _ _ Hp1 Hp2).
Qed.

Lemma link_answer_total users_by_id questions_by_id (x : ref * Answer.t) s :
  index_of_kind [KStudent; KProfessional] users_by_id →
  index_of_kind [KQuestion] questions_by_id →
  index_in s users_by_id → index_in s questions_by_id →
  x.1.1 = KAnswer → mutable s →
  is_Some (questions_by_id !! Answer.question_id x.2) →
  ∃ s', link_answer users_by_id questions_by_id x s = (Ok tt, s') ∧
        mutable s' ∧ persists s s'.
Proof.
  intros Hku Hkq Hinu Hinq Hk Hm [question Hquestion]. unfold link_answer.
  rewrite (bind_run _ _ _ _ _ (setattr_run _ _ _ _)).
  set (s1 := set_attrs _ s).
  assert (setattr x.1 "author" (of_option (users_by_id !! Answer.author_id x.2)) s
          = (Ok tt, s1)) as Hset1 by done.
  assert (mutable s1) as Hm1 by (eapply mutable_setattr; [done|by rewrite Hk|done]).
  assert (persists s s1) as Hp1 by (apply persists_count; intros; apply count_set_attrs).
  assert (∃ s2,
    match users_by_id !! Answer.author_id x.2 with
    | Some user => append user "answers" x.1
    | None => mret tt
    end s1 = (Ok tt, s2) ∧ mutable s2 ∧ persists s s2) as (s2 & Hauthor & Hm2 & Hp2).
  { destruct (users_by_id !! Answer.author_id x.2) as [user|] eqn:Huser; [|by eauto].
    destruct (mutable_append_total user "answers" x.1 s1 Hm1) as (s2 & Happ & Hm2 & Hp2).
    - apply (index_in_persists _ _ _ Hp1 Hinu _ _ Huser).
    - eapply is_collection_kinds; [exact (Hku _ _ Huser)|done].
    - exists s2. split; [done|]. split; [done|]. exact (persists_trans _ _ _ Hp1 Hp2). }
  rewrite (bind_run _ _ _ _ _ Hauthor).
  rewrite (bind_run _ _ s2 question s2) by (unfold lift, getitem; by rewrite Hquestion).
  rewrite (bind_run _ _ _ _ _ (setattr_run _ _ _ _)).
  set (s3 := set_attrs _ s2).
  assert (setattr x.1 "question" (Obj question) s2 = (Ok tt, s3)) as Hset2 by done.
  assert (mutable s3) as Hm3 by (eapply mutable_setattr; [done|by rewrite Hk|done]).
  assert (persists s s3) as Hp3.
  { apply (persists_trans _ _ _ Hp2). apply persists_count. intros. apply count_set_attrs. }
  destruct (mutable_append_total question "answers" x.1 s3 Hm3) as (s4 & Happ & Hm4 & Hp4).
  - apply (index_in_persists _ _ _ Hp3 Hinq _ _ Hquestion).
  - eapply is_collection_kinds; [exact (Hkq _ _ Hquestion)|done].
  - exists s4. split; [done|]. split; [done|]. exact (persists_trans _ _ _ Hp3 Hp4).
Qed.

Lemma link_email_recipient_total professionals_by_id (x : ref * Email.t) s :
  index_of_kind [KProfessional] professionals_by_id →
  index_in s professionals_by_id → x.1.1 = KEmail → mutable s →
  is_Some (professionals_by_id !! Email.recipient_id x.2) →
  ∃ s', link_email_recipient professionals_by_id x s = (Ok tt, s') ∧
        mutable s' ∧ persists s s'.
Proof.
  intros Hkp Hin Hk Hm [professional Hp]. unfold link_email_recipient.
  rewrite (bind_run _ _ s professional s) by (unfold lift, getitem; by rewrite Hp).
  destruct (mutable_append_total professional "emails" x.1 s Hm) as (s1 & Happ & Hm1 & Hp1).
  - by eapply Hin.
  - eapply is_collection_kinds; [exact (Hkp _ _ Hp)|done].
  - rewrite (bind_run _ _ _ _ _ Happ). rewrite setattr_run. eexists. split; [done|].
    split.
    + eapply mutable_setattr; [apply setattr_run|by rewrite Hk|done].
    + apply (persists_trans _ _ _ Hp1). apply persists_count. intros. apply count_set_attrs.
Qed.

Lemma entities_pass_total {X} (body : ref * X → M unit) k (l : list X) s :
  (∀ x s', x.1.1 = k → x.2 ∈ l → mutable s' → persists s s' →
     ∃ s'', body x s' = (Ok tt, s'') ∧ mutable s'' ∧ persists s' s'') →
  mutable s →
  ∃ s', for_each (enumerate k l) body s = (Ok tt, s') ∧ mutable s' ∧ persists s s'.
Proof.
  intros Hbody Hm.
  apply (for_each_total (λ s', mutable s' ∧ persists s s')); [|split; [done|apply persists_refl]].
  intros [o x] s1 [Hk Hx]%elem_of_enumerate [Hm1 Hp1].
  destruct (Hbody (o, x) s1) as (s2 & Hrun & Hm2 & Hp2); [done| |done..|].
  { by eapply list_elem_of_lookup_2. }
  exists s2. split; [done|]. split; [done|]. exact (persists_trans _ _ _ Hp1 Hp2).
Qed.

Lemma link_school_membership_total users_by_id d r s :
  index_of_kind [KStudent; KProfessional] users_by_id →
  index_in s users_by_id → schools_inv d s → mutable s →
  school_membership_resolves int users_by_id r →
  ∃ d' s', link_school_membership int users_by_id d r s = (Ok d', s') ∧
           schools_inv d' s' ∧ mutable s' ∧ persists s s'.
Proof.
  intros Hku Hin Hinv Hm (sid & uid & user & Hids & Huser).
  cut (∃ d' s', link_school_membership int users_by_id d r s = (Ok d', s') ∧
                mutable s' ∧ persists s s').
  { intros (d' & s' & Hrun & Hm' & Hp'). exists d', s'. split; [done|].
    split; [|done]. by eapply link_school_membership_Ok. }
  unfold link_school_membership, school_membership_ids in *.
  destruct (r !! "school_memberships_school_id") as [c|] eqn:Hc; [|done]. simpl in Hids.
  destruct (int c) as [z|] eqn:Hz; [|done]. simpl in Hids.
  destruct (r !! "school_memberships_user_id") as [u|] eqn:Hu; [|done].
  injection Hids as -> ->.
  rewrite (bind_run _ _ s sid s)
    by (unfold lift, getitem, py_int; rewrite Hc; simpl; by rewrite Hz).
  assert (∃ school d1 s1,
    match odict_lookup d sid with
    | Some school => mret (school, d)
    | None => school ← School_new sid; mret (school, d ++ [(sid, school)])
    end s = (Ok (school, d1), s1) ∧
    mutable s1 ∧ persists s s1 ∧ school.1 = KSchool ∧ school.2 < count s1 KSchool)
    as (school & d1 & s1 & Hschool & Hm1 & Hp1 & Hk & Hlt).
  { destruct (odict_lookup d sid) as [school|] eqn:Hlookup.
    - destruct (schools_inv_lookup _ _ _ _ Hinv Hlookup) as (i & -> & Hi).
      exists (KSchool, i), d, s. split; [done|]. split; [done|].
      split; [apply persists_refl|]. split; [done|]. simpl. by eapply lookup_lt_Some.
    - rewrite (bind_run _ _ _ _ _ (School_new_run sid s)). eexists _, _, _.
      split; [done|]. split; [|split; [|split; [done|]]].
      + intros o a Ho Hc'. destruct (decide (o = (KSchool, length (school_heap s))))
          as [->|Hne].
        * simpl in Hc'. unfold is_collection in Hc'. simpl in Hc'.
          case_decide as Ha; [|done]. subst a. simpl. rewrite lookup_insert_eq. eauto.
        * simpl. rewrite lookup_insert_ne by congruence. apply Hm; [|done].
          destruct o as [[] i]; simpl in *; try done.
          rewrite length_app in Ho. simpl in Ho.
          assert (i ≠ length (school_heap s)) by congruence. lia.
      + intros k. destruct k; simpl; try done. rewrite length_app. lia.
      + simpl. rewrite length_app. simpl. lia. }
  rewrite (bind_run _ _ _ _ _ Hschool).
  rewrite (bind_run _ _ s1 user s1)
    by (unfold lift, getitem; rewrite Hu; simpl; by rewrite Huser).
  destruct (append_pair_total school user "users" "schools" s1) as (s2 & Hrun & Hm2 & Hp2).
  - done.
  - by rewrite Hk.
  - by rewrite Hk.
  - apply (index_in_persists _ _ _ Hp1 Hin _ _ Huser).
  - eapply is_collection_kinds; [exact (Hku _ _ Huser)|done].
  - apply bind_Ok in Hrun as ([] & s3 & Happ1 & Happ2).
    rewrite (bind_run _ _ _ _ _ Happ1), (bind_run _ _ _ _ _ Happ2).
    eexists _, _. split; [done|]. split; [done|]. exact (persists_trans _ _ _ Hp1 Hp2).
Qed.

Lemma school_pass_total users_by_id rows :
  index_of_kind [KStudent; KProfessional] users_by_id →
  ∀ d s,
  index_in s users_by_id → schools_inv d s → mutable s →
  (∀ r, r ∈ rows → school_membership_resolves int users_by_id r) →
  ∃ d' s', for_fold rows (link_school_membership int users_by_id) d s = (Ok d', s') ∧
           schools_inv d' s' ∧ mutable s' ∧ persists s s'.
Proof.
  intros Hku. induction rows as [|r rows IH]; intros d s Hin Hinv Hm Hrows; simpl.
  - exists d, s. split; [done|]. split; [done|]. split; [done|apply persists_refl].
  - destruct (link_school_membership_total users_by_id d r s)
      as (d1 & s1 & Hrun & Hinv1 & Hm1 & Hp1); [done..|by apply Hrows; left|].
    rewrite (bind_run _ _ _ _ _ Hrun).
    destruct (IH d1 s1) as (d' & s' & Hrun' & Hinv' & Hm' & Hp'); [|done|done| |].
    + by eapply index_in_persists.
    + intros r' Hr'. apply Hrows. by right.
    + exists d', s'. split; [done|]. split; [done|]. split; [done|].
      exact (persists_trans _ _ _ Hp1 Hp').
Qed.

End Succeeds.

(** ** Freezing cannot fail *)

Lemma mutable_listed s : mutable s → listed s.
Proof.
  intros Hm o a Ho Hc. destruct (Hm o a Ho Hc) as [l Hl]. exists (ScList l), l. eauto.
Qed.

Lemma freeze_attr_total o a s :
  listed s → o.2 < count s o.1 → is_collection o.1 a = true →
  ∃ s', freeze_attr o a s = (Ok tt, s') ∧ listed s' ∧ ∀ k, count s' k = count s k.
Proof.
  intros Hl Ho Hc. destruct (Hl o a Ho Hc) as (v & l & Hv & Hor).
  eexists. split; [apply freeze_attr_Ok; by exists v, l|]. split.
  - intros o' a' Ho' Hc'. rewrite count_set_attrs in Ho'. simpl.
    destruct (decide ((o, a) = (o', a'))) as [[= <- <-]|Hne].
    + rewrite lookup_insert_eq. exists (ScFrozenList l), l. eauto.
    + rewrite lookup_insert_ne by done. by apply Hl.
  - intros k. apply count_set_attrs.
Qed.

Lemma freeze_attrs_total o l s :
  listed s → o.2 < count s o.1 → Forall (λ a, is_collection o.1 a = true) l →
  ∃ s', freeze_attrs o l s = (Ok tt, s') ∧ listed s' ∧ ∀ k, count s' k = count s k.
Proof.
  intros Hl Ho Hall. revert s Hl Ho.
  induction Hall as [|a l Ha Hall IH]; intros s Hl Ho; simpl; [by eauto|].
  destruct (freeze_attr_total o a s Hl Ho Ha) as (s1 & Hrun & Hl1 & Hc1).
  rewrite (bind_run _ _ _ _ _ Hrun).
  destruct (IH s1 Hl1) as (s2 & Hrun2 & Hl2 & Hc2); [by rewrite Hc1|].
  exists s2. split; [done|]. split; [done|]. intros k. by rewrite Hc2.
Qed.

Lemma _freeze_total o s :
  listed s → o.2 < count s o.1 →
  ∃ s', _freeze o s = (Ok tt, s') ∧ listed s' ∧ ∀ k, count s' k = count s k.
Proof.
  intros Hl Ho. rewrite _freeze_eq. apply freeze_attrs_total; [done..|].
  destruct o.1; simpl; repeat constructor.
Qed.

Lemma freeze_list_total l s :
  listed s → (∀ o, o ∈ l → o.2 < count s o.1) →
  ∃ s', freeze_list l s = (Ok l, s') ∧ listed s' ∧ ∀ k, count s' k = count s k.
Proof.
  intros Hl Hall. unfold freeze_list.
  cut (∃ s', for_each l _freeze s = (Ok tt, s') ∧ listed s' ∧ ∀ k, count s' k = count s k).
  { intros (s' & Hrun & ?). exists s'. by rewrite (bind_run _ _ _ _ _ Hrun). }
  revert s Hl Hall. induction l as [|o l IH]; intros s Hl Hall; simpl; [by eauto|].
  destruct (_freeze_total o s Hl) as (s1 & Hrun & Hl1 & Hc1); [apply Hall; left|].
  rewrite (bind_run _ _ _ _ _ Hrun).
  destruct (IH s1 Hl1) as (s2 & Hrun2 & Hl2 & Hc2).
  { intros o' Ho'. rewrite Hc1. apply Hall. by right. }
  exists s2. split; [done|]. split; [done|]. intros k. by rewrite Hc2.
Qed.

Lemma freeze_collection_total {X} k (xs : CareerVillage → list X) s :
  length (xs s) = count s k → listed s →
  ∃ s', freeze_collection k xs s = (Ok tt, s') ∧ listed s' ∧ ∀ k, count s' k = count s k.
Proof.
  intros Hlen Hl. unfold freeze_collection.
  rewrite (bind_run _ _ s (xs s) s) by done.
  destruct (freeze_list_total ((enumerate k (xs s)).*1) s Hl) as (s' & Hrun & Hl' & Hc').
  { intros o. rewrite enumerate_fst. intros (i & -> & Hi%elem_of_seq)%list_elem_of_fmap.
    simpl. lia. }
  exists s'. by rewrite (bind_run _ _ _ _ _ Hrun).
Qed.

Lemma listed_set_schools v s : listed s → listed (set_schools v s).
Proof. intros Hl o a Ho Hc. rewrite count_set_schools in Ho. by apply Hl. Qed.

Lemma freezing_total d s :
  listed s → (∀ o, o ∈ odict_values d → o.2 < count s o.1) →
  ∃ s', freezing d s = (Ok tt, s').
Proof.
  intros Hl Hd. unfold freezing.
  destruct (freeze_collection_total KTag tags s eq_refl Hl) as (s1 & H1 & Hl1 & Hc1).
  rewrite (bind_run _ _ _ _ _ H1).
  destruct (freeze_collection_total KGroup groups s1 eq_refl Hl1) as (s2 & H2 & Hl2 & Hc2).
  rewrite (bind_run _ _ _ _ _ H2).
  destruct (freeze_list_total (odict_values d) s2 Hl2) as (s3 & H3 & Hl3 & Hc3).
  { intros o Ho. rewrite Hc2, Hc1. by apply Hd. }
  rewrite (bind_run _ _ _ _ _ H3).
  rewrite (bind_run _ _ s3 tt (set_schools (Some (odict_values d)) s3)) by done.
  pose proof (listed_set_schools (Some (odict_values d)) _ Hl3) as Hl4.
  destruct (freeze_collection_total KStudent students _ eq_refl Hl4) as (s5 & H5 & Hl5 & Hc5).
  rewrite (bind_run _ _ _ _ _ H5).
  destruct (freeze_collection_total KProfessional professionals s5 eq_refl Hl5)
    as (s6 & H6 & Hl6 & Hc6).
  rewrite (bind_run _ _ _ _ _ H6).
  destruct (freeze_collection_total KQuestion questions s6 eq_refl Hl6)
    as (s7 & H7 & Hl7 & Hc7).
  rewrite (bind_run _ _ _ _ _ H7).
  destruct (freeze_collection_total KAnswer answers s7 eq_refl Hl7) as (s8 & H8 & Hl8 & Hc8).
  rewrite (bind_run _ _ _ _ _ H8).
  destruct (freeze_collection_total KEmail emails s8 eq_refl Hl8) as (s9 & H9 & _).
  by exists s9.
Qed.

Section Iff.
Context (int : string → option Z).

(** A fresh graph whose tables are consistent links. *)
Lemma link_succeeds fs s :
  fresh s → consistent int fs s → ∃ s', link int fs s = (Ok tt, s').
Proof.
  intros Hfresh []. unfold link.
  rewrite (bind_run _ _ s (linked s) s) by done. rewrite (fresh_linked _ Hfresh).
  rewrite (bind_run _ _ s tt (set_linked true s)) by done.
  rewrite (bind_run _ _ _ (directory_path s) (set_linked true s)) by done.
  set (s0 := set_linked true s).
  pose proof (mutable_set_linked true s (fresh_mutable s Hfresh)) as Hm0. fold s0 in Hm0.
  rewrite (bind_run _ _ _ students_by_id s0) by (by rewrite index_run, <- Hstudents).
  rewrite (bind_run _ _ _ professionals_by_id s0)
    by (by rewrite index_run, <- Hprofessionals).
  rewrite (bind_run _ _ _ users_by_id s0) by (unfold lift; by rewrite Husers).
  rewrite (bind_run _ _ _ tags_by_id s0) by (by rewrite index_run, <- Htags).
  rewrite (bind_run _ _ _ tag_users s0) by (unfold lift; simpl; by rewrite Hcsv1).
  pose proof (key_by_index_of_kind _ _ _ _ Hstudents) as Hks.
  pose proof (key_by_index_of_kind _ _ _ _ Hprofessionals) as Hkp.
  pose proof (union_index_of_kind _ _ _ _ _ Hks Hkp Husers) as Hku. simpl in Hku.
  pose proof (key_by_index_of_kind _ _ _ _ Htags) as Hkt.
  pose proof (key_by_index_of_kind _ _ _ _ Hgroups) as Hkg.
  pose proof (key_by_index_of_kind _ _ _ _ Hquestions) as Hkq.
  pose proof (key_by_index_of_kind _ _ _ _ Hemails) as Hke.
  pose proof (key_by_index_in _ _ _ _ s0 Hstudents eq_refl) as His.
  pose proof (key_by_index_in _ _ _ _ s0 Hprofessionals eq_refl) as Hip.
  pose proof (union_index_in _ _ _ _ His Hip Husers) as Hiu.
  pose proof (key_by_index_in _ _ _ _ s0 Htags eq_refl) as Hit.
  pose proof (key_by_index_in _ _ _ _ s0 Hgroups eq_refl) as Hig.
  pose proof (key_by_index_in _ _ _ _ s0 Hquestions eq_refl) as Hiq.
  pose proof (key_by_index_in _ _ _ _ s0 Hemails eq_refl) as Hie.
  (* tag_users.csv *)
  destruct (join_pass_total (tag_user_ids int) tags_by_id users_by_id
              [KTag] [KStudent; KProfessional] "users" "tags"
              (link_tag_user int tags_by_id users_by_id) false tag_users s0
              Hkt Hku eq_refl eq_refl
              (λ r s _ _ _ _, link_tag_user_run int _ _ r s _ _ _ _)
              Hrows1 Hit Hiu Hm0)
    as (s1 & Hrun1 & Hm1 & Hp01).
  rewrite (bind_run _ _ _ _ _ Hrun1).
  assert (frame F_tag_users s0 s1) as Hframe1.
  { eapply writes_for_each; [|done]. intros. by apply writes_link_tag_user. }
  (* group_memberships.csv *)
  rewrite (bind_run _ _ _ groups_by_id s1)
    by (rewrite index_run, (frame_groups _ _ _ Hframe1); simpl; by rewrite <- Hgroups).
  rewrite (bind_run _ _ _ group_memberships s1) by (unfold lift; simpl; by rewrite Hcsv2).
  destruct (join_pass_total group_membership_ids groups_by_id users_by_id
              [KGroup] [KStudent; KProfessional] "users" "groups"
              (link_group_membership groups_by_id users_by_id) false group_memberships s1
              Hkg Hku eq_refl eq_refl
              (λ r s _ _ _ _, link_group_membership_run _ _ r s _ _ _ _)
              Hrows2 (index_in_persists _ _ _ Hp01 Hig)
              (index_in_persists _ _ _ Hp01 Hiu) Hm1)
    as (s2 & Hrun2 & Hm2 & Hp12).
  rewrite (bind_run _ _ _ _ _ Hrun2).
  assert (frame F_group_memberships s1 s2) as Hframe2.
  { eapply writes_for_each; [|done]. intros. by apply writes_link_group_membership. }
  pose proof (persists_trans _ _ _ Hp01 Hp12) as Hp02.
  (* school_memberships.csv *)
  rewrite (bind_run _ _ _ school_memberships s2) by (unfold lift; simpl; by rewrite Hcsv3).
  assert (school_heap s2 = []) as Hheap2.
  { rewrite (frame_school_heap _ _ _ Hframe2), (frame_school_heap _ _ _ Hframe1); [|done..].
    apply Hfresh. }
  assert (schools_inv [] s2) as Hinv2.
  { constructor; rewrite Hheap2; [done|done|constructor]. }
  destruct (school_pass_total int users_by_id school_memberships Hku [] s2
              (index_in_persists _ _ _ Hp02 Hiu) Hinv2 Hm2 Hrows3)
    as (schools_by_id & s3 & Hrun3 & Hinv3 & Hm3 & Hp23).
  rewrite (bind_run _ _ _ _ _ Hrun3).
  assert (frame F_school_memberships s2 s3) as Hframe3 by (by eapply school_pass_frame).
  pose proof (persists_trans _ _ _ Hp02 Hp23) as Hp03.
  (* tag_questions.csv *)
  rewrite (bind_run _ _ _ questions_by_id s3).
  2:{ rewrite index_run, (frame_questions _ _ _ Hframe3), (frame_questions _ _ _ Hframe2),
        (frame_questions _ _ _ Hframe1). simpl. by rewrite <- Hquestions. }
  rewrite (bind_run _ _ _ tag_questions s3) by (unfold lift; simpl; by rewrite Hcsv4).
  destruct (join_pass_total (tag_question_ids int) tags_by_id questions_by_id
              [KTag] [KQuestion] "questions" "tags"
              (link_tag_question int tags_by_id questions_by_id) true tag_questions s3
              Hkt Hkq eq_refl eq_refl
              (λ r s _ _ _ _, link_tag_question_run int _ _ r s _ _ _ _)
              Hrows4 (index_in_persists _ _ _ Hp03 Hit)
              (index_in_persists _ _ _ Hp03 Hiq) Hm3)
    as (s4 & Hrun4 & Hm4 & Hp34).
  rewrite (bind_run _ _ _ _ _ Hrun4).
  assert (frame F_tag_questions s3 s4) as Hframe4.
  { eapply writes_for_each; [|done]. intros. by apply writes_link_tag_question. }
  pose proof (persists_trans _ _ _ Hp03 Hp34) as Hp04.
  (* questions *)
  assert (questions s4 = questions s0) as Hq4.
  { by rewrite (frame_questions _ _ _ Hframe4), (frame_questions _ _ _ Hframe3),
      (frame_questions _ _ _ Hframe2), (frame_questions _ _ _ Hframe1). }
  destruct (entities_pass_total (link_question_author users_by_id) KQuestion
              (questions s0) s4) as (s5 & Hrun5 & Hm5 & Hp45); [|done|].
  { intros x s' Hk _ Hm' Hp'. apply link_question_author_total; [done| |done..].
    exact (index_in_persists _ _ _ (persists_trans _ _ _ Hp04 Hp') Hiu). }
  rewrite (bind_run _ _ s4 tt s5) by (by rewrite for_each_in_run, Hq4).
  assert (frame F_question_authors s4 s5) as Hframe5.
  { eapply writes_for_each; [|done]. intros [o x] [Hk _]%elem_of_enumerate.
    by apply writes_link_question_author. }
  pose proof (persists_trans _ _ _ Hp04 Hp45) as Hp05.
  (* answers *)
  assert (answers s5 = answers s0) as Ha5.
  { by rewrite (frame_answers _ _ _ Hframe5), (frame_answers _ _ _ Hframe4),
      (frame_answers _ _ _ Hframe3), (frame_answers _ _ _ Hframe2),
      (frame_answers _ _ _ Hframe1). }
  destruct (entities_pass_total (link_answer users_by_id questions_by_id) KAnswer
              (answers s0) s5) as (s6 & Hrun6 & Hm6 & Hp56); [|done|].
  { intros x s' Hk Hx Hm' Hp'. apply link_answer_total; [done|done| | |done|done|].
    - exact (index_in_persists _ _ _ (persists_trans _ _ _ Hp05 Hp') Hiu).
    - exact (index_in_persists _ _ _ (persists_trans _ _ _ Hp05 Hp') Hiq).
    - by apply Hanswers. }
  rewrite (bind_run _ _ s5 tt s6) by (by rewrite for_each_in_run, Ha5).
  assert (frame F_answers s5 s6) as Hframe6.
  { eapply writes_for_each; [|done]. intros [o x] [Hk _]%elem_of_enumerate.
    by apply writes_link_answer. }
  pose proof (persists_trans _ _ _ Hp05 Hp56) as Hp06.
  (* emails *)
  assert (emails s6 = emails s0) as He6.
  { by rewrite (frame_emails _ _ _ Hframe6), (frame_emails _ _ _ Hframe5),
      (frame_emails _ _ _ Hframe4), (frame_emails _ _ _ Hframe3),
      (frame_emails _ _ _ Hframe2), (frame_emails _ _ _ Hframe1). }
  destruct (entities_pass_total (link_email_recipient professionals_by_id) KEmail
              (emails s0) s6) as (s7 & Hrun7 & Hm7 & Hp67); [|done|].
  { intros x s' Hk Hx Hm' Hp'. apply link_email_recipient_total; [done| |done|done|].
    - exact (index_in_persists _ _ _ (persists_trans _ _ _ Hp06 Hp') Hip).
    - by apply Hrecipients. }
  rewrite (bind_run _ _ s6 tt s7) by (by rewrite for_each_in_run, He6).
  assert (frame F_recipients s6 s7) as Hframe7.
  { eapply writes_for_each; [|done]. intros [o x] [Hk _]%elem_of_enumerate.
    by apply writes_link_email_recipient. }
  pose proof (persists_trans _ _ _ Hp06 Hp67) as Hp07.
  (* matches.csv *)
  rewrite (bind_run _ _ _ emails_by_id s7).
  2:{ rewrite index_run, (frame_emails _ _ _ Hframe7), He6. simpl.
      by rewrite <- Hemails. }
  rewrite (bind_run _ _ _ matches s7) by (unfold lift; simpl; by rewrite Hcsv8).
  destruct (join_pass_total match_ids emails_by_id questions_by_id
              [KEmail] [KQuestion] "questions" "emails"
              (link_match emails_by_id questions_by_id) false matches s7
              Hke Hkq eq_refl eq_refl
              (λ r s _ _ _ _, link_match_run _ _ r s _ _ _ _)
              Hrows8 (index_in_persists _ _ _ Hp07 Hie)
              (index_in_persists _ _ _ Hp07 Hiq) Hm7)
    as (s8 & Hrun8 & Hm8 & Hp78).
  rewrite (bind_run _ _ _ _ _ Hrun8).
  (* freezing *)
  apply freezing_total; [by apply mutable_listed|].
  intros o Ho. unfold odict_values in Ho.
  pose proof (schools_inv_values _ _ Hinv3) as Hvalues. unfold odict_values in Hvalues.
  rewrite Hvalues in Ho. apply elem_of_school_refs in Ho as [Hk Ho].
  rewrite Hk. pose proof (persists_trans _ _ _ Hp34 (persists_trans _ _ _ Hp45
    (persists_trans _ _ _ Hp56 (persists_trans _ _ _ Hp67 Hp78))) KSchool) as Hle.
  simpl in Hle. simpl. lia.
Qed.

Lemma for_fold_Ok_rows {A B} (P : A → Prop) (body : B → A → M B) l :
  (∀ b x s b' s', body b x s = (Ok b', s') → P x) →
  ∀ b s b' s', for_fold l body b s = (Ok b', s') → ∀ x, x ∈ l → P x.
Proof.
  intros Hbody. induction l as [|y l IH]; intros b s b' s' Hrun x Hx; simpl in Hrun.
  - by apply elem_of_nil in Hx.
  - apply bind_Ok in Hrun as (b1 & s1 & Hy & Hrun).
    apply elem_of_cons in Hx as [->|Hx]; [by eapply Hbody|by eapply IH].
Qed.

(** The tables of a graph that [link] has linked are consistent. *)
Lemma link_consistent fs s s' :
  linked s = false → link int fs s = (Ok tt, s') → consistent int fs s.
Proof.
  intros Hlinked Hrun. apply link_Ok_stages in Hrun as []; [|done].
  econstructor; try done.
  - eapply for_each_Ok_rows; [|done]. apply link_tag_user_resolves.
  - eapply for_each_Ok_rows; [|done]. apply link_group_membership_resolves.
  - eapply (for_fold_Ok_rows _ _ _ _ _ _ _ _ Hrun3).
  - eapply for_each_Ok_rows; [|done]. apply link_tag_question_resolves.
  - eapply for_each_Ok_rows; [|done]. apply link_match_resolves.
  - intros answer [i Hi]%list_elem_of_lookup.
    destruct (answers_pass _ _ _ _ _ Hrun6 ((KAnswer, i), answer))
      as (_ & _ & question & Hq & _); [by apply elem_of_enumerate|]. by eexists.
  - intros email [i Hi]%list_elem_of_lookup.
    destruct (emails_pass _ _ _ _ Hrun7 ((KEmail, i), email))
      as (professional & Hp & _); [by apply elem_of_enumerate|]. by eexists.
  Unshelve.
  intros d r s0 d' s0'
    (sid & uid & school & user & ? & ? & Hids & Huser & _)%link_school_membership_inv.
  by exists sid, uid, user.
Qed.

(** A fresh graph links exactly when its tables are consistent. *)
Theorem link_succeeds_iff fs s :
  fresh s → (∃ s', link int fs s = (Ok tt, s')) ↔ consistent int fs s.
Proof.
  intros Hfresh. split.
  - intros [s' Hrun]. eapply link_consistent; [apply Hfresh|done].
  - by apply link_succeeds.
Qed.

End Iff.

(** ** What a successful [link] leaves *)

Section Linked.
Context (int : string → option Z).

Lemma frame_tables F s s' : frame F s s' → tables s' = tables s.
Proof.
  intros H. unfold tables.
  by rewrite (frame_directory_path _ _ _ H), (frame_tags _ _ _ H), (frame_groups _ _ _ H),
    (frame_students _ _ _ H), (frame_professionals _ _ _ H), (frame_questions _ _ _ H),
    (frame_answers _ _ _ H), (frame_emails _ _ _ H).
Qed.

Lemma freezes_tables s s' : freezes s s' → tables s' = tables s.
Proof.
  intros H. unfold tables.
  by rewrite (freezes_directory_path _ _ H), (freezes_tags _ _ H), (freezes_groups _ _ H),
    (freezes_students _ _ H), (freezes_professionals _ _ H), (freezes_questions _ _ H),
    (freezes_answers _ _ H), (freezes_emails _ _ H).
Qed.

Lemma link_tables fs s s' :
  link int fs s = (Ok tt, s') → tables s' = tables s.
Proof.
  intros Hrun. destruct (linked s) eqn:Hlinked.
  { unfold link in Hrun. rewrite (bind_run _ _ _ _ _ (proj2 (gets_Ok linked s _ s) (conj eq_refl eq_refl))) in Hrun.
    rewrite Hlinked in Hrun. by injection Hrun as <-. }
  apply link_Ok_stages in Hrun as []; [|done].
  apply freezing_Ok in Hrun9 as (Hfz & _).
  rewrite (freezes_tables _ _ Hfz).
  change (tables (set_schools (Some (odict_values schools_by_id)) s8)) with (tables s8).
  rewrite (frame_tables _ _ _ Hframe8), (frame_tables _ _ _ Hframe7),
    (frame_tables _ _ _ Hframe6), (frame_tables _ _ _ Hframe5),
    (frame_tables _ _ _ Hframe4), (frame_tables _ _ _ Hframe3),
    (frame_tables _ _ _ Hframe2), (frame_tables _ _ _ Hframe1).
  done.
Qed.

Lemma link_linked fs s s' :
  link int fs s = (Ok tt, s') → linked s' = true.
Proof.
  intros Hrun. destruct (linked s) eqn:Hlinked.
  { unfold link in Hrun. rewrite (bind_run _ _ _ _ _ (proj2 (gets_Ok linked s _ s) (conj eq_refl eq_refl))) in Hrun.
    rewrite Hlinked in Hrun. by injection Hrun as <-. }
  apply link_Ok_stages in Hrun as []; [|done].
  apply freezing_Ok in Hrun9 as (Hfz & _).
  rewrite (freezes_linked _ _ Hfz). simpl.
  by rewrite (frame_linked _ _ _ Hframe8), (frame_linked _ _ _ Hframe7),
    (frame_linked _ _ _ Hframe6), (frame_linked _ _ _ Hframe5),
    (frame_linked _ _ _ Hframe4), (frame_linked _ _ _ Hframe3),
    (frame_linked _ _ _ Hframe2), (frame_linked _ _ _ Hframe1).
Qed.

Lemma stages_users_index s users_by_id students_by_id professionals_by_id :
  key_by Student.students_id (enumerate KStudent (students s)) = Ok students_by_id →
  key_by Professional.professionals_id (enumerate KProfessional (professionals s))
    = Ok professionals_by_id →
  union_error_on_overlap students_by_id professionals_by_id = Ok users_by_id →
  users_index s = Ok users_by_id.
Proof. unfold users_index. by intros -> ->. Qed.

(** C1.  After a successful [link] of a graph that was not linked, the
    [question] of every answer is set: it is the one question whose
    [questions_id] is the answer's [question_id], and the answer is in
    that question's [answers].  When the [question_id] of some answer is
    the identifier of no question, [link] raises instead. *)
Theorem answer_question_resolved fs s :
  linked s = false →
  (∀ s', link int fs s = (Ok tt, s') →
     ∀ i a, answers s' !! i = Some a →
       ∃ q question,
         getattr (KAnswer, i) "question" s' = (Ok (Obj (KQuestion, q)), s') ∧
         questions s' !! q = Some question ∧
         Question.questions_id question = Answer.question_id a ∧
         (∀ q' question', questions s' !! q' = Some question' →
            Question.questions_id question' = Answer.question_id a → q' = q) ∧
         (KAnswer, i) ∈ elems s' (KQuestion, q) "answers") ∧
  ((∃ a, a ∈ answers s ∧
         Answer.question_id a ∉ Question.questions_id <$> questions s) →
   ∃ e s', link int fs s = (Raise e, s')).
Proof.
  intros Hlinked.
  assert (∀ s', link int fs s = (Ok tt, s') →
     ∀ i a, answers s !! i = Some a →
       ∃ q question,
         attrs s' !! ((KAnswer, i), "question") = Some (Obj (KQuestion, q)) ∧
         questions s !! q = Some question ∧
         Question.questions_id question = Answer.question_id a ∧
         (∀ q' question', questions s !! q' = Some question' →
            Question.questions_id question' = Answer.question_id a → q' = q) ∧
         (KAnswer, i) ∈ elems s' (KQuestion, q) "answers") as Hmain.
  { intros s' Hrun i a Ha. apply link_Ok_stages in Hrun as []; [|done].
    destruct (answers_pass _ _ _ _ _ Hrun6 ((KAnswer, i), a))
      as (_ & _ & [k q] & Hq & Hquestion & Hin).
    { by apply elem_of_enumerate. }
    simpl in *. apply key_by_Ok in Hquestions as [Hnd Hindex].
    pose proof Hq as (question & Hk & Hquestion' & Hid)%Hindex. simpl in *. subst k.
    apply freezing_Ok in Hrun9 as (Hfz & _).
    exists q, question. split; [|split; [done|split; [done|split]]].
    - eapply freezes_reference; [done|by eauto|]. simpl.
      rewrite (frame_attrs _ _ _ Hframe8), (frame_attrs _ _ _ Hframe7); done.
    - intros q' question' Hq' Hid'.
      assert (questions_by_id !! Answer.question_id a = Some (KQuestion, q')) as Hq2.
      { apply Hindex. by exists question'. }
      congruence.
    - rewrite (freezes_elems _ _ _ _ Hfz). unfold elems in *. simpl.
      rewrite (frame_attrs _ _ _ Hframe8), (frame_attrs _ _ _ Hframe7); done. }
  split.
  - intros s' Hrun i a Ha.
    pose proof (link_tables _ _ _ Hrun) as [= _ _ _ _ _ Hqs Has _].
    rewrite Has in Ha. rewrite Hqs.
    destruct (Hmain s' Hrun i a Ha) as (q & question & Hget & Hrest).
    exists q, question. split; [by apply getattr_instance|done].
  - intros (a & [i Hi]%list_elem_of_lookup & Hnin).
    destruct (link int fs s) as [[[]|e] s'] eqn:Hrun; [|by eauto].
    destruct (Hmain s' eq_refl i a Hi) as (q & question & _ & Hq & Hid & _).
    contradict Hnin. rewrite <- Hid. apply list_elem_of_fmap. exists question.
    split; [done|]. by eapply list_elem_of_lookup_2.
Qed.

Lemma frame_attrs_kind F s s' ks (o : ref) a :
  frame F s s' → o.1 ∈ ks →
  forallb (λ k, negb (in_footprint F k a)) ks = true →
  attrs s' !! (o, a) = attrs s !! (o, a).
Proof.
  intros Hframe Hk Hall. apply (frame_attrs _ _ _ Hframe).
  rewrite forallb_forall in Hall. apply negb_true_iff, Hall. by apply list_elem_of_In.
Qed.

(** C7.  After a successful [link] of a graph that was not linked, the
    [recipient] of every email is set: it is a professional whose
    [professionals_id] is the email's [recipient_id], and the email is in
    that professional's [emails].  When the [recipient_id] of some email
    is the identifier of no professional, [link] raises instead. *)
Theorem email_recipient_resolved fs s :
  linked s = false →
  (∀ s', link int fs s = (Ok tt, s') →
     ∀ i e, emails s' !! i = Some e →
       ∃ p professional,
         getattr (KEmail, i) "recipient" s' = (Ok (Obj (KProfessional, p)), s') ∧
         professionals s' !! p = Some professional ∧
         Professional.professionals_id professional = Email.recipient_id e ∧
         (KEmail, i) ∈ elems s' (KProfessional, p) "emails") ∧
  ((∃ e, e ∈ emails s ∧
         Email.recipient_id e ∉ Professional.professionals_id <$> professionals s) →
   ∃ err s', link int fs s = (Raise err, s')).
Proof.
  intros Hlinked.
  assert (∀ s', link int fs s = (Ok tt, s') →
     ∀ i e, emails s !! i = Some e →
       ∃ p professional,
         attrs s' !! ((KEmail, i), "recipient") = Some (Obj (KProfessional, p)) ∧
         professionals s !! p = Some professional ∧
         Professional.professionals_id professional = Email.recipient_id e ∧
         (KEmail, i) ∈ elems s' (KProfessional, p) "emails") as Hmain.
  { intros s' Hrun i e He. apply link_Ok_stages in Hrun as []; [|done].
    destruct (emails_pass _ _ _ _ Hrun7 ((KEmail, i), e))
      as ([k p] & Hp & Hrecipient & Hin).
    { by apply elem_of_enumerate. }
    simpl in *. apply key_by_Ok in Hprofessionals as [Hnd Hindex].
    pose proof Hp as (professional & Hk & Hprofessional & Hid)%Hindex. simpl in *. subst k.
    apply freezing_Ok in Hrun9 as (Hfz & _).
    exists p, professional. split; [|split; [done|split; [done|]]].
    - eapply freezes_reference; [done|by eauto|]. simpl.
      rewrite (frame_attrs _ _ _ Hframe8); done.
    - rewrite (freezes_elems _ _ _ _ Hfz). unfold elems in *. simpl.
      rewrite (frame_attrs _ _ _ Hframe8); done. }
  split.
  - intros s' Hrun i e He.
    pose proof (link_tables _ _ _ Hrun) as [= _ _ _ _ Hps _ _ Hes].
    rewrite Hes in He. rewrite Hps.
    destruct (Hmain s' Hrun i e He) as (p & professional & Hget & Hrest).
    exists p, professional. split; [by apply getattr_instance|done].
  - intros (e & [i Hi]%list_elem_of_lookup & Hnin).
    destruct (link int fs s) as [[[]|err] s'] eqn:Hrun; [|by eauto].
    destruct (Hmain s' eq_refl i e Hi) as (p & professional & _ & Hp & Hid & _).
    contradict Hnin. rewrite <- Hid. apply list_elem_of_fmap. exists professional.
    split; [done|]. by eapply list_elem_of_lookup_2.
Qed.

(** C2.  Resolving an author tolerates a miss.  For a question whose
    [author_id] is not in the user index, the step sets [author] to
    [None] and raises nothing, whatever the state; likewise for an answer,
    whose step then goes on to its question.  The pass over the questions
    raises nothing, whatever their author identifiers, when the
    [questions] of the users are lists that can grow; so does the pass
    over the answers when, besides, every answer has its question.  A
    freshly constructed graph links without error exactly when its tables
    are [consistent], a condition that asks nothing of any [author_id].
    After a successful [link],
    the [author] of every question and of every answer is what the user
    index has under its [author_id], [None] when it has nothing, and a
    user so found has the question in its [questions], or the answer in
    its [answers]. *)
Theorem author_resolution_tolerant :
  (∀ users_by_id (question : ref * Question.t) s,
     users_by_id !! Question.author_id question.2 = None →
     link_question_author users_by_id question s =
       (Ok tt, set_attrs (<[(question.1, "author") := PyNone]> (attrs s)) s)) ∧
  (∀ users_by_id questions_by_id (answer : ref * Answer.t) s question l,
     users_by_id !! Answer.author_id answer.2 = None →
     questions_by_id !! Answer.question_id answer.2 = Some question →
     attrs s !! (question, "answers") = Some (ScList l) →
     ∃ s', link_answer users_by_id questions_by_id answer s = (Ok tt, s') ∧
           attrs s' !! (answer.1, "author") = Some PyNone) ∧
  (∀ users_by_id (questions : list Question.t) s,
     ready "questions" (indexed users_by_id) s →
     ∃ s', for_each (enumerate KQuestion questions)
             (link_question_author users_by_id) s = (Ok tt, s')) ∧
  (∀ users_by_id questions_by_id (answers : list Answer.t) s,
     (∀ answer, answer ∈ answers →
        is_Some (questions_by_id !! Answer.question_id answer)) →
     ready "answers" (indexed users_by_id) s →
     ready "answers" (indexed questions_by_id) s →
     ∃ s', for_each (enumerate KAnswer answers)
             (link_answer users_by_id questions_by_id) s = (Ok tt, s')) ∧
  (∀ fs s,
     fresh s → (∃ s', link int fs s = (Ok tt, s')) ↔ consistent int fs s) ∧
  (∀ fs s s',
     linked s = false → link int fs s = (Ok tt, s') →
     ∃ users_by_id,
       users_index s = Ok users_by_id ∧
       (∀ i question, questions s' !! i = Some question →
          getattr (KQuestion, i) "author" s' =
            (Ok (of_option (users_by_id !! Question.author_id question)), s') ∧
          ∀ user, users_by_id !! Question.author_id question = Some user →
            (KQuestion, i) ∈ elems s' user "questions") ∧
       (∀ i answer, answers s' !! i = Some answer →
          getattr (KAnswer, i) "author" s' =
            (Ok (of_option (users_by_id !! Answer.author_id answer)), s') ∧
          ∀ user, users_by_id !! Answer.author_id answer = Some user →
            (KAnswer, i) ∈ elems s' user "answers")).
Proof.
  split; [|split; [|split; [|split; [|split]]]].
  - intros users_by_id question s Hnone. unfold link_question_author.
    by rewrite Hnone.
  - intros users_by_id questions_by_id answer s question l Hnone Hq Hl.
    unfold link_answer. rewrite Hnone. simpl.
    eexists. split.
    + rewrite (bind_run _ _ _ _ _ (setattr_run _ _ _ _)).
      rewrite (bind_run _ _ _ tt _ eq_refl).
      unfold getitem. rewrite Hq.
      rewrite (bind_run _ _ _ question _ eq_refl).
      rewrite (bind_run _ _ _ _ _ (setattr_run _ _ _ _)).
      apply append_Ok. exists l. split; [|done]. simpl.
      rewrite !lookup_insert_ne by congruence. done.
    + simpl. rewrite !lookup_insert_ne by congruence. by rewrite lookup_insert_eq.
  - intros users_by_id questions s. apply questions_pass_total.
  - intros users_by_id questions_by_id answers s Hresolve.
    apply answers_pass_total. intros [o answer] [_ Hanswer]%elem_of_enumerate.
    apply Hresolve. by eapply list_elem_of_lookup_2.
  - intros fs s Hfresh. by apply link_succeeds_iff.
  - intros fs s s' Hlinked Hrun.
    pose proof (link_tables _ _ _ Hrun) as [= _ _ _ _ _ Hqs Has _].
    rewrite Hqs, Has.
    apply link_Ok_stages in Hrun as []; [|done].
    exists users_by_id. split; [by eapply stages_users_index|].
    pose proof (key_by_index_of_kind _ _ _ _ Hstudents) as Hks.
    pose proof (key_by_index_of_kind _ _ _ _ Hprofessionals) as Hkp.
    pose proof (union_index_of_kind _ _ _ _ _ Hks Hkp Husers) as Hku. simpl in Hku.
    apply freezing_Ok in Hrun9 as (Hfz & _).
    split.
    + intros i question Hi.
      destruct (questions_pass _ _ _ _ Hrun5 ((KQuestion, i), question))
        as [Hauthor Hin].
      { by apply elem_of_enumerate. }
      simpl in *. split.
      * apply getattr_instance.
        eapply freezes_reference; [done|by destruct (users_by_id !! _); eauto|]. simpl.
        rewrite (frame_attrs _ _ _ Hframe8), (frame_attrs _ _ _ Hframe7),
          (frame_attrs _ _ _ Hframe6); done.
      * intros user Huser. specialize (Hin user Huser).
        rewrite (freezes_elems _ _ _ _ Hfz). unfold elems in *. simpl.
        rewrite (frame_attrs_kind _ _ _ _ user "questions" Hframe8 (Hku _ _ Huser) eq_refl).
        rewrite (frame_attrs_kind _ _ _ _ user "questions" Hframe7 (Hku _ _ Huser) eq_refl).
        by rewrite (frame_attrs_kind _ _ _ _ user "questions" Hframe6 (Hku _ _ Huser) eq_refl).
    + intros i answer Hi.
      destruct (answers_pass _ _ _ _ _ Hrun6 ((KAnswer, i), answer))
        as (Hauthor & Hin & _).
      { by apply elem_of_enumerate. }
      simpl in *. split.
      * apply getattr_instance.
        eapply freezes_reference; [done|by destruct (users_by_id !! _); eauto|]. simpl.
        rewrite (frame_attrs _ _ _ Hframe8), (frame_attrs _ _ _ Hframe7); done.
      * intros user Huser. specialize (Hin user Huser).
        rewrite (freezes_elems _ _ _ _ Hfz). unfold elems in *. simpl.
        rewrite (frame_attrs_kind _ _ _ _ user "answers" Hframe8 (Hku _ _ Huser) eq_refl).
        by rewrite (frame_attrs_kind _ _ _ _ user "answers" Hframe7 (Hku _ _ Huser) eq_refl).
Qed.

End Linked.

Section Sealed.
Context (int : string → option Z).

Lemma frozen_attrs_init k : frozen_attrs k = (init_attrs k).*1.
Proof. by destruct k. Qed.

Lemma append_frozen o a x s l :
  attrs s !! (o, a) = Some (ScFrozenList l) →
  append o a x s = (Raise (AttributeError o "append"), s).
Proof.
  intros Hl. unfold append.
  by rewrite (bind_run _ _ _ _ _ (getattr_instance _ _ _ _ Hl)).
Qed.

(** C5.  After a successful [link] of a graph that was not linked, every
    collection that a constructor bound, on every entity of the graph
    (the schools included), is a frozen list, and appending to it is
    refused and changes nothing. *)
Theorem sealed_collections_frozen fs s s' :
  linked s = false →
  link int fs s = (Ok tt, s') →
  ∀ o a, in_graph s' o → a ∈ (init_attrs o.1).*1 →
    ∃ l, attrs s' !! (o, a) = Some (ScFrozenList l) ∧
         ∀ x, append o a x s' = (Raise (AttributeError o "append"), s').
Proof.
  intros Hlinked Hrun o a Ho Ha.
  cut (∃ l, attrs s' !! (o, a) = Some (ScFrozenList l)).
  { intros [l Hl]. exists l. split; [done|]. intros x. by eapply append_frozen. }
  apply link_Ok_stages in Hrun as []; [|done].
  apply freezing_Ok in Hrun9 as (Hfz & Hentities & Hschools).
  rewrite <- frozen_attrs_init in Ha. unfold in_graph in Ho.
  destruct o as [k i]. simpl in *. case_decide as Hk.
  - rewrite (freezes_schools _ _ Hfz) in Ho. simpl in Ho. by apply Hschools.
  - apply Hentities; [done| |done].
    pose proof (freezes_tables _ _ Hfz) as [= _ Ht Hg Hs Hp Hq Ha' He].
    simpl in *. destruct k; simpl in *; congruence.
Qed.

Lemma school_membership_linked_transport users_by_id r s s' :
  index_of_kind [KStudent; KProfessional] users_by_id →
  school_heap s' = school_heap s →
  (∀ i, elems s' (KSchool, i) "users" = elems s (KSchool, i) "users") →
  (∀ user : ref, user.1 ∈ [KStudent; KProfessional] →
     elems s' user "schools" = elems s user "schools") →
  school_membership_linked int users_by_id r s →
  school_membership_linked int users_by_id r s'.
Proof.
  intros Hu Hheap Husers Hschools (sid & uid & user & i & Hids & Huser & Hi & Hin1 & Hin2).
  exists sid, uid, user, i. rewrite Hheap, Husers, Hschools; [done|by eapply Hu].
Qed.

(** C6.  After a successful [link] of a graph without schools, the
    schools allocated are one per distinct school identifier of
    [school_memberships.csv], in the order the identifiers first occur;
    [self.schools] lists exactly those schools; and every row is linked to
    the one school with its identifier, so rows with the same identifier
    share the instance. *)
Theorem schools_synthesized fs s s' rows :
  linked s = false →
  school_heap s = [] →
  link int fs s = (Ok tt, s') →
  read_csv fs (directory_path s +:+ "/school_memberships.csv") = Ok rows →
  ∃ sids users_by_id,
    mapM (λ r, fst <$> school_membership_ids int r) rows = Some sids ∧
    users_index s = Ok users_by_id ∧
    School.school_id <$> school_heap s' = first_seen sids ∧
    NoDup (School.school_id <$> school_heap s') ∧
    (∀ z, z ∈ School.school_id <$> school_heap s' ↔ z ∈ sids) ∧
    schools s' = Some (school_refs (length (school_heap s'))) ∧
    ∀ r, r ∈ rows → school_membership_linked int users_by_id r s'.
Proof.
  intros Hlinked Hheap Hrun Hrows.
  apply link_Ok_stages in Hrun as []; [|done].
  rewrite Hrows in Hcsv3. injection Hcsv3 as <-.
  pose proof (key_by_index_of_kind _ _ _ _ Hstudents) as Hks.
  pose proof (key_by_index_of_kind _ _ _ _ Hprofessionals) as Hkp.
  pose proof (union_index_of_kind _ _ _ _ _ Hks Hkp Husers) as Hku. simpl in Hku.
  assert (school_heap s2 = []) as Hheap2.
  { rewrite (frame_school_heap _ _ _ Hframe2), (frame_school_heap _ _ _ Hframe1); done. }
  apply school_pass in Hrun3 as (Hinv & _ & _ & Hall & sids & Hsids & Hids); [|done|].
  2:{ constructor; rewrite Hheap2; [done..|constructor]. }
  rewrite Hheap2 in Hids. simpl in Hids.
  apply freezing_Ok in Hrun9 as (Hfz & _).
  assert (school_heap s' = school_heap s3) as Hheap'.
  { rewrite (freezes_school_heap _ _ Hfz). simpl.
    rewrite (frame_school_heap _ _ _ Hframe8), (frame_school_heap _ _ _ Hframe7),
      (frame_school_heap _ _ _ Hframe6), (frame_school_heap _ _ _ Hframe5),
      (frame_school_heap _ _ _ Hframe4); done. }
  exists sids, users_by_id. rewrite Hheap', Hids.
  destruct (first_seen_spec sids) as [Hnd Hin].
  split; [done|]. split; [by eapply stages_users_index|]. split; [done|].
  split; [done|]. split; [done|]. split.
  - rewrite (freezes_schools _ _ Hfz). simpl. f_equal. apply Hinv.
  - intros r Hr. apply (school_membership_linked_transport _ _ s3); [done..| | |by apply Hall].
    + intros i. rewrite (freezes_elems _ _ _ _ Hfz). unfold elems. simpl.
      rewrite (frame_attrs _ _ _ Hframe8), (frame_attrs _ _ _ Hframe7),
        (frame_attrs _ _ _ Hframe6), (frame_attrs _ _ _ Hframe5),
        (frame_attrs _ _ _ Hframe4); done.
    + intros user Huser. rewrite (freezes_elems _ _ _ _ Hfz). unfold elems. simpl.
      rewrite (frame_attrs_kind _ _ _ _ user "schools" Hframe8 Huser eq_refl).
      rewrite (frame_attrs_kind _ _ _ _ user "schools" Hframe7 Huser eq_refl).
      rewrite (frame_attrs_kind _ _ _ _ user "schools" Hframe6 Huser eq_refl).
      rewrite (frame_attrs_kind _ _ _ _ user "schools" Hframe5 Huser eq_refl).
      by rewrite (frame_attrs_kind _ _ _ _ user "schools" Hframe4 Huser eq_refl).
Qed.

End Sealed.

(** ** Both sides of a link *)

Lemma closed_elems kx a ky b s s' :
  (∀ x : ref, x.1 ∈ kx → elems s' x a = elems s x a) →
  (∀ y : ref, y.1 ∈ ky → elems s' y b = elems s y b) →
  closed kx a ky b s → closed kx a ky b s'.
Proof. intros Ha Hb Hc x y Hx Hy. rewrite Ha, Hb by done. by apply Hc. Qed.

Lemma closed_frame F kx a ky b s s' :
  frame F s s' →
  forallb (λ k, negb (in_footprint F k a)) kx = true →
  forallb (λ k, negb (in_footprint F k b)) ky = true →
  closed kx a ky b s → closed kx a ky b s'.
Proof.
  intros Hframe Ha Hb. apply closed_elems; intros o Ho; unfold elems;
    by erewrite frame_attrs_kind.
Qed.

Lemma closed_freezes kx a ky b s s' :
  freezes s s' → closed kx a ky b s → closed kx a ky b s'.
Proof. intros Hfz. apply closed_elems; intros; by apply freezes_elems. Qed.

(** Appending each side to the other keeps the two sides in agreement. *)
Lemma closed_append_pair kx a ky b (x y : ref) s s1 s' :
  x.1 ∈ kx → y.1 ∈ ky → (∀ k, k ∈ kx → k ∈ ky → False) →
  append x a y s = (Ok tt, s1) → append y b x s1 = (Ok tt, s') →
  closed kx a ky b s → closed kx a ky b s'.
Proof.
  intros Hx Hy Hdisj H1 H2 Hc x' y' Hx' Hy'.
  assert ((x, a) ≠ (y', b)) as Hne1 by (intros [= -> ->]; eauto).
  assert ((y, b) ≠ (x', a)) as Hne2 by (intros [= -> ->]; eauto).
  rewrite (append_elems_ne _ _ _ _ _ _ _ H2 Hne2).
  specialize (Hc x' y' Hx' Hy').
  destruct (decide (x' = x)) as [->|Hnx]; destruct (decide (y' = y)) as [->|Hny].
  - rewrite (append_elems_eq _ _ _ _ _ H1), (append_elems_eq _ _ _ _ _ H2).
    rewrite !elem_of_app, !list_elem_of_singleton. tauto.
  - rewrite (append_elems_eq _ _ _ _ _ H1).
    rewrite (append_elems_ne _ _ _ _ _ y' b H2) by congruence.
    rewrite (append_elems_ne _ _ _ _ _ y' b H1) by done.
    rewrite elem_of_app, list_elem_of_singleton. tauto.
  - rewrite (append_elems_ne _ _ _ _ _ x' a H1) by congruence.
    rewrite (append_elems_eq _ _ _ _ _ H2).
    rewrite (append_elems_ne _ _ _ _ _ y b H1) by done.
    rewrite elem_of_app, list_elem_of_singleton. split; [tauto|].
    intros [?| ->]; [tauto|done].
  - rewrite (append_elems_ne _ _ _ _ _ x' a H1) by congruence.
    rewrite (append_elems_ne _ _ _ _ _ y' b H2) by congruence.
    by rewrite (append_elems_ne _ _ _ _ _ y' b H1) by done.
Qed.

Ltac kinds_disjoint :=
  let k := fresh "k" in
  let H1 := fresh "H" in
  let H2 := fresh "H" in
  intros k H1 H2;
  repeat (apply elem_of_cons in H1 as [->|H1]);
  try (by apply elem_of_nil in H1);
  repeat (apply elem_of_cons in H2 as [?|H2]; [done|]);
  by apply elem_of_nil in H2.

Section Closure.
Context (int : string → option Z).

Lemma tag_users_pass_closed tags_by_id users_by_id rows s s' :
  index_of_kind [KTag] tags_by_id →
  index_of_kind [KStudent; KProfessional] users_by_id →
  for_each rows (link_tag_user int tags_by_id users_by_id) s = (Ok tt, s') →
  closed [KTag] "users" [KStudent; KProfessional] "tags" s →
  closed [KTag] "users" [KStudent; KProfessional] "tags" s'.
Proof.
  intros Ht Hu Hrun Hc. revert s s' Hc Hrun. apply for_each_Ok_inv.
  intros r s1 s2 _ Hc Hbody. unfold link_tag_user in Hbody.
  apply bind_Ok in Hbody as (tag_id & ? & [_ ->]%lift_Ok & Hbody).
  apply bind_Ok in Hbody as (tag & ? & [Htag%getitem_Ok%Ht ->]%lift_Ok & Hbody).
  apply bind_Ok in Hbody as (user & ? & [Huser ->]%lift_Ok & Hbody).
  apply result_bind_Ok in Huser as (? & _ & Huser%getitem_Ok%Hu).
  apply bind_Ok in Hbody as ([] & s3 & Happ1 & Happ2).
  eapply (closed_append_pair _ _ _ _ tag user); [done|done|kinds_disjoint|done..].
Qed.

Lemma group_memberships_pass_closed groups_by_id users_by_id rows s s' :
  index_of_kind [KGroup] groups_by_id →
  index_of_kind [KStudent; KProfessional] users_by_id →
  for_each rows (link_group_membership groups_by_id users_by_id) s = (Ok tt, s') →
  closed [KGroup] "users" [KStudent; KProfessional] "groups" s →
  closed [KGroup] "users" [KStudent; KProfessional] "groups" s'.
Proof.
  intros Hg Hu Hrun Hc. revert s s' Hc Hrun. apply for_each_Ok_inv.
  intros r s1 s2 _ Hc Hbody. unfold link_group_membership in Hbody.
  apply bind_Ok in Hbody as (group & ? & [Hgroup ->]%lift_Ok & Hbody).
  apply result_bind_Ok in Hgroup as (? & _ & Hgroup%getitem_Ok%Hg).
  apply bind_Ok in Hbody as (user & ? & [Huser ->]%lift_Ok & Hbody).
  apply result_bind_Ok in Huser as (? & _ & Huser%getitem_Ok%Hu).
  apply bind_Ok in Hbody as ([] & s3 & Happ1 & Happ2).
  eapply (closed_append_pair _ _ _ _ group user); [done|done|kinds_disjoint|done..].
Qed.

Lemma tag_questions_pass_closed tags_by_id questions_by_id rows s s' :
  index_of_kind [KTag] tags_by_id →
  index_of_kind [KQuestion] questions_by_id →
  for_each rows (link_tag_question int tags_by_id questions_by_id) s = (Ok tt, s') →
  closed [KQuestion] "tags" [KTag] "questions" s →
  closed [KQuestion] "tags" [KTag] "questions" s'.
Proof.
  intros Ht Hq Hrun Hc. revert s s' Hc Hrun. apply for_each_Ok_inv.
  intros r s1 s2 _ Hc Hbody. unfold link_tag_question in Hbody.
  apply bind_Ok in Hbody as (tag_id & ? & [_ ->]%lift_Ok & Hbody).
  apply bind_Ok in Hbody as (tag & ? & [Htag%getitem_Ok%Ht ->]%lift_Ok & Hbody).
  apply bind_Ok in Hbody as (question & ? & [Hquestion ->]%lift_Ok & Hbody).
  apply result_bind_Ok in Hquestion as (? & _ & Hquestion%getitem_Ok%Hq).
  apply bind_Ok in Hbody as ([] & s3 & Happ1 & Happ2).
  eapply (closed_append_pair _ _ _ _ question tag); [done|done|kinds_disjoint|done..].
Qed.

Lemma matches_pass_closed emails_by_id questions_by_id rows s s' :
  index_of_kind [KEmail] emails_by_id →
  index_of_kind [KQuestion] questions_by_id →
  for_each rows (link_match emails_by_id questions_by_id) s = (Ok tt, s') →
  closed [KEmail] "questions" [KQuestion] "emails" s →
  closed [KEmail] "questions" [KQuestion] "emails" s'.
Proof.
  intros He Hq Hrun Hc. revert s s' Hc Hrun. apply for_each_Ok_inv.
  intros r s1 s2 _ Hc Hbody. unfold link_match in Hbody.
  apply bind_Ok in Hbody as (email & ? & [Hemail ->]%lift_Ok & Hbody).
  apply result_bind_Ok in Hemail as (? & _ & Hemail%getitem_Ok%He).
  apply bind_Ok in Hbody as (question & ? & [Hquestion ->]%lift_Ok & Hbody).
  apply result_bind_Ok in Hquestion as (? & _ & Hquestion%getitem_Ok%Hq).
  apply bind_Ok in Hbody as ([] & s3 & Happ1 & Happ2).
  eapply (closed_append_pair _ _ _ _ email question); [done|done|kinds_disjoint|done..].
Qed.

Lemma school_lookup_or_new_closed d sid s school d1 s1 :
  schools_closed s →
  match odict_lookup d sid with
  | Some school => mret (school, d)
  | None => school ← School_new sid; mret (school, d ++ [(sid, school)])
  end s = (Ok (school, d1), s1) →
  schools_closed s1.
Proof.
  intros [Hc Hnew] Hrun. destruct (odict_lookup d sid) as [o|].
  { by injection Hrun as <- <- <-. }
  rewrite (bind_run _ _ _ _ _ (School_new_run sid s)) in Hrun.
  injection Hrun as <- <- <-.
  assert (∀ o a, elems (set_attrs
      (<[(KSchool, length (school_heap s), "users"):=ScList []]> (attrs s))
      (set_school_heap (school_heap s ++ [{| School.school_id := sid |}]) s)) o a
      = elems s o a) as Helems.
  { intros o a. unfold elems at 1. simpl.
    destruct (decide ((KSchool, length (school_heap s), "users") = (o, a))) as [[= <- <-]|Hne].
    - rewrite lookup_insert_eq. by rewrite Hnew.
    - by rewrite lookup_insert_ne. }
  split.
  - eapply closed_elems; [| |done]; intros; apply Helems.
  - intros n Hn. rewrite Helems. apply Hnew. simpl in Hn. rewrite length_app in Hn. lia.
Qed.

Lemma school_pass_closed users_by_id rows :
  index_of_kind [KStudent; KProfessional] users_by_id →
  ∀ d s d' s',
  schools_inv d s → schools_closed s →
  for_fold rows (link_school_membership int users_by_id) d s = (Ok d', s') →
  schools_closed s'.
Proof.
  intros Hu. induction rows as [|r rows IH]; intros d s d' s' Hinv Hc Hrun; simpl in Hrun.
  - by injection Hrun as <- <-.
  - apply bind_Ok in Hrun as (d1 & s1 & Hbody & Hrun).
    pose proof Hbody as (Hinv1 & _)%link_school_membership_Ok; [|done..].
    apply (IH d1 s1 d' s'); [done| |done].
    apply link_school_membership_inv in Hbody
      as (sid & uid & school & user & s2 & s3 & _ & Huser%Hu & Hschool & Happ1 & Happ2).
    pose proof (school_lookup_or_new_closed _ _ _ _ _ _ Hc Hschool) as [Hc2 Hnew2].
    apply school_lookup_or_new in Hschool as (_ & _ & _ & _ & i & -> & Hi); [|done].
    split.
    + eapply (closed_append_pair _ _ _ _ (KSchool, i) user);
        [by left|done|kinds_disjoint|done..].
    + intros n Hn.
      rewrite (append_school_heap _ _ _ _ _ _ Happ2),
        (append_school_heap _ _ _ _ _ _ Happ1) in Hn.
      rewrite (append_elems_ne _ _ _ _ _ _ _ Happ2) by congruence.
      rewrite (append_elems_ne _ _ _ _ _ _ _ Happ1); [by apply Hnew2|].
      intros [= <-]. apply lookup_lt_Some in Hi. lia.
Qed.

Lemma fresh_closed kx a ky b s : fresh s → closed kx a ky b s.
Proof.
  intros Hfresh x y _ _. rewrite !(fresh_elems s) by done.
  split; by intros ?%elem_of_nil.
Qed.

(** C4.  After a successful [link] of a freshly constructed graph, each
    link read from a join table holds from both sides: tags and users,
    groups and users, schools and users, questions and tags, emails and
    questions. *)
Theorem bidirectional_closure fs s s' :
  fresh s →
  link int fs s = (Ok tt, s') →
  closed [KTag] "users" [KStudent; KProfessional] "tags" s' ∧
  closed [KGroup] "users" [KStudent; KProfessional] "groups" s' ∧
  closed [KSchool] "users" [KStudent; KProfessional] "schools" s' ∧
  closed [KQuestion] "tags" [KTag] "questions" s' ∧
  closed [KEmail] "questions" [KQuestion] "emails" s'.
Proof.
  intros Hfresh Hrun.
  apply link_Ok_stages in Hrun as []; [|apply Hfresh].
  pose proof (key_by_index_of_kind _ _ _ _ Hstudents) as Hks.
  pose proof (key_by_index_of_kind _ _ _ _ Hprofessionals) as Hkp.
  pose proof (union_index_of_kind _ _ _ _ _ Hks Hkp Husers) as Hku. simpl in Hku.
  pose proof (key_by_index_of_kind _ _ _ _ Htags) as Hkt.
  pose proof (key_by_index_of_kind _ _ _ _ Hgroups) as Hkg.
  pose proof (key_by_index_of_kind _ _ _ _ Hquestions) as Hkq.
  pose proof (key_by_index_of_kind _ _ _ _ Hemails) as Hke.
  apply freezing_Ok in Hrun9 as (Hfz & _).
  assert (∀ kx a ky b, closed kx a ky b (set_linked true s)) as Hc0.
  { intros kx a ky b. eapply closed_elems; [..|by apply (fresh_closed kx a ky b s)]; done. }
  assert (schools_inv [] s2 ∧ schools_closed s2) as [Hinv2 Hsc2].
  { assert (school_heap s2 = []) as Hheap2.
    { rewrite (frame_school_heap _ _ _ Hframe2), (frame_school_heap _ _ _ Hframe1); [|done..].
      apply Hfresh. }
    split.
    { constructor; rewrite Hheap2; [done|done|constructor]. }
    split.
    - eapply closed_frame; [exact Hframe2|done|done|].
      eapply closed_frame; [exact Hframe1|done|done|]. apply Hc0.
    - intros n _. unfold elems.
      rewrite (frame_attrs _ _ _ Hframe2), (frame_attrs _ _ _ Hframe1) by done.
      by apply (fresh_elems s (KSchool, n) "users"). }
  split; [|split; [|split; [|split]]].
  - eapply closed_freezes; [done|]. apply (closed_elems _ _ _ _ s8); [done..|].
    eapply closed_frame; [exact Hframe8|done|done|].
    eapply closed_frame; [exact Hframe7|done|done|].
    eapply closed_frame; [exact Hframe6|done|done|].
    eapply closed_frame; [exact Hframe5|done|done|].
    eapply closed_frame; [exact Hframe4|done|done|].
    eapply closed_frame; [exact Hframe3|done|done|].
    eapply closed_frame; [exact Hframe2|done|done|].
    eapply tag_users_pass_closed; [done..|]. apply Hc0.
  - eapply closed_freezes; [done|]. apply (closed_elems _ _ _ _ s8); [done..|].
    eapply closed_frame; [exact Hframe8|done|done|].
    eapply closed_frame; [exact Hframe7|done|done|].
    eapply closed_frame; [exact Hframe6|done|done|].
    eapply closed_frame; [exact Hframe5|done|done|].
    eapply closed_frame; [exact Hframe4|done|done|].
    eapply closed_frame; [exact Hframe3|done|done|].
    eapply group_memberships_pass_closed; [done..|].
    eapply closed_frame; [exact Hframe1|done|done|]. apply Hc0.
  - eapply closed_freezes; [done|]. apply (closed_elems _ _ _ _ s8); [done..|].
    eapply closed_frame; [exact Hframe8|done|done|].
    eapply closed_frame; [exact Hframe7|done|done|].
    eapply closed_frame; [exact Hframe6|done|done|].
    eapply closed_frame; [exact Hframe5|done|done|].
    eapply closed_frame; [exact Hframe4|done|done|].
    by eapply school_pass_closed.
  - eapply closed_freezes; [done|]. apply (closed_elems _ _ _ _ s8); [done..|].
    eapply closed_frame; [exact Hframe8|done|done|].
    eapply closed_frame; [exact Hframe7|done|done|].
    eapply closed_frame; [exact Hframe6|done|done|].
    eapply closed_frame; [exact Hframe5|done|done|].
    eapply tag_questions_pass_closed; [done..|].
    eapply closed_frame; [exact Hframe3|done|done|].
    eapply closed_frame; [exact Hframe2|done|done|].
    eapply closed_frame; [exact Hframe1|done|done|]. apply Hc0.
  - eapply closed_freezes; [done|]. apply (closed_elems _ _ _ _ s8); [done..|].
    eapply matches_pass_closed; [done..|].
    eapply closed_frame; [exact Hframe7|done|done|].
    eapply closed_frame; [exact Hframe6|done|done|].
    eapply closed_frame; [exact Hframe5|done|done|].
    eapply closed_frame; [exact Hframe4|done|done|].
    eapply closed_frame; [exact Hframe3|done|done|].
    eapply closed_frame; [exact Hframe2|done|done|].
    eapply closed_frame; [exact Hframe1|done|done|]. apply Hc0.
Qed.

End Closure.

(** ** A graph before linking *)

Lemma bind_attrs_lookup o l m o' a :
  bind_attrs o l m !! (o', a) =
  if decide (o' = o)
  then match assoc a l with Some v => Some v | None => m !! (o', a) end
  else m !! (o', a).
Proof.
  induction l as [|[b v] l IH]; simpl.
  - by case_decide.
  - destruct (decide (a = b)) as [->|Hab].
    + case_decide as Ho; [subst; by rewrite lookup_insert_eq|].
      rewrite lookup_insert_ne by congruence. by rewrite IH.
    + rewrite lookup_insert_ne by congruence. by rewrite IH.
Qed.

Lemma construct_lookup k n m (o : ref) a :
  construct k n m !! (o, a) =
  if decide (o.1 = k ∧ o.2 < n)
  then match assoc a (init_attrs k) with Some v => Some v | None => m !! (o, a) end
  else m !! (o, a).
Proof.
  unfold construct.
  cut (∀ l, foldr (λ i m, bind_attrs (k, i) (init_attrs k) m) m l !! (o, a) =
        if decide (o.1 = k ∧ o.2 ∈ l)
        then match assoc a (init_attrs k) with Some v => Some v | None => m !! (o, a) end
        else m !! (o, a)).
  { intros ->. destruct (decide (o.1 = k ∧ o.2 ∈ seq 0 n)) as [[? Hin]|Hn].
    - rewrite decide_True; [done|]. apply elem_of_seq in Hin. split; [done|lia].
    - rewrite decide_False; [done|]. intros [? ?]. apply Hn. split; [done|].
      apply elem_of_seq. lia. }
  induction l as [|i l IH]; simpl.
  - rewrite decide_False; [done|]. by intros [_ ?%elem_of_nil].
  - rewrite bind_attrs_lookup, IH. destruct o as [k' j]. simpl.
    destruct (decide ((k', j) = (k, i))) as [[= -> ->]|Hne].
    + rewrite (decide_True (P := k = k ∧ i ∈ i :: l)) by (split; [done|left]).
      destruct (assoc a (init_attrs k)); [done|].
      by destruct (decide (k = k ∧ i ∈ l)).
    + destruct (decide (k' = k ∧ j ∈ l)) as [[-> Hin]|Hn].
      * rewrite decide_True; [done|]. split; [done|by right].
      * rewrite decide_False; [done|]. intros [-> [->|?]%elem_of_cons]; [done|].
        by apply Hn.
Qed.

Lemma CareerVillage_new_lookup directory_path tags groups students professionals
    questions answers emails (o : ref) a :
  let s := CareerVillage_new directory_path tags groups students professionals
             questions answers emails in
  attrs s !! (o, a) =
  if decide (o.2 < count s o.1) then assoc a (init_attrs o.1) else None.
Proof.
  simpl. rewrite !construct_lookup, lookup_empty.
  destruct o as [[] i]; simpl; repeat case_decide;
    try done; try (by destruct (assoc a _)); exfalso; intuition congruence.
Qed.

Lemma CareerVillage_new_fresh directory_path tags groups students professionals
    questions answers emails :
  fresh (CareerVillage_new directory_path tags groups students professionals
           questions answers emails).
Proof.
  constructor; try done.
  - intros o a v. rewrite CareerVillage_new_lookup. by case_decide.
  - intros o a v Ho Hv. rewrite CareerVillage_new_lookup. by rewrite decide_True.
Qed.

(** C10.  In a freshly constructed graph, reading the [author] of a
    question, the [author] and the [question] of an answer and the
    [recipient] of an email raises nothing and gives [None], the value of
    the class attribute. *)
Theorem unlinked_references_none s :
  fresh s →
  (∀ i question, questions s !! i = Some question →
     getattr (KQuestion, i) "author" s = (Ok PyNone, s)) ∧
  (∀ i answer, answers s !! i = Some answer →
     getattr (KAnswer, i) "author" s = (Ok PyNone, s) ∧
     getattr (KAnswer, i) "question" s = (Ok PyNone, s)) ∧
  (∀ i email, emails s !! i = Some email →
     getattr (KEmail, i) "recipient" s = (Ok PyNone, s)).
Proof.
  intros Hfresh.
  assert (∀ o a, assoc a (init_attrs o.1) = None → attrs s !! (o, a) = None) as Hnone.
  { intros o a Ha. destruct (attrs s !! (o, a)) as [v|] eqn:Hv; [|done].
    apply (fresh_attrs _ Hfresh) in Hv. congruence. }
  split; [|split].
  - intros i question _. unfold getattr. by rewrite Hnone.
  - intros i answer _. unfold getattr. by rewrite !Hnone.
  - intros i email _. unfold getattr. by rewrite Hnone.
Qed.

(** ** The user index *)

Section Index.
Context (int : string → option Z).

Lemma link_users_index_Raise fs s e :
  linked s = false → users_index s = Raise e →
  link int fs s = (Raise e, set_linked true s).
Proof.
  intros Hlinked Hindex. unfold link.
  rewrite (bind_run _ _ s (linked s) s) by done. rewrite Hlinked.
  rewrite (bind_run _ _ s tt (set_linked true s)) by done.
  rewrite (bind_run _ _ _ (directory_path s) (set_linked true s)) by done.
  unfold users_index in Hindex.
  destruct (key_by Student.students_id _) as [students_by_id|e1] eqn:Hs.
  2:{ injection Hindex as ->. apply bind_run_Raise. by rewrite index_run, <- Hs. }
  rewrite (bind_run _ _ _ students_by_id (set_linked true s))
    by (by rewrite index_run, <- Hs).
  destruct (key_by Professional.professionals_id _) as [professionals_by_id|e1] eqn:Hp.
  2:{ injection Hindex as ->. apply bind_run_Raise. by rewrite index_run, <- Hp. }
  rewrite (bind_run _ _ _ professionals_by_id (set_linked true s))
    by (by rewrite index_run, <- Hp).
  simpl in Hindex. apply bind_run_Raise. unfold lift. by rewrite Hindex.
Qed.

(** C3.  When an identifier is both a student's and a professional's,
    building the user index fails (on the overlap itself, when neither
    collection repeats an identifier), and [link] raises that error having
    changed nothing but the [linked] flag.  When no identifier is shared,
    the index, once built, has under each identifier exactly the student
    or the professional with that identifier; and it is built when no
    identifier occurs twice among the students or among the
    professionals. *)
Theorem user_ids_disjoint fs s :
  linked s = false →
  (∀ id, id ∈ Student.students_id <$> students s →
         id ∈ Professional.professionals_id <$> professionals s →
     ∃ e, users_index s = Raise e ∧
          link int fs s = (Raise e, set_linked true s) ∧
          (NoDup (Student.students_id <$> students s) →
           NoDup (Professional.professionals_id <$> professionals s) →
           e = OverlapError)) ∧
  ((∀ id, id ∈ Student.students_id <$> students s →
          id ∉ Professional.professionals_id <$> professionals s) →
   (∀ users_by_id, users_index s = Ok users_by_id →
      ∀ id o, users_by_id !! id = Some o ↔
        (∃ x, o.1 = KStudent ∧ students s !! o.2 = Some x ∧
              Student.students_id x = id) ∨
        (∃ x, o.1 = KProfessional ∧ professionals s !! o.2 = Some x ∧
              Professional.professionals_id x = id)) ∧
   (NoDup (Student.students_id <$> students s) →
    NoDup (Professional.professionals_id <$> professionals s) →
    ∃ users_by_id, users_index s = Ok users_by_id)).
Proof.
  intros Hlinked. split.
  - intros id (x & Hx & [i Hi]%list_elem_of_lookup)%list_elem_of_fmap
      (y & Hy & [j Hj]%list_elem_of_lookup)%list_elem_of_fmap.
    cut (∃ e, users_index s = Raise e ∧
           (NoDup (Student.students_id <$> students s) →
            NoDup (Professional.professionals_id <$> professionals s) →
            e = OverlapError)).
    { intros (e & He & Hoverlap). exists e. split; [done|].
      split; [by apply link_users_index_Raise|done]. }
    unfold users_index.
    destruct (key_by Student.students_id _) as [a|e1] eqn:Hs.
    2:{ exists e1. split; [done|]. intros Hnd _.
        destruct (key_by_total Student.students_id KStudent _ Hnd). congruence. }
    destruct (key_by Professional.professionals_id _) as [b|e1] eqn:Hp.
    2:{ exists e1. split; [done|]. intros _ Hnd.
        destruct (key_by_total Professional.professionals_id KProfessional _ Hnd).
        congruence. }
    simpl. unfold union_error_on_overlap. case_decide as Hdisj; [|by eauto].
    apply key_by_Ok in Hs as [_ Hs]. apply key_by_Ok in Hp as [_ Hp].
    exfalso. apply (proj1 (map_disjoint_spec a b) Hdisj id (KStudent, i) (KProfessional, j)).
    + apply Hs. by exists x.
    + apply Hp. by exists y.
  - intros Hdisjoint. split.
    + intros users_by_id Hindex id o. unfold users_index in Hindex.
      apply result_bind_Ok in Hindex as (a & [_ Hs]%key_by_Ok & Hindex).
      apply result_bind_Ok in Hindex as (b & [_ Hp]%key_by_Ok & Hindex).
      apply union_error_on_overlap_Ok in Hindex as [Hdisj ->].
      by rewrite lookup_union_Some, Hs, Hp.
    + intros Hnds Hndp. unfold users_index.
      destruct (key_by_total Student.students_id KStudent _ Hnds) as [a Hs].
      destruct (key_by_total Professional.professionals_id KProfessional _ Hndp) as [b Hp].
      rewrite Hs, Hp. simpl. exists (a ∪ b).
      unfold union_error_on_overlap. rewrite decide_True; [done|].
      apply key_by_Ok in Hs as [_ Hs]. apply key_by_Ok in Hp as [_ Hp].
      apply map_disjoint_spec. intros id o1 o2 (x & _ & Hx & <-)%Hs (y & _ & Hy & Heq)%Hp.
      apply (Hdisjoint (Student.students_id x)).
      * apply list_elem_of_fmap. exists x. split; [done|]. by eapply list_elem_of_lookup_2.
      * rewrite <- Heq. apply list_elem_of_fmap. exists y.
        split; [done|]. by eapply list_elem_of_lookup_2.
Qed.

Lemma link_linked_run fs s : linked s = true → link int fs s = (Ok tt, s).
Proof.
  intros Hlinked. unfold link.
  rewrite (bind_run _ _ s (linked s) s) by done. by rewrite Hlinked.
Qed.

(** C9, as the code has it.  [link] on a graph whose [linked] flag is set
    returns without an error and leaves the graph as it was; so does a
    second [link] after a successful one. *)
Theorem link_again_noop fs s :
  (linked s = true → link int fs s = (Ok tt, s)) ∧
  (∀ fs0 s0, link int fs0 s0 = (Ok tt, s) → link int fs s = (Ok tt, s)).
Proof.
  split; [apply link_linked_run|].
  intros fs0 s0 Hrun. apply link_linked_run. by eapply link_linked.
Qed.

(** C8.  [save] of a graph whose [linked] flag is set raises and leaves
    the disk as it was; [save] of a graph whose flag is not set writes the
    graph under the path; a graph that a successful [link] returned is
    refused; and whatever [save] has put on the disk is not linked. *)
Theorem save_refuses_linked self path disk :
  (linked self = true →
   save self path disk =
     (Raise (RuntimeError "Can't pickle a linked CareerVillage"), disk)) ∧
  (linked self = false → save self path disk = (Ok tt, <[path := self]> disk)) ∧
  (∀ fs s, link int fs s = (Ok tt, self) →
   save self path disk =
     (Raise (RuntimeError "Can't pickle a linked CareerVillage"), disk)) ∧
  (∀ p cv, (save self path disk).2 !! p = Some cv →
           disk !! p = Some cv ∨ linked cv = false).
Proof.
  assert (linked self = true →
    save self path disk =
      (Raise (RuntimeError "Can't pickle a linked CareerVillage"), disk)) as Hrefuse.
  { intros Hlinked. unfold save. by rewrite Hlinked. }
  split; [done|]. split; [|split].
  - intros Hlinked. unfold save. by rewrite Hlinked.
  - intros fs s Hrun. apply Hrefuse. by eapply link_linked.
  - intros p cv. unfold save. destruct (linked self) eqn:Hlinked; simpl; [by left|].
    rewrite lookup_insert_Some. intros [[_ <-]|[_ ?]]; [by right|by left].
Qed.

End Index.
(** ** What [link] keeps, however it ends *)

Lemma preserves_ret {A} I (a : A) : preserves I (mret a).
Proof. by intros s r s' [= <- <-]. Qed.

Lemma preserves_raise {A} I e : preserves I (raise e : M A).
Proof. by intros s r s' [= <- <-]. Qed.

Lemma preserves_lift {A} I (x : result A) : preserves I (lift x).
Proof. by intros s r s' [= <- <-]. Qed.

Lemma preserves_gets {A} I (f : CareerVillage → A) : preserves I (gets f).
Proof. by intros s r s' [= <- <-]. Qed.

Lemma preserves_modify I f : (∀ s, I s → I (f s)) → preserves I (modify f).
Proof. intros Hf s r s' [= <- <-]. apply Hf. Qed.

Lemma preserves_bind {A B} I (m : M A) (f : A → M B) :
  preserves I m → (∀ a, preserves I (f a)) → preserves I (m ≫= f).
Proof.
  intros Hm Hf s r s' Hrun HI. destruct r as [b|e].
  - apply bind_Ok in Hrun as (a & s1 & H1 & H2).
    eapply Hf; [done|]. by eapply Hm.
  - apply bind_Raise in Hrun as [H1|(a & s1 & H1 & H2)]; [by eapply Hm|].
    eapply Hf; [done|]. by eapply Hm.
Qed.

Lemma preserves_bind_lift {A B} I (x : result A) (f : A → M B) :
  (∀ a, x = Ok a → preserves I (f a)) → preserves I (lift x ≫= f).
Proof.
  intros Hf s r s' Hrun HI. destruct x as [a|e].
  - rewrite (bind_run _ _ s a s) in Hrun by done. by eapply Hf.
  - rewrite (bind_run_Raise _ _ s e s) in Hrun by done. by injection Hrun as <- <-.
Qed.

Lemma preserves_bind_gets {A B} I (g : CareerVillage → A) (f : A → M B) :
  (∀ s1, I s1 → preserves I (f (g s1))) → preserves I (gets g ≫= f).
Proof.
  intros Hf s r s' Hrun HI.
  rewrite (bind_run _ _ s (g s) s) in Hrun by done. by eapply Hf.
Qed.

Lemma preserves_for_each {A} I (body : A → M unit) l :
  (∀ x, x ∈ l → preserves I (body x)) → preserves I (for_each l body).
Proof.
  intros Hbody s r s' Hrun HI.
  apply (for_each_inv I body l) with (s := s) (r := r); [|done..].
  intros x s1 r1 s2 Hx HI1 Hx1. by eapply Hbody.
Qed.

Lemma preserves_for_fold {A B} I (body : B → A → M B) l :
  (∀ b x, x ∈ l → preserves I (body b x)) → ∀ b, preserves I (for_fold l body b).
Proof.
  induction l as [|x l IH]; intros Hbody b; simpl.
  - apply preserves_ret.
  - apply preserves_bind; [apply Hbody; left|].
    intros b'. apply IH. intros b1 y Hy. apply Hbody. by right.
Qed.

Lemma preserves_bind_index `{Countable K, PyKey K} {X B} I
    (xs : CareerVillage → list X) k (key : X → K) (f : gmap K ref → M B) :
  (∀ s1 d, I s1 → key_by key (enumerate k (xs s1)) = Ok d → preserves I (f d)) →
  preserves I (index xs k key ≫= f).
Proof.
  intros Hf s r s' Hrun HI.
  destruct (key_by key (enumerate k (xs s))) as [d|e] eqn:Hd.
  - rewrite (bind_run _ _ s d s) in Hrun by (by rewrite index_run, Hd). by eapply Hf.
  - rewrite (bind_run_Raise _ _ s e s) in Hrun by (by rewrite index_run, Hd).
    by injection Hrun as <- <-.
Qed.

Lemma preserves_for_each_in {X} I (xs : CareerVillage → list X) k body :
  (∀ s1 x, I s1 → x ∈ enumerate k (xs s1) → preserves I (body x)) →
  preserves I (for_each_in xs k body).
Proof.
  intros Hbody. unfold for_each_in. apply preserves_bind_gets.
  intros s1 H1. apply preserves_for_each. intros x Hx. by eapply Hbody.
Qed.

Lemma preserves_freeze_list I l :
  (∀ o, preserves I (_freeze o)) → preserves I (freeze_list l).
Proof.
  intros Hfz. unfold freeze_list. apply preserves_bind.
  - apply preserves_for_each. intros o _. apply Hfz.
  - intros _. apply preserves_ret.
Qed.

Lemma preserves_freeze_collection {X} I k (xs : CareerVillage → list X) :
  (∀ o, preserves I (_freeze o)) → preserves I (freeze_collection k xs).
Proof.
  intros Hfz. unfold freeze_collection. apply preserves_bind_gets. intros s1 _.
  apply preserves_bind; [by apply preserves_freeze_list|].
  intros _. apply preserves_ret.
Qed.

Lemma preserves_freezing I d :
  (∀ o, preserves I (_freeze o)) → (∀ v s, I s → I (set_schools v s)) →
  preserves I (freezing d).
Proof.
  intros Hfz Hset. unfold freezing.
  repeat (apply preserves_bind; [by apply preserves_freeze_collection|intros _]).
  apply preserves_bind; [by apply preserves_freeze_list|intros frozen].
  apply preserves_bind; [apply preserves_modify; intros s; apply Hset|intros _].
  repeat (apply preserves_bind; [by apply preserves_freeze_collection|intros _]).
  by apply preserves_freeze_collection.
Qed.

Lemma tables_inv s s' :
  tables s' = tables s →
  directory_path s' = directory_path s ∧ tags s' = tags s ∧ groups s' = groups s ∧
  students s' = students s ∧ professionals s' = professionals s ∧
  questions s' = questions s ∧ answers s' = answers s ∧ emails s' = emails s.
Proof. by intros [= -> -> -> -> -> -> -> ->]. Qed.

Section LinkInvariant.
Context (int : string → option Z) (I : CareerVillage → Prop) (s0 : CareerVillage).

Hypothesis I_tables : ∀ s, I s → tables s = tables s0.
Hypothesis I_set_schools : ∀ v s, I s → I (set_schools v s).
Hypothesis I_freeze : ∀ o, preserves I (_freeze o).
Hypothesis I_tag_user : ∀ tags_by_id users_by_id r,
  key_by Tag.tags_id (enumerate KTag (tags s0)) = Ok tags_by_id →
  users_index s0 = Ok users_by_id →
  preserves I (link_tag_user int tags_by_id users_by_id r).
Hypothesis I_group_membership : ∀ groups_by_id users_by_id r,
  key_by Group.groups_id (enumerate KGroup (groups s0)) = Ok groups_by_id →
  users_index s0 = Ok users_by_id →
  preserves I (link_group_membership groups_by_id users_by_id r).
Hypothesis I_school_memberships : ∀ users_by_id rows,
  users_index s0 = Ok users_by_id →
  preserves I (for_fold rows (link_school_membership int users_by_id) []).
Hypothesis I_tag_question : ∀ tags_by_id questions_by_id r,
  key_by Tag.tags_id (enumerate KTag (tags s0)) = Ok tags_by_id →
  key_by Question.questions_id (enumerate KQuestion (questions s0)) = Ok questions_by_id →
  preserves I (link_tag_question int tags_by_id questions_by_id r).
Hypothesis I_question_author : ∀ users_by_id x,
  users_index s0 = Ok users_by_id →
  x ∈ enumerate KQuestion (questions s0) →
  preserves I (link_question_author users_by_id x).
Hypothesis I_answer : ∀ users_by_id questions_by_id x,
  users_index s0 = Ok users_by_id →
  key_by Question.questions_id (enumerate KQuestion (questions s0)) = Ok questions_by_id →
  x ∈ enumerate KAnswer (answers s0) →
  preserves I (link_answer users_by_id questions_by_id x).
Hypothesis I_email_recipient : ∀ professionals_by_id x,
  key_by Professional.professionals_id (enumerate KProfessional (professionals s0))
    = Ok professionals_by_id →
  x ∈ enumerate KEmail (emails s0) →
  preserves I (link_email_recipient professionals_by_id x).
Hypothesis I_match : ∀ emails_by_id questions_by_id r,
  key_by Email.emails_id (enumerate KEmail (emails s0)) = Ok emails_by_id →
  key_by Question.questions_id (enumerate KQuestion (questions s0)) = Ok questions_by_id →
  preserves I (link_match emails_by_id questions_by_id r).

(** The passes of [link] keep what each of their steps keeps. *)
Lemma link_invariant fs s r s' :
  link int fs s = (r, s') → linked s = false → I (set_linked true s) → I s'.
Proof.
  intros Hrun Hlinked HI. unfold link in Hrun.
  rewrite (bind_run _ _ s false s) in Hrun by (by rewrite <- Hlinked).
  rewrite (bind_run _ _ s tt (set_linked true s)) in Hrun by done.
  revert Hrun HI. generalize (set_linked true s). intros s1 Hrun HI.
  lazymatch type of Hrun with
  | ?m s1 = _ => enough (preserves I m) as Hp by exact (Hp _ _ _ Hrun HI)
  end.
  clear dependent s1. clear Hlinked.
  apply preserves_bind_gets. intros s1 _.
  apply preserves_bind_index.
  intros ? students_by_id (_ & _ & _ & -> & _)%I_tables%tables_inv Hstudents.
  apply preserves_bind_index.
  intros ? professionals_by_id (_ & _ & _ & _ & -> & _)%I_tables%tables_inv Hprofessionals.
  apply preserves_bind_lift. intros users_by_id Husers.
  pose proof (stages_users_index _ _ _ _ Hstudents Hprofessionals Husers) as Hindex.
  apply preserves_bind_index.
  intros ? tags_by_id (_ & -> & _)%I_tables%tables_inv Htags.
  apply preserves_bind_lift. intros tag_users _.
  apply preserves_bind; [apply preserves_for_each; intros; by apply I_tag_user|intros _].
  apply preserves_bind_index.
  intros ? groups_by_id (_ & _ & -> & _)%I_tables%tables_inv Hgroups.
  apply preserves_bind_lift. intros group_memberships _.
  apply preserves_bind;
    [apply preserves_for_each; intros; by apply I_group_membership|intros _].
  apply preserves_bind_lift. intros school_memberships _.
  apply preserves_bind; [by apply I_school_memberships|intros schools_by_id].
  apply preserves_bind_index.
  intros ? questions_by_id (_ & _ & _ & _ & _ & -> & _)%I_tables%tables_inv Hquestions.
  apply preserves_bind_lift. intros tag_questions _.
  apply preserves_bind; [apply preserves_for_each; intros; by apply I_tag_question|intros _].
  apply preserves_bind.
  { apply preserves_for_each_in.
    intros ? x (_ & _ & _ & _ & _ & -> & _)%I_tables%tables_inv Hx.
    by apply I_question_author. }
  intros _. apply preserves_bind.
  { apply preserves_for_each_in.
    intros ? x (_ & _ & _ & _ & _ & _ & -> & _)%I_tables%tables_inv Hx.
    by apply I_answer. }
  intros _. apply preserves_bind.
  { apply preserves_for_each_in.
    intros ? x (_ & _ & _ & _ & _ & _ & _ & ->)%I_tables%tables_inv Hx.
    by apply I_email_recipient. }
  intros _. apply preserves_bind_index.
  intros ? emails_by_id (_ & _ & _ & _ & _ & _ & _ & ->)%I_tables%tables_inv Hemails.
  apply preserves_bind_lift. intros matches _.
  apply preserves_bind; [apply preserves_for_each; intros; by apply I_match|intros _].
  by apply preserves_freezing.
Qed.

End LinkInvariant.
(** *** Properties that no pass can change *)

Lemma stable_setattr I o a v : stable I → preserves I (setattr o a v).
Proof. intros HI s r s' [= <- <-] Hs. by apply HI. Qed.

Lemma stable_append I o a x : stable I → preserves I (append o a x).
Proof.
  intros HI s [[]|e] s' Hrun Hs.
  - apply append_Ok in Hrun as (l & _ & ->). by apply HI.
  - by apply append_Raise in Hrun as ->.
Qed.

Lemma stable_freeze_attr I o a : stable I → preserves I (freeze_attr o a).
Proof.
  intros HI s [[]|e] s' Hrun Hs.
  - apply freeze_attr_Ok in Hrun as (v & l & _ & _ & ->). by apply HI.
  - by apply freeze_attr_Raise in Hrun as ->.
Qed.

Lemma preserves_freeze_attrs I o l :
  (∀ a, preserves I (freeze_attr o a)) → preserves I (freeze_attrs o l).
Proof.
  intros Hfz. induction l as [|a l IH]; simpl; [apply preserves_ret|].
  apply preserves_bind; [apply Hfz|by intros _].
Qed.

Lemma preserves__freeze I o :
  (∀ a, preserves I (freeze_attr o a)) → preserves I (_freeze o).
Proof.
  intros Hfz s r s' Hrun. rewrite _freeze_eq in Hrun. revert Hrun.
  by apply preserves_freeze_attrs.
Qed.

Lemma stable_School_new I sid : stable I → preserves I (School_new sid).
Proof.
  intros HI s r s' Hrun Hs. rewrite School_new_run in Hrun. injection Hrun as <- <-.
  apply HI. by apply HI.
Qed.

Ltac stable_steps HI :=
  repeat first
    [ apply preserves_ret
    | apply (stable_append _ _ _ _ HI)
    | apply (stable_setattr _ _ _ _ HI)
    | apply preserves_bind_lift; intros ? _
    | apply preserves_bind; [|intros ?] ].

Section Stable.
Context (int : string → option Z).

(** A failing [link] has set the flag all the same, and no [link] touches
    the loaded collections. *)
Lemma link_stable I fs s r s' :
  stable I → link int fs s = (r, s') → linked s = false →
  I (set_linked true s) → I s'.
Proof.
  intros HI Hrun Hlinked Hs.
  pose (J := λ s1, I s1 ∧ tables s1 = tables s).
  assert (stable J) as HJ.
  { intros s1 [H1 Ht]. repeat split; intros; try done; by apply HI. }
  enough (J s') as [? _] by done.
  eapply (link_invariant int J s); [..|done|done|done]; clear Hrun.
  - by intros s1 [_ ?].
  - intros v s1 H1. by apply HJ.
  - intros o. apply preserves__freeze. intros a. by apply stable_freeze_attr.
  - intros. unfold link_tag_user. stable_steps HJ.
  - intros. unfold link_group_membership. stable_steps HJ.
  - intros users_by_id rows _. apply preserves_for_fold. intros d r0 _.
    unfold link_school_membership. apply preserves_bind_lift. intros sid _.
    apply preserves_bind.
    { destruct (odict_lookup d sid); [apply preserves_ret|].
      apply preserves_bind; [by apply stable_School_new|intros ?; apply preserves_ret]. }
    intros [school d1]. stable_steps HJ.
  - intros. unfold link_tag_question. stable_steps HJ.
  - intros users_by_id x _ _. unfold link_question_author.
    apply preserves_bind; [by apply stable_setattr|intros _].
    destruct (users_by_id !! _); stable_steps HJ.
  - intros users_by_id questions_by_id x _ _ _. unfold link_answer.
    apply preserves_bind; [by apply stable_setattr|intros _].
    apply preserves_bind; [destruct (users_by_id !! _); stable_steps HJ|intros _].
    stable_steps HJ.
  - intros. unfold link_email_recipient. stable_steps HJ.
  - intros. unfold link_match. stable_steps HJ.
Qed.

End Stable.
(** *** References stay within the graph *)

Lemma count_tables s s' k : tables s' = tables s → k ≠ KSchool → count s' k = count s k.
Proof. intros [= ? ? ? ? ? ? ? ?] Hk. destruct k; simpl; congruence. Qed.

Lemma well_typed_insert s o a v :
  well_typed s →
  (∀ x, x ∈ value_refs v → x.1 ∈ target_kinds a ∧ x.2 < count s x.1) →
  well_typed (set_attrs (<[(o, a) := v]> (attrs s)) s).
Proof.
  intros Hs Hv o' a' v' x Hlookup Hx. simpl in Hlookup. rewrite count_set_attrs.
  apply lookup_insert_Some in Hlookup as [[[= <- <-] <-]|[_ Hlookup]]; [by apply Hv|].
  by eapply Hs.
Qed.

Lemma known_count s0 n s x : typed_from s0 n s → known s0 n x → x.2 < count s x.1.
Proof.
  intros (_ & Ht & Hn). unfold known. case_decide as Hk.
  - rewrite Hk. simpl. lia.
  - by rewrite (count_tables _ _ _ Ht Hk).
Qed.

Lemma typed_setattr s0 n o a v :
  (∀ x, x ∈ value_refs v → x.1 ∈ target_kinds a ∧ known s0 n x) →
  preserves (typed_from s0 n) (setattr o a v).
Proof.
  intros Hv s r s' [= <- <-] Hs. split; [|apply Hs].
  apply well_typed_insert; [apply Hs|].
  intros x [? ?]%Hv. split; [done|]. by eapply known_count.
Qed.

Lemma typed_append s0 n o a x :
  x.1 ∈ target_kinds a → known s0 n x → preserves (typed_from s0 n) (append o a x).
Proof.
  intros Hk Hx s [[]|e] s' Hrun Hs.
  - apply append_Ok in Hrun as (l & Hl & ->). split; [|apply Hs].
    apply well_typed_insert; [apply Hs|].
    intros y [Hy| ->%list_elem_of_singleton]%elem_of_app.
    + destruct Hs as (Hs & _). by eapply (Hs o a (ScList l)).
    + split; [done|]. by eapply known_count.
  - by apply append_Raise in Hrun as ->.
Qed.

Lemma typed_freeze_attr s0 n o a : preserves (typed_from s0 n) (freeze_attr o a).
Proof.
  intros s [[]|e] s' Hrun Hs.
  - apply freeze_attr_Ok in Hrun as (v & l & Hv & Hor & ->). split; [|apply Hs].
    apply well_typed_insert; [apply Hs|].
    intros y Hy. destruct Hs as (Hs & _). apply (Hs o a v); [done|].
    by destruct Hor as [-> | ->].
  - by apply freeze_attr_Raise in Hrun as ->.
Qed.

Lemma typed_from_mono s0 n n' s : (n' ≤ n)%nat → typed_from s0 n s → typed_from s0 n' s.
Proof. intros Hle (? & ? & ?). split; [done|]. split; [done|lia]. Qed.

Lemma known_index `{Countable K} s0 n ks (d : gmap K ref) k o :
  index_of_kind ks d → index_in s0 d → KSchool ∉ ks → d !! k = Some o →
  o.1 ∈ ks ∧ known s0 n o.
Proof.
  intros Hks Hin Hns Ho. split; [by eapply Hks|].
  unfold known. rewrite decide_False; [by eapply Hin|].
  intros Heq. apply Hns. rewrite <- Heq. by eapply Hks.
Qed.

Lemma key_by_known `{Countable K, PyKey K} {X} (key : X → K) k
    (xs : CareerVillage → list X) s0 n d id o :
  key_by key (enumerate k (xs s0)) = Ok d → length (xs s0) = count s0 k →
  k ≠ KSchool → d !! id = Some o → o.1 = k ∧ known s0 n o.
Proof.
  intros Hd Hlen Hk Ho.
  destruct (known_index s0 n [k] d id o) as [Hin ?]; [..|done|].
  - by eapply key_by_index_of_kind.
  - by eapply key_by_index_in.
  - intros Heq%list_elem_of_singleton. by apply Hk.
  - by apply list_elem_of_singleton in Hin.
Qed.

Lemma users_index_known s0 n users_by_id id o :
  users_index s0 = Ok users_by_id → users_by_id !! id = Some o →
  o.1 ∈ [KStudent; KProfessional] ∧ known s0 n o.
Proof.
  unfold users_index. intros (sb & Hs & (pb & Hp & Hu)%result_bind_Ok)%result_bind_Ok.
  apply (known_index s0 n [KStudent; KProfessional] users_by_id id o).
  - eapply (union_index_of_kind [KStudent] [KProfessional]); [..|done];
      by eapply key_by_index_of_kind.
  - eapply union_index_in; [..|done]; by eapply key_by_index_in.
  - intros Hin. repeat (apply elem_of_cons in Hin as [?|Hin]; [done|]).
    by apply elem_of_nil in Hin.
Qed.

Lemma elem_of_enumerate_known {X} k (xs : CareerVillage → list X) s0 n (x : ref * X) :
  x ∈ enumerate k (xs s0) → length (xs s0) = count s0 k → k ≠ KSchool →
  x.1.1 = k ∧ known s0 n x.1.
Proof.
  destruct x as [o x]. intros [Hk Hx%lookup_lt_Some]%elem_of_enumerate Hlen Hne.
  simpl. split; [done|]. unfold known. rewrite decide_False by congruence.
  rewrite Hk. by rewrite <- Hlen.
Qed.
Ltac solve_target :=
  unfold target_kinds; simpl;
  match goal with
  | H : (?o).1 = _ |- (?o).1 ∈ _ => rewrite H; by left
  | H : (?o).1 ∈ _ |- (?o).1 ∈ _ => exact H
  end.

Section Typed.
Context (int : string → option Z) (s0 : CareerVillage) (n : nat).

Lemma typed_link_tag_user tags_by_id users_by_id r :
  key_by Tag.tags_id (enumerate KTag (tags s0)) = Ok tags_by_id →
  users_index s0 = Ok users_by_id →
  preserves (typed_from s0 n) (link_tag_user int tags_by_id users_by_id r).
Proof.
  intros Ht Hu. unfold link_tag_user.
  apply preserves_bind_lift. intros tag_id _.
  apply preserves_bind_lift. intros tag Htag%getitem_Ok.
  apply preserves_bind_lift. intros user (? & _ & Huser%getitem_Ok)%result_bind_Ok.
  destruct (key_by_known _ KTag tags s0 n _ _ _ Ht eq_refl ltac:(done) Htag).
  destruct (users_index_known s0 n _ _ _ Hu Huser).
  apply preserves_bind; [|intros _]; apply typed_append; solve [done|solve_target].
Qed.

Lemma typed_link_group_membership groups_by_id users_by_id r :
  key_by Group.groups_id (enumerate KGroup (groups s0)) = Ok groups_by_id →
  users_index s0 = Ok users_by_id →
  preserves (typed_from s0 n) (link_group_membership groups_by_id users_by_id r).
Proof.
  intros Hg Hu. unfold link_group_membership.
  apply preserves_bind_lift. intros group (? & _ & Hgroup%getitem_Ok)%result_bind_Ok.
  apply preserves_bind_lift. intros user (? & _ & Huser%getitem_Ok)%result_bind_Ok.
  destruct (key_by_known _ KGroup groups s0 n _ _ _ Hg eq_refl ltac:(done) Hgroup).
  destruct (users_index_known s0 n _ _ _ Hu Huser).
  apply preserves_bind; [|intros _]; apply typed_append; solve [done|solve_target].
Qed.

Lemma typed_link_tag_question tags_by_id questions_by_id r :
  key_by Tag.tags_id (enumerate KTag (tags s0)) = Ok tags_by_id →
  key_by Question.questions_id (enumerate KQuestion (questions s0)) = Ok questions_by_id →
  preserves (typed_from s0 n) (link_tag_question int tags_by_id questions_by_id r).
Proof.
  intros Ht Hq. unfold link_tag_question.
  apply preserves_bind_lift. intros tag_id _.
  apply preserves_bind_lift. intros tag Htag%getitem_Ok.
  apply preserves_bind_lift.
  intros question (? & _ & Hquestion%getitem_Ok)%result_bind_Ok.
  destruct (key_by_known _ KTag tags s0 n _ _ _ Ht eq_refl ltac:(done) Htag).
  destruct (key_by_known _ KQuestion questions s0 n _ _ _ Hq eq_refl ltac:(done) Hquestion).
  apply preserves_bind; [|intros _]; apply typed_append; solve [done|solve_target].
Qed.

Lemma typed_link_match emails_by_id questions_by_id r :
  key_by Email.emails_id (enumerate KEmail (emails s0)) = Ok emails_by_id →
  key_by Question.questions_id (enumerate KQuestion (questions s0)) = Ok questions_by_id →
  preserves (typed_from s0 n) (link_match emails_by_id questions_by_id r).
Proof.
  intros He Hq. unfold link_match.
  apply preserves_bind_lift. intros email (? & _ & Hemail%getitem_Ok)%result_bind_Ok.
  apply preserves_bind_lift.
  intros question (? & _ & Hquestion%getitem_Ok)%result_bind_Ok.
  destruct (key_by_known _ KEmail emails s0 n _ _ _ He eq_refl ltac:(done) Hemail).
  destruct (key_by_known _ KQuestion questions s0 n _ _ _ Hq eq_refl ltac:(done) Hquestion).
  apply preserves_bind; [|intros _]; apply typed_append; solve [done|solve_target].
Qed.

Lemma typed_author users_by_id id o a :
  users_index s0 = Ok users_by_id → a = "author" →
  preserves (typed_from s0 n) (setattr o a (of_option (users_by_id !! id))).
Proof.
  intros Hu ->. apply typed_setattr. intros x Hx.
  destruct (users_by_id !! id) as [user|] eqn:Huser; simpl in Hx.
  - apply list_elem_of_singleton in Hx as ->.
    destruct (users_index_known s0 n _ _ _ Hu Huser). split; [solve_target|done].
  - by apply elem_of_nil in Hx.
Qed.

Lemma typed_link_question_author users_by_id x :
  users_index s0 = Ok users_by_id →
  x ∈ enumerate KQuestion (questions s0) →
  preserves (typed_from s0 n) (link_question_author users_by_id x).
Proof.
  intros Hu Hx. unfold link_question_author.
  destruct (elem_of_enumerate_known _ questions s0 n x Hx eq_refl ltac:(done)).
  apply preserves_bind; [by apply typed_author|intros _].
  destruct (users_by_id !! _) as [user|] eqn:Huser; [|apply preserves_ret].
  destruct (users_index_known s0 n _ _ _ Hu Huser).
  apply typed_append; solve [done|solve_target].
Qed.

Lemma typed_link_answer users_by_id questions_by_id x :
  users_index s0 = Ok users_by_id →
  key_by Question.questions_id (enumerate KQuestion (questions s0)) = Ok questions_by_id →
  x ∈ enumerate KAnswer (answers s0) →
  preserves (typed_from s0 n) (link_answer users_by_id questions_by_id x).
Proof.
  intros Hu Hq Hx. unfold link_answer.
  destruct (elem_of_enumerate_known _ answers s0 n x Hx eq_refl ltac:(done)).
  apply preserves_bind; [by apply typed_author|intros _].
  apply preserves_bind.
  { destruct (users_by_id !! _) as [user|] eqn:Huser; [|apply preserves_ret].
    destruct (users_index_known s0 n _ _ _ Hu Huser).
    apply typed_append; solve [done|solve_target]. }
  intros _. apply preserves_bind_lift. intros question Hquestion%getitem_Ok.
  destruct (key_by_known _ KQuestion questions s0 n _ _ _ Hq eq_refl ltac:(done) Hquestion).
  apply preserves_bind; [|intros _].
  - apply typed_setattr. intros y ->%list_elem_of_singleton. split; [solve_target|done].
  - apply typed_append; solve [done|solve_target].
Qed.

Lemma typed_link_email_recipient professionals_by_id x :
  key_by Professional.professionals_id (enumerate KProfessional (professionals s0))
    = Ok professionals_by_id →
  x ∈ enumerate KEmail (emails s0) →
  preserves (typed_from s0 n) (link_email_recipient professionals_by_id x).
Proof.
  intros Hp Hx. unfold link_email_recipient.
  destruct (elem_of_enumerate_known _ emails s0 n x Hx eq_refl ltac:(done)).
  apply preserves_bind_lift. intros professional Hprofessional%getitem_Ok.
  destruct (key_by_known _ KProfessional professionals s0 n _ _ _ Hp eq_refl
              ltac:(done) Hprofessional).
  apply preserves_bind; [|intros _].
  - apply typed_append; solve [done|solve_target].
  - apply typed_setattr. intros y ->%list_elem_of_singleton. split; [solve_target|done].
Qed.

End Typed.
Section TypedSchools.
Context (int : string → option Z) (s0 : CareerVillage).

Lemma typed_School_new n sid s :
  typed_from s0 n s →
  typed_from s0 (S (length (school_heap s))) (School_new sid s).2.
Proof.
  intros (Hs & Ht & Hn). rewrite School_new_run. simpl. split; [|split].
  - intros o a v x Hlookup Hx. simpl in Hlookup.
    apply lookup_insert_Some in Hlookup as [[_ <-]|[_ Hlookup]];
      [by apply elem_of_nil in Hx|].
    destruct (Hs o a v x Hlookup Hx) as [? Hc]. split; [done|].
    destruct x as [[] i]; simpl in *; try done. rewrite length_app. simpl. lia.
  - done.
  - simpl. rewrite length_app. simpl. lia.
Qed.

Lemma typed_link_school_membership users_by_id n d r s res s' :
  users_index s0 = Ok users_by_id →
  typed_from s0 n s →
  Forall (λ p : Z * ref, p.2.1 = KSchool ∧ p.2.2 < length (school_heap s)) d →
  link_school_membership int users_by_id d r s = (res, s') →
  typed_from s0 n s' ∧
  ∀ d', res = Ok d' →
    Forall (λ p : Z * ref, p.2.1 = KSchool ∧ p.2.2 < length (school_heap s')) d'.
Proof.
  intros Hu Hs Hd Hrun. unfold link_school_membership in Hrun.
  destruct (getitem r "school_memberships_school_id" ≫= py_int int) as [sid|e] eqn:Hsid.
  2:{ rewrite (bind_run_Raise _ _ s e s) in Hrun by done. by injection Hrun as <- <-. }
  rewrite (bind_run _ _ s sid s) in Hrun by done.
  assert (∃ school d1 s2,
    match odict_lookup d sid with
    | Some school => mret (school, d)
    | None => school ← School_new sid; mret (school, d ++ [(sid, school)])
    end s = (Ok (school, d1), s2) ∧
    typed_from s0 n s2 ∧ school.1 = KSchool ∧ school.2 < length (school_heap s2) ∧
    Forall (λ p : Z * ref, p.2.1 = KSchool ∧ p.2.2 < length (school_heap s2)) d1)
    as (school & d1 & s2 & Hschool & Hs2 & Hk & Hlt & Hd1).
  { destruct (odict_lookup d sid) as [school|] eqn:Hlookup.
    - exists school, d, s. split; [done|]. split; [done|].
      apply odict_lookup_Some in Hlookup as (i & _ & Hi).
      rewrite list_lookup_fmap in Hi. destruct (d !! i) as [p|] eqn:Hp; [|done].
      injection Hi as <-.
      by destruct (Forall_lookup_1 _ _ _ _ Hd Hp).
    - eexists _, _, _. split; [by rewrite (bind_run _ _ _ _ _ (School_new_run sid s))|].
      pose proof (typed_School_new n sid s Hs) as Hnew.
      rewrite School_new_run in Hnew. simpl in Hnew.
      split; [eapply typed_from_mono; [|exact Hnew]; destruct Hs as (_ & _ & ?); lia|].
      simpl. rewrite length_app. simpl. split; [done|]. split; [lia|].
      apply Forall_app. split.
      + eapply Forall_impl; [done|]. intros p [? ?]. split; [done|lia].
      + constructor; [|done]. simpl. split; [done|lia]. }
  rewrite (bind_run _ _ s (school, d1) s2) in Hrun by done.
  set (m := length (school_heap s2)) in *.
  assert (typed_from s0 m s') as Hs'.
  { revert Hrun.
    lazymatch goal with
    | |- ?tail s2 = _ → _ =>
        enough (preserves (typed_from s0 m) tail) as Hp
          by (intros Hrun; apply (Hp _ _ _ Hrun);
              destruct Hs2 as (? & ? & ?); split; [done|]; split; [done|]; unfold m; lia)
    end.
    apply preserves_bind_lift. intros user (? & _ & Huser%getitem_Ok)%result_bind_Ok.
    destruct (users_index_known s0 m _ _ _ Hu Huser).
    assert (known s0 m school) by (unfold known; by rewrite decide_True).
    apply preserves_bind; [|intros _; apply preserves_bind; [|intros _; apply preserves_ret]];
      apply typed_append; solve [done|solve_target]. }
  split.
  - apply (typed_from_mono s0 m n); [|done]. destruct Hs2 as (_ & _ & ?). unfold m. lia.
  - intros d' ->.
    apply bind_Ok in Hrun as (user & ? & _ & Hrun).
    apply bind_Ok in Hrun as ([] & ? & _ & Hrun).
    apply bind_Ok in Hrun as ([] & ? & _ & Hrun).
    injection Hrun as <- <-.
    eapply Forall_impl; [done|]. intros p [? ?]. split; [done|].
    destruct Hs' as (_ & _ & ?). unfold m in *. lia.
Qed.

Lemma typed_school_pass users_by_id rows :
  users_index s0 = Ok users_by_id →
  ∀ n d s r s',
    typed_from s0 n s →
    Forall (λ p : Z * ref, p.2.1 = KSchool ∧ p.2.2 < length (school_heap s)) d →
    for_fold rows (link_school_membership int users_by_id) d s = (r, s') →
    typed_from s0 n s'.
Proof.
  intros Hu. induction rows as [|row rows IH]; intros n d s r s' Hs Hd Hrun;
    simpl in Hrun.
  - by injection Hrun as <- <-.
  - destruct (link_school_membership int users_by_id d row s) as [[d1|e] s1] eqn:Hrow.
    + rewrite (bind_run _ _ _ _ _ Hrow) in Hrun.
      destruct (typed_link_school_membership _ _ _ _ _ _ _ Hu Hs Hd Hrow) as [Hs1 Hd1].
      eapply IH; [done|by apply Hd1|done].
    + rewrite (bind_run_Raise _ _ _ _ _ Hrow) in Hrun. injection Hrun as <- <-.
      by destruct (typed_link_school_membership _ _ _ _ _ _ _ Hu Hs Hd Hrow).
Qed.

Lemma link_typed_from fs r s' :
  well_typed s0 → link int fs s0 = (r, s') →
  typed_from s0 (length (school_heap s0)) s'.
Proof.
  intros Hs Hrun. destruct (linked s0) eqn:Hlinked.
  { rewrite link_linked_run in Hrun by done. by injection Hrun as <- <-. }
  eapply (link_invariant int (typed_from s0 (length (school_heap s0))) s0);
    [..|done|done|done].
  - by intros s1 (_ & ? & _).
  - by intros v s1 ?.
  - intros o. apply preserves__freeze. intros a. apply typed_freeze_attr.
  - intros. by apply typed_link_tag_user.
  - intros. by apply typed_link_group_membership.
  - intros users_by_id rows Hu s1 r1 s2 Hrun1 Hs1.
    by eapply typed_school_pass.
  - intros. by apply typed_link_tag_question.
  - intros. by apply typed_link_question_author.
  - intros. by apply typed_link_answer.
  - intros. by apply typed_link_email_recipient.
  - intros. by apply typed_link_match.
Qed.

End TypedSchools.
(** ** Parsing a cell *)

Lemma outcome_bind_Returns {A B} (r : outcome A) (f : A → outcome B) b :
  r ≫= f = Returns b ↔ ∃ a, r = Returns a ∧ f a = Returns b.
Proof.
  destruct r as [a|e]; simpl; split; eauto.
  - by intros (? & [= <-] & ?).
  - done.
  - by intros (? & ? & ?).
Qed.

Lemma outcome_bind_Raises {A B} (r : outcome A) (f : A → outcome B) e :
  r ≫= f = Raises e ↔ r = Raises e ∨ ∃ a, r = Returns a ∧ f a = Raises e.
Proof.
  destruct r as [a|e']; simpl; split; eauto.
  - by intros [?|(? & [= <-] & ?)].
  - intros [= <-]. by left.
  - by intros [[= <-]|(? & ? & ?)].
Qed.

Lemma of_result_Returns {A} (r : result A) a : of_result r = Returns a ↔ r = Ok a.
Proof. destruct r; simpl; split; congruence. Qed.

Lemma of_result_Raises {A} (r : result A) e :
  of_result r = Raises e ↔ ∃ e', r = Raise e' ∧ e = Exn e'.
Proof.
  destruct r as [a|e']; simpl; split.
  - done.
  - by intros (? & ? & _).
  - intros [= <-]. eauto.
  - by intros (? & [= <-] & ->).
Qed.

Lemma split_nonempty sep s : split sep s ≠ [].
Proof.
  destruct s as [|c s]; simpl; [done|].
  case_decide; [done|]. by destruct (split sep s).
Qed.

Lemma join_cons sep w l :
  l ≠ [] → join sep (w :: l) = w +:+ String sep (join sep l).
Proof. by destruct l. Qed.

Lemma join_split sep s : join sep (split sep s) = s.
Proof.
  induction s as [|c s IH]; simpl; [done|].
  case_decide as Hc.
  - rewrite join_cons by apply split_nonempty. simpl. by rewrite IH, Hc.
  - destruct (split sep s) as [|w ws] eqn:Hs; [by apply split_nonempty in Hs|].
    destruct ws as [|w' ws].
    + simpl in *. by rewrite IH.
    + rewrite join_cons in IH by done. rewrite join_cons by done.
      change (String c (w +:+ String sep (join sep (w' :: ws))) = String c s).
      by rewrite IH.
Qed.

Lemma split_occurs sep s : Forall (λ w, occurs sep w = false) (split sep s).
Proof.
  induction s as [|c s IH]; simpl; [by repeat constructor|].
  case_decide as Hc; [by constructor|].
  destruct (split sep s) as [|w ws]; [by apply Forall_nil in IH; repeat constructor;
    simpl; rewrite bool_decide_eq_false_2|].
  apply Forall_cons in IH as [Hw Hws]. constructor; [|done].
  simpl. by rewrite bool_decide_eq_false_2.
Qed.

Lemma split_no_sep sep w : occurs sep w = false → split sep w = [w].
Proof.
  induction w as [|c w IH]; simpl; [done|].
  intros [Hc Hw]%orb_false_elim. apply bool_decide_eq_false in Hc.
  rewrite decide_False by done. by rewrite IH.
Qed.

Lemma split_app sep w s :
  occurs sep w = false → split sep (w +:+ String sep s) = w :: split sep s.
Proof.
  induction w as [|c w IH]; simpl.
  - intros _. by rewrite decide_True.
  - intros [Hc Hw]%orb_false_elim. apply bool_decide_eq_false in Hc.
    rewrite decide_False by done. by rewrite IH.
Qed.

Lemma split_join sep l :
  l ≠ [] → Forall (λ w, occurs sep w = false) l → split sep (join sep l) = l.
Proof.
  induction l as [|w l IH]; [done|]. intros _ [Hw Hl]%Forall_cons.
  destruct l as [|w' l].
  - simpl. by apply split_no_sep.
  - rewrite join_cons by done. rewrite split_app by done. by rewrite IH.
Qed.

(** [split] and [join] are inverse to each other. *)
Lemma split_spec sep s l :
  split sep s = l ↔ l ≠ [] ∧ Forall (λ w, occurs sep w = false) l ∧ join sep l = s.
Proof.
  split.
  - intros <-. split; [apply split_nonempty|]. split; [apply split_occurs|apply join_split].
  - intros (Hne & Hl & <-). by apply split_join.
Qed.

Lemma append_nil s : "" +:+ s = s.
Proof. done. Qed.

Lemma append_cons c s1 s2 : String c s1 +:+ s2 = String c (s1 +:+ s2).
Proof. done. Qed.

Lemma append_assoc s1 s2 s3 : (s1 +:+ s2) +:+ s3 = s1 +:+ (s2 +:+ s3).
Proof.
  induction s1 as [|c s1 IH]; [done|]. by rewrite !append_cons, IH.
Qed.

Lemma occurs_app c w1 w2 : occurs c (w1 +:+ w2) = occurs c w1 || occurs c w2.
Proof.
  induction w1 as [|c' w1 IH]; simpl; [done|]. by rewrite IH, orb_assoc.
Qed.

Lemma occurs_join c sep l :
  occurs c (join sep l) = false → Forall (λ w, occurs c w = false) l.
Proof.
  induction l as [|w l IH]; [done|]. destruct l as [|w' l].
  - simpl. by repeat constructor.
  - rewrite join_cons by done. rewrite occurs_app. simpl.
    intros [Hw [_ Hl]%orb_false_elim]%orb_false_elim. constructor; [done|by apply IH].
Qed.

Lemma occurs_join_false c sep l :
  c ≠ sep → Forall (λ w, occurs c w = false) l → occurs c (join sep l) = false.
Proof.
  intros Hne. induction l as [|w l IH]; [done|]. intros [Hw Hl]%Forall_cons.
  destruct l as [|w' l]; [done|].
  rewrite join_cons by done. rewrite occurs_app, Hw. simpl.
  rewrite bool_decide_eq_false_2 by done. by apply IH.
Qed.

Lemma unpack3_Returns {A} (l : list A) a b c :
  unpack3 l = Returns (a, b, c) ↔ l = [a; b; c].
Proof.
  split; [|by intros ->].
  destruct l as [|? [|? [|? [|? ?]]]]; simpl; try done. by intros [= -> -> ->].
Qed.

Lemma unpack3_Raises {A} (l : list A) e :
  unpack3 l = Raises e → length l ≠ 3 ∧ ∃ msg, e = Exn (ValueError msg).
Proof.
  destruct l as [|? [|? [|? [|? ?]]]]; simpl; try done;
    intros [= <-]; (split; [done|]); unfold not_enough_values, too_many_values; eauto.
Qed.

Lemma unpack3_map_Returns {A B} (f : A → outcome B) l x y z :
  unpack3_map f l = Returns (x, y, z) ↔
  ∃ a b c, l = [a; b; c] ∧ f a = Returns x ∧ f b = Returns y ∧ f c = Returns z.
Proof.
  split.
  - destruct l as [|a [|b [|c [|d ?]]]]; simpl; try done.
    + by destruct (f a).
    + destruct (f a); [|done]. simpl. by destruct (f b).
    + destruct (f a) as [x'|] eqn:Ha; [|done]. simpl.
      destruct (f b) as [y'|] eqn:Hb; [|done]. simpl.
      destruct (f c) as [z'|] eqn:Hc; [|done]. simpl.
      intros [= -> -> ->]. by exists a, b, c.
    + destruct (f a); [|done]. simpl. destruct (f b); [|done]. simpl.
      destruct (f c); [|done]. simpl. by destruct (f d).
  - intros (a & b & c & -> & Ha & Hb & Hc). simpl. by rewrite Ha, Hb, Hc.
Qed.

(** What an unpacking of [map(f, l)] raises is what [f] raised, or the
    [ValueError] of a wrong count. *)
Lemma unpack3_map_Raises {A B} (f : A → outcome B) l e :
  unpack3_map f l = Raises e →
  (∃ a, a ∈ l ∧ f a = Raises e) ∨ (length l ≠ 3 ∧ ∃ msg, e = Exn (ValueError msg)).
Proof.
  unfold not_enough_values, too_many_values.
  destruct l as [|a [|b [|c [|d ?]]]]; simpl.
  - intros [= <-]. right. eauto.
  - destruct (f a) eqn:Ha; simpl; intros [= <-]; [right; eauto|left].
    exists a. split; [left|done].
  - destruct (f a) eqn:Ha; simpl; [|intros [= <-]; left; exists a; split; [left|done]].
    destruct (f b) eqn:Hb; simpl; intros [= <-]; [right; eauto|left].
    exists b. split; [right; left|done].
  - destruct (f a) eqn:Ha; simpl; [|intros [= <-]; left; exists a; split; [left|done]].
    destruct (f b) eqn:Hb; simpl;
      [|intros [= <-]; left; exists b; split; [right; left|done]].
    destruct (f c) eqn:Hc; simpl; [done|].
    intros [= <-]; left; exists c; split; [right; right; left|done].
  - destruct (f a) eqn:Ha; simpl; [|intros [= <-]; left; exists a; split; [left|done]].
    destruct (f b) eqn:Hb; simpl;
      [|intros [= <-]; left; exists b; split; [right; left|done]].
    destruct (f c) eqn:Hc; simpl;
      [|intros [= <-]; left; exists c; split; [right; right; left|done]].
    destruct (f d) eqn:Hd; simpl; intros [= <-]; [right; eauto|left].
    exists d. split; [do 3 right; left|done].
Qed.
Section Parsing.
Context (int : string → option Z).
Context (datetime_of : Z → Z → Z → Z → Z → Z → outcome datetime).

Lemma py_int_Returns cell z :
  (of_result ∘ py_int int) cell = Returns z ↔ int cell = Some z.
Proof.
  unfold compose, py_int. destruct (int cell); simpl; split; congruence.
Qed.

Lemma py_int_Raises cell e :
  (of_result ∘ py_int int) cell = Raises e → e = Exn (ValueError cell).
Proof.
  unfold compose, py_int. destruct (int cell); simpl; congruence.
Qed.

Lemma date_join y mo d h mi se :
  y +:+ "-" +:+ mo +:+ "-" +:+ d +:+ " " +:+ h +:+ ":" +:+ mi +:+ ":" +:+ se
    +:+ " UTC+0000" =
  join Separator.space
    [join Separator.hyphen [y; mo; d]; join Separator.colon [h; mi; se]; "UTC+0000"].
Proof.
  unfold Separator.space, Separator.hyphen, Separator.colon. simpl join.
  by rewrite !append_cons, !append_nil, !append_assoc, !append_cons, !append_assoc,
    !append_cons.
Qed.

(** X2.  The strings that [quick_parse_datetime] reads are those of the
    form [Y-M-D h:m:s UTC+0000] whose six fields hold no separator and are
    numerals for [int], denoting a date and time that [datetime] accepts;
    the result is that date and time. *)
Theorem quick_parse_datetime_format s dt :
  quick_parse_datetime int datetime_of (Some s) = Returns dt ↔
  ∃ y mo d h mi se Y Mo D H Mi Se,
    s = y +:+ "-" +:+ mo +:+ "-" +:+ d +:+ " " +:+ h +:+ ":" +:+ mi +:+ ":" +:+ se
          +:+ " UTC+0000" ∧
    Forall (λ w, occurs Separator.space w = false ∧ occurs Separator.hyphen w = false)
      [y; mo; d] ∧
    Forall (λ w, occurs Separator.space w = false ∧ occurs Separator.colon w = false)
      [h; mi; se] ∧
    int y = Some Y ∧ int mo = Some Mo ∧ int d = Some D ∧
    int h = Some H ∧ int mi = Some Mi ∧ int se = Some Se ∧
    datetime_of Y Mo D H Mi Se = Returns dt.
Proof.
  unfold quick_parse_datetime. split.
  - intros ([[date time] zone] & Hparts%unpack3_Returns & Hrest)%outcome_bind_Returns.
    apply split_spec in Hparts as (_ & Hspace & Hs).
    case_decide as Hzone; [subst zone|done].
    apply outcome_bind_Returns in Hrest as ([[Y Mo] D] & Hdate & Hrest).
    apply outcome_bind_Returns in Hrest as ([[H Mi] Se] & Htime & Hrest).
    apply unpack3_map_Returns in Hdate
      as (y & mo & d & Hdate & Hy%py_int_Returns & Hmo%py_int_Returns & Hd%py_int_Returns).
    apply unpack3_map_Returns in Htime
      as (h & mi & se & Htime & Hh%py_int_Returns & Hmi%py_int_Returns & Hse%py_int_Returns).
    rename Hrest into Hdt.
    apply split_spec in Hdate as (_ & Hhyphen & Hdate).
    apply split_spec in Htime as (_ & Hcolon & Htime).
    apply Forall_cons in Hspace as [Hsd [Hst _]%Forall_cons].
    rewrite <- Hdate in Hsd. rewrite <- Htime in Hst.
    apply occurs_join in Hsd. apply occurs_join in Hst.
    exists y, mo, d, h, mi, se, Y, Mo, D, H, Mi, Se.
    split; [by rewrite date_join, Hdate, Htime|].
    split; [|split; [|done]].
    + apply Forall_forall. intros w Hw. rewrite Forall_forall in Hsd, Hhyphen. eauto.
    + apply Forall_forall. intros w Hw. rewrite Forall_forall in Hst, Hcolon. eauto.
  - intros (y & mo & d & h & mi & se & Y & Mo & D & H & Mi & Se & -> & Hdate & Htime &
            Hy & Hmo & Hd & Hh & Hmi & Hse & Hdt).
    rewrite date_join.
    assert (Forall (λ w, occurs Separator.space w = false) [y; mo; d]) as Hsd
      by (eapply Forall_impl; [exact Hdate|]; by intros w [? _]).
    assert (Forall (λ w, occurs Separator.hyphen w = false) [y; mo; d]) as Hhd
      by (eapply Forall_impl; [exact Hdate|]; by intros w [_ ?]).
    assert (Forall (λ w, occurs Separator.space w = false) [h; mi; se]) as Hst
      by (eapply Forall_impl; [exact Htime|]; by intros w [? _]).
    assert (Forall (λ w, occurs Separator.colon w = false) [h; mi; se]) as Hct
      by (eapply Forall_impl; [exact Htime|]; by intros w [_ ?]).
    rewrite split_join; [|done|].
    2:{ repeat constructor; by apply occurs_join_false. }
    simpl unpack3. simpl mbind.
    pose proof (split_join Separator.hyphen [y; mo; d] ltac:(done) Hhd) as E1.
    pose proof (split_join Separator.colon [h; mi; se] ltac:(done) Hct) as E2.
    simpl join in E1, E2. rewrite E1, E2. simpl.
    apply py_int_Returns in Hy, Hmo, Hd, Hh, Hmi, Hse. unfold compose in *.
    rewrite Hy. simpl. rewrite Hmo. simpl. rewrite Hd. simpl.
    rewrite Hh. simpl. rewrite Hmi. simpl. rewrite Hse. simpl.
    exact Hdt.
Qed.

Lemma quick_parse_datetime_count s :
  length (split Separator.space s) ≠ 3 →
  ∃ msg, quick_parse_datetime int datetime_of (Some s) = Raises (Exn (ValueError msg)).
Proof.
  intros Hlen. unfold quick_parse_datetime.
  destruct (unpack3 (split Separator.space s)) as [[[d t] zone]|e] eqn:Hparts.
  - apply unpack3_Returns in Hparts. by rewrite Hparts in Hlen.
  - apply unpack3_Raises in Hparts as (_ & msg & ->). by exists msg.
Qed.

(** X3.  What [quick_parse_datetime] raises.  Of [None] it raises the
    [AttributeError] of [None.split].  Of a string that does not hold
    exactly two spaces it raises [ValueError]; of a string that does, but
    whose last field is not [UTC+0000], it raises [AssertionError], whatever
    the date and the time look like.  Of a string it never raises anything
    else than [ValueError], [AssertionError] and what [datetime] raises of
    six integers. *)
Theorem quick_parse_datetime_errors :
  quick_parse_datetime int datetime_of None = Raises (NoneAttributeError "split") ∧
  (∀ s, length (split Separator.space s) ≠ 3 →
     ∃ msg, quick_parse_datetime int datetime_of (Some s) = Raises (Exn (ValueError msg))) ∧
  (∀ s d t zone, split Separator.space s = [d; t; zone] → zone ≠ "UTC+0000" →
     quick_parse_datetime int datetime_of (Some s) = Raises AssertionError) ∧
  (∀ s e, quick_parse_datetime int datetime_of (Some s) = Raises e →
     e = AssertionError ∨ (∃ msg, e = Exn (ValueError msg)) ∨
     ∃ Y Mo D H Mi Se, datetime_of Y Mo D H Mi Se = Raises e).
Proof.
  split; [done|]. split; [|split].
  - apply quick_parse_datetime_count.
  - intros s d t zone Hparts Hzone. unfold quick_parse_datetime. rewrite Hparts. simpl.
    by rewrite decide_False.
  - intros s e. unfold quick_parse_datetime.
    intros [(_ & msg & ->)%unpack3_Raises|([[d t] zone] & _ & Hrest)]%outcome_bind_Raises;
      [right; left; eauto|].
    case_decide as Hzone; [|injection Hrest as <-; by left]. right.
    assert (∀ l e', unpack3_map (of_result ∘ py_int int) l = Raises e' →
              ∃ msg, e' = Exn (ValueError msg)) as Hints.
    { intros l e' [(a & _ & ->%py_int_Raises)|(_ & ?)]%unpack3_map_Raises; eauto. }
    apply outcome_bind_Raises in Hrest as [?%Hints|([[Y Mo] D] & _ & Hrest)];
      [by left|].
    apply outcome_bind_Raises in Hrest as [?%Hints|([[H Mi] Se] & _ & Hrest)];
      [by left|].
    right. by exists Y, Mo, D, H, Mi, Se.
Qed.

End Parsing.
(** ** Loading the tables *)

Lemma for_yield_Returns {A B} (f : A → outcome B) l ys :
  for_yield f l = Returns ys ↔ Forall2 (λ x y, f x = Returns y) l ys.
Proof.
  revert ys. induction l as [|x l IH]; intros ys; simpl.
  - split; [intros [= <-]; constructor|by intros ->%Forall2_nil_inv_l].
  - split.
    + intros (y & Hy & (ys' & Hys & [= <-])%outcome_bind_Returns)%outcome_bind_Returns.
      constructor; [done|by apply IH].
    + intros (y & ys' & Hy & Hys%IH & ->)%Forall2_cons_inv_l.
      by rewrite Hy, Hys.
Qed.

Lemma for_yield_Raises {A B} (f : A → outcome B) l e :
  for_yield f l = Raises e ↔
  ∃ good bad rest, l = good ++ bad :: rest ∧
    Forall (λ x, ∃ y, f x = Returns y) good ∧ f bad = Raises e.
Proof.
  induction l as [|x l IH]; simpl.
  - split; [done|]. intros (good & bad & rest & Hl & _). by destruct good.
  - split.
    + intros [Hx|(y & Hy & Hrest)]%outcome_bind_Raises.
      * exists [], x, l. by repeat split.
      * apply outcome_bind_Raises in Hrest as [Hrest|(? & _ & ?)]; [|done].
        apply IH in Hrest as (good & bad & rest & -> & Hgood & Hbad).
        exists (x :: good), bad, rest. split; [done|]. split; [|done].
        constructor; [by exists y|done].
    + intros (good & bad & rest & Hl & Hgood & Hbad).
      destruct good as [|x' good]; simpl in Hl; injection Hl as -> ->.
      * by rewrite Hbad.
      * apply Forall_cons in Hgood as [[y Hy] Hgood]. rewrite Hy. simpl.
        assert (for_yield f (good ++ bad :: rest) = Raises e) as ->; [|done].
        apply IH. by exists good, bad, rest.
Qed.

(** X4.  [load_seq] gives one entity per data row of the table, in the
    order of the rows, each what [func] returns of its row; it raises what
    reading the table raises, or else what [func] raises of the first row
    of which it raises. *)
Theorem load_seq_rows {A} fs path (func : row → outcome A) :
  (∀ l, load_seq fs path func = Returns l ↔
     ∃ rows, read_csv fs path = Ok rows ∧ Forall2 (λ r x, func r = Returns x) rows l) ∧
  (∀ e, load_seq fs path func = Raises e ↔
     (∃ e', read_csv fs path = Raise e' ∧ e = Exn e') ∨
     ∃ good bad rest, read_csv fs path = Ok (good ++ bad :: rest) ∧
       Forall (λ r, ∃ x, func r = Returns x) good ∧ func bad = Raises e).
Proof.
  unfold load_seq. split.
  - intros l. rewrite outcome_bind_Returns. split.
    + intros (rows & Hrows%of_result_Returns & Hl%for_yield_Returns). eauto.
    + intros (rows & Hrows & Hl). exists rows.
      by rewrite of_result_Returns, for_yield_Returns.
  - intros e. rewrite outcome_bind_Raises. split.
    + intros [Hcsv%of_result_Raises|(rows & Hrows%of_result_Returns & Hl)]; [by left|].
      apply for_yield_Raises in Hl as (good & bad & rest & -> & Hgood & Hbad).
      right. by exists good, bad, rest.
    + intros [Hcsv|(good & bad & rest & Hrows & Hgood & Hbad)].
      * left. by apply of_result_Raises.
      * right. exists (good ++ bad :: rest). rewrite of_result_Returns. split; [done|].
        apply for_yield_Raises. by exists good, bad, rest.
Qed.

Lemma load_seq_Returns {A} fs path (func : row → outcome A) l :
  load_seq fs path func = Returns l →
  ∃ rows, read_csv fs path = Ok rows ∧ Forall2 (λ r x, func r = Returns x) rows l.
Proof.
  unfold load_seq.
  intros (rows & Hrows%of_result_Returns & Hl%for_yield_Returns)%outcome_bind_Returns.
  eauto.
Qed.

Lemma load_seq_first {A} fs path (func : row → outcome A) r rows e :
  read_csv fs path = Ok (r :: rows) → func r = Raises e →
  load_seq fs path func = Raises e.
Proof. intros Hrows Hr. unfold load_seq. rewrite Hrows. simpl. by rewrite Hr. Qed.

Lemma load_seq_ext {A} fs fs' path (func : row → outcome A) :
  fs !! path = fs' !! path → load_seq fs path func = load_seq fs' path func.
Proof. intros Heq. unfold load_seq, read_csv. by rewrite Heq. Qed.

Lemma cell_Returns d column c : cell d column = Returns c ↔ d !! column = Some c.
Proof.
  unfold cell, getitem. destruct (d !! column); simpl; split; congruence.
Qed.

Lemma cell_run d column c : d !! column = Some c → cell d column = Returns c.
Proof. apply cell_Returns. Qed.

Lemma cell_missing d column :
  d !! column = None → cell d column = Raises (Exn (KeyError (KeyStr column))).
Proof. intros Hd. unfold cell, getitem. by rewrite Hd. Qed.

Lemma empty_string_to_none_spec s :
  empty_string_to_none s ≠ Some "" ∧ (empty_string_to_none s = None ↔ s = "") ∧
  ∀ s', empty_string_to_none s = Some s' → s' = s.
Proof.
  unfold empty_string_to_none. case_decide as Hs; repeat split; try done.
  - by intros [= ?].
  - by intros s' [= <-].
Qed.

Section Loaders.
Context (int : string → option Z).
Context (datetime_of : Z → Z → Z → Z → Z → Z → outcome datetime).

(** X5.  An empty date.  When the first row of the table has the columns
    that come before its date, and its date is the empty string, loading
    students or professionals raises [ValueError] (the date has no three
    fields), whereas loading questions, answers or emails raises the
    [AttributeError] of [None.split]: for these, the cell goes through
    [empty_string_to_none] first. *)
Theorem empty_date_cell fs path r rows :
  read_csv fs path = Ok (r :: rows) →
  (is_Some (r !! "students_id") → is_Some (r !! "students_location") →
   r !! "students_date_joined" = Some "" →
   ∃ msg, Student_load int datetime_of fs path = Raises (Exn (ValueError msg))) ∧
  (is_Some (r !! "professionals_id") → is_Some (r !! "professionals_location") →
   is_Some (r !! "professionals_industry") → is_Some (r !! "professionals_headline") →
   r !! "professionals_date_joined" = Some "" →
   ∃ msg, Professional_load int datetime_of fs path = Raises (Exn (ValueError msg))) ∧
  (is_Some (r !! "questions_id") → is_Some (r !! "questions_author_id") →
   r !! "questions_date_added" = Some "" →
   Question_load int datetime_of fs path = Raises (NoneAttributeError "split")) ∧
  (is_Some (r !! "answers_id") → is_Some (r !! "answers_author_id") →
   is_Some (r !! "answers_question_id") →
   r !! "answers_date_added" = Some "" →
   Answer_load int datetime_of fs path = Raises (NoneAttributeError "split")) ∧
  (is_Some (r !! "emails_id") → is_Some (r !! "emails_recipient_id") →
   r !! "emails_date_sent" = Some "" →
   Email_load int datetime_of fs path = Raises (NoneAttributeError "split")).
Proof.
  intros Hrows.
  destruct (quick_parse_datetime_count int datetime_of "") as [msg Hempty]; [done|].
  split; [|split; [|split; [|split]]].
  - intros [? H1] [? H2] H3. exists msg. eapply load_seq_first; [done|].
    rewrite (cell_run _ _ _ H1), (cell_run _ _ _ H2), (cell_run _ _ _ H3).
    cbn -[quick_parse_datetime]. by rewrite Hempty.
  - intros [? H1] [? H2] [? H3] [? H4] H5. exists msg. eapply load_seq_first; [done|].
    rewrite (cell_run _ _ _ H1), (cell_run _ _ _ H2), (cell_run _ _ _ H3),
      (cell_run _ _ _ H4), (cell_run _ _ _ H5).
    cbn -[quick_parse_datetime]. by rewrite Hempty.
  - intros [? H1] [? H2] H3. eapply load_seq_first; [done|].
    by rewrite (cell_run _ _ _ H1), (cell_run _ _ _ H2), (cell_run _ _ _ H3).
  - intros [? H1] [? H2] [? H3] H4. eapply load_seq_first; [done|].
    by rewrite (cell_run _ _ _ H1), (cell_run _ _ _ H2), (cell_run _ _ _ H3),
      (cell_run _ _ _ H4).
  - intros [? H1] [? H2] H3. eapply load_seq_first; [done|].
    by rewrite (cell_run _ _ _ H1), (cell_run _ _ _ H2), (cell_run _ _ _ H3).
Qed.

End Loaders.
Section LoadRaw.
Context (int : string → option Z).
Context (datetime_of : Z → Z → Z → Z → Z → Z → outcome datetime).

(** X6.  Optional fields.  No student and no professional that [load]
    returns has the empty string for its location, its industry or its
    headline: an empty cell is loaded as [None].  The two identifiers of a
    professional, [professionals_id] and the inherited [user_id], are
    equal. *)
Theorem optional_fields fs path :
  (∀ l x, Student_load int datetime_of fs path = Returns l → x ∈ l →
     BasePerson.location (Student.base x) ≠ Some "") ∧
  (∀ l x, Professional_load int datetime_of fs path = Returns l → x ∈ l →
     BasePerson.location (Professional.base x) ≠ Some "" ∧
     Professional.industry x ≠ Some "" ∧
     Professional.headline x ≠ Some "" ∧
     Professional.professionals_id x = BasePerson.user_id (Professional.base x)).
Proof.
  split.
  - intros l x (rows & _ & Hl)%load_seq_Returns Hx.
    apply list_elem_of_lookup in Hx as [i Hi].
    destruct (Forall2_lookup_r _ _ _ _ _ Hl Hi) as (r & _ & Hr).
    apply outcome_bind_Returns in Hr as (id & _ & Hr).
    apply outcome_bind_Returns in Hr as (location & _ & Hr).
    apply outcome_bind_Returns in Hr as (cell_ & _ & Hr).
    apply outcome_bind_Returns in Hr as (date & _ & Hr).
    injection Hr as <-. simpl. apply empty_string_to_none_spec.
  - intros l x (rows & _ & Hl)%load_seq_Returns Hx.
    apply list_elem_of_lookup in Hx as [i Hi].
    destruct (Forall2_lookup_r _ _ _ _ _ Hl Hi) as (r & _ & Hr).
    apply outcome_bind_Returns in Hr as (id & _ & Hr).
    apply outcome_bind_Returns in Hr as (location & _ & Hr).
    apply outcome_bind_Returns in Hr as (industry & _ & Hr).
    apply outcome_bind_Returns in Hr as (headline & _ & Hr).
    apply outcome_bind_Returns in Hr as (cell_ & _ & Hr).
    apply outcome_bind_Returns in Hr as (date & _ & Hr).
    injection Hr as <-. simpl. repeat split; apply empty_string_to_none_spec.
Qed.

Lemma load_raw_Returns fs dir cv :
  load_raw int datetime_of fs dir = Returns cv ↔
  ∃ tags groups students professionals questions answers emails,
    Tag_load int fs (dir +:+ "/tags.csv") = Returns tags ∧
    Group_load fs (dir +:+ "/groups.csv") = Returns groups ∧
    Student_load int datetime_of fs (dir +:+ "/students.csv") = Returns students ∧
    Professional_load int datetime_of fs (dir +:+ "/professionals.csv")
      = Returns professionals ∧
    Question_load int datetime_of fs (dir +:+ "/questions.csv") = Returns questions ∧
    Answer_load int datetime_of fs (dir +:+ "/answers.csv") = Returns answers ∧
    Email_load int datetime_of fs (dir +:+ "/emails.csv") = Returns emails ∧
    cv = CareerVillage_new dir tags groups students professionals questions answers emails.
Proof.
  unfold load_raw. split.
  - intros (tags & ? & Hrun)%outcome_bind_Returns.
    apply outcome_bind_Returns in Hrun as (groups & ? & Hrun).
    apply outcome_bind_Returns in Hrun as (students & ? & Hrun).
    apply outcome_bind_Returns in Hrun as (professionals & ? & Hrun).
    apply outcome_bind_Returns in Hrun as (questions & ? & Hrun).
    apply outcome_bind_Returns in Hrun as (answers & ? & Hrun).
    apply outcome_bind_Returns in Hrun as (emails & ? & Hrun).
    injection Hrun as <-. by eexists _, _, _, _, _, _, _.
  - intros (tags & groups & students & professionals & questions & answers & emails &
            -> & -> & -> & -> & -> & -> & -> & ->). done.
Qed.

(** X7.  [load_raw] returns exactly when the seven tables of entities load,
    and it reads nothing else: two file systems that agree on these seven
    files give the same result, whatever their join tables hold.  What it
    returns is a freshly constructed graph, not linked, on which [link]
    succeeds exactly when the tables are consistent. *)
Theorem load_raw_fresh fs dir :
  (∀ fs', (∀ name, name ∈ ["/tags.csv"; "/groups.csv"; "/students.csv";
                           "/professionals.csv"; "/questions.csv"; "/answers.csv";
                           "/emails.csv"] →
             fs' !! (dir +:+ name) = fs !! (dir +:+ name)) →
     load_raw int datetime_of fs' dir = load_raw int datetime_of fs dir) ∧
  (∀ cv, load_raw int datetime_of fs dir = Returns cv →
     fresh cv ∧ directory_path cv = dir ∧
     Tag_load int fs (dir +:+ "/tags.csv") = Returns (tags cv) ∧
     Group_load fs (dir +:+ "/groups.csv") = Returns (groups cv) ∧
     Student_load int datetime_of fs (dir +:+ "/students.csv") = Returns (students cv) ∧
     Professional_load int datetime_of fs (dir +:+ "/professionals.csv")
       = Returns (professionals cv) ∧
     Question_load int datetime_of fs (dir +:+ "/questions.csv")
       = Returns (questions cv) ∧
     Answer_load int datetime_of fs (dir +:+ "/answers.csv") = Returns (answers cv) ∧
     Email_load int datetime_of fs (dir +:+ "/emails.csv") = Returns (emails cv) ∧
     ((∃ s', link int fs cv = (Ok tt, s')) ↔ consistent int fs cv)).
Proof.
  split.
  - intros fs' Hfs. unfold load_raw, Tag_load, Group_load, Student_load,
      Professional_load, Question_load, Answer_load, Email_load.
    rewrite !(load_seq_ext fs' fs); [done|apply Hfs..];
      repeat first [by left|right].
  - intros cv (tags & groups & students & professionals & questions & answers & emails &
               ? & ? & ? & ? & ? & ? & ? & ->)%load_raw_Returns.
    pose proof (CareerVillage_new_fresh dir tags groups students professionals
                  questions answers emails) as Hfresh.
    split; [done|]. split; [done|]. do 7 (split; [done|]).
    by apply link_succeeds_iff.
Qed.


End LoadRaw.
(** ** Reading a table *)

Lemma foldl_insert_lookup (l : list (string * string)) k c :
  foldl (λ d kv, <[kv.1 := kv.2]> d) (∅ : row) l !! k = Some c ↔
  ∃ i, l !! i = Some (k, c) ∧ ∀ j c', i < j → l !! j ≠ Some (k, c').
Proof.
  revert c. induction l as [|[k' c'] l IH] using rev_ind; intros c.
  - simpl. rewrite lookup_empty. split; [done|]. by intros (i & ? & _).
  - rewrite foldl_snoc. simpl. destruct (decide (k' = k)) as [->|Hne].
    + rewrite lookup_insert_eq. split.
      * intros [= ->]. exists (length l). split.
        -- by rewrite lookup_app_r, Nat.sub_diag.
        -- intros j c0 Hj Hlookup. apply lookup_lt_Some in Hlookup.
           rewrite length_app in Hlookup. simpl in Hlookup. lia.
      * intros (i & Hi & Hlast).
        destruct (decide (i = length l)) as [->|Hi'].
        -- rewrite lookup_app_r, Nat.sub_diag in Hi by done. simpl in Hi. congruence.
        -- exfalso. apply (Hlast (length l) c').
           ++ apply lookup_lt_Some in Hi. rewrite length_app in Hi. simpl in Hi. lia.
           ++ by rewrite lookup_app_r, Nat.sub_diag.
    + rewrite lookup_insert_ne by done. rewrite IH. split.
      * intros (i & Hi & Hlast). exists i. split.
        -- by apply lookup_app_l_Some.
        -- intros j c0 Hj Hlookup.
           apply lookup_app_Some in Hlookup as [Hlookup|[_ Hlookup]];
             [by eapply Hlast|].
           apply list_lookup_singleton_Some in Hlookup as [_ [= ? ?]]. done.
      * intros (i & Hi & Hlast).
        apply lookup_app_Some in Hi as [Hi|[_ Hi]].
        -- exists i. split; [done|]. intros j c0 Hj Hlookup.
           apply (Hlast j c0 Hj). by apply lookup_app_l_Some.
        -- apply list_lookup_singleton_Some in Hi as [_ [= ? ?]]. done.
Qed.

Lemma dict_zip_lookup header cells k c :
  dict_zip header cells !! k = Some c ↔
  ∃ i, header !! i = Some k ∧ cells !! i = Some c ∧
       ∀ j, i < j → j < length cells → header !! j ≠ Some k.
Proof.
  unfold dict_zip. rewrite foldl_insert_lookup. split.
  - intros (i & [Hk Hc]%lookup_zip_Some & Hlast). exists i. split; [done|]. split; [done|].
    intros j Hj Hlen Hheader.
    destruct (lookup_lt_is_Some_2 cells j Hlen) as [c' Hc'].
    apply (Hlast j c' Hj). by apply lookup_zip_Some.
  - intros (i & Hk & Hc & Hlast). exists i. split; [by apply lookup_zip_Some|].
    intros j c' Hj [Hk' Hc']%lookup_zip_Some.
    apply (Hlast j Hj); [by eapply lookup_lt_Some|done].
Qed.

(** X1.  [read_csv] of a path that holds no file raises
    [FileNotFoundError]; of a file with no line, not even a header, it
    raises [RuntimeError] (the [StopIteration] of [next] inside a
    generator).  Otherwise it yields one dictionary per line after the
    header, in order; the cell under a column is the cell of the line at the
    last position where the header has that column and the line has a cell:
    cells beyond the header are left out, and a line shorter than the header
    lacks the columns beyond it. *)
Theorem read_csv_cells fs path :
  (fs !! path = None → read_csv fs path = Raise (FileNotFoundError path)) ∧
  (fs !! path = Some [] → ∃ msg, read_csv fs path = Raise (RuntimeError msg)) ∧
  (∀ header lines, fs !! path = Some (header :: lines) →
     ∃ rows, read_csv fs path = Ok rows ∧ length rows = length lines ∧
       ∀ i line, lines !! i = Some line →
         ∃ r, rows !! i = Some r ∧
           ∀ k c, r !! k = Some c ↔
             ∃ j, header !! j = Some k ∧ line !! j = Some c ∧
                  ∀ j', j < j' → j' < length line → header !! j' ≠ Some k).
Proof.
  unfold read_csv. split; [by intros ->|]. split; [intros ->; eauto|].
  intros header lines ->. eexists. split; [done|]. split; [by rewrite length_fmap|].
  intros i line Hline. exists (dict_zip header line).
  split; [by rewrite list_lookup_fmap, Hline|]. intros k c. apply dict_zip_lookup.
Qed.

(** ** What [link] keeps *)

Section Kept.
Context (int : string → option Z).

Lemma link_any fs s r s' :
  link int fs s = (r, s') → linked s' = true ∧ tables s' = tables s.
Proof.
  intros Hrun. destruct (linked s) eqn:Hlinked.
  { rewrite link_linked_run in Hrun by done. by injection Hrun as <- <-. }
  apply (link_stable int (λ s1, linked s1 = true ∧ tables s1 = tables s) fs s r s');
    [|done..].
  intros s1 [? ?]. by repeat split.
Qed.

(** X9.  Whatever [link] does, return or raise from any of its passes, it
    leaves the [linked] flag set, and the directory and the seven loaded
    collections as they were. *)
Theorem link_flag_and_tables fs s :
  linked (link int fs s).2 = true ∧ tables (link int fs s).2 = tables s.
Proof.
  destruct (link int fs s) as [r s'] eqn:Hrun. simpl. by eapply link_any.
Qed.

(** X10.  A [link] that failed cannot be tried again: the graph it leaves
    behind is marked as linked, so a second [link], of whatever tables,
    returns at once without an error and without linking anything, and
    [save] refuses the graph. *)
Theorem link_failure_sticks fs s e s' :
  link int fs s = (Raise e, s') →
  (∀ fs', link int fs' s' = (Ok tt, s')) ∧
  (∀ path disk, save s' path disk =
     (Raise (RuntimeError "Can't pickle a linked CareerVillage"), disk)).
Proof.
  intros Hrun.
  destruct (link_any _ _ _ _ Hrun) as [Hlinked _].
  split.
  - intros fs'. by apply link_linked_run.
  - intros path disk. unfold save. by rewrite Hlinked.
Qed.

Lemma fresh_well_typed s : fresh s → well_typed s.
Proof.
  intros Hfresh o a v x Hlookup Hx.
  apply (fresh_attrs _ Hfresh) in Hlookup. apply init_attrs_empty in Hlookup as ->.
  by apply elem_of_nil in Hx.
Qed.

(** X11.  [link] keeps the references within the graph.  A freshly
    constructed graph is well typed: every object that an attribute refers
    to, as an element of a collection or as an author, a question or a
    recipient, exists and is of a class meant for that attribute.  And
    whatever [link] makes of a well-typed graph is well typed, whether
    [link] returns or raises on the way. *)
Theorem link_well_typed fs s :
  (fresh s → well_typed s) ∧
  (well_typed s → well_typed (link int fs s).2).
Proof.
  split; [apply fresh_well_typed|].
  intros Hs. destruct (link int fs s) as [r s'] eqn:Hrun.
  by destruct (link_typed_from int s fs r s' Hs Hrun).
Qed.

End Kept.

(** ** The students and the professionals of a tag, group or school *)

Lemma filter_kinds (l : list ref) :
  Forall (λ u : ref, u.1 ∈ [KStudent; KProfessional]) l →
  filter (λ u : ref, u.1 = KProfessional) l = filter (λ u : ref, u.1 ≠ KStudent) l.
Proof.
  induction 1 as [|u l Hu _ IH]; [done|].
  rewrite !filter_cons, IH.
  apply elem_of_cons in Hu as [Hu|Hu%list_elem_of_singleton]; rewrite Hu;
    by repeat case_decide.
Qed.

(** X15.  The students and the professionals of a tag, a group or a school
    of a well-typed graph are its users, split in two: each is the
    sub-list of the users of that class, in their order, and together they
    are all the users, each once. *)
Theorem students_and_professionals s o v l :
  well_typed s → o.1 ∈ [KTag; KGroup; KSchool] →
  attrs s !! (o, "users") = Some v → v = ScList l ∨ v = ScFrozenList l →
  ∃ ls lp,
    BaseHasUsers_students o s = Returns ls ∧
    BaseHasUsers_professionals o s = Returns lp ∧
    ls = filter (λ u : ref, u.1 = KStudent) l ∧
    lp = filter (λ u : ref, u.1 = KProfessional) l ∧
    ls ++ lp ≡ₚ l ∧
    length ls + length lp = length l.
Proof.
  intros Hs Ho Hv Hor.
  assert (Forall (λ u : ref, u.1 ∈ [KStudent; KProfessional]) l) as Hl.
  { apply Forall_forall. intros u Hu.
    destruct (Hs o "users" v u Hv) as [Hk _]; [by destruct Hor as [-> | ->]|done]. }
  assert (∀ p, users_of o p s = Returns v) as Husers.
  { intros p. unfold users_of. rewrite (getattr_instance _ _ _ _ Hv).
    repeat (apply elem_of_cons in Ho as [->|Ho]; [done|]). by apply elem_of_nil in Ho. }
  assert (iterate v = Returns l) as Hiter by (by destruct Hor as [-> | ->]).
  eexists _, _. unfold BaseHasUsers_students, BaseHasUsers_professionals.
  rewrite !Husers. simpl. rewrite Hiter. simpl.
  split; [done|]. split; [done|]. split; [done|]. split; [done|].
  rewrite (filter_kinds l Hl).
  pose proof (filter_app_complement (λ u : ref, u.1 = KStudent) l) as Hperm.
  split; [done|]. by rewrite <- length_app, Hperm.
Qed.
(** ** The views of an entity *)

Lemma relationships_lookup o s a : relationships o s !! a = attrs s !! (o, a).
Proof.
  unfold relationships.
  apply (map_fold_weak_ind (λ (r : gmap string value) (m : gmap (ref * string) value),
                              r !! a = m !! (o, a))).
  - by rewrite !lookup_empty.
  - intros [o' a'] v m r Hnone IH. simpl. case_decide as Ho.
    + subst o'. destruct (decide (a' = a)) as [->|Ha].
      * by rewrite !lookup_insert_eq.
      * rewrite !lookup_insert_ne by congruence. done.
    + rewrite lookup_insert_ne by congruence. done.
Qed.

Lemma optional_plain x o : optional x ≠ Rel (Obj o).
Proof. by destruct x. Qed.

Lemma scalars_of_plain o s l k v o' :
  scalars_of o s = Some l → (k, v) ∈ l → v ≠ Rel (Obj o').
Proof.
  unfold scalars_of. intros Hl Hin Hv. subst v.
  destruct o.1; apply fmap_Some in Hl as (x & _ & ->);
    unfold Tag_scalars, Group_scalars, School_scalars, Student_scalars,
      Professional_scalars, BasePerson_scalars, Question_scalars, Answer_scalars,
      Email_scalars in Hin; simpl in Hin;
    repeat (apply elem_of_cons in Hin as [Heq|Hin];
            [injection Heq as _ Hv;
             first [discriminate Hv|by symmetry in Hv; apply optional_plain in Hv]|]);
    by apply elem_of_nil in Hin.
Qed.

Lemma scalars_of_is_Some o s : is_Some (scalars_of o s) ↔ o.2 < count s o.1.
Proof.
  unfold scalars_of, count. destruct o.1; rewrite fmap_is_Some; apply lookup_lt_is_Some.
Qed.

Lemma vars_is_Some o s : is_Some (vars o s) ↔ o.2 < count s o.1.
Proof.
  rewrite <- scalars_of_is_Some. unfold vars.
  destruct (scalars_of o s); simpl; split; intros [? ?]; eauto; done.
Qed.

(** A reference to an entity among the instance attributes is in the
    store of relationships. *)
Lemma vars_Obj o s d k o' :
  vars o s = Some d → d !! k = Some (Rel (Obj o')) → attrs s !! (o, k) = Some (Obj o').
Proof.
  unfold vars. destruct (scalars_of o s) as [l|] eqn:Hl; [|done].
  intros [= <-] [Hrel|[_ Hscalar]]%lookup_union_Some_raw.
  - apply lookup_fmap_Some in Hrel as (v & [= ->] & Hv).
    by rewrite relationships_lookup in Hv.
  - apply elem_of_list_to_map_2 in Hscalar.
    by destruct (scalars_of_plain _ _ _ _ _ o' Hl Hscalar).
Qed.

Lemma vars_relationship o s d k v :
  vars o s = Some d → attrs s !! (o, k) = Some v → d !! k = Some (Rel v).
Proof.
  unfold vars. destruct (scalars_of o s) as [l|]; [|done].
  intros [= <-] Hv. apply lookup_union_Some_l.
  by rewrite lookup_fmap, relationships_lookup, Hv.
Qed.

Lemma sorted_items_Permutation {V} (d : gmap string V) :
  sorted_items d ≡ₚ map_to_list d.
Proof. apply merge_sort_Permutation. Qed.

Lemma elem_of_sorted_items {V} (d : gmap string V) k v :
  (k, v) ∈ sorted_items d ↔ d !! k = Some v.
Proof. by rewrite sorted_items_Permutation, elem_of_map_to_list. Qed.

Lemma elem_of_sorted_items_fst {V} (d : gmap string V) k :
  k ∈ (sorted_items d).*1 ↔ is_Some (d !! k).
Proof.
  rewrite list_elem_of_fmap. split.
  - intros ([k' v] & -> & Hin%elem_of_sorted_items). by exists v.
  - intros [v Hv]. exists (k, v). by rewrite elem_of_sorted_items.
Qed.

Lemma NoDup_sorted_items {V} (d : gmap string V) : NoDup (sorted_items d).*1.
Proof. rewrite sorted_items_Permutation. apply NoDup_fst_map_to_list. Qed.

Lemma Sorted_sorted_items {V} (d : gmap string V) :
  Sorted String.le (sorted_items d).*1.
Proof.
  apply (Sorted_fmap fst (λ x y : string * V, String.le x.1 y.1)); [done|].
  apply Sorted_merge_sort. intros x y. apply (total String.le).
Qed.

Lemma attrs_lookup o s d' k v :
  BaseEntity_attrs o s = Some d' →
  d' !! k = Some v ↔
  ∃ d, vars o s = Some d ∧ d !! k = Some v ∧
       startswith k "_" = false ∧ endswith k "_id" = false.
Proof.
  unfold BaseEntity_attrs. intros (d & Hd & ->)%fmap_Some.
  rewrite map_lookup_filter_Some. simpl. split.
  - intros (? & ? & ?). by exists d.
  - intros (d0 & Hd0 & ? & ? & ?). rewrite Hd in Hd0. by injection Hd0 as <-.
Qed.

Lemma as_scalar_as_list v :
  (∃ x, as_scalar v = Some x ∧ as_list v = None) ∨
  (∃ l, as_list v = Some l ∧ as_scalar v = None ∧
        (v = Rel (ScList l) ∨ v = Rel (ScFrozenList l))).
Proof.
  unfold as_scalar, as_list. destruct v as [| | |[]]; simpl; eauto 6.
Qed.

Lemma mapM_fst {A B C} (f : B → option C) (l : list (A * B)) k :
  mapM (λ kv : A * B, (kv.1,.) <$> f kv.2) l = Some k →
  k.*1 = l.*1 ∧ Forall2 (λ x y, y.1 = x.1 ∧ f x.2 = Some y.2) l k.
Proof.
  intros Hk%mapM_Some. induction Hk as [|[a b] [a' c] l k Hx _ IH]; [done|].
  apply fmap_Some in Hx as (c' & Hc & [= -> ->]). destruct IH as [IH1 IH2].
  split; [rewrite !fmap_cons; simpl; by rewrite IH1|]. by constructor.
Qed.

Lemma lengths_fst lists : (lengths lists).*1 = (sorted_items lists).*1.
Proof. unfold lengths. rewrite <- list_fmap_compose. by apply list_fmap_ext. Qed.

Lemma elem_of_lengths lists k x :
  (k, x) ∈ lengths lists ↔ ∃ l, lists !! k = Some l ∧ x = JInt (Z.of_nat (length l)).
Proof.
  unfold lengths. rewrite list_elem_of_fmap. split.
  - intros ([k' l] & [= -> ->] & Hin%elem_of_sorted_items). eauto.
  - intros (l & Hl & ->). exists (k, l). by rewrite elem_of_sorted_items.
Qed.

Lemma partitioned_attrs_inv o s scalars lists :
  partitioned_attrs o s = Some (scalars, lists) →
  ∃ d, vars o s = Some d ∧
    (∀ k x, scalars !! k = Some x ↔
       ∃ v, d !! k = Some v ∧ startswith k "_" = false ∧ endswith k "_id" = false ∧
            as_scalar v = Some x) ∧
    (∀ k l, lists !! k = Some l ↔
       ∃ v, d !! k = Some v ∧ startswith k "_" = false ∧ endswith k "_id" = false ∧
            as_list v = Some l).
Proof.
  unfold partitioned_attrs. intros (d' & Hd' & [= -> ->])%fmap_Some.
  pose proof Hd' as (d & Hd & _)%fmap_Some. exists d. split; [done|].
  split; intros k x; rewrite lookup_omap_Some; split.
  - intros (v & Hx & (d0 & Hd0 & ? & ? & ?)%(attrs_lookup _ _ _ _ _ Hd')).
    rewrite Hd in Hd0. injection Hd0 as <-. by exists v.
  - intros (v & ? & ? & ? & ?). exists v. split; [done|].
    apply (attrs_lookup _ _ _ _ _ Hd'). by exists d.
  - intros (v & Hx & (d0 & Hd0 & ? & ? & ?)%(attrs_lookup _ _ _ _ _ Hd')).
    rewrite Hd in Hd0. injection Hd0 as <-. by exists v.
  - intros (v & ? & ? & ? & ?). exists v. split; [done|].
    apply (attrs_lookup _ _ _ _ _ Hd'). by exists d.
Qed.

Lemma partitioned_attrs_is_Some o s :
  is_Some (partitioned_attrs o s) ↔ o.2 < count s o.1.
Proof.
  rewrite <- vars_is_Some. unfold partitioned_attrs, BaseEntity_attrs.
  by rewrite !fmap_is_Some.
Qed.
Lemma as_scalar_SObj v o' : as_scalar v = Some (SObj o') ↔ v = Rel (Obj o').
Proof.
  unfold as_scalar. destruct v as [| | |[]]; simpl; split; congruence.
Qed.

Lemma plain_None x : plain x = None ↔ ∃ o', x = SObj o'.
Proof. destruct x; simpl; split; try done; eauto; by intros [? ?]. Qed.

Lemma plain_flat x j : plain x = Some j → ∀ items, j ≠ JDict items.
Proof. destruct x; simpl; intros [= <-]; done. Qed.

Lemma omap_fst_sublist {A B C} (f : B → option C) (l : list (A * B)) :
  (omap (λ kv : A * B, (kv.1,.) <$> f kv.2) l).*1 `sublist_of` l.*1.
Proof.
  induction l as [|[a b] l IH]; [done|]. simpl. destruct (f b); simpl.
  - by apply sublist_skip.
  - by apply sublist_cons.
Qed.

Lemma elem_of_omap_items {A B C} (f : B → option C) (l : list (A * B)) k x :
  (k, x) ∈ omap (λ kv : A * B, (kv.1,.) <$> f kv.2) l ↔
  ∃ b, (k, b) ∈ l ∧ f b = Some x.
Proof.
  rewrite list_elem_of_omap. split.
  - intros ([a b] & Hin & (c & Hc & [= -> ->])%fmap_Some). eauto.
  - intros (b & Hin & Hb). exists (k, b). split; [done|]. simpl. by rewrite Hb.
Qed.

(** The scalars and the collections of an entity have no key in common. *)
Lemma partition_disjoint o s scalars lists k :
  partitioned_attrs o s = Some (scalars, lists) →
  is_Some (scalars !! k) → is_Some (lists !! k) → False.
Proof.
  intros (d & _ & Hscalars & Hlists)%partitioned_attrs_inv [x Hx] [l Hl].
  apply Hscalars in Hx as (v & Hv & _ & _ & Hx).
  apply Hlists in Hl as (v' & Hv' & _ & _ & Hl).
  rewrite Hv in Hv'. injection Hv' as <-.
  destruct (as_scalar_as_list v) as [(? & _ & ?)|(? & _ & ? & _)]; congruence.
Qed.

(** X16.  The shallow view of an entity is flat and shows no entity.  It is
    one dictionary under the name of the class; none of its values is a
    dictionary; and its keys, each once, are the names of the instance
    attributes that neither start with an underscore nor end in [_id] and
    that do not hold an entity. *)
Theorem to_shallow_json_flat o s j :
  to_shallow_json o s = Some j →
  ∃ d items,
    vars o s = Some d ∧
    j = JDict [(class_name o.1, JDict items)] ∧
    NoDup items.*1 ∧
    (∀ k x, (k, x) ∈ items → ∀ nested, x ≠ JDict nested) ∧
    (∀ k, k ∈ items.*1 ↔
       ∃ v, d !! k = Some v ∧
            startswith k "_" = false ∧ endswith k "_id" = false ∧
            ∀ o', v ≠ Rel (Obj o')).
Proof.
  unfold to_shallow_json.
  destruct (partitioned_attrs o s) as [[scalars lists]|] eqn:Hp; [|done].
  intros [= <-].
  destruct (partitioned_attrs_inv _ _ _ _ Hp) as (d & Hd & Hscalars & Hlists).
  eexists d, _. split; [done|]. split; [done|]. split; [|split].
  - rewrite fmap_app. apply NoDup_app. split; [|split].
    + eapply sublist_NoDup; [apply (NoDup_sorted_items scalars)|apply omap_fst_sublist].
    + intros k Hk1 Hk2. rewrite lengths_fst in Hk2.
      apply elem_of_sorted_items_fst in Hk2.
      apply (λ H, elem_of_sublist _ _ _ H (omap_fst_sublist _ _)) in Hk1.
      apply elem_of_sorted_items_fst in Hk1.
      by eapply partition_disjoint.
    + rewrite lengths_fst. apply NoDup_sorted_items.
  - intros k x [Hin|Hin]%elem_of_app nested.
    + apply elem_of_omap_items in Hin as (b & _ & Hb). by eapply plain_flat.
    + by apply elem_of_lengths in Hin as (l & _ & ->).
  - intros k. rewrite fmap_app, elem_of_app. split.
    + intros [Hk|Hk].
      * apply list_elem_of_fmap in Hk as ([k' x] & -> & Hin).
        apply elem_of_omap_items in Hin as (b & Hin%elem_of_sorted_items & Hb).
        apply Hscalars in Hin as (v & Hv & ? & ? & Hs). exists v.
        do 3 (split; [done|]). intros o' ->.
        unfold as_scalar in Hs. simpl in Hs. by injection Hs as <-.
      * rewrite lengths_fst in Hk. apply elem_of_sorted_items_fst in Hk as [l Hl].
        apply Hlists in Hl as (v & Hv & ? & ? & Hl). exists v.
        do 3 (split; [done|]). by intros o' ->.
    + intros (v & Hv & ? & ? & Hobj).
      destruct (as_scalar_as_list v) as [(x & Hx & _)|(l & Hl & _)].
      * left. destruct (plain x) as [jx|] eqn:Hplain.
        -- apply list_elem_of_fmap. exists (k, jx). split; [done|].
           apply elem_of_omap_items. exists x. split; [|done].
           apply elem_of_sorted_items, Hscalars. by exists v.
        -- apply plain_None in Hplain as [o' ->].
           apply as_scalar_SObj in Hx. by destruct (Hobj o').
      * right. rewrite lengths_fst. apply elem_of_sorted_items_fst.
        exists l. apply Hlists. by exists v.
Qed.

Lemma to_json_items o s j :
  to_json o s = Some j →
  ∃ d scalars lists,
    vars o s = Some d ∧
    j = JDict [(class_name o.1, JDict (scalars ++ lists))] ∧
    NoDup (scalars ++ lists).*1 ∧
    Sorted String.le scalars.*1 ∧ Sorted String.le lists.*1 ∧
    (∀ k, k ∈ (scalars ++ lists).*1 ↔
       is_Some (d !! k) ∧ startswith k "_" = false ∧ endswith k "_id" = false) ∧
    (∀ k x, (k, x) ∈ lists ↔
       ∃ l, (d !! k = Some (Rel (ScList l)) ∨ d !! k = Some (Rel (ScFrozenList l))) ∧
            startswith k "_" = false ∧ endswith k "_id" = false ∧
            x = JInt (Z.of_nat (length l))) ∧
    (∀ k v x, d !! k = Some v →
       startswith k "_" = false → endswith k "_id" = false →
       as_scalar v = Some x →
       ∃ jx, (k, jx) ∈ scalars ∧ shown s x = Some jx).
Proof.
  unfold to_json.
  destruct (partitioned_attrs o s) as [[scalars lists]|] eqn:Hp; [|done]. simpl.
  destruct (mapM _ (sorted_items scalars)) as [components|] eqn:Hc; [|done].
  intros [= <-].
  destruct (partitioned_attrs_inv _ _ _ _ Hp) as (d & Hd & Hscalars & Hlists).
  destruct (mapM_fst _ _ _ Hc) as [Hfst Hall].
  exists d, components, (lengths lists). split; [done|]. split; [done|].
  split; [|split; [|split; [|split; [|split]]]].
  - rewrite fmap_app, Hfst, lengths_fst. apply NoDup_app. split; [|split].
    + apply NoDup_sorted_items.
    + intros k Hk1%elem_of_sorted_items_fst Hk2%elem_of_sorted_items_fst.
      by eapply partition_disjoint.
    + apply NoDup_sorted_items.
  - rewrite Hfst. apply Sorted_sorted_items.
  - rewrite lengths_fst. apply Sorted_sorted_items.
  - intros k. rewrite fmap_app, elem_of_app, Hfst, lengths_fst.
    rewrite !elem_of_sorted_items_fst. split.
    + intros [[x Hx]|[l Hl]].
      * apply Hscalars in Hx as (v & Hv & ? & ? & _). by eauto.
      * apply Hlists in Hl as (v & Hv & ? & ? & _). by eauto.
    + intros ([v Hv] & ? & ?).
      destruct (as_scalar_as_list v) as [(x & Hx & _)|(l & Hl & _)].
      * left. exists x. apply Hscalars. by exists v.
      * right. exists l. apply Hlists. by exists v.
  - intros k x. rewrite elem_of_lengths. split.
    + intros (l & (v & Hv & ? & ? & Hl)%Hlists & ->). exists l.
      destruct (as_scalar_as_list v) as [(? & _ & ?)|(l' & Hl' & _ & Hor)]; [congruence|].
      assert (l' = l) as -> by congruence.
      split; [by destruct Hor as [-> | ->]; eauto|done].
    + intros (l & Hor & ? & ? & ->). exists l. split; [|done].
      apply Hlists. destruct Hor as [Hv|Hv]; eexists; by repeat split.
  - intros k v x Hv ? ? Hscalar.
    assert (scalars !! k = Some x) as Hx.
    { apply Hscalars. exists v. by repeat split. }
    apply elem_of_sorted_items in Hx. apply list_elem_of_lookup in Hx as [i Hi].
    destruct (Forall2_lookup_l _ _ _ _ _ Hall Hi) as ([k' jx] & Hi' & Hk & Hshown).
    simpl in *. subst k'. exists jx. split; [by eapply list_elem_of_lookup_2|done].
Qed.


(** X17.  The deep view of an entity.  It is one dictionary under the name
    of the class, holding first the scalars and then the collections, each
    group in the order of its keys.  Its keys, each once, are the names of
    the instance attributes that neither start with an underscore nor end in
    [_id]; a collection is shown by its length, and an attribute that holds
    an entity by the shallow view of that entity. *)
Theorem to_json_keys o s j :
  to_json o s = Some j →
  ∃ d scalars lists,
    vars o s = Some d ∧
    j = JDict [(class_name o.1, JDict (scalars ++ lists))] ∧
    NoDup (scalars ++ lists).*1 ∧
    Sorted String.le scalars.*1 ∧ Sorted String.le lists.*1 ∧
    (∀ k, k ∈ (scalars ++ lists).*1 ↔
       is_Some (d !! k) ∧ startswith k "_" = false ∧ endswith k "_id" = false) ∧
    (∀ k x, (k, x) ∈ lists ↔
       ∃ l, (d !! k = Some (Rel (ScList l)) ∨ d !! k = Some (Rel (ScFrozenList l))) ∧
            startswith k "_" = false ∧ endswith k "_id" = false ∧
            x = JInt (Z.of_nat (length l))) ∧
    (∀ k o', d !! k = Some (Rel (Obj o')) →
       startswith k "_" = false → endswith k "_id" = false →
       ∃ x, (k, x) ∈ scalars ∧ to_shallow_json o' s = Some x).
Proof.
  intros (d & scalars & lists & Hd & Hj & Hnd & Hs1 & Hs2 & Hkeys & Hlists & Hscalars)
    %to_json_items.
  exists d, scalars, lists. do 7 (split; [done|]).
  intros k o' Hv ? ?. apply (Hscalars k (Rel (Obj o')) (SObj o')); try done.
Qed.

Lemma to_shallow_json_is_Some o s :
  is_Some (to_shallow_json o s) ↔ o.2 < count s o.1.
Proof.
  rewrite <- partitioned_attrs_is_Some. unfold to_shallow_json.
  destruct (partitioned_attrs o s) as [[scalars lists]|]; simpl; split;
    intros [? ?]; eauto; done.
Qed.

Lemma to_json_is_Some o s :
  well_typed s → o.2 < count s o.1 → is_Some (to_json o s).
Proof.
  intros Hs Ho. unfold to_json.
  destruct (partitioned_attrs o s) as [[scalars lists]|] eqn:Hp;
    [|by apply partitioned_attrs_is_Some in Ho as [? ?]; congruence].
  simpl.
  destruct (partitioned_attrs_inv _ _ _ _ Hp) as (d & Hd & Hscalars & _).
  destruct (mapM_is_Some_2 (λ kv : string * scalar, (kv.1,.) <$> shown s kv.2)
              (sorted_items scalars)) as [components ->]; [|by eexists].
  apply Forall_forall. intros [k x] Hin%elem_of_sorted_items.
  simpl. rewrite fmap_is_Some.
  destruct x as [| | | |o']; simpl; try by eexists.
  apply to_shallow_json_is_Some.
  apply Hscalars in Hin as (v & Hv & _ & _ & ->%as_scalar_SObj).
  apply (vars_Obj _ _ _ _ _ Hd) in Hv.
  by destruct (Hs o k (Obj o') o' Hv ltac:(by left)).
Qed.

(** X18.  The views are defined wherever there is an object.  The shallow
    view of [o] is defined exactly when [o] is an object of the graph; in a
    well-typed graph, so is the deep view of every object, and
    [json_list] gives one view per object of its list. *)
Theorem views_defined s :
  (∀ o, is_Some (to_shallow_json o s) ↔ o.2 < count s o.1) ∧
  (well_typed s → ∀ o, o.2 < count s o.1 → is_Some (to_json o s)) ∧
  (well_typed s → ∀ l, (∀ o, o ∈ l → o.2 < count s o.1) →
     ∃ js, json_list l s = Some js ∧ length js = length l).
Proof.
  split; [intros o; apply to_shallow_json_is_Some|].
  split; [intros Hs o Ho; by apply to_json_is_Some|].
  intros Hs l Hl. unfold json_list.
  destruct (mapM_is_Some_2 (λ x, to_json x s) l) as [js Hjs].
  { apply Forall_forall. intros o Ho. by apply to_json_is_Some, Hl. }
  exists js. split; [done|]. by apply length_mapM in Hjs.
Qed.
Lemma vars_lookup_inv o s d k v :
  vars o s = Some d → d !! k = Some v →
  (∃ w, attrs s !! (o, k) = Some w ∧ v = Rel w) ∨
  (∃ l, scalars_of o s = Some l ∧ (k, v) ∈ l).
Proof.
  unfold vars. destruct (scalars_of o s) as [l|] eqn:Hl; [|done].
  intros [= <-] [Hrel|[_ Hscalar]]%lookup_union_Some_raw.
  - apply lookup_fmap_Some in Hrel as (w & <- & Hw). left. exists w.
    by rewrite relationships_lookup in Hw.
  - right. exists l. split; [done|]. by apply elem_of_list_to_map_2.
Qed.

Section LinkedViews.
Context (int : string → option Z).

(** After a successful [link], the [author] of a question is bound on the
    instance. *)
Lemma link_question_author_bound fs s s' users_by_id i q :
  linked s = false → link int fs s = (Ok tt, s') →
  users_index s = Ok users_by_id → questions s !! i = Some q →
  attrs s' !! ((KQuestion, i), "author")
    = Some (of_option (users_by_id !! Question.author_id q)).
Proof.
  intros Hlinked Hrun Hindex Hq.
  apply link_Ok_stages in Hrun as []; [|done].
  rewrite (stages_users_index _ _ _ _ Hstudents Hprofessionals Husers) in Hindex.
  injection Hindex as <-.
  apply freezing_Ok in Hrun9 as (Hfz & _).
  destruct (questions_pass _ _ _ _ Hrun5 ((KQuestion, i), q)) as [Hauthor _].
  { by apply elem_of_enumerate. }
  simpl in Hauthor.
  eapply freezes_reference; [done|by destruct (users_by_id0 !! _); eauto|]. simpl.
  rewrite (frame_attrs _ _ _ Hframe8), (frame_attrs _ _ _ Hframe7),
    (frame_attrs _ _ _ Hframe6); done.
Qed.

(** X19.  The author in the view of a question.  Before [link], the deep
    view of a question of a freshly constructed graph has no entry
    [author]: the [None] of the class is not an attribute of the instance.
    After a successful [link], it has one: [None] when the [author_id] of
    the question is the identifier of no user, and otherwise the shallow
    view of that user. *)
Theorem question_view_author fs s s' users_by_id i q :
  fresh s → link int fs s = (Ok tt, s') →
  users_index s = Ok users_by_id → questions s !! i = Some q →
  (∃ items, to_json (KQuestion, i) s = Some (JDict [("Question", JDict items)]) ∧
            "author" ∉ items.*1) ∧
  (∃ items x, to_json (KQuestion, i) s' = Some (JDict [("Question", JDict items)]) ∧
              ("author", x) ∈ items ∧
              match users_by_id !! Question.author_id q with
              | None => x = JNone
              | Some user => to_shallow_json user s' = Some x
              end).
Proof.
  intros Hfresh Hrun Hindex Hq.
  pose proof (fresh_well_typed _ Hfresh) as Hs.
  pose proof (lookup_lt_Some _ _ _ Hq) as Hi.
  split.
  - destruct (to_json_is_Some (KQuestion, i) s Hs Hi) as [j Hj].
    destruct (to_json_items _ _ _ Hj)
      as (d & scalars & lists & Hd & -> & _ & _ & _ & Hkeys & _).
    exists (scalars ++ lists). split; [done|].
    intros ([v Hv] & _)%Hkeys.
    destruct (vars_lookup_inv _ _ _ _ _ Hd Hv) as [(w & Hw & _)|(l & Hl & Hin)].
    + by apply (fresh_attrs _ Hfresh) in Hw.
    + unfold scalars_of in Hl. simpl in Hl. rewrite Hq in Hl. injection Hl as <-.
      unfold Question_scalars in Hin.
      repeat (apply elem_of_cons in Hin as [Hin|Hin]; [done|]).
      by apply elem_of_nil in Hin.
  - pose proof (link_question_author_bound _ _ _ _ _ _ (fresh_linked _ Hfresh)
                  Hrun Hindex Hq) as Hauthor.
    destruct (link_typed_from int s fs _ _ Hs Hrun) as (Hs' & Ht & _).
    assert ((KQuestion, i).2 < count s' (KQuestion, i).1) as Hi'
      by (by rewrite (count_tables _ _ _ Ht)).
    destruct (to_json_is_Some (KQuestion, i) s' Hs' Hi') as [j Hj].
    destruct (to_json_items _ _ _ Hj)
      as (d & scalars & lists & Hd & -> & _ & _ & _ & _ & _ & Hscalars).
    pose proof (vars_relationship _ _ _ _ _ Hd Hauthor) as Hv.
    destruct (users_by_id !! Question.author_id q) as [user|]; simpl in Hv.
    + destruct (Hscalars "author" _ (SObj user) Hv eq_refl eq_refl eq_refl)
        as (x & Hin & Hx).
      exists (scalars ++ lists), x. split; [done|]. split; [|done].
      apply elem_of_app. by left.
    + destruct (Hscalars "author" _ SNone Hv eq_refl eq_refl eq_refl)
        as (x & Hin & [= <-]).
      exists (scalars ++ lists), JNone. split; [done|]. split; [|done].
      apply elem_of_app. by left.
Qed.

End LinkedViews.
(** ** The collections, in the order of the rows *)

Lemma append_pair_elems (x y : ref) a b s s' :
  a ≠ b → (append x a y;; append y b x) s = (Ok tt, s') →
  ∀ o, elems s' o a = elems s o a ++ (if decide (x = o) then [y] else []) ∧
       elems s' o b = elems s o b ++ (if decide (y = o) then [x] else []).
Proof.
  intros Hab Hrun o. apply bind_Ok in Hrun as ([] & s1 & H1 & H2). split.
  - rewrite (append_elems_ne _ _ _ _ _ o a H2) by congruence.
    case_decide as Hx.
    + subst o. by apply append_elems_eq.
    + rewrite app_nil_r. apply (append_elems_ne _ _ _ _ _ _ _ H1). congruence.
  - rewrite <- (append_elems_ne _ _ _ _ _ o b H1) by congruence.
    case_decide as Hy.
    + subst o. by apply append_elems_eq.
    + rewrite app_nil_r. apply (append_elems_ne _ _ _ _ _ _ _ H2). congruence.
Qed.

Lemma pairs_cons `{Countable K1, Countable K2} (ids : row → option (K1 * K2))
    (d1 : gmap K1 ref) (d2 : gmap K2 ref) r rows i1 i2 o1 o2 :
  ids r = Some (i1, i2) → d1 !! i1 = Some o1 → d2 !! i2 = Some o2 →
  pairs ids d1 d2 (r :: rows) = (o1, o2) :: pairs ids d1 d2 rows.
Proof. intros Hids H1 H2. unfold pairs. simpl. rewrite Hids. simpl. by rewrite H1, H2. Qed.

Lemma seconds_of_cons o x y l :
  seconds_of o ((x, y) :: l) = (if decide (x = o) then [y] else []) ++ seconds_of o l.
Proof. unfold seconds_of. rewrite filter_cons. simpl. by case_decide. Qed.

Lemma firsts_of_cons o x y l :
  firsts_of o ((x, y) :: l) = (if decide (y = o) then [x] else []) ++ firsts_of o l.
Proof. unfold firsts_of. rewrite filter_cons. simpl. by case_decide. Qed.

(** A pass over a join table appends to each object its partners, row
    after row. *)
Lemma join_pass_elems `{Countable K1, Countable K2} (ids : row → option (K1 * K2))
    (d1 : gmap K1 ref) (d2 : gmap K2 ref) a b (body : row → M unit)
    (swap : bool) rows :
  a ≠ b →
  (∀ r s i1 i2 o1 o2, ids r = Some (i1, i2) → d1 !! i1 = Some o1 → d2 !! i2 = Some o2 →
     body r s = if swap then (append o2 b o1;; append o1 a o2) s
                else (append o1 a o2;; append o2 b o1) s) →
  (∀ r s s', body r s = (Ok tt, s') → resolves ids d1 d2 r) →
  ∀ s s', for_each rows body s = (Ok tt, s') →
    ∀ o, elems s' o a = elems s o a ++ seconds_of o (pairs ids d1 d2 rows) ∧
         elems s' o b = elems s o b ++ firsts_of o (pairs ids d1 d2 rows).
Proof.
  intros Hab Hbody Hresolves. induction rows as [|r rows IH]; intros s s' Hrun o.
  - injection Hrun as <-. unfold seconds_of, firsts_of, pairs. simpl.
    by rewrite !app_nil_r.
  - simpl in Hrun. apply bind_Ok in Hrun as ([] & s1 & Hr & Hrun).
    destruct (Hresolves _ _ _ Hr) as (i1 & i2 & o1 & o2 & Hids & Ho1 & Ho2).
    rewrite (pairs_cons _ _ _ _ _ _ _ _ _ Hids Ho1 Ho2).
    rewrite seconds_of_cons, firsts_of_cons, !app_assoc.
    destruct (IH _ _ Hrun o) as [-> ->].
    rewrite (Hbody _ _ _ _ _ _ Hids Ho1 Ho2) in Hr. destruct swap.
    + destruct (append_pair_elems o2 o1 b a s s1 ltac:(congruence) Hr o) as [-> ->].
      done.
    + destruct (append_pair_elems o1 o2 a b s s1 Hab Hr o) as [-> ->]. done.
Qed.

(** The attribute [a] of [o] is not in the footprint. *)
Ltac solve_untouched :=
  match goal with
  | Ho : (?o).1 = _ |- in_footprint _ (?o).1 _ = false => by rewrite Ho
  | Ho : (?o).1 ∈ _ |- in_footprint _ (?o).1 _ = false =>
      repeat (apply elem_of_cons in Ho as [Ho|Ho]; [by rewrite Ho|]);
      by apply elem_of_nil in Ho
  end.

Ltac untouched H := rewrite (frame_elems _ _ _ _ _ H) by solve_untouched.

Section RowOrder.
Context (int : string → option Z).

(** X13.  The collections hold the partners in the order of the rows.
    After a successful [link] of a freshly constructed graph, the [users] of
    a tag are the users that the rows of [tag_users.csv] pair with it, in
    the order of the rows and as often as the rows say, and the [tags] of a
    user are the tags paired with it, likewise; and so for the groups and
    their users, for the tags and their questions, and for the emails and
    their questions. *)
Theorem collections_in_row_order fs s s' :
  fresh s → link int fs s = (Ok tt, s') →
  ∀ o,
    (o.1 = KTag →
       elems s' o "users" = seconds_of o (tag_user_pairs int fs s) ∧
       elems s' o "questions" = seconds_of o (tag_question_pairs int fs s)) ∧
    (o.1 = KGroup →
       elems s' o "users" = seconds_of o (group_membership_pairs fs s)) ∧
    (o.1 ∈ [KStudent; KProfessional] →
       elems s' o "tags" = firsts_of o (tag_user_pairs int fs s) ∧
       elems s' o "groups" = firsts_of o (group_membership_pairs fs s)) ∧
    (o.1 = KQuestion →
       elems s' o "tags" = firsts_of o (tag_question_pairs int fs s) ∧
       elems s' o "emails" = firsts_of o (match_pairs fs s)) ∧
    (o.1 = KEmail →
       elems s' o "questions" = seconds_of o (match_pairs fs s)).
Proof.
  intros Hfresh Hrun o.
  apply link_Ok_stages in Hrun as []; [|apply Hfresh].
  apply freezing_Ok in Hrun9 as (Hfz & _).
  pose proof (stages_users_index _ _ _ _ Hstudents Hprofessionals Husers) as Hindex.
  unfold tag_user_pairs, group_membership_pairs, tag_question_pairs, match_pairs,
    join_rows.
  rewrite Hindex, Htags, Hgroups, Hquestions, Hemails, Hcsv1, Hcsv2, Hcsv4, Hcsv8.
  simpl index_or_empty.
  assert (∀ a, elems (set_linked true s) o a = []) as Hempty
    by (intros a; by apply (fresh_elems s)).
  pose proof (join_pass_elems (tag_user_ids int) tags_by_id users_by_id "users" "tags"
    _ false tag_users ltac:(done) (link_tag_user_run int tags_by_id users_by_id)
    (link_tag_user_resolves int tags_by_id users_by_id) _ _ Hrun1 o) as [H1a H1b].
  pose proof (join_pass_elems group_membership_ids groups_by_id users_by_id
    "users" "groups" _ false group_memberships ltac:(done)
    (link_group_membership_run groups_by_id users_by_id)
    (link_group_membership_resolves groups_by_id users_by_id) _ _ Hrun2 o) as [H2a H2b].
  pose proof (join_pass_elems (tag_question_ids int) tags_by_id questions_by_id
    "questions" "tags" _ true tag_questions ltac:(done)
    (link_tag_question_run int tags_by_id questions_by_id)
    (link_tag_question_resolves int tags_by_id questions_by_id) _ _ Hrun4 o) as [H4a H4b].
  pose proof (join_pass_elems match_ids emails_by_id questions_by_id
    "questions" "emails" _ false matches ltac:(done)
    (link_match_run emails_by_id questions_by_id)
    (link_match_resolves emails_by_id questions_by_id) _ _ Hrun8 o) as [H8a H8b].
  rewrite !(freezes_elems _ _ _ _ Hfz).
  change (elems (set_schools (Some (odict_values schools_by_id)) s8) o)
    with (elems s8 o).
  rewrite Hempty in H1a, H1b. simpl in H1a, H1b.
  split; [|split; [|split; [|split]]].
  - intros Ho. split.
    + untouched Hframe8. untouched Hframe7. untouched Hframe6. untouched Hframe5.
      untouched Hframe4. untouched Hframe3. untouched Hframe2. done.
    + untouched Hframe8. untouched Hframe7. untouched Hframe6. untouched Hframe5.
      rewrite H4a. untouched Hframe3. untouched Hframe2. untouched Hframe1.
      by rewrite Hempty.
  - intros Ho.
    untouched Hframe8. untouched Hframe7. untouched Hframe6. untouched Hframe5.
    untouched Hframe4. untouched Hframe3. rewrite H2a. untouched Hframe1.
    by rewrite Hempty.
  - intros Ho. split.
    + untouched Hframe8. untouched Hframe7. untouched Hframe6. untouched Hframe5.
      untouched Hframe4. untouched Hframe3. untouched Hframe2. done.
    + untouched Hframe8. untouched Hframe7. untouched Hframe6. untouched Hframe5.
      untouched Hframe4. untouched Hframe3. rewrite H2b. untouched Hframe1.
      by rewrite Hempty.
  - intros Ho. split.
    + untouched Hframe8. untouched Hframe7. untouched Hframe6. untouched Hframe5.
      rewrite H4b. untouched Hframe3. untouched Hframe2. untouched Hframe1.
      by rewrite Hempty.
    + rewrite H8b.
      untouched Hframe7. untouched Hframe6. untouched Hframe5.
      untouched Hframe4. untouched Hframe3. untouched Hframe2. untouched Hframe1.
      by rewrite Hempty.
  - intros Ho. rewrite H8a.
    untouched Hframe7. untouched Hframe6. untouched Hframe5.
    untouched Hframe4. untouched Hframe3. untouched Hframe2. untouched Hframe1.
    by rewrite Hempty.
Qed.

End RowOrder.
Lemma referring_cons {X} (key : X → string) d o (x : ref * X) l :
  referring key d o (x :: l) =
  (if decide (d !! key x.2 = Some o) then [x.1] else []) ++ referring key d o l.
Proof. unfold referring. rewrite filter_cons. by case_decide. Qed.

Lemma append_elems o a x s s' o' :
  append o a x s = (Ok tt, s') →
  elems s' o' a = elems s o' a ++ (if decide (o = o') then [x] else []).
Proof.
  intros Hrun. case_decide as Ho.
  - subst o'. by apply append_elems_eq.
  - rewrite app_nil_r. apply (append_elems_ne _ _ _ _ _ _ _ Hrun). congruence.
Qed.

Lemma questions_pass_elems users_by_id (l : list (ref * Question.t)) :
  ∀ s s', for_each l (link_question_author users_by_id) s = (Ok tt, s') →
    ∀ o, elems s' o "questions" =
         elems s o "questions" ++ referring Question.author_id users_by_id o l.
Proof.
  induction l as [|x l IH]; intros s s' Hrun o.
  - injection Hrun as <-. unfold referring. simpl. by rewrite app_nil_r.
  - simpl in Hrun. apply bind_Ok in Hrun as ([] & s1 & Hx & Hrun).
    rewrite (IH _ _ Hrun o), referring_cons, app_assoc. f_equal.
    unfold link_question_author in Hx.
    apply bind_Ok in Hx as ([] & s0 & ->%setattr_Ok & Hx).
    destruct (users_by_id !! Question.author_id x.2) as [user|] eqn:Huser.
    + rewrite (append_elems _ _ _ _ _ o Hx), elems_set_attrs_ne by done.
      f_equal. repeat case_decide; congruence.
    + injection Hx as <-. rewrite decide_False by done.
      by rewrite app_nil_r, elems_set_attrs_ne.
Qed.

Lemma answers_pass_elems users_by_id questions_by_id (l : list (ref * Answer.t)) :
  index_of_kind [KStudent; KProfessional] users_by_id →
  index_of_kind [KQuestion] questions_by_id →
  ∀ s s', for_each l (link_answer users_by_id questions_by_id) s = (Ok tt, s') →
    ∀ o, elems s' o "answers" =
         elems s o "answers" ++
         (if decide (o.1 = KQuestion)
          then referring Answer.question_id questions_by_id o l
          else referring Answer.author_id users_by_id o l).
Proof.
  intros Hu Hq. induction l as [|x l IH]; intros s s' Hrun o.
  - injection Hrun as <-. case_decide; unfold referring; simpl; by rewrite app_nil_r.
  - simpl in Hrun. apply bind_Ok in Hrun as ([] & s1 & Hx & Hrun).
    rewrite (IH _ _ Hrun o), !referring_cons.
    assert (elems s1 o "answers" = elems s o "answers" ++
              (if decide (o.1 = KQuestion)
               then (if decide (questions_by_id !! Answer.question_id x.2 = Some o)
                     then [x.1] else [])
               else (if decide (users_by_id !! Answer.author_id x.2 = Some o)
                     then [x.1] else []))) as ->.
    2:{ rewrite <- app_assoc. by case_decide. }
    unfold link_answer in Hx.
    apply bind_Ok in Hx as ([] & s0 & ->%setattr_Ok & Hx).
    apply bind_Ok in Hx as ([] & s2 & Hauthor & Hx).
    apply bind_Ok in Hx as (question & ? & [Hquestion%getitem_Ok ->]%lift_Ok & Hx).
    apply bind_Ok in Hx as ([] & s3 & ->%setattr_Ok & Hx).
    rewrite (append_elems _ _ _ _ _ o Hx), elems_set_attrs_ne by done.
    pose proof (Hq _ _ Hquestion) as Hkq%list_elem_of_singleton.
    assert (elems s2 o "answers" = elems s o "answers" ++
              (if decide (users_by_id !! Answer.author_id x.2 = Some o)
               then [x.1] else [])) as ->.
    { destruct (users_by_id !! Answer.author_id x.2) as [user|] eqn:Huser.
      - rewrite (append_elems _ _ _ _ _ o Hauthor), elems_set_attrs_ne by done.
        f_equal. repeat case_decide; congruence.
      - injection Hauthor as <-. rewrite decide_False by done.
        by rewrite app_nil_r, elems_set_attrs_ne. }
    rewrite <- app_assoc. f_equal. rewrite Hquestion.
    destruct (decide (o.1 = KQuestion)) as [Ho|Ho].
    + rewrite (decide_False (P := users_by_id !! _ = Some o)).
      * simpl. repeat case_decide; congruence.
      * intros Huser%Hu. rewrite Ho in Huser.
        repeat (apply elem_of_cons in Huser as [?|Huser]; [done|]).
        by apply elem_of_nil in Huser.
    + rewrite (decide_False (P := question = o)) by congruence.
      by rewrite app_nil_r.
Qed.

Lemma emails_pass_elems professionals_by_id (l : list (ref * Email.t)) :
  ∀ s s', for_each l (link_email_recipient professionals_by_id) s = (Ok tt, s') →
    ∀ o, elems s' o "emails" =
         elems s o "emails" ++ referring Email.recipient_id professionals_by_id o l.
Proof.
  induction l as [|x l IH]; intros s s' Hrun o.
  - injection Hrun as <-. unfold referring. simpl. by rewrite app_nil_r.
  - simpl in Hrun. apply bind_Ok in Hrun as ([] & s1 & Hx & Hrun).
    rewrite (IH _ _ Hrun o), referring_cons, app_assoc. f_equal.
    unfold link_email_recipient in Hx.
    apply bind_Ok in Hx as (professional & ? & [Hp%getitem_Ok ->]%lift_Ok & Hx).
    apply bind_Ok in Hx as ([] & s0 & Happ & ->%setattr_Ok).
    rewrite elems_set_attrs_ne by done.
    rewrite (append_elems _ _ _ _ _ o Happ), Hp. f_equal.
    repeat case_decide; congruence.
Qed.

Section TableOrder.
Context (int : string → option Z).

(** X14.  The collections of the references, in the order of the tables.
    After a successful [link] of a freshly constructed graph, the
    [questions] of a user are the questions whose [author_id] is the
    identifier of that user, in the order of the collection of questions;
    its [answers] are the answers of which it is the author, likewise; the
    [answers] of a question are the answers whose [question_id] is its
    identifier; and the [emails] of a professional are the emails whose
    [recipient_id] is its identifier. *)
Theorem collections_in_table_order fs s s' :
  fresh s → link int fs s = (Ok tt, s') →
  ∀ o,
    (o.1 ∈ [KStudent; KProfessional] →
       elems s' o "questions" =
         referring Question.author_id (index_or_empty (users_index s)) o
           (enumerate KQuestion (questions s)) ∧
       elems s' o "answers" =
         referring Answer.author_id (index_or_empty (users_index s)) o
           (enumerate KAnswer (answers s))) ∧
    (o.1 = KQuestion →
       elems s' o "answers" =
         referring Answer.question_id
           (index_or_empty
              (key_by Question.questions_id (enumerate KQuestion (questions s)))) o
           (enumerate KAnswer (answers s))) ∧
    (o.1 = KProfessional →
       elems s' o "emails" =
         referring Email.recipient_id
           (index_or_empty
              (key_by Professional.professionals_id
                 (enumerate KProfessional (professionals s)))) o
           (enumerate KEmail (emails s))).
Proof.
  intros Hfresh Hrun o.
  apply link_Ok_stages in Hrun as []; [|apply Hfresh].
  apply freezing_Ok in Hrun9 as (Hfz & _).
  pose proof (stages_users_index _ _ _ _ Hstudents Hprofessionals Husers) as Hindex.
  rewrite Hindex, Hquestions, Hprofessionals. simpl index_or_empty.
  assert (∀ a, elems (set_linked true s) o a = []) as Hempty
    by (intros a; by apply (fresh_elems s)).
  pose proof (key_by_index_of_kind _ _ _ _ Hstudents) as Hks.
  pose proof (key_by_index_of_kind _ _ _ _ Hprofessionals) as Hkp.
  pose proof (union_index_of_kind _ _ _ _ _ Hks Hkp Husers) as Hku. simpl in Hku.
  pose proof (key_by_index_of_kind _ _ _ _ Hquestions) as Hkq.
  pose proof (questions_pass_elems _ _ _ _ Hrun5 o) as H5.
  pose proof (answers_pass_elems _ _ _ Hku Hkq _ _ Hrun6 o) as H6.
  pose proof (emails_pass_elems _ _ _ _ Hrun7 o) as H7.
  rewrite !(freezes_elems _ _ _ _ Hfz).
  change (elems (set_schools (Some (odict_values schools_by_id)) s8) o)
    with (elems s8 o).
  split; [|split].
  - intros Ho.
    assert (o.1 ≠ KQuestion) as Hnq.
    { intros Heq. rewrite Heq in Ho.
      repeat (apply elem_of_cons in Ho as [?|Ho]; [done|]). by apply elem_of_nil in Ho. }
    split.
    + untouched Hframe8. untouched Hframe7. untouched Hframe6. rewrite H5.
      untouched Hframe4. untouched Hframe3. untouched Hframe2. untouched Hframe1.
      by rewrite Hempty.
    + untouched Hframe8. untouched Hframe7. rewrite H6, decide_False by done.
      untouched Hframe5.
      untouched Hframe4. untouched Hframe3. untouched Hframe2. untouched Hframe1.
      by rewrite Hempty.
  - intros Ho.
    untouched Hframe8. untouched Hframe7. rewrite H6, decide_True by done.
    untouched Hframe5.
    untouched Hframe4. untouched Hframe3. untouched Hframe2. untouched Hframe1.
    by rewrite Hempty.
  - intros Ho.
    untouched Hframe8. rewrite H7. untouched Hframe6. untouched Hframe5.
    untouched Hframe4. untouched Hframe3. untouched Hframe2. untouched Hframe1.
    by rewrite Hempty.
Qed.

End TableOrder.
Section Reads.
Context (int : string → option Z).

Lemma read_csv_ext fs fs' path :
  fs !! path = fs' !! path → read_csv fs path = read_csv fs' path.
Proof. intros Heq. unfold read_csv. by rewrite Heq. Qed.

(** X12.  [link] reads the five join tables of the directory of the graph,
    and no other file: on two file systems that agree on these five files
    it does the same and ends alike, whatever the tables of entities have
    become on the disk. *)
Theorem link_reads fs fs' s :
  (∀ name, name ∈ ["/tag_users.csv"; "/group_memberships.csv";
                   "/school_memberships.csv"; "/tag_questions.csv";
                   "/matches.csv"] →
     fs' !! (directory_path s +:+ name) = fs !! (directory_path s +:+ name)) →
  link int fs' s = link int fs s.
Proof.
  intros Hfs.
  assert (∀ name, name ∈ ["/tag_users.csv"; "/group_memberships.csv";
                          "/school_memberships.csv"; "/tag_questions.csv";
                          "/matches.csv"] →
            read_csv fs' (directory_path s +:+ name)
            = read_csv fs (directory_path s +:+ name)) as Hcsv
    by (intros name Hname; by apply read_csv_ext, Hfs).
  destruct (linked s) eqn:Hlinked.
  { by rewrite !link_linked_run. }
  unfold link.
  rewrite !(bind_run _ _ s false s) by (by rewrite <- Hlinked).
  rewrite !(bind_run _ _ s tt (set_linked true s)) by done.
  rewrite !(bind_run _ _ (set_linked true s) (directory_path s) (set_linked true s))
    by done.
  cbv beta. by rewrite !Hcsv by (repeat first [by left|right]).
Qed.

End Reads.
(** ** The schools and their users, in the order of the rows *)

Lemma schools_by_identifier_lookup s i sid :
  NoDup (School.school_id <$> school_heap s) →
  school_heap s !! i = Some (School.Build_t sid) →
  schools_by_identifier s !! sid = Some (KSchool, i).
Proof.
  intros Hnd Hi. unfold schools_by_identifier. apply elem_of_list_to_map.
  - assert (∀ l : list (ref * School.t),
              ((λ p : ref * School.t, (School.school_id p.2, p.1)) <$> l).*1
              = School.school_id <$> l.*2) as Hfst
      by (intros l; by rewrite <- !list_fmap_compose).
    by rewrite Hfst, enumerate_snd.
  - apply list_elem_of_fmap. exists ((KSchool, i), School.Build_t sid).
    split; [done|]. by apply elem_of_enumerate.
Qed.

Section SchoolOrder.
Context (int : string → option Z).

Lemma school_lookup_or_new_elems d sid s school d1 s1 :
  unallocated_empty s →
  match odict_lookup d sid with
  | Some school => mret (school, d)
  | None => school ← School_new sid; mret (school, d ++ [(sid, school)])
  end s = (Ok (school, d1), s1) →
  ∀ o a, elems s1 o a = elems s o a.
Proof.
  intros Hempty Hrun o a. destruct (odict_lookup d sid) as [o'|].
  - by injection Hrun as <- <- <-.
  - rewrite (bind_run _ _ _ _ _ (School_new_run sid s)) in Hrun.
    injection Hrun as <- <- <-.
    destruct (decide (((KSchool, length (school_heap s)), "users") = (o, a)))
      as [[= <- <-]|Hne].
    + rewrite (Hempty (length (school_heap s))) by done.
      unfold elems. simpl. by rewrite lookup_insert_eq.
    + unfold elems. simpl. by rewrite lookup_insert_ne.
Qed.

Lemma school_pass_elems users_by_id final rows :
  index_of_kind [KStudent; KProfessional] users_by_id →
  NoDup (School.school_id <$> school_heap final) →
  ∀ d s d' s',
  schools_inv d s → unallocated_empty s →
  for_fold rows (link_school_membership int users_by_id) d s = (Ok d', s') →
  school_heap s' `prefix_of` school_heap final →
  ∀ o,
    elems s' o "users" = elems s o "users" ++
      seconds_of o (pairs (school_membership_ids int) (schools_by_identifier final)
                      users_by_id rows) ∧
    elems s' o "schools" = elems s o "schools" ++
      firsts_of o (pairs (school_membership_ids int) (schools_by_identifier final)
                     users_by_id rows).
Proof.
  intros Hu Hnd. induction rows as [|r rows IH]; intros d s d' s' Hinv Hempty Hrun Hpre o.
  - injection Hrun as <- <-. unfold seconds_of, firsts_of, pairs. simpl.
    by rewrite !app_nil_r.
  - simpl in Hrun. apply bind_Ok in Hrun as (d1 & s1 & Hbody & Hrun).
    pose proof Hbody as Hstep.
    apply link_school_membership_Ok in Hstep as (Hinv1 & _ & _ & _ & _); [|done..].
    apply link_school_membership_inv in Hbody
      as (sid & uid & school & user & t1 & t2 & Hids & Huser & Hschool & Happ1 & Happ2).
    pose proof (school_lookup_or_new_elems _ _ _ _ _ _ Hempty Hschool) as Hsame.
    apply school_lookup_or_new in Hschool as (_ & _ & Hgr0 & _ & i & -> & Hi); [|done].
    assert (school_heap s1 = school_heap t1) as Hheap.
    { rewrite (append_school_heap _ _ _ _ _ _ Happ2).
      by rewrite (append_school_heap _ _ _ _ _ _ Happ1). }
    assert ((append (KSchool, i) "users" user;; append user "schools" (KSchool, i)) t1
            = (Ok tt, s1)) as Hpair by (by rewrite (bind_run _ _ _ _ _ Happ1)).
    pose proof (append_pair_elems _ _ "users" "schools" _ _ ltac:(done) Hpair) as Hstep.
    pose proof (school_pass int users_by_id rows Hu _ _ _ _ Hinv1 Hrun)
      as (_ & _ & Hgrows & _).
    assert (schools_by_identifier final !! sid = Some (KSchool, i)) as Hfinal.
    { apply schools_by_identifier_lookup; [done|].
      eapply prefix_lookup_Some; [|exact Hpre].
      eapply prefix_lookup_Some; [|apply Hgrows]. by rewrite Hheap. }
    rewrite (pairs_cons _ _ _ _ _ _ _ _ _ Hids Hfinal Huser).
    rewrite seconds_of_cons, firsts_of_cons, !app_assoc.
    assert (unallocated_empty s1) as Hempty1.
    { intros j Hj. destruct (Hstep (KSchool, j)) as [-> _]. rewrite Hsame.
      rewrite decide_False.
      - rewrite app_nil_r. apply Hempty. rewrite Hheap in Hj.
        pose proof (prefix_length _ _ (grows_school_heap _ _ Hgr0)) as Hlen. lia.
      - intros [= ->]. apply lookup_lt_Some in Hi. rewrite Hheap in Hj. lia. }
    destruct (IH _ _ _ _ Hinv1 Hempty1 Hrun Hpre o) as [-> ->].
    destruct (Hstep o) as [-> ->]. by rewrite !Hsame.
Qed.

(** X20.  The schools and their users, in the order of the rows.  After a
    successful [link] of a freshly constructed graph, every identifier is
    that of one school at most; the [users] of a school are the users that
    the rows of [school_memberships.csv] pair with its identifier, in the
    order of the rows and as often as the rows say; and the [schools] of a
    user are the schools that the rows pair with it, likewise. *)
Theorem schools_in_row_order fs s s' :
  fresh s → link int fs s = (Ok tt, s') →
  (∀ sid o, schools_by_identifier s' !! sid = Some o ↔
            o.1 = KSchool ∧ school_heap s' !! o.2 = Some (School.Build_t sid)) ∧
  ∀ o,
    (o.1 = KSchool →
       elems s' o "users" = seconds_of o (school_membership_pairs int fs s s')) ∧
    (o.1 ∈ [KStudent; KProfessional] →
       elems s' o "schools" = firsts_of o (school_membership_pairs int fs s s')).
Proof.
  intros Hfresh Hrun.
  apply link_Ok_stages in Hrun as []; [|apply Hfresh].
  apply freezing_Ok in Hrun9 as (Hfz & _).
  pose proof (stages_users_index _ _ _ _ Hstudents Hprofessionals Husers) as Hindex.
  pose proof (key_by_index_of_kind _ _ _ _ Hstudents) as Hks.
  pose proof (key_by_index_of_kind _ _ _ _ Hprofessionals) as Hkp.
  pose proof (union_index_of_kind _ _ _ _ _ Hks Hkp Husers) as Hku. simpl in Hku.
  assert (∀ o a, elems (set_linked true s) o a = []) as Hnone
    by (intros o a; by apply (fresh_elems s)).
  assert (school_heap s2 = []) as Hheap2.
  { rewrite (frame_school_heap _ _ _ Hframe2), (frame_school_heap _ _ _ Hframe1); [|done..].
    apply Hfresh. }
  assert (schools_inv [] s2) as Hinv2
    by (constructor; rewrite Hheap2; [done..|constructor]).
  assert (unallocated_empty s2) as Hempty2.
  { intros i _. rewrite (frame_elems _ _ _ _ _ Hframe2), (frame_elems _ _ _ _ _ Hframe1);
      done. }
  assert (school_heap s' = school_heap s3) as Hheap.
  { rewrite (freezes_school_heap _ _ Hfz). simpl.
    rewrite (frame_school_heap _ _ _ Hframe8), (frame_school_heap _ _ _ Hframe7),
      (frame_school_heap _ _ _ Hframe6), (frame_school_heap _ _ _ Hframe5),
      (frame_school_heap _ _ _ Hframe4); done. }
  pose proof (school_pass int users_by_id _ Hku _ _ _ _ Hinv2 Hrun3) as (Hinv3 & _).
  assert (NoDup (School.school_id <$> school_heap s')) as Hnd
    by (rewrite Hheap; apply Hinv3).
  split.
  { intros sid o. split.
    - unfold schools_by_identifier.
      intros ([o' x] & [= -> ->] & [Hk Hx]%elem_of_enumerate)
        %elem_of_list_to_map_2%list_elem_of_fmap.
      simpl in *. split; [done|]. by destruct x.
    - destruct o as [k i]. simpl. intros [-> Hi].
      by apply schools_by_identifier_lookup. }
  intros o.
  pose proof (school_pass_elems users_by_id s' _ Hku Hnd _ _ _ _ Hinv2 Hempty2 Hrun3
    ltac:(by rewrite Hheap) o) as [Husers3 Hschools3].
  unfold school_membership_pairs, join_rows. rewrite Hindex, Hcsv3. simpl index_or_empty.
  rewrite !(freezes_elems _ _ _ _ Hfz).
  change (elems (set_schools (Some (odict_values schools_by_id)) s8) o)
    with (elems s8 o).
  split.
  - intros Ho.
    untouched Hframe8. untouched Hframe7. untouched Hframe6. untouched Hframe5.
    untouched Hframe4. rewrite Husers3.
    untouched Hframe2. untouched Hframe1. by rewrite Hnone.
  - intros Ho.
    untouched Hframe8. untouched Hframe7. untouched Hframe6. untouched Hframe5.
    untouched Hframe4. rewrite Hschools3.
    untouched Hframe2. untouched Hframe1. by rewrite Hnone.
Qed.

End SchoolOrder.

(** ** The example dataset, linked *)

Lemma Example_link_Ok :
  link Example.int Example.fs Example.cv = (Ok tt, Example.linked_cv).
Proof. vm_compute. reflexivity. Qed.

Lemma Example_linked : linked Example.linked_cv = true.
Proof. reflexivity. Qed.

Lemma answer_question_resolved_witness :
  linked Example.cv = false ∧
  link Example.int Example.fs Example.cv = (Ok tt, Example.linked_cv) ∧
  answers Example.linked_cv !! 0 = Some Example.answer ∧
  (∃ q question,
    getattr (KAnswer, 0) "question" Example.linked_cv
      = (Ok (Obj (KQuestion, q)), Example.linked_cv) ∧
    questions Example.linked_cv !! q = Some question ∧
    Question.questions_id question = Answer.question_id Example.answer ∧
    (∀ q' question', questions Example.linked_cv !! q' = Some question' →
       Question.questions_id question' = Answer.question_id Example.answer → q' = q) ∧
    (KAnswer, 0) ∈ elems Example.linked_cv (KQuestion, q) "answers") ∧
  ∃ e s', link Example.int Example.fs Example.dangling_answer = (Raise e, s').
Proof.
  split; [reflexivity|]. split; [exact Example_link_Ok|]. split; [reflexivity|]. split.
  - apply (proj1 (answer_question_resolved Example.int Example.fs Example.cv eq_refl)
             Example.linked_cv).
    + exact Example_link_Ok.
    + reflexivity.
  - apply (proj2 (answer_question_resolved Example.int Example.fs
                    Example.dangling_answer eq_refl)).
    exists Example.answer. split.
    + apply list_elem_of_In. simpl. left. reflexivity.
    + intros Hin. apply list_elem_of_In in Hin. exact Hin.
Defined.

Lemma author_resolution_tolerant_witness :
  linked Example.cv = false ∧
  link Example.int Example.fs Example.cv = (Ok tt, Example.linked_cv) ∧
  questions Example.linked_cv !! 1 = Some Example.orphan ∧
  getattr (KQuestion, 1) "author" Example.linked_cv = (Ok PyNone, Example.linked_cv) ∧
  getattr (KQuestion, 0) "author" Example.linked_cv
    = (Ok (Obj (KStudent, 0)), Example.linked_cv) ∧
  (KQuestion, 0) ∈ elems Example.linked_cv (KStudent, 0) "questions".
Proof.
  split; [reflexivity|]. split; [exact Example_link_Ok|]. split; [reflexivity|].
  destruct (proj2 (proj2 (proj2 (proj2 (proj2 (author_resolution_tolerant Example.int)))))
              Example.fs Example.cv Example.linked_cv eq_refl Example_link_Ok)
    as (users_by_id & Hindex & Hquestions & _).
  vm_compute in Hindex. injection Hindex as <-.
  destruct (Hquestions 1 Example.orphan eq_refl) as [Horphan _].
  destruct (Hquestions 0 Example.question eq_refl) as [Hquestion Hin].
  split; [exact Horphan|]. split; [exact Hquestion|]. exact (Hin (KStudent, 0) eq_refl).
Defined.

Lemma user_ids_disjoint_witness :
  linked Example.overlapping = false ∧
  "s1" ∈ Student.students_id <$> students Example.overlapping ∧
  "s1" ∈ Professional.professionals_id <$> professionals Example.overlapping ∧
  users_index Example.overlapping = Raise OverlapError ∧
  link Example.int Example.fs Example.overlapping
    = (Raise OverlapError, set_linked true Example.overlapping).
Proof.
  split; [reflexivity|].
  assert ("s1" ∈ Student.students_id <$> students Example.overlapping) as Hs.
  { apply list_elem_of_In. simpl. left. reflexivity. }
  assert ("s1" ∈ Professional.professionals_id <$> professionals Example.overlapping)
    as Hp.
  { apply list_elem_of_In. simpl. left. reflexivity. }
  split; [exact Hs|]. split; [exact Hp|].
  destruct (proj1 (user_ids_disjoint Example.int Example.fs Example.overlapping eq_refl)
              "s1" Hs Hp) as (e & Hindex & Hrun & Hoverlap).
  rewrite (Hoverlap (NoDup_singleton _) (NoDup_singleton _)) in Hindex, Hrun.
  split; [exact Hindex|exact Hrun].
Defined.

Lemma bidirectional_closure_witness :
  fresh Example.cv ∧
  link Example.int Example.fs Example.cv = (Ok tt, Example.linked_cv) ∧
  closed [KTag] "users" [KStudent; KProfessional] "tags" Example.linked_cv ∧
  closed [KGroup] "users" [KStudent; KProfessional] "groups" Example.linked_cv ∧
  closed [KSchool] "users" [KStudent; KProfessional] "schools" Example.linked_cv ∧
  closed [KQuestion] "tags" [KTag] "questions" Example.linked_cv ∧
  closed [KEmail] "questions" [KQuestion] "emails" Example.linked_cv.
Proof.
  split; [apply CareerVillage_new_fresh|]. split; [exact Example_link_Ok|].
  apply (bidirectional_closure Example.int Example.fs Example.cv Example.linked_cv).
  - apply CareerVillage_new_fresh.
  - exact Example_link_Ok.
Defined.

Lemma sealed_collections_frozen_witness :
  linked Example.cv = false ∧
  link Example.int Example.fs Example.cv = (Ok tt, Example.linked_cv) ∧
  in_graph Example.linked_cv (KSchool, 1) ∧
  "users" ∈ (init_attrs KSchool).*1 ∧
  ∃ l, attrs Example.linked_cv !! ((KSchool, 1), "users") = Some (ScFrozenList l) ∧
       ∀ x, append (KSchool, 1) "users" x Example.linked_cv
            = (Raise (AttributeError (KSchool, 1) "append"), Example.linked_cv).
Proof.
  split; [reflexivity|]. split; [exact Example_link_Ok|].
  assert (in_graph Example.linked_cv (KSchool, 1)) as Hin.
  { unfold in_graph. simpl. apply list_elem_of_In. simpl. right. left. reflexivity. }
  assert ("users" ∈ (init_attrs KSchool).*1) as Ha.
  { apply list_elem_of_In. simpl. left. reflexivity. }
  split; [exact Hin|]. split; [exact Ha|].
  exact (sealed_collections_frozen Example.int Example.fs Example.cv Example.linked_cv
           eq_refl Example_link_Ok (KSchool, 1) "users" Hin Ha).
Defined.

Lemma schools_synthesized_witness :
  linked Example.cv = false ∧
  school_heap Example.cv = [] ∧
  link Example.int Example.fs Example.cv = (Ok tt, Example.linked_cv) ∧
  School.school_id <$> school_heap Example.linked_cv = [3%Z; 2%Z] ∧
  schools Example.linked_cv = Some [(KSchool, 0); (KSchool, 1)].
Proof.
  split; [reflexivity|]. split; [reflexivity|]. split; [exact Example_link_Ok|].
  destruct (schools_synthesized Example.int Example.fs Example.cv Example.linked_cv
              (dict_zip ["school_memberships_school_id"; "school_memberships_user_id"]
                 <$> Example.school_memberships)
              eq_refl eq_refl Example_link_Ok eq_refl)
    as (sids & users_by_id & Hsids & _ & Hids & _ & _ & Hschools & _).
  vm_compute in Hsids. injection Hsids as <-.
  split; [exact Hids|exact Hschools].
Defined.

Lemma email_recipient_resolved_witness :
  linked Example.cv = false ∧
  link Example.int Example.fs Example.cv = (Ok tt, Example.linked_cv) ∧
  emails Example.linked_cv !! 0 = Some Example.email ∧
  (∃ p professional,
    getattr (KEmail, 0) "recipient" Example.linked_cv
      = (Ok (Obj (KProfessional, p)), Example.linked_cv) ∧
    professionals Example.linked_cv !! p = Some professional ∧
    Professional.professionals_id professional = Email.recipient_id Example.email ∧
    (KEmail, 0) ∈ elems Example.linked_cv (KProfessional, p) "emails") ∧
  ∃ err s', link Example.int Example.fs Example.dangling_email = (Raise err, s').
Proof.
  split; [reflexivity|]. split; [exact Example_link_Ok|]. split; [reflexivity|]. split.
  - apply (proj1 (email_recipient_resolved Example.int Example.fs Example.cv eq_refl)
             Example.linked_cv).
    + exact Example_link_Ok.
    + reflexivity.
  - apply (proj2 (email_recipient_resolved Example.int Example.fs
                    Example.dangling_email eq_refl)).
    exists Example.email. split.
    + apply list_elem_of_In. simpl. left. reflexivity.
    + intros Hin. apply list_elem_of_In in Hin. exact Hin.
Defined.

Lemma save_refuses_linked_witness :
  linked Example.linked_cv = true ∧
  save Example.linked_cv "data/cv.p" ∅
    = (Raise (RuntimeError "Can't pickle a linked CareerVillage"), ∅) ∧
  linked Example.cv = false ∧
  save Example.cv "data/cv.p" ∅ = (Ok tt, <["data/cv.p" := Example.cv]> ∅).
Proof.
  split; [reflexivity|]. split.
  { exact (proj1 (save_refuses_linked Example.int Example.linked_cv "data/cv.p" ∅)
             eq_refl). }
  split; [reflexivity|].
  exact (proj1 (proj2 (save_refuses_linked Example.int Example.cv "data/cv.p" ∅))
           eq_refl).
Defined.

Lemma link_again_noop_witness :
  linked Example.linked_cv = true ∧
  link Example.int Example.fs Example.linked_cv = (Ok tt, Example.linked_cv).
Proof.
  split; [reflexivity|].
  exact (proj1 (link_again_noop Example.int Example.fs Example.linked_cv) eq_refl).
Defined.

(** On the linked example graph, a second [link] raises nothing. *)
Lemma link_again_counterexample :
  link Example.int Example.fs Example.cv = (Ok tt, Example.linked_cv) ∧
  linked Example.linked_cv = true ∧
  ¬ ∃ e s', link Example.int Example.fs Example.linked_cv = (Raise e, s').
Proof.
  split; [exact Example_link_Ok|]. split; [reflexivity|].
  intros (e & s' & Hrun).
  rewrite (link_linked_run Example.int Example.fs Example.linked_cv eq_refl) in Hrun.
  discriminate Hrun.
Qed.

Lemma unlinked_references_none_witness :
  fresh Example.cv ∧
  getattr (KQuestion, 0) "author" Example.cv = (Ok PyNone, Example.cv) ∧
  getattr (KAnswer, 0) "author" Example.cv = (Ok PyNone, Example.cv) ∧
  getattr (KAnswer, 0) "question" Example.cv = (Ok PyNone, Example.cv) ∧
  getattr (KEmail, 0) "recipient" Example.cv = (Ok PyNone, Example.cv).
Proof.
  split; [apply CareerVillage_new_fresh|].
  destruct (unlinked_references_none Example.cv (CareerVillage_new_fresh _ _ _ _ _ _ _ _))
    as (Hq & Ha & He).
  split; [exact (Hq 0 Example.question eq_refl)|].
  split; [exact (proj1 (Ha 0 Example.answer eq_refl))|].
  split; [exact (proj2 (Ha 0 Example.answer eq_refl))|].
  exact (He 0 Example.email eq_refl).
Defined.
(** ** The small dataset, loaded *)

Lemma Sample_load_raw :
  load_raw Sample.int Sample.datetime_of Sample.fs "data" = Returns Example.cv.
Proof. vm_compute. reflexivity. Qed.

Lemma Sample_link_Ok :
  link Sample.int Sample.fs Example.cv = (Ok tt, Example.linked_cv).
Proof. vm_compute. reflexivity. Qed.

Lemma Sample_failed :
  link Example.int Example.fs Example.dangling_answer
    = (Raise (KeyError (KeyInt 1)), Sample.failed).
Proof. vm_compute. reflexivity. Qed.

Lemma read_csv_cells_witness :
  ∃ rows r,
    read_csv Sample.fs "data/students.csv" = Ok rows ∧
    rows !! 0 = Some r ∧
    r !! "students_id" = Some "s1" ∧ r !! "students_location" = Some "".
Proof.
  assert (Sample.fs !! "data/students.csv" =
          Some (["students_id"; "students_location"; "students_date_joined"]
                  :: [["s1"; ""; Sample.date]])) as Hfile
    by (vm_compute; reflexivity).
  destruct (proj2 (proj2 (read_csv_cells Sample.fs "data/students.csv")) _ _ Hfile)
    as (rows & Hrows & _ & Hcells).
  destruct (Hcells 0 _ eq_refl) as (r & Hr & Hcell).
  exists rows, r. split; [exact Hrows|]. split; [exact Hr|]. split.
  - apply Hcell. exists 0. split; [reflexivity|]. split; [reflexivity|].
    intros [|[|[|j]]] Hlt Hlen; simpl in *; try lia; discriminate.
  - apply Hcell. exists 1. split; [reflexivity|]. split; [reflexivity|].
    intros [|[|[|j]]] Hlt Hlen; simpl in *; try lia; discriminate.
Defined.

Lemma quick_parse_datetime_format_witness :
  quick_parse_datetime Sample.int Sample.datetime_of (Some Sample.date)
    = Returns Example.date.
Proof.
  apply (quick_parse_datetime_format Sample.int Sample.datetime_of).
  exists "2011", "10", "05", "20", "35", "19", 2011%Z, 10%Z, 5%Z, 20%Z, 35%Z, 19%Z.
  split; [reflexivity|]. split; [repeat constructor|]. split; [repeat constructor|].
  repeat split; reflexivity.
Defined.

Lemma quick_parse_datetime_errors_witness :
  (∃ msg, quick_parse_datetime Sample.int Sample.datetime_of (Some "2011-10-05")
            = Raises (Exn (ValueError msg))) ∧
  quick_parse_datetime Sample.int Sample.datetime_of (Some "x y UTC")
    = Raises AssertionError.
Proof.
  pose proof (quick_parse_datetime_errors Sample.int Sample.datetime_of)
    as (_ & Hcount & Hzone & _).
  split.
  - apply Hcount. vm_compute. discriminate.
  - apply (Hzone _ "x" "y" "UTC"); [reflexivity|discriminate].
Defined.

Lemma empty_date_cell_witness :
  (∃ msg, Student_load Sample.int Sample.datetime_of Sample.undated "data/students.csv"
            = Raises (Exn (ValueError msg))) ∧
  Question_load Sample.int Sample.datetime_of Sample.undated "data/questions.csv"
    = Raises (NoneAttributeError "split").
Proof.
  split.
  - assert (read_csv Sample.undated "data/students.csv" =
            Ok [dict_zip ["students_id"; "students_location"; "students_date_joined"]
                  ["s1"; ""; ""]]) as Hrows
      by (vm_compute; reflexivity).
    apply (proj1 (empty_date_cell Sample.int Sample.datetime_of _ _ _ _ Hrows)).
    + exists "s1". vm_compute. reflexivity.
    + exists "". vm_compute. reflexivity.
    + vm_compute. reflexivity.
  - assert (read_csv Sample.undated "data/questions.csv" =
            Ok [dict_zip ["questions_id"; "questions_author_id"; "questions_date_added";
                          "questions_title"; "questions_body"]
                  ["q1"; "s1"; ""; "t"; "b"]]) as Hrows
      by (vm_compute; reflexivity).
    apply (proj1 (proj2 (proj2
             (empty_date_cell Sample.int Sample.datetime_of _ _ _ _ Hrows)))).
    + exists "q1". vm_compute. reflexivity.
    + exists "s1". vm_compute. reflexivity.
    + vm_compute. reflexivity.
Defined.

Lemma optional_fields_witness :
  Professional_load Sample.int Sample.datetime_of Sample.fs "data/professionals.csv"
    = Returns [Example.professional] ∧
  Professional.industry Example.professional ≠ Some "" ∧
  Professional.headline Example.professional ≠ Some "".
Proof.
  assert (Professional_load Sample.int Sample.datetime_of Sample.fs
            "data/professionals.csv" = Returns [Example.professional]) as Hload
    by (vm_compute; reflexivity).
  split; [exact Hload|].
  destruct (proj2 (optional_fields Sample.int Sample.datetime_of Sample.fs
                     "data/professionals.csv") _ Example.professional Hload)
    as (_ & Hindustry & Hheadline & _).
  - apply list_elem_of_In. left. reflexivity.
  - split; [exact Hindustry|exact Hheadline].
Defined.

Lemma load_raw_fresh_witness :
  load_raw Sample.int Sample.datetime_of Sample.fs "data" = Returns Example.cv ∧
  fresh Example.cv ∧ consistent Sample.int Sample.fs Example.cv.
Proof.
  split; [exact Sample_load_raw|].
  destruct (proj2 (load_raw_fresh Sample.int Sample.datetime_of Sample.fs "data")
              Example.cv Sample_load_raw)
    as (Hfresh & _ & _ & _ & _ & _ & _ & _ & _ & Hlink).
  split; [exact Hfresh|]. apply Hlink. exists Example.linked_cv. exact Sample_link_Ok.
Defined.


Lemma link_failure_sticks_witness :
  link Example.int Example.fs Example.dangling_answer
    = (Raise (KeyError (KeyInt 1)), Sample.failed) ∧
  link Example.int Sample.fs Sample.failed = (Ok tt, Sample.failed) ∧
  save Sample.failed "data/cv.p" ∅
    = (Raise (RuntimeError "Can't pickle a linked CareerVillage"), ∅).
Proof.
  split; [exact Sample_failed|].
  destruct (link_failure_sticks Example.int Example.fs Example.dangling_answer
              _ _ Sample_failed) as [Hagain Hsave].
  split; [apply Hagain|apply Hsave].
Defined.

Lemma link_well_typed_witness :
  well_typed Example.cv ∧ well_typed Example.linked_cv ∧ well_typed Sample.failed.
Proof.
  assert (fresh Example.cv) as Hfresh by apply CareerVillage_new_fresh.
  assert (fresh Example.dangling_answer) as Hfresh' by apply CareerVillage_new_fresh.
  pose proof (proj1 (link_well_typed Example.int Example.fs Example.cv) Hfresh) as Hcv.
  pose proof (proj2 (link_well_typed Example.int Example.fs Example.cv) Hcv) as Hlinked.
  pose proof (proj2 (link_well_typed Example.int Example.fs Example.dangling_answer)
                (proj1 (link_well_typed Example.int Example.fs Example.dangling_answer)
                   Hfresh')) as Hfailed.
  rewrite Example_link_Ok in Hlinked. rewrite Sample_failed in Hfailed.
  split; [exact Hcv|]. split; [exact Hlinked|exact Hfailed].
Defined.

Lemma Example_well_typed : well_typed Example.linked_cv.
Proof.
  pose proof (link_typed_from Example.int Example.cv Example.fs _ _
                (fresh_well_typed _ (CareerVillage_new_fresh _ _ _ _ _ _ _ _))
                Example_link_Ok) as (H & _).
  exact H.
Qed.

Lemma students_and_professionals_witness :
  BaseHasUsers_students (KSchool, 0) Example.linked_cv = Returns [(KStudent, 0)] ∧
  BaseHasUsers_professionals (KSchool, 0) Example.linked_cv = Returns [(KProfessional, 0)].
Proof.
  assert (attrs Example.linked_cv !! ((KSchool, 0), "users")
            = Some (ScFrozenList [(KProfessional, 0); (KStudent, 0)])) as Husers
    by (vm_compute; reflexivity).
  destruct (students_and_professionals Example.linked_cv (KSchool, 0)
              (ScFrozenList [(KProfessional, 0); (KStudent, 0)])
              [(KProfessional, 0); (KStudent, 0)] Example_well_typed)
    as (ls & lp & Hs & Hp & -> & -> & _); [| exact Husers | by right |].
  - apply list_elem_of_In. simpl. tauto.
  - split; [exact Hs|exact Hp].
Defined.

Lemma to_shallow_json_flat_witness :
  ∃ items, to_shallow_json (KAnswer, 0) Example.linked_cv
             = Some (JDict [("Answer", JDict items)]) ∧
           items.*1 = ["body"; "date_added"].
Proof.
  destruct (to_shallow_json (KAnswer, 0) Example.linked_cv) as [j|] eqn:Hj;
    [|vm_compute in Hj; discriminate].
  destruct (to_shallow_json_flat _ _ _ Hj) as (d & items & _ & -> & _ & _ & _).
  vm_compute in Hj. injection Hj as <-. eexists. split; reflexivity.
Defined.

Lemma to_json_keys_witness :
  ∃ scalars lists, to_json (KQuestion, 0) Example.linked_cv
                     = Some (JDict [("Question", JDict (scalars ++ lists))]) ∧
    scalars.*1 = ["author"; "body"; "date_added"; "title"] ∧
    lists = [("answers", JInt 1); ("emails", JInt 1); ("tags", JInt 1)].
Proof.
  destruct (to_json (KQuestion, 0) Example.linked_cv) as [j|] eqn:Hj;
    [|vm_compute in Hj; discriminate].
  destruct (to_json_keys _ _ _ Hj) as (d & scalars & lists & _ & Hitems & _).
  vm_compute in Hj. injection Hj as <-. injection Hitems as Hitems.
  exists (take 4 (scalars ++ lists)), (drop 4 (scalars ++ lists)).
  rewrite take_drop, <- Hitems. split; [reflexivity|]. split; reflexivity.
Defined.

Lemma views_defined_witness :
  is_Some (to_shallow_json (KSchool, 1) Example.linked_cv) ∧
  ¬ is_Some (to_shallow_json (KSchool, 2) Example.linked_cv) ∧
  is_Some (to_json (KAnswer, 0) Example.linked_cv).
Proof.
  destruct (views_defined Example.linked_cv) as (Hshallow & Hdeep & _).
  split; [apply Hshallow; simpl; lia|].
  split; [intros H%Hshallow; simpl in H; lia|].
  apply (Hdeep Example_well_typed). simpl. lia.
Defined.

Lemma question_view_author_witness :
  (∃ items, to_json (KQuestion, 1) Example.cv = Some (JDict [("Question", JDict items)]) ∧
            "author" ∉ items.*1) ∧
  (∃ items, to_json (KQuestion, 1) Example.linked_cv
              = Some (JDict [("Question", JDict items)]) ∧
            ("author", JNone) ∈ items).
Proof.
  assert (users_index Example.cv =
          Ok (index_or_empty (users_index Example.cv))) as Hindex
    by (vm_compute; reflexivity).
  destruct (question_view_author Example.int Example.fs Example.cv Example.linked_cv
              _ 1 Example.orphan (CareerVillage_new_fresh _ _ _ _ _ _ _ _)
              Example_link_Ok Hindex eq_refl)
    as [Hbefore (items & x & Hjson & Hin & Hx)].
  split; [exact Hbefore|].
  exists items. split; [exact Hjson|].
  vm_compute in Hx. rewrite <- Hx. exact Hin.
Defined.

Lemma collections_in_row_order_witness :
  elems Example.linked_cv (KTag, 0) "users" = [(KStudent, 0)] ∧
  elems Example.linked_cv (KQuestion, 0) "tags" = [(KTag, 1)].
Proof.
  pose proof (collections_in_row_order Example.int Example.fs Example.cv
                Example.linked_cv (CareerVillage_new_fresh _ _ _ _ _ _ _ _)
                Example_link_Ok) as Horder.
  destruct (Horder (KTag, 0)) as ([Husers _] & _); [reflexivity|].
  destruct (Horder (KQuestion, 0)) as (_ & _ & _ & [Htags _] & _); [reflexivity|].
  split; [rewrite Husers|rewrite Htags]; vm_compute; reflexivity.
Defined.

Lemma collections_in_table_order_witness :
  elems Example.linked_cv (KStudent, 0) "questions" = [(KQuestion, 0)] ∧
  elems Example.linked_cv (KQuestion, 0) "answers" = [(KAnswer, 0)] ∧
  elems Example.linked_cv (KProfessional, 0) "emails" = [(KEmail, 0)].
Proof.
  pose proof (collections_in_table_order Example.int Example.fs Example.cv
                Example.linked_cv (CareerVillage_new_fresh _ _ _ _ _ _ _ _)
                Example_link_Ok) as Horder.
  destruct (Horder (KStudent, 0)) as ([Hquestions _] & _).
  { apply list_elem_of_In. simpl. tauto. }
  destruct (Horder (KQuestion, 0)) as (_ & Hanswers & _).
  destruct (Horder (KProfessional, 0)) as (_ & _ & Hemails).
  rewrite Hquestions, (Hanswers eq_refl), (Hemails eq_refl).
  repeat split; vm_compute; reflexivity.
Defined.

Lemma link_reads_witness :
  link Example.int Sample.fs Example.cv = (Ok tt, Example.linked_cv).
Proof.
  rewrite (link_reads Example.int Example.fs Sample.fs Example.cv).
  - exact Example_link_Ok.
  - intros name Hname.
    repeat (apply elem_of_cons in Hname as [->|Hname]; [vm_compute; reflexivity|]).
    apply elem_of_nil in Hname. destruct Hname.
Defined.

Lemma schools_in_row_order_witness :
  elems Example.linked_cv (KSchool, 0) "users" = [(KProfessional, 0); (KStudent, 0)] ∧
  elems Example.linked_cv (KStudent, 0) "schools" = [(KSchool, 1); (KSchool, 0)].
Proof.
  pose proof (schools_in_row_order Example.int Example.fs Example.cv
                Example.linked_cv (CareerVillage_new_fresh _ _ _ _ _ _ _ _)
                Example_link_Ok) as [_ Horder].
  destruct (Horder (KSchool, 0)) as [Husers _].
  destruct (Horder (KStudent, 0)) as [_ Hschools].
  rewrite (Husers eq_refl), Hschools; [|apply list_elem_of_In; simpl; tauto].
  split; vm_compute; reflexivity.
Defined.
